(* ===== verification/_CoqProject ===== *)
-Q . S2P
Prelude.v
GoBytes.v
GoStrings.v
GoRuntime.v
Effects.v
Sha256.v
Sni.v
RouteTable.v
Tracker.v
CutProtocol.v
Http.v
Quarantine.v
ProxyProto.v
Proxy.v
Cors.v
ResponseWriter.v
WsFrame.v
WsMux.v
Policy.v
ProxyCache.v
WsQueue.v
Forward.v
Terminate.v
WsPool.v
WsServe.v
Sync.v
Tunnel.v
Connection.v
System.v
Accept.v
Process.v
Certs.v
GoFlag.v
Config.v
Main.v
GoJson.v
GoCodec.v
Feeds.v
Health.v
Authz.v
TunnelSystem.v
ReverseProxy.v
GoRequest.v
Requests.v
MuxSystem.v
SealedSystem.v
MuxLoop.v
