(* ===== verification/Prelude.v ===== *)
(** * The Privasys platform gateway, verified

    The gateway (src/, Go) stands between clients and enclaves.  It reads the TLS
    ClientHello of each connection, looks the server name up in a table of routes,
    and then either splices the connection to the enclave byte for byte, or
    terminates TLS itself and proxies HTTP requests and sealed WebSockets over an
    attested connection to the enclave, or refuses.  The management service feeds
    the table; it can quarantine a route, which must stop new traffic and cut
    traffic that is already open.  Enclaves that accept no inbound connection dial
    out to the gateway and are reached over that tunnel.

    This library translates the gateway's own logic into executable definitions
    and proves what makes it correct.  Each file opens with what it models.

    ** Files and what they model

    Foundations
    - Prelude: the outcome type [go] (return, run-time panic, fuel), tactics,
      generic lemmas.
    - GoBytes, GoStrings: bytes, indexing and slicing with their panics,
      big-endian integers, the functions of package strings the code uses.
    - GoRuntime: what Go leaves open, the order of [range] over a map and of
      sort.Slice, as the classes [GoRange] and [GoSort] with their documented laws.
    - Effects: handlers as programs over an interface of operations; the traces of
      a program are its operations with arbitrary answers, so a theorem about all
      traces holds for every failure and every interleaving with other goroutines.
      Programs compose by implementing operations ([interp]), and [safe] is safety
      against a monitor, which composes with them.
    - Sha256: an executable SHA-256 for the route version and the policy hash.
    - Http: header maps, canonical keys, status texts, and a reference reader of
      responses used to state what a client reads.
    - GoRequest: http.ReadRequest, from the request line to how the body is
      delimited, and what a client sends.
    - GoFlag: the command line of package flag, ParseInt, ParseBool, Sscanf.
    - GoJson, GoCodec: encoding/json (UTF-8, strings, numbers, documents, structs and
      maps, both directions), base64 and RFC 3339 times.

    Components
    - Sni (internal/sni/sni.go): ParseClientHello with its loops.
    - RouteTable (internal/routetable/table.go): Route, Table, Update with the calls
      it makes to its two hooks, Lookup, Snapshot, ComputeVersion.
    - Tracker (internal/quarantine/tracker.go): Track, its release closure, CutHost.
    - Quarantine (internal/quarantine/quarantine.go): the 503 refusal, the TLS alert.
    - CutProtocol: how updates, hook calls (wired in cmd/gateway/main.go) and
      handlers interleave; a step relation over table, tracker and connections.  It
      uses the tracker through the class [HostTracker], whose laws the code's
      tracker is shown to satisfy.
    - ProxyProto (internal/proxy/proxyproto.go): the PROXY v2 header.
    - Proxy (internal/proxy/proxy.go): the ClientHello loop, handleConn, splice.
    - Cors, Policy, ProxyCache, Forward, Terminate (internal/terminate/terminate.go):
      the CORS rules, the attestation policy and its verifier, the caches of proxies
      and mux pools, the request rewrite, and Handle with its request loop.
    - ResponseWriter (internal/terminate/io.go): the HTTP/1.1 response writer.
    - ReverseProxy: what httputil.ReverseProxy makes of the enclave's response and
      the loop of serveHTTP writes with that writer, and the client that reads it.
    - Requests: the requests that loop reads off the connection, and where it stands
      on the connection between two of them.
    - WsFrame, WsMux, WsQueue, WsPool, WsServe (internal/terminate/wsmux.go): the frame
      codec, the demultiplexer of a mux connection over a heap of shared streams,
      the per-stream queue as interleaved goroutines and the choice from a pool, the
      opening of connections and the pools as shared objects, and one sealed
      WebSocket from its upgrade to its end.
    - MuxSystem: the sockets, the read loop, the quarantine cuts and the killer of
      one mux connection, interleaved; a handler is the point of its code where it
      stands.
    - MuxLoop: the demultiplexer of WsMux, on bytes, as the read loop of MuxSystem.
    - SealedSystem: the same connection with the handlers of WsServe themselves, cut at
      their operations on shared state; a simulation shows that they take the steps of
      MuxSystem.
    - Sync (internal/sync/sync.go): one poll and the sequence of polls.
    - Feeds: the JSON of the feed and of the policies in it, as implementations of the
      decoders Sync and Policy are written against.
    - Health (internal/health/health.go): the two endpoints and the JSON they write.
    - Tunnel, Authz (internal/tunnel/*.go): the registry of sessions, dialing,
      admission; the authorizer with its JSON.
    - TunnelSystem: acceptors, dials and closing sessions over one registry,
      interleaved.
    - Certs (internal/certloader, internal/certmgr): loading and reloading the platform
      certificate, and choosing it by server name.
    - Config (internal/config/config.go): Load.

    The whole program
    - Connection: handleConn composed with the terminator, the sealed WebSocket relay
      and the tunnel acceptor it calls, as one program, and the monitor every
      connection is safe against.
    - System: any number of connections, the syncer and the hook calls, sharing table,
      tracker and caches; a simulation shows that it takes the steps of CutProtocol.
    - Accept (internal/proxy/proxy.go Run, Drain; the signal handler of main): the
      accept loop and the shutdown as interleaved goroutines.
    - Main (cmd/gateway/main.go): what main builds from a configuration.
    - Process: the goroutines of main together, up to the exit of the process.

    ** State and effects

    A Go struct is a Record with the fields the logic reads; a map is a [gmap]; a
    mutable object shared by pointers (streams of a mux connection) lives in a heap.
    A [net.Conn] that is read is the list of segments it delivers, its end is the
    error return of Read.  A method under a lock is one step.  Integers keep their
    width where they can wrap (lengths in headers and frames, ids, counters).

    ** What the theorems show

    - Quarantine: in the running gateway, once the cuts of the last update are made, a
      connection about to exchange bytes with a quarantined enclave has been closed
      ([System.no_quarantined_traffic]); the cuts are made whatever else happens
      ([System.quarantine_takes_effect]).  This rests on the cut protocol
      ([CutProtocol.quarantine_cuts_open_traffic]), on the simulation
      ([System.system_refines]) and on the discipline of the handlers, which register
      and look the route up again before a byte reaches the enclave
      ([Proxy.handleConn_discipline], [Terminate.Handle_discipline],
      [WsServe.serveSealedWSMux_discipline]).  Quarantined routes are refused without
      touching the enclave, with exactly the answers they should get, which read back
      whole ([Proxy.handleConn_quarantined], [Terminate.Handle_quarantined_route],
      [Quarantine.WriteHTTP_read], for extra headers that stay on their lines).
    - Routing: the table shows one delivered feed, its counts included, and its hooks
      fire exactly when they should ([RouteTable.table_reachable_wf],
      [Sync.polls_serve_last_feed]); the transport is the one of [Proxy.transport_row],
      which follows README.md's table but for an adopter name that is not served
      directly and offers privasys-ratls/1, where two of its rows disagree
      ([Proxy.handleConn_transport]); as long as no route has the separator of the
      cache keys in its names, requests leave through the proxy pinned to their route
      ([System.requests_stay_in_app], [ProxyCache], [Terminate.Handle_served]), whose
      certificate check is exactly the policy, from the bytes of the feed to the
      verdict ([Feeds.feed_policy_enforced]); origins are those the entries of the
      configuration allow ([Cors.isAllowedOrigin_spec]).
    - Data: a splice is transparent; hellos, with any extensions in any order, frames
      and headers read back as written; buffers are bounded.  On a terminated connection,
      when the client sends bodies the loop consumes and the enclave answers with
      responses the writer can delimit, the loop reads exactly the requests the client
      sent, and the client reads one reply per request, in order and whole
      ([Requests.conversation], which rests on [GoRequest.ReadRequest_sent] and
      [ReverseProxy.responses_aligned]).
    - Sealed WebSockets: any number of handlers running serveSealedWSMux as written on
      one connection refine the control states of MuxSystem
      ([SealedSystem.sealed_refines]); so a live stream is the one its key leads to, a
      killed connection takes every socket with it, and the enclave is left with a stream
      for one of five reasons only ([SealedSystem.sealed_stream_routed],
      [SealedSystem.sealed_kill_reaches], [SealedSystem.sealed_end_announced], from the
      invariants of MuxSystem).  The demultiplexer, on any bytes, takes the steps of the
      read loop of that system on the frames in them and writes exactly their answers
      ([MuxLoop.readLoop_refines]); a socket's open, messages and close reach the enclave
      unchanged ([WsServe.serveSealedWSMux_relays]).
    - Totality: the parser, the hello loop, the copy loop and the demultiplexer
      return on every input.
    - Tunnels: a session is registered only under the id the management service
      gave for exactly the request the enclave sent ([Authz.tunnel_admission]);
      under every interleaving streams go only to sessions vouched for that enclave,
      none is leaked, and closed sessions leave the registry
      ([TunnelSystem.tunnel_streams_vouched], [TunnelSystem.no_stream_leak],
      [TunnelSystem.registry_drains]).
    - Life: main starts only a gateway whose parts share one table, one tracker, one
      terminator and one tunnel registry ([Main.setup_started]), from a
      configuration that passes its checks ([Config.Load_accepted]), with a
      certificate that failed renewals do not take away
      ([Certs.loader_serves_last_good]) and that adopter hostnames never get
      ([Certs.adopter_gets_no_certificate]); mux connections are opened whole or not
      at all and go with their route ([WsPool]); the health endpoints report the
      truth ([Health.health_truthful]); the shutdown waits for every accepted
      connection and ends ([Accept.shutdown_ends]), and every exit of the process has
      its cause ([Process.process_exit]).

    Some theorems record where the code does less than it means to: traffic of a host
    that leaves the feed and comes back quarantined is not cut
    ([CutProtocol.quarantine_gap_not_cut]); a feed without a version that changes only
    the mode is dropped ([Sync.versionless_mode_change_dropped]); the terminate marker
    can be stripped by the client ([Forward.edge_marker_strippable]); responses without
    a body are chunk-framed and informational ones swallow the final status
    ([ResponseWriter.bodyless_desync], [ReverseProxy.bodyless_tail],
    [ResponseWriter.informational_swallows_final]);
    session ids over 255 bytes break the framing
    ([WsFrame.long_session_id_breaks_framing]); a pool closed under a request keeps a
    connection no one can close ([WsPool.late_get_orphans]); Drain can make Run fail
    ([Accept.drain_race]); a poll interval of zero is accepted
    ([Config.zero_poll_interval_accepted]); a document without routes clears the table
    ([Feeds.document_without_routes_clears]); a body that breaks off looks whole or
    swallows the next response ([ReverseProxy.truncation_invisible],
    [ReverseProxy.broken_body_desync]); some ends of a sealed stream never reach the
    enclave, or reach the wrong stream ([MuxSystem.pump_failure_unannounced],
    [MuxSystem.cut_overtakes_open], [MuxSystem.stale_close_hits_successor]); the routes
    are frozen while connections drain ([Process.drain_is_blind]); the body of a
    preflight, and that of some requests whose Connection header lists close, is read as
    the next request ([Requests.preflight_body_is_next_request],
    [Requests.close_in_list_unhonoured]).

    ** Fuel

    Loops whose recursion is not structural carry fuel, and a theorem shows the fuel
    given is enough: the parser's loops get the length of the buffer and advance in
    every iteration ([Sni.ParseClientHello_total]); the hello loop gets one more than
    the number of segments, each continuing iteration consuming one
    ([Proxy.read_hello_total]); a copy gets the number of segments plus the number of
    bytes plus one ([Proxy.copy_fuel], [Proxy.splice_transparent]); the demultiplexer
    gets more than the length of its input, each frame taking at least fourteen bytes
    ([WsMux.readLoop_total]); the JSON reader gets the length of its text
    ([GoJson.parse_fuel_enough]), and the client's chunk reader the length of what is
    left on the connection, each chunk taking at least four bytes
    ([ReverseProxy.client_reads]).  The header reader of GoRequest gets the length of what
    follows the request line, each line taking at least a byte
    ([GoRequest.ReadMIMEHeader_fuel], [GoRequest.continued_fuel]); the requests of a connection are a relation, total
    because each request takes at least a byte ([Requests.incoming_total]).

    ** Parameters

    Unicode case mapping beyond ASCII ([GoUnicode]), map order and sorting
    ([GoRange], [GoSort]), certificate parsing and path validation ([GoX509],
    [GoCerts]), the texts of JSON errors ([GoJSONErrors]; Sync and Policy are written
    against the decoders [GoRoutesJSON] and [GoJSON], which Feeds implements), URL
    parsing ([GoURL], [GoRequestURI]), the yamux sessions and HTTP exchanges of Tunnel and Sync, the
    Prometheus handler, and the files main reads.
    Every theorem holds for all of them; the witnesses instantiate them with concrete
    functions.

    ** Not modelled

    TLS itself, sockets and deadlines, log lines and metrics other than the labels the
    handlers count under, the settings of the yamux and HTTP clients, the generation
    of the self-signed certificate.  A protocol upgrade that is not sealed leaves the
    request loop; the bytes it relays afterwards are those of httputil.ReverseProxy.  The
    systems of MuxSystem, SealedSystem and TunnelSystem stand beside System, which has
    the sealed streams and tunnels of a connection as its operations; they share the
    programs WsServe and Tunnel with it.  What the map of the sources leaves out is
    imports, the declaration of the metrics, and the settings named above. *)
From Stdlib Require Export ZArith Lia.
From stdpp Require Export base tactics numbers strings gmap list.

(** * The outcome of a Go computation

    [Ret a] is a normal return, [Panic] the run-time panic of an index or
    slice expression that is out of range, [OutOfFuel] the end of the fuel of a
    loop translated with a fuel argument.  The theorems about loops show that
    [OutOfFuel] is never the outcome, those about indexing that [Panic] never is. *)
Inductive go (A : Type) : Type :=
| Ret (a : A)
| Panic
| OutOfFuel.
Arguments Ret {A} a.
Arguments Panic {A}.
Arguments OutOfFuel {A}.

Definition go_bind {A B : Type} (m : go A) (f : A → go B) : go B :=
  match m with
  | Ret a => f a
  | Panic => Panic
  | OutOfFuel => OutOfFuel
  end.

Declare Scope go_scope.
Delimit Scope go_scope with go.
Notation "'let!' x := m 'in' k" := (go_bind m (fun x => k))
  (at level 10, x pattern, m at level 100, k at level 200) : go_scope.

Definition returns {A : Type} (m : go A) : Prop :=
  match m with Ret _ => True | _ => False end.

(** * Proof automation *)

Create HintDb gateway.

(** Case analysis on the integer comparisons of the code, as propositions. *)
Ltac zcase_hyp H :=
  match type of H with
  | context [Z.ltb ?a ?b] => destruct (Z.ltb_spec a b)
  | context [Z.leb ?a ?b] => destruct (Z.leb_spec a b)
  | context [Z.eqb ?a ?b] => destruct (Z.eqb_spec a b)
  end.
Ltac zcase :=
  match goal with
  | |- context [Z.ltb ?a ?b] => destruct (Z.ltb_spec a b)
  | |- context [Z.leb ?a ?b] => destruct (Z.leb_spec a b)
  | |- context [Z.eqb ?a ?b] => destruct (Z.eqb_spec a b)
  end.
(** Reduce a comparison whose truth follows from the context. *)
Ltac zdec :=
  repeat match goal with
  | |- context [Z.ltb ?a ?b] =>
      first [ rewrite (proj2 (Z.ltb_lt a b)) by lia
            | rewrite (proj2 (Z.ltb_ge a b)) by lia ]
  | |- context [Z.leb ?a ?b] =>
      first [ rewrite (proj2 (Z.leb_le a b)) by lia
            | rewrite (proj2 (Z.leb_gt a b)) by lia ]
  | |- context [Z.eqb ?a ?b] =>
      first [ rewrite (proj2 (Z.eqb_eq a b)) by lia
            | rewrite (proj2 (Z.eqb_neq a b)) by lia ]
  end.

(** * Generic lemmas *)

Lemma go_bind_ret {A B : Type} (m : go A) (f : A → go B) b :
  go_bind m f = Ret b ↔ ∃ a, m = Ret a ∧ f a = Ret b.
Proof. destruct m; naive_solver. Qed.

Lemma returns_ret {A : Type} (m : go A) : returns m ↔ ∃ a, m = Ret a.
Proof. destruct m; naive_solver. Qed.

Lemma returns_bind {A B : Type} (m : go A) (f : A → go B) :
  returns m → (∀ a, m = Ret a → returns (f a)) → returns (go_bind m f).
Proof. destruct m; naive_solver. Qed.

Lemma take_drop_app_exact {A : Type} (l k r : list A) n m :
  n = length l → m = length k → take m (drop n (l ++ k ++ r)) = k.
Proof. intros -> ->. by rewrite drop_app_length, take_app_length. Qed.

Lemma lookup_app_exact {A : Type} (l r : list A) x n :
  n = length l → (l ++ x :: r) !! n = Some x.
Proof. intros ->. by rewrite lookup_app_r, Nat.sub_diag by lia. Qed.

Lemma filter_all {A : Type} (P : A → Prop) `{∀ x, Decision (P x)} (l : list A) :
  (∀ x, x ∈ l → P x) → filter P l = l.
Proof.
  intros HP. induction l as [|x l IH]; [done|]. rewrite filter_cons_True by (apply HP; by left).
  rewrite IH; [done|]. intros y Hy. apply HP. by right.
Qed.

#[export] Hint Resolve returns_bind : gateway.
