(* ===== verification/GoBytes.v ===== *)
(** Go's byte slices: bytes as [Init.Byte.byte], indexing and slicing with the
    run-time bounds check, the conversions between []byte and string, and the
    big-endian integers of encoding/binary. *)
From Stdlib Require Export Strings.Byte Init.Byte.
From Stdlib Require Import Strings.String.
From S2P Require Import Prelude.
Local Open Scope Z_scope.

Abbreviation bytes := (list Byte.byte).

#[export] Instance byte_eq_decision : EqDecision Byte.byte := Byte.byte_eq_dec.

(** The value of a byte, and Go's [byte(x)] conversion, which keeps the low 8 bits. *)
Definition byte_val (b : Byte.byte) : Z := Z.of_N (Byte.to_N b).
Definition byte_of_Z (z : Z) : Byte.byte :=
  match Byte.of_N (Z.to_N (z mod 256)) with Some b => b | None => x00 end.

(** [uint16(x)], [uint32(x)], [uint64(x)]. *)
Definition wrap (w : Z) (z : Z) : Z := z mod 2 ^ w.

Definition blen (b : bytes) : Z := Z.of_nat (length b).

(** [b[i]] *)
Definition bat (b : bytes) (i : Z) : go Z :=
  if (0 <=? i) && (i <? blen b) then
    match b !! Z.to_nat i with Some x => Ret (byte_val x) | None => Panic end
  else Panic.

(** [b[lo:hi]] *)
Definition bslice (b : bytes) (lo hi : Z) : go bytes :=
  if (0 <=? lo) && (lo <=? hi) && (hi <=? blen b) then
    Ret (take (Z.to_nat (hi - lo)) (drop (Z.to_nat lo) b))
  else Panic.

(** [int(b[i])<<8 | int(b[i+1])] and [int(x)<<16 | int(y)<<8 | int(z)]. *)
Definition be16 (hi lo : Z) : Z := Z.lor (Z.shiftl hi 8) lo.
Definition be24 (b2 b1 b0 : Z) : Z := Z.lor (Z.lor (Z.shiftl b2 16) (Z.shiftl b1 8)) b0.

(** [string(b)] and [[]byte(s)]: a Go string is a sequence of bytes. *)
Definition to_string (b : bytes) : string := string_of_list_byte b.
Definition of_string (s : string) : bytes := list_byte_of_string s.

(** [len(s)] *)
Definition slen (s : string) : Z := Z.of_nat (String.length s).

(** binary.BigEndian.PutUint16/32/64 (n = 2, 4, 8) and Uint16/32/64. *)
Fixpoint be_put (n : nat) (v : Z) : bytes :=
  match n with
  | O => []
  | S n' => byte_of_Z (Z.shiftr v (8 * Z.of_nat n')) :: be_put n' v
  end.
Definition be_get (b : bytes) : Z :=
  fold_left (fun acc x => Z.lor (Z.shiftl acc 8) (byte_val x)) b 0.

Arguments be_put : simpl never.

(** * Lemmas *)

Lemma byte_val_range b : 0 <= byte_val b < 256.
Proof. unfold byte_val. pose proof (Byte.to_N_bounded b). lia. Qed.

Lemma byte_val_of_Z z : byte_val (byte_of_Z z) = z mod 256.
Proof.
  unfold byte_val, byte_of_Z. pose proof (Z.mod_pos_bound z 256 ltac:(lia)).
  destruct (Byte.of_N _) eqn:E.
  - apply Byte.to_of_N in E. rewrite E. lia.
  - apply Byte.of_N_None_iff in E. lia.
Qed.

Lemma byte_of_val b : byte_of_Z (byte_val b) = b.
Proof.
  unfold byte_of_Z, byte_val. pose proof (Byte.to_N_bounded b).
  rewrite Z.mod_small, N2Z.id by lia. by rewrite Byte.of_to_N.
Qed.

Lemma byte_val_inj b c : byte_val b = byte_val c → b = c.
Proof. intros H. by rewrite <- (byte_of_val b), H, byte_of_val. Qed.

Lemma lor_shiftl_add a b n :
  0 <= n → 0 <= b < 2 ^ n → Z.lor (Z.shiftl a n) b = a * 2 ^ n + b.
Proof.
  intros Hn Hb. rewrite <- Z.shiftl_mul_pow2 by lia. symmetry.
  apply Z.add_nocarry_lor. apply Z.bits_inj'. intros k Hk.
  rewrite Z.land_spec, Z.bits_0. destruct (Z.ltb_spec k n).
  - by rewrite Z.shiftl_spec_low.
  - by rewrite <- (Z.mod_small b (2 ^ n)), Z.mod_pow2_bits_high, andb_false_r by lia.
Qed.

Lemma be16_arith hi lo : 0 <= lo < 256 → be16 hi lo = hi * 256 + lo.
Proof. intros. unfold be16. rewrite lor_shiftl_add; [done|lia|]. by change (2 ^ 8) with 256. Qed.

Lemma be24_arith a b c :
  0 <= b < 256 → 0 <= c < 256 → be24 a b c = a * 65536 + b * 256 + c.
Proof.
  intros. unfold be24.
  change 16 with (8 + 8). rewrite <- Z.shiftl_shiftl, <- Z.shiftl_lor by lia.
  change (Z.lor (Z.shiftl (be16 a b) 8) c = a * 65536 + b * 256 + c).
  change (be16 (be16 a b) c = a * 65536 + b * 256 + c).
  rewrite !be16_arith by lia. lia.
Qed.

Lemma blen_nonneg b : 0 <= blen b.
Proof. unfold blen. lia. Qed.

Lemma blen_app a b : blen (a ++ b) = blen a + blen b.
Proof. unfold blen. rewrite length_app. lia. Qed.

Lemma blen_cons x b : blen (x :: b) = 1 + blen b.
Proof. unfold blen. rewrite length_cons. lia. Qed.

Lemma blen_nil : blen [] = 0.
Proof. done. Qed.

Lemma bat_in b i : 0 <= i < blen b → ∃ x, bat b i = Ret (byte_val x) ∧ b !! Z.to_nat i = Some x.
Proof.
  intros Hi. unfold bat, blen in *. zdec. simpl.
  destruct (b !! Z.to_nat i) eqn:E; [eauto|]. apply lookup_ge_None in E. lia.
Qed.

Lemma bslice_in b lo hi :
  0 <= lo <= hi → hi <= blen b →
  bslice b lo hi = Ret (take (Z.to_nat (hi - lo)) (drop (Z.to_nat lo) b)).
Proof. intros. unfold bslice. zdec. done. Qed.

Lemma blen_slice b lo hi :
  0 <= lo <= hi → hi <= blen b →
  blen (take (Z.to_nat (hi - lo)) (drop (Z.to_nat lo) b)) = hi - lo.
Proof. intros. unfold blen in *. rewrite length_take, length_drop. lia. Qed.

(** Reading inside a concatenation. *)
Lemma bat_app l x r i : i = blen l → bat (l ++ x :: r) i = Ret (byte_val x).
Proof.
  intros ->. unfold bat. rewrite blen_app, blen_cons. pose proof (blen_nonneg l).
  pose proof (blen_nonneg r). zdec. simpl.
  rewrite (lookup_app_exact l r x); [done|]. unfold blen. lia.
Qed.

Lemma bslice_app l k r lo hi :
  lo = blen l → hi = blen l + blen k → bslice (l ++ k ++ r) lo hi = Ret k.
Proof.
  intros -> ->. pose proof (blen_nonneg l). pose proof (blen_nonneg k). pose proof (blen_nonneg r).
  rewrite bslice_in by (rewrite ?blen_app; lia).
  rewrite take_drop_app_exact; [done| |]; unfold blen; lia.
Qed.

(** Skipping a prefix whose length is known. *)
Lemma bat_skip l r i k : i = blen l + k → 0 <= k → bat (l ++ r) i = bat r k.
Proof.
  intros -> Hk. unfold bat. rewrite blen_app. pose proof (blen_nonneg l).
  destruct (Z.ltb_spec k (blen r)); zdec; simpl; [|done].
  rewrite lookup_app_r by (unfold blen; lia).
  by replace (Z.to_nat (blen l + k) - length l)%nat with (Z.to_nat k) by (unfold blen; lia).
Qed.

Lemma bat_cons_0 x r : bat (x :: r) 0 = Ret (byte_val x).
Proof. by apply (bat_app [] x r). Qed.

Lemma bat_cons_S x r i : 0 < i → bat (x :: r) i = bat r (i - 1).
Proof. intros. apply (bat_skip [x] r); [change (blen [x]) with 1|]; lia. Qed.

Lemma bat_prefix l r i : i < blen l → bat (l ++ r) i = bat l i.
Proof.
  intros Hi. unfold bat. rewrite blen_app. pose proof (blen_nonneg r).
  destruct (Z.leb_spec 0 i); zdec; simpl; [|done].
  by rewrite lookup_app_l by (unfold blen in *; lia).
Qed.

Lemma bslice_prefix l r lo hi : hi <= blen l → bslice (l ++ r) lo hi = bslice l lo hi.
Proof.
  intros Hhi. unfold bslice. rewrite blen_app. pose proof (blen_nonneg r).
  destruct (Z.leb_spec 0 lo); [|done]. destruct (Z.leb_spec lo hi); [|done].
  zdec. simpl. f_equal. unfold blen in *.
  rewrite drop_app_le by lia. by rewrite take_app_le by (rewrite length_drop; lia).
Qed.

Lemma of_to_string b : of_string (to_string b) = b.
Proof. apply list_byte_of_string_of_list_byte. Qed.

Lemma to_of_string s : to_string (of_string s) = s.
Proof. apply string_of_list_byte_of_string. Qed.

Lemma slen_to_string b : slen (to_string b) = blen b.
Proof.
  unfold slen, blen, to_string, string_of_list_byte. induction b as [|x b IH]; [done|].
  cbn [map string_of_list_ascii String.length length]. lia.
Qed.

Lemma blen_of_string s : blen (of_string s) = slen s.
Proof. by rewrite <- slen_to_string, to_of_string. Qed.

Lemma length_be_put n v : length (be_put n v) = n.
Proof. unfold be_put. induction n; simpl; congruence. Qed.

Lemma be_get_acc_app l acc x :
  fold_left (fun acc x => Z.lor (Z.shiftl acc 8) (byte_val x)) (l ++ [x]) acc =
  fold_left (fun acc x => Z.lor (Z.shiftl acc 8) (byte_val x)) l acc * 256 + byte_val x.
Proof.
  rewrite fold_left_app. simpl.
  by rewrite lor_shiftl_add by (try apply byte_val_range; lia).
Qed.

Lemma be_get_acc l acc :
  fold_left (fun acc x => Z.lor (Z.shiftl acc 8) (byte_val x)) l acc =
  acc * 256 ^ blen l + be_get l.
Proof.
  induction l as [|x l IH] using rev_ind; [rewrite blen_nil, Z.pow_0_r; cbn; lia|].
  unfold be_get in *. rewrite !be_get_acc_app, IH, blen_app.
  rewrite Z.pow_add_r by (try apply blen_nonneg; done). cbn [fold_left].
  change (blen [x]) with 1. rewrite Z.pow_1_r. ring.
Qed.

Lemma be_get_cons x l : be_get (x :: l) = byte_val x * 256 ^ blen l + be_get l.
Proof.
  unfold be_get at 1. cbn [fold_left]. rewrite Z.shiftl_0_l, Z.lor_0_l. apply be_get_acc.
Qed.

Lemma be_get_range l : 0 <= be_get l < 256 ^ blen l.
Proof.
  induction l as [|x l IH]; [done|]. rewrite be_get_cons, blen_cons.
  rewrite Z.pow_add_r by (try apply blen_nonneg; done).
  pose proof (byte_val_range x). nia.
Qed.

(** A fixed-width big-endian field reads back its value modulo its width. *)
Lemma be_get_put n v : be_get (be_put n v) = v mod 256 ^ Z.of_nat n.
Proof.
  induction n as [|n IH]; [by rewrite Z.mod_1_r|].
  change (be_put (S n) v) with (byte_of_Z (Z.shiftr v (8 * Z.of_nat n)) :: be_put n v).
  rewrite be_get_cons, byte_val_of_Z, IH. unfold blen. rewrite length_be_put.
  rewrite Z.shiftr_div_pow2 by lia.
  replace (2 ^ (8 * Z.of_nat n)) with (256 ^ Z.of_nat n)
    by (change 256 with (2 ^ 8); by rewrite <- Z.pow_mul_r by lia).
  rewrite Nat2Z.inj_succ, Z.pow_succ_r by lia.
  rewrite (Z.mul_comm 256), Z.rem_mul_r by lia. lia.
Qed.

Lemma be_get_put_id n v : 0 <= v < 256 ^ Z.of_nat n → be_get (be_put n v) = v.
Proof. intros. rewrite be_get_put. by apply Z.mod_small. Qed.

Create Rewrite HintDb gobytes.
#[export] Hint Rewrite blen_app blen_cons blen_nil : gobytes.
#[export] Hint Resolve byte_val_range blen_nonneg : gateway.
