(* ===== verification/GoStrings.v ===== *)
(** Go's [strings] package as the gateway uses it.  A Go string is a sequence
    of bytes ([String.string], whose characters are 8 bits wide).

    ToLower lower-cases ASCII strings here; on a string with a non-ASCII byte
    Go maps every rune through the Unicode tables, which are the parameter
    [unicode_map_lower] of [GoUnicode].  What the gateway relies on, that
    lower-casing is idempotent, is the class [GoUnicodeLaws]. *)
From Stdlib Require Import Strings.Ascii Strings.String.
From stdpp Require Import pretty.
From S2P Require Import Prelude.

(** The string of the given byte values. *)
Definition chars (l : list nat) : string :=
  foldr (fun n s => String (ascii_of_nat n) s) EmptyString l.

Definition char_code (c : ascii) : nat := nat_of_ascii c.

(** * Case *)

Definition is_upper (c : ascii) : bool := (65 <=? char_code c)%nat && (char_code c <=? 90)%nat.
Definition is_lower (c : ascii) : bool := (97 <=? char_code c)%nat && (char_code c <=? 122)%nat.
Definition lower_char (c : ascii) : ascii :=
  if is_upper c then ascii_of_nat (char_code c + 32) else c.
Definition upper_char (c : ascii) : ascii :=
  if is_lower c then ascii_of_nat (char_code c - 32) else c.

Fixpoint smap (f : ascii → ascii) (s : string) : string :=
  match s with
  | EmptyString => EmptyString
  | String c s' => String (f c) (smap f s')
  end.

Fixpoint sall (f : ascii → bool) (s : string) : bool :=
  match s with
  | EmptyString => true
  | String c s' => f c && sall f s'
  end.

(** utf8.RuneSelf: the bytes below 0x80. *)
Definition is_ascii (s : string) : bool := sall (fun c => (char_code c <? 128)%nat) s.

Class GoUnicode := { unicode_map_lower : string → string }.

(** strings.ToLower *)
Definition ToLower `{GoUnicode} (s : string) : string :=
  if is_ascii s then smap lower_char s else unicode_map_lower s.

Class GoUnicodeLaws `{GoUnicode} : Prop := {
  unicode_lower_idem : ∀ s, is_ascii s = false → ToLower (unicode_map_lower s) = unicode_map_lower s;
}.

(** * Prefixes, suffixes, search *)

Fixpoint sdrop (n : nat) (s : string) : string :=
  match n, s with
  | O, _ => s
  | S n', String _ s' => sdrop n' s'
  | S _, EmptyString => EmptyString
  end.

Fixpoint stake (n : nat) (s : string) : string :=
  match n, s with
  | O, _ => EmptyString
  | S n', String c s' => String c (stake n' s')
  | S _, EmptyString => EmptyString
  end.

Fixpoint srev_app (s acc : string) : string :=
  match s with
  | EmptyString => acc
  | String c s' => srev_app s' (String c acc)
  end.
Definition srev (s : string) : string := srev_app s EmptyString.

Definition HasPrefix (s p : string) : bool := String.prefix p s.
Definition TrimPrefix (s p : string) : string :=
  if HasPrefix s p then sdrop (String.length p) s else s.
Definition HasSuffix (s p : string) : bool := String.prefix (srev p) (srev s).
Definition TrimSuffix (s p : string) : string :=
  if HasSuffix s p then stake (String.length s - String.length p) s else s.

(** strings.Index for a non-empty needle; [None] is -1. *)
Definition Index (s sub : string) : option nat := String.index 0 sub s.
Definition Contains (s sub : string) : bool :=
  match Index s sub with Some _ => true | None => false end.

(** strings.Split(s, c) for a one-byte separator. *)
Fixpoint SplitChar (c : ascii) (s : string) : list string :=
  match s with
  | EmptyString => [EmptyString]
  | String d s' =>
      if Ascii.eqb d c then EmptyString :: SplitChar c s'
      else match SplitChar c s' with
           | p :: ps => String d p :: ps
           | [] => [String d EmptyString]
           end
  end.

(** strings.Join *)
Fixpoint SJoin (l : list string) (sep : string) : string :=
  match l with
  | [] => EmptyString
  | [s] => s
  | s :: l' => (s ++ sep ++ SJoin l' sep)%string
  end.

(** strings.TrimRight(s, c) for a one-byte cutset. *)
Fixpoint trim_head_char (c : ascii) (s : string) : string :=
  match s with
  | String d s' => if Ascii.eqb d c then trim_head_char c s' else s
  | EmptyString => EmptyString
  end.
Definition TrimRightChar (s : string) (c : ascii) : string := srev (trim_head_char c (srev s)).

(** * White space: strings.TrimSpace *)

(** The UTF-8 encodings of the runes unicode.IsSpace accepts. *)
Definition space_encodings : list string :=
  map chars ([[9]; [10]; [11]; [12]; [13]; [32]; [194; 133]; [194; 160]; [225; 154; 128]]
    ++ map (fun k => [226; 128; k]) [128; 129; 130; 131; 132; 133; 134; 135; 136; 137; 138; 168; 169; 175]
    ++ [[226; 129; 159]; [227; 128; 128]])%nat.

Fixpoint trim_left (fuel : nat) (encs : list string) (s : string) : string :=
  match fuel with
  | O => s
  | S fuel' =>
      match List.find (fun e => String.prefix e s) encs with
      | Some e => trim_left fuel' encs (sdrop (String.length e) s)
      | None => s
      end
  end.

Definition TrimSpace (s : string) : string :=
  let s := trim_left (String.length s) space_encodings s in
  srev (trim_left (String.length s) (map srev space_encodings) (srev s)).

(** * strings.EqualFold, for an ASCII second argument

    Under simple case folding an ASCII letter equals its other case, and k and
    s also equal U+212A (Kelvin sign) and U+017F (long s). *)
Definition fold_head (s : string) (c : ascii) : option string :=
  let kelvin := chars [226; 132; 170]%nat in
  let long_s := chars [197; 191]%nat in
  match s with
  | EmptyString => None
  | String d s' =>
      if Ascii.eqb (lower_char d) (lower_char c) then Some s'
      else if Ascii.eqb (lower_char c) "k"%char && String.prefix kelvin s then Some (sdrop 3 s)
      else if Ascii.eqb (lower_char c) "s"%char && String.prefix long_s s then Some (sdrop 2 s)
      else None
  end.

Fixpoint EqualFold (s t : string) : bool :=
  match t with
  | EmptyString => match s with EmptyString => true | _ => false end
  | String c t' =>
      match fold_head s c with Some s' => EqualFold s' t' | None => false end
  end.

(** * Numbers *)

(** fmt's %d. *)
Definition itoa (z : Z) : string := pretty z.

Definition hex_digit (n : nat) : ascii :=
  ascii_of_nat (if (n <? 10)%nat then 48 + n else 87 + n).

(** encoding/hex.EncodeToString and fmt's %x on one byte value. *)
Definition hex_byte (z : Z) : string :=
  String (hex_digit (Z.to_nat (z / 16))) (String (hex_digit (Z.to_nat (z mod 16))) EmptyString).

Definition hex_val (c : ascii) : option Z :=
  let n := char_code c in
  if (48 <=? n)%nat && (n <=? 57)%nat then Some (Z.of_nat n - 48)%Z
  else if (97 <=? n)%nat && (n <=? 102)%nat then Some (Z.of_nat n - 87)%Z
  else if (65 <=? n)%nat && (n <=? 70)%nat then Some (Z.of_nat n - 55)%Z
  else None.

(** * Lemmas *)

Lemma smap_smap f g s : smap f (smap g s) = smap (fun c => f (g c)) s.
Proof. induction s; simpl; congruence. Qed.

Lemma smap_ext f g s : (∀ c, f c = g c) → smap f s = smap g s.
Proof. intros H. induction s; simpl; congruence. Qed.

Lemma length_smap f s : String.length (smap f s) = String.length s.
Proof. induction s; simpl; congruence. Qed.

Lemma ascii_cases (P : ascii → bool) :
  forallb (fun n => P (ascii_of_nat n)) (seq 0 256) = true → ∀ c, P c = true.
Proof.
  intros H c. rewrite <- (ascii_nat_embedding c).
  eapply forallb_forall in H; [exact H|]. apply in_seq.
  pose proof (nat_ascii_bounded c). lia.
Qed.

Lemma lower_char_idem c : lower_char (lower_char c) = lower_char c.
Proof. apply Ascii.eqb_eq. revert c. apply ascii_cases. by vm_compute. Qed.

Lemma is_ascii_lower s : is_ascii s = true → is_ascii (smap lower_char s) = true.
Proof.
  unfold is_ascii. induction s as [|c s IH]; [done|]. cbn [sall smap].
  intros [Hc Hs]%andb_true_iff. rewrite (IH Hs), andb_true_r. revert Hc.
  apply Bool.implb_true_iff. revert c. clear. apply ascii_cases. by vm_compute.
Qed.

Lemma ToLower_idem `{GoUnicodeLaws} s : ToLower (ToLower s) = ToLower s.
Proof.
  unfold ToLower at 2 3. destruct (is_ascii s) eqn:E; [|by apply unicode_lower_idem].
  unfold ToLower. rewrite is_ascii_lower by done. rewrite smap_smap.
  apply smap_ext, lower_char_idem.
Qed.

Lemma sapp_cons c (a b : string) : (String c a ++ b = String c (a ++ b))%string.
Proof. done. Qed.

Lemma sapp_nil_l (a : string) : ("" ++ a = a)%string.
Proof. done. Qed.

Lemma sapp_assoc (a b c : string) : ((a ++ b) ++ c = a ++ (b ++ c))%string.
Proof. induction a as [|x a IH]; [done|]. by rewrite !sapp_cons, IH. Qed.

Lemma sapp_nil_r (a : string) : (a ++ "" = a)%string.
Proof. induction a as [|x a IH]; [done|]. by rewrite sapp_cons, IH. Qed.

Lemma slength_app (a b : string) : String.length (a ++ b) = (String.length a + String.length b)%nat.
Proof. induction a as [|x a IH]; [done|]. rewrite sapp_cons. cbn [String.length]. by rewrite IH. Qed.

Lemma HasPrefix_spec s p : HasPrefix s p = true ↔ ∃ r, s = (p ++ r)%string.
Proof.
  unfold HasPrefix. revert s. induction p as [|c p IH]; intros s.
  { split; [exists s; by rewrite sapp_nil_l|by destruct s]. }
  destruct s as [|d s]; unfold String.prefix; fold String.prefix.
  { split; [done|]. intros [r Hr]. by rewrite sapp_cons in Hr. }
  destruct (ascii_dec c d) as [->|Hne].
  - rewrite IH. split; intros [r Hr]; exists r; rewrite ?sapp_cons in *; congruence.
  - split; [done|]. intros [r Hr]. rewrite sapp_cons in Hr. congruence.
Qed.

Lemma srev_app_spec s acc : srev_app s acc = (srev s ++ acc)%string.
Proof.
  unfold srev. revert acc. induction s as [|c s IH]; intros acc; [done|]. cbn [srev_app].
  by rewrite IH, (IH (String c "")), sapp_assoc.
Qed.

Lemma srev_cons c s : srev (String c s) = (srev s ++ String c "")%string.
Proof. exact (srev_app_spec s (String c "")). Qed.

Lemma srev_sapp a b : srev (a ++ b) = (srev b ++ srev a)%string.
Proof.
  induction a as [|c a IH]; [by rewrite sapp_nil_l, sapp_nil_r|].
  by rewrite sapp_cons, !srev_cons, IH, sapp_assoc.
Qed.

Lemma srev_involutive s : srev (srev s) = s.
Proof. induction s as [|c s IH]; [done|]. by rewrite srev_cons, srev_sapp, IH. Qed.

Lemma length_srev s : String.length (srev s) = String.length s.
Proof. induction s as [|c s IH]; [done|]. rewrite srev_cons, slength_app, IH. simpl. lia. Qed.

Lemma HasSuffix_spec s p : HasSuffix s p = true ↔ ∃ r, s = (r ++ p)%string.
Proof.
  unfold HasSuffix. change (String.prefix (srev p) (srev s)) with (HasPrefix (srev s) (srev p)).
  rewrite HasPrefix_spec. split.
  - intros [r Hr]. exists (srev r). rewrite <- (srev_involutive s), Hr, srev_sapp. by rewrite srev_involutive.
  - intros [r ->]. exists (srev r). by rewrite srev_sapp.
Qed.

Lemma TrimPrefix_app p s : TrimPrefix (p ++ s) p = s.
Proof.
  unfold TrimPrefix. rewrite (proj2 (HasPrefix_spec _ _)) by eauto.
  induction p as [|c p IH]; [done|]. exact IH.
Qed.

Lemma SJoin_cons_empty s l : SJoin (s :: l) "" = (s ++ SJoin l "")%string.
Proof. destruct l; [by rewrite sapp_nil_r|done]. Qed.

(** Membership of a byte in a string. *)
Fixpoint sin (c : ascii) (s : string) : bool :=
  match s with
  | EmptyString => false
  | String d s' => Ascii.eqb d c || sin c s'
  end.

(** A separator that occurs in neither part cuts a string in one place only. *)
Lemma split_unique c a b x y :
  sin c a = false → sin c x = false →
  (a ++ String c b = x ++ String c y)%string → a = x ∧ b = y.
Proof.
  revert x. induction a as [|d a IH]; intros [|e x] Ha Hx; rewrite ?sapp_nil_l, ?sapp_cons; cbn [sin] in *.
  - by intros [= ->].
  - intros [= -> _]. by rewrite Ascii.eqb_refl in Hx.
  - intros [= -> _]. by rewrite Ascii.eqb_refl in Ha.
  - intros Heq. apply orb_false_iff in Ha as [_ Ha], Hx as [_ Hx].
    assert (d = e ∧ (a ++ String c b = x ++ String c y)%string) as [-> H] by (by inversion Heq).
    destruct (IH x Ha Hx H) as [-> ->]. done.
Qed.

Lemma sin_split c s : sin c s = true → ∃ a b, s = (a ++ String c b)%string.
Proof.
  induction s as [|d s IH]; [done|]. cbn [sin]. intros [->%Ascii.eqb_eq|Hs]%orb_true_iff.
  - by exists ""%string, s.
  - destruct (IH Hs) as (a & b & ->). by exists (String d a), b.
Qed.

Lemma sapp_inj_l (a x y : string) : (a ++ x = a ++ y)%string → x = y.
Proof. induction a as [|c a IH]; [done|]. rewrite !sapp_cons. intros Hxy. apply IH. by inversion Hxy. Qed.

Lemma sin_app c a b : sin c (a ++ b) = sin c a || sin c b.
Proof. induction a as [|d a IH]; [done|]. rewrite sapp_cons. cbn [sin]. by rewrite IH, orb_assoc. Qed.

Lemma sall_app f a b : sall f (a ++ b)%string = sall f a && sall f b.
Proof. induction a as [|c a IH]; [done|]. rewrite sapp_cons. cbn [sall]. by rewrite IH, andb_assoc. Qed.

(** * Positions of a needle *)

Lemma stake_app (a b : string) : stake (String.length a) (a ++ b) = a.
Proof. induction a as [|c a IH]; [by destruct b|]. rewrite sapp_cons. cbn [String.length stake]. by rewrite IH. Qed.

Lemma length_stake n s : (n <= String.length s)%nat → String.length (stake n s) = n.
Proof.
  revert s. induction n as [|n IH]; intros [|c s]; simpl; [done..|lia|]. intros Hn. by rewrite IH by lia.
Qed.

Lemma stake_app_add (a b : string) n : stake (String.length a + n) (a ++ b) = (a ++ stake n b)%string.
Proof. induction a as [|c a IH]; [done|]. rewrite !sapp_cons. cbn [String.length stake Nat.add]. by rewrite IH. Qed.

Lemma sdrop_app (a b : string) n : sdrop (String.length a + n) (a ++ b) = sdrop n b.
Proof. induction a as [|c a IH]; [done|]. rewrite sapp_cons. cbn [String.length sdrop Nat.add]. by rewrite IH. Qed.

Lemma Index_app c sub a b :
  sin c a = false → Index (a ++ String c sub ++ b) (String c sub) = Some (String.length a).
Proof.
  unfold Index. induction a as [|d a IH]; intros Ha.
  - rewrite sapp_nil_l, sapp_cons. cbn [String.index].
    change (String.prefix (String c sub) (String c (sub ++ b))) with (HasPrefix (String c sub ++ b) (String c sub)).
    by rewrite (proj2 (HasPrefix_spec _ _)) by eauto.
  - cbn [sin] in Ha. apply orb_false_iff in Ha as [Hd Ha]. rewrite sapp_cons. cbn [String.index String.prefix].
    destruct (ascii_dec c d) as [->|]; [by rewrite Ascii.eqb_refl in Hd|]. by rewrite IH.
Qed.

Lemma Index_none c sub s : sin c s = false → Index s (String c sub) = None.
Proof.
  unfold Index. induction s as [|d s IH]; [done|]. cbn [sin]. intros [Hd Hs]%orb_false_iff.
  cbn [String.index String.prefix]. destruct (ascii_dec c d) as [->|]; [by rewrite Ascii.eqb_refl in Hd|].
  by rewrite IH.
Qed.

(** The position found is the first one, and nothing is found only where there is
    nothing to find. *)
Lemma Index_first s sub i :
  Index s sub = Some i →
  ∃ a b, s = (a ++ sub ++ b)%string ∧ String.length a = i ∧
    ∀ x y, s = (x ++ sub ++ y)%string → (i <= String.length x)%nat.
Proof.
  unfold Index. revert i. induction s as [|d s IH]; intros i; cbn [String.index].
  { destruct sub; [|done]. intros [= <-]. exists ""%string, ""%string. split_and!; [done..|]. intros; lia. }
  change (String.prefix sub (String d s)) with (HasPrefix (String d s) sub).
  destruct (HasPrefix (String d s) sub) eqn:Ep.
  { intros [= <-]. apply HasPrefix_spec in Ep as [r Hr]. exists ""%string, r. split_and!; [done..|]. intros; lia. }
  destruct (String.index 0 sub s) as [j|] eqn:Ei; [|done]. intros [= <-].
  destruct (IH j eq_refl) as (a & b & -> & Ha & Hf). exists (String d a), b. split_and!; [done|cbn; lia|].
  intros [|e x] y Hxy.
  - rewrite sapp_nil_l in Hxy. apply not_true_iff_false in Ep. exfalso. apply Ep, HasPrefix_spec. by exists y.
  - rewrite sapp_cons in Hxy. assert ((a ++ sub ++ b)%string = (x ++ sub ++ y)%string) as Hx by (by inversion Hxy).
    apply Hf in Hx. cbn. lia.
Qed.

Lemma Index_absent s sub x y : Index s sub = None → s ≠ (x ++ sub ++ y)%string.
Proof.
  unfold Index. revert x. induction s as [|d s IH]; intros x; cbn [String.index].
  { destruct sub; [done|]. intros _. by destruct x. }
  change (String.prefix sub (String d s)) with (HasPrefix (String d s) sub).
  destruct (HasPrefix (String d s) sub) eqn:Ep; [done|].
  destruct (String.index 0 sub s) eqn:Ei; [done|]. intros _. destruct x as [|e x].
  - rewrite sapp_nil_l. intros Hxy. apply not_true_iff_false in Ep. apply Ep, HasPrefix_spec. by exists y.
  - rewrite sapp_cons. intros Hxy. apply (IH x eq_refl). by inversion Hxy.
Qed.

(** * Hexadecimal numbers *)

(** The value of a string of hexadecimal digits, on top of [acc]. *)
Fixpoint parse_hex_from (acc : Z) (s : string) : option Z :=
  match s with
  | EmptyString => Some acc
  | String c s' => match hex_val c with Some d => parse_hex_from (16 * acc + d)%Z s' | None => None end
  end.

Lemma hex_val_digit n : (n < 16)%nat → hex_val (hex_digit n) = Some (Z.of_nat n).
Proof.
  intros Hn. assert (forallb (fun n => bool_decide (hex_val (hex_digit n) = Some (Z.of_nat n))) (seq 0 16) = true)
    as Hf by (vm_compute; reflexivity).
  rewrite forallb_forall in Hf. apply (bool_decide_unpack _). rewrite Hf; [done|]. apply in_seq. lia.
Qed.

(** * TrimSpace takes all there is *)

Lemma trim_left_stuck encs n s :
  List.find (fun e => String.prefix e s) encs = None → trim_left n encs s = s.
Proof. destruct n; [done|]. simpl. by intros ->. Qed.

Lemma trim_left_suffix encs n s : ∃ p, s = (p ++ trim_left n encs s)%string.
Proof.
  revert s. induction n as [|n IH]; intros s; [by exists ""|]. simpl.
  destruct (List.find _ encs) as [e|] eqn:E; [|by exists ""]. apply find_some in E as [_ [r ->]%HasPrefix_spec].
  rewrite <- (Nat.add_0_r (String.length e)), sdrop_app. simpl. destruct (IH r) as [p Hp].
  exists (e ++ p)%string. by rewrite sapp_assoc, <- Hp.
Qed.

Lemma trim_left_done encs n s :
  Forall (fun e => e ≠ "") encs → (String.length s <= n)%nat →
  List.find (fun e => String.prefix e (trim_left n encs s)) encs = None.
Proof.
  intros Hne. revert s. induction n as [|n IH]; intros s Hn; simpl.
  - destruct s; [|simpl in Hn; lia]. induction Hne as [|e encs He _ IH]; [done|]. simpl. by destruct e.
  - destruct (List.find (fun e => String.prefix e s) encs) as [e|] eqn:E; [|done].
    apply find_some in E as [Hin [r ->]%HasPrefix_spec].
    rewrite Forall_forall in Hne. assert (e ≠ "") by (by apply Hne, list_elem_of_In).
    rewrite <- (Nat.add_0_r (String.length e)), sdrop_app. apply IH. rewrite slength_app in Hn.
    destruct e; [done|]. simpl in *. lia.
Qed.

Lemma find_prefix_none encs (a b : string) :
  List.find (fun e => String.prefix e (a ++ b)) encs = None → List.find (fun e => String.prefix e a) encs = None.
Proof.
  intros Hf. destruct (List.find (fun e => String.prefix e a) encs) as [e|] eqn:E; [|done].
  apply find_some in E as [Hin [r ->]%HasPrefix_spec]. eapply find_none in Hf; [|done].
  rewrite sapp_assoc in Hf. exfalso. apply not_true_iff_false in Hf. apply Hf. apply HasPrefix_spec. by eexists.
Qed.

Lemma TrimSpace_idem s : TrimSpace (TrimSpace s) = TrimSpace s.
Proof.
  set (renc := map srev space_encodings).
  assert (He : Forall (fun e => e ≠ "") space_encodings) by (repeat constructor; done).
  assert (Hr : Forall (fun e => e ≠ "") renc) by (repeat constructor; done).
  unfold TrimSpace. fold renc. set (l := trim_left (String.length s) space_encodings s).
  set (r := trim_left (String.length l) renc (srev l)).
  assert (Hl : List.find (fun e => String.prefix e l) space_encodings = None) by (by apply trim_left_done).
  assert (Hrr : List.find (fun e => String.prefix e r) renc = None).
  { apply trim_left_done; [done|]. by rewrite length_srev. }
  destruct (trim_left_suffix renc (String.length l) (srev l)) as [q Hq]. fold r in Hq.
  assert (El : l = (srev r ++ srev q)%string) by (by rewrite <- srev_sapp, <- Hq, srev_involutive).
  rewrite El in Hl. apply find_prefix_none in Hl.
  rewrite (trim_left_stuck space_encodings) by done. by rewrite srev_involutive, (trim_left_stuck renc).
Qed.

(** An instance without Unicode mappings: non-ASCII bytes are left alone. *)
Definition ascii_unicode : GoUnicode := {| unicode_map_lower := smap lower_char |}.

Lemma ascii_unicode_laws : @GoUnicodeLaws ascii_unicode.
Proof.
  constructor. intros s _. unfold ToLower. simpl.
  destruct (is_ascii _); rewrite smap_smap; apply smap_ext, lower_char_idem.
Qed.
