(* ===== verification/GoRuntime.v ===== *)
(** What Go leaves unspecified: the order in which [range] visits a map and the
    order in which sort.Slice leaves equal elements.  Both are parameters with
    the documented guarantees as laws; the theorems hold for every choice. *)
From Stdlib Require Import Strings.Ascii Strings.String Sorting.Sorted.
From stdpp Require Import sorting.
From S2P Require Import Prelude.

(** [for k, v := range m] *)
Class GoRange := { range_map : ∀ {K : Type} `{Countable K} {A : Type}, gmap K A → list (K * A) }.

Class GoRangeLaws `{GoRange} : Prop := {
  range_map_perm : ∀ `{Countable K} {A} (m : gmap K A), range_map m ≡ₚ map_to_list m;
}.

(** sort.Slice: a permutation, sorted for a strict weak order. *)
Class GoSort := { sort_slice : ∀ {A : Type}, (A → A → bool) → list A → list A }.

Class GoSortLaws `{GoSort} : Prop := {
  sort_slice_perm : ∀ {A} (less : A → A → bool) l, sort_slice less l ≡ₚ l;
  sort_slice_sorted : ∀ {A} (less : A → A → bool) l,
    (∀ a b, less a b = true → less b a = false) →
    (∀ a b c, less b a = false → less c b = false → less c a = false) →
    StronglySorted (fun a b => less b a = false) (sort_slice less l);
}.

(** Go compares strings by their bytes. *)
Definition str_less (a b : string) : bool := String.ltb a b.

Lemma range_map_elem `{GoRangeLaws} `{Countable K} {A} (m : gmap K A) k v :
  (k, v) ∈ range_map m ↔ m !! k = Some v.
Proof. by rewrite range_map_perm, elem_of_map_to_list. Qed.

Lemma range_map_NoDup `{GoRangeLaws} `{Countable K} {A} (m : gmap K A) : NoDup (range_map m).*1.
Proof. rewrite range_map_perm. apply NoDup_fst_map_to_list. Qed.

Lemma length_range_map `{GoRangeLaws} `{Countable K} {A} (m : gmap K A) : length (range_map m) = size m.
Proof. rewrite range_map_perm. apply length_map_to_list. Qed.

(** * String order *)

Lemma str_compare_refl a : String.compare a a = Eq.
Proof.
  induction a as [|x a IH]; [done|]. cbn [String.compare].
  unfold Ascii.compare. by rewrite N.compare_refl.
Qed.

Lemma str_less_spec a b : str_less a b = true ↔ String.compare a b = Lt.
Proof. unfold str_less, String.ltb. by destruct (String.compare a b). Qed.

Lemma ascii_compare_lt_trans a b c :
  Ascii.compare a b = Lt → Ascii.compare b c = Lt → Ascii.compare a c = Lt.
Proof. unfold Ascii.compare. rewrite !N.compare_lt_iff. lia. Qed.

Lemma str_compare_trans a b c :
  String.compare a b = Lt → String.compare b c = Lt → String.compare a c = Lt.
Proof.
  revert b c. induction a as [|x a IH]; intros [|y b] [|z c]; cbn [String.compare]; try done.
  destruct (Ascii.compare x y) eqn:E1, (Ascii.compare y z) eqn:E2; try done.
  - apply Ascii.compare_eq_iff in E1 as ->, E2 as ->.
    unfold Ascii.compare. rewrite N.compare_refl. apply IH.
  - apply Ascii.compare_eq_iff in E1 as ->. by rewrite E2.
  - apply Ascii.compare_eq_iff in E2 as ->. by rewrite E1.
  - by rewrite (ascii_compare_lt_trans _ _ _ E1 E2).
Qed.

Lemma str_less_asym a b : str_less a b = true → str_less b a = false.
Proof.
  rewrite str_less_spec. intros H. unfold str_less, String.ltb.
  rewrite String.compare_antisym, H. done.
Qed.

Lemma str_ge_cases a b : str_less b a = false ↔ a = b ∨ str_less a b = true.
Proof.
  rewrite str_less_spec. unfold str_less, String.ltb. rewrite (String.compare_antisym b a).
  destruct (String.compare a b) eqn:E; simpl.
  - apply String.compare_eq_iff in E. naive_solver.
  - naive_solver.
  - split; [done|]. intros [->|?]; [|done]. by rewrite str_compare_refl in E.
Qed.

Lemma str_ge_trans a b c : str_less b a = false → str_less c b = false → str_less c a = false.
Proof.
  rewrite !str_ge_cases, !str_less_spec. intros [->|H1] [->|H2]; eauto using str_compare_trans.
Qed.

(** * An instance of both: map_to_list order and merge sort *)

Definition map_range : GoRange := {| range_map K _ _ A m := map_to_list m |}.

Lemma map_range_laws : @GoRangeLaws map_range.
Proof. by constructor. Qed.

Definition insert_sorted {A} (less : A → A → bool) : A → list A → list A :=
  fix go x l := match l with
  | [] => [x]
  | y :: l' => if less y x then y :: go x l' else x :: y :: l'
  end.
Definition insertion_sort : GoSort := {| sort_slice A less l := foldr (insert_sorted less) [] l |}.

Lemma insert_sorted_perm {A} (less : A → A → bool) x l : insert_sorted less x l ≡ₚ x :: l.
Proof.
  induction l as [|y l IH]; [done|]. simpl. destruct (less y x); [|done]. rewrite IH. constructor.
Qed.

Lemma insertion_sort_laws : @GoSortLaws insertion_sort.
Proof.
  constructor.
  - intros A less l. simpl. induction l as [|x l IH]; [done|]. simpl. by rewrite insert_sorted_perm, IH.
  - intros A less l Hasym Htrans. simpl. induction l as [|x l IH]; [constructor|]. simpl.
    revert IH. generalize (foldr (insert_sorted less) [] l). clear l. intros l Hl.
    induction Hl as [|y l Hl IHl Hy]; simpl; [repeat constructor|].
    destruct (less y x) eqn:E.
    + constructor; [done|]. rewrite insert_sorted_perm. constructor; [|done]. by apply Hasym.
    + constructor; [by constructor|]. constructor; [done|].
      rewrite Forall_forall in *. eauto.
Qed.
