(* ===== verification/Effects.v ===== *)
(** Effectful Go code as a program over an interface of operations.

    A handler that calls its surroundings (the route table, the network, the
    tracker, counters) is a tree: an operation, and what the code does with each
    answer.  Other goroutines act between two operations, so nothing ties the
    answers of two operations together: the traces of a program are its
    operations with arbitrary answers, and a property of all traces is a property
    under every interleaving and every failure of the surroundings. *)
From S2P Require Import Prelude.

Section prog.
Context {op : Type} {ans : op → Type}.

Inductive prog (A : Type) : Type :=
| PRet (a : A)
| PDo (o : op) (k : ans o → prog A).
Arguments PRet {A} a.
Arguments PDo {A} o k.

Fixpoint pbind {A B : Type} (p : prog A) (f : A → prog B) : prog B :=
  match p with
  | PRet a => f a
  | PDo o k => PDo o (fun x => pbind (k x) f)
  end.

Definition pdo (o : op) : prog (ans o) := PDo o PRet.

(** One operation with the answer it got. *)
Definition event : Type := { o : op & ans o }.
Definition ev (o : op) (a : ans o) : event := existT o a.

Fixpoint trace {A : Type} (p : prog A) (tr : list event) (r : A) : Prop :=
  match p with
  | PRet a => tr = [] ∧ r = a
  | PDo o k => ∃ (a : ans o) tr', tr = ev o a :: tr' ∧ trace (k a) tr' r
  end.

(** Running a program against surroundings with a state. *)
Fixpoint prun {A S : Type} (h : ∀ o : op, S → ans o * S) (p : prog A) (s : S) : list event * A * S :=
  match p with
  | PRet a => ([], a, s)
  | PDo o k =>
      let '(x, s') := h o s in
      let '(tr, r, s'') := prun h (k x) s' in
      (ev o x :: tr, r, s'')
  end.

Lemma prun_trace {A S : Type} (h : ∀ o : op, S → ans o * S) (p : prog A) s :
  trace p (prun h p s).1.1 (prun h p s).1.2.
Proof.
  revert s. induction p as [a|o k IH]; intros s; simpl; [done|].
  destruct (h o s) as [x s']. specialize (IH x s'). destruct (prun h (k x) s') as [[tr r] s'']. eauto.
Qed.

Lemma prun_trace_unit {S : Type} (h : ∀ o : op, S → ans o * S) (p : prog unit) s : trace p (prun h p s).1.1 tt.
Proof. pose proof (prun_trace h p s) as Ht. by destruct (prun h p s).1.2. Qed.

Lemma trace_bind {A B : Type} (p : prog A) (f : A → prog B) tr r :
  trace (pbind p f) tr r ↔ ∃ tr1 a tr2, tr = tr1 ++ tr2 ∧ trace p tr1 a ∧ trace (f a) tr2 r.
Proof.
  revert tr. induction p as [a|o k IH]; intros tr; simpl.
  - split; [intros Ht; by exists [], a, tr|]. by intros (? & ? & ? & -> & [-> ->] & ?).
  - split.
    + intros (x & tr' & -> & Ht). apply IH in Ht as (tr1 & b & tr2 & -> & H1 & H2).
      exists (ev o x :: tr1), b, tr2. split; [done|]. split; [|done]. by exists x, tr1.
    + intros (tr1 & b & tr2 & -> & (x & tr' & -> & H1) & H2). exists x, (tr' ++ tr2). split; [done|].
      apply IH. by exists tr', b, tr2.
Qed.

(** Every program has a trace: it never gets stuck, whatever the answers. *)
Lemma trace_exists {A : Type} (p : prog A) (dflt : ∀ o, ans o) : ∃ tr r, trace p tr r.
Proof.
  pose proof (prun_trace (fun o (s : unit) => (dflt o, s)) p tt). by eexists _, _.
Qed.

End prog.

(** * Monitors

    A discipline of the operations of a handler is a small automaton that reads
    its trace; [None] is a violation. *)
Fixpoint automaton {S E : Type} (step : S → E → option S) (s : S) (tr : list E) : option S :=
  match tr with
  | [] => Some s
  | e :: tr => match step s e with Some s' => automaton step s' tr | None => None end
  end.

Lemma automaton_app {S E : Type} (step : S → E → option S) s tr1 tr2 :
  automaton step s (tr1 ++ tr2) =
  match automaton step s tr1 with Some s' => automaton step s' tr2 | None => None end.
Proof. revert s. induction tr1 as [|e tr1 IH]; intros s; [done|]. simpl. by destruct (step s e). Qed.

Lemma automaton_snoc {S E : Type} (step : S → E → option S) s tr e s' :
  automaton step s (tr ++ [e]) = Some s' → ∃ s1, automaton step s tr = Some s1 ∧ step s1 e = Some s'.
Proof.
  rewrite automaton_app. destruct (automaton step s tr) as [s1|]; [|done]. simpl.
  destruct (step s1 e) eqn:E1; [|done]. intros [= <-]. eauto.
Qed.

Arguments prog {op} ans A.
Arguments PRet {op ans A} a.
Arguments PDo {op ans A} o k.
Arguments event {op} ans.

(** * Programs that implement operations

    [interp f p] runs [p] with every operation [o] carried out by the program
    [f o]: how a handler that calls another one is composed with it. *)
Fixpoint interp {op op' : Type} {ans : op → Type} {ans' : op' → Type} {A : Type}
    (f : ∀ o, prog ans' (ans o)) (p : prog ans A) : prog ans' A :=
  match p with
  | PRet a => PRet a
  | PDo o k => pbind (f o) (fun x => interp f (k x))
  end.

(** * Safety against a monitor

    [safe step p s Q]: from the monitor state [s], whatever the answers, [p] never
    makes the monitor fail, and ends with a result and a monitor state in [Q]. *)
Section safe.
Context {op : Type} {ans : op → Type} {S : Type} (step : S → event ans → option S).

Fixpoint safe {A : Type} (p : prog ans A) (s : S) (Q : A → S → Prop) : Prop :=
  match p with
  | PRet a => Q a s
  | PDo o k => ∀ a, ∃ s', step s (ev o a) = Some s' ∧ safe (k a) s' Q
  end.

Lemma safe_mono {A} (p : prog ans A) s (Q Q' : A → S → Prop) :
  (∀ a s', Q a s' → Q' a s') → safe p s Q → safe p s Q'.
Proof.
  intros HQ. revert s. induction p as [a|o k IH]; simpl; intros s; [apply HQ|].
  intros Hs a. destruct (Hs a) as (s' & ? & ?). eauto.
Qed.

Lemma safe_bind {A B} (p : prog ans A) (f : A → prog ans B) s Q :
  safe p s (fun a s' => safe (f a) s' Q) → safe (pbind p f) s Q.
Proof.
  revert s. induction p as [a|o k IH]; simpl; intros s; [done|].
  intros Hs a. destruct (Hs a) as (s' & ? & ?). eauto.
Qed.

Lemma safe_bind_inv {A B} (p : prog ans A) (f : A → prog ans B) s Q :
  safe (pbind p f) s Q → safe p s (fun a s' => safe (f a) s' Q).
Proof.
  revert s. induction p as [a|o k IH]; simpl; intros s; [done|].
  intros Hs a. destruct (Hs a) as (s' & ? & ?). eauto.
Qed.

Lemma safe_do o s Q :
  (∀ a, ∃ s', step s (ev o a) = Some s' ∧ Q a s') → safe (pdo o) s Q.
Proof. done. Qed.

(** A safe program's traces are accepted by the monitor. *)
Lemma safe_trace {A} (p : prog ans A) s Q tr r :
  safe p s Q → trace p tr r → ∃ s', automaton step s tr = Some s' ∧ Q r s'.
Proof.
  revert s tr. induction p as [a|o k IH]; simpl; intros s tr Hs.
  - intros [-> ->]. by exists s.
  - intros (x & tr' & -> & Ht). destruct (Hs x) as (s' & E & Hk). simpl. rewrite E. by eapply IH.
Qed.
End safe.

(** Composition: when each operation's implementation takes the monitor where
    the operation itself would, the composed program is safe. *)
Lemma safe_interp {op op' : Type} {ans : op → Type} {ans' : op' → Type} {S A : Type}
    (step : S → event ans → option S) (step' : S → event ans' → option S)
    (f : ∀ o, prog ans' (ans o)) (p : prog ans A) s Q :
  (∀ o s, (∀ a, is_Some (step s (ev o a))) → safe step' (f o) s (fun a s' => step s (ev o a) = Some s')) →
  safe step p s Q → safe step' (interp f p) s Q.
Proof.
  intros Hf. revert s. induction p as [a|o k IH]; simpl; intros s Hs; [done|].
  apply safe_bind. eapply safe_mono; [|apply Hf].
  - intros a s' Ea. destruct (Hs a) as (s'' & E & Hk). rewrite Ea in E. injection E as ->. by apply IH.
  - intros a. destruct (Hs a) as (s' & E & _). eauto.
Qed.

Lemma safe_interp_bind {op op' : Type} {ans : op → Type} {ans' : op' → Type} {S A B : Type}
    (step : S → event ans' → option S) (f : ∀ o, prog ans' (ans o)) (p : prog ans A) (q : A → prog ans B) s Q :
  safe step (interp f p) s (fun a s' => safe step (interp f (q a)) s' Q) → safe step (interp f (pbind p q)) s Q.
Proof.
  revert s. induction p as [a|o k IH]; simpl; intros s Hs; [done|].
  apply safe_bind. eapply safe_mono; [|by apply safe_bind_inv]. intros a s'. apply IH.
Qed.

Declare Scope prog_scope.
Delimit Scope prog_scope with prog.
Notation "'do' x <- p ; q" := (pbind p (fun x => q))
  (at level 10, x pattern, p at level 100, q at level 200, right associativity) : prog_scope.
Notation "p ;; q" := (pbind p (fun _ => q))
  (at level 100, q at level 200, right associativity) : prog_scope.

(** Walk along a trace of a concrete program: one operation per step. *)
Ltac tstep H :=
  let a := fresh "a" in let tr := fresh "tr" in
  first [ destruct H as (a & tr & -> & H) | destruct H as [-> ->] ].
