(* ===== verification/Sha256.v ===== *)
(** crypto/sha256 (FIPS 180-4), as an executable function on bytes: the
    computed route-table version and the policy hash of the proxy caches use it. *)
From S2P Require Import Prelude GoBytes.
Local Open Scope Z_scope.

Definition mask32 : Z := 4294967295.
Definition add32 (a b : Z) : Z := Z.land (a + b) mask32.
Definition rotr (n x : Z) : Z := Z.land (Z.lor (Z.shiftr x n) (Z.shiftl x (32 - n))) mask32.
Definition not32 (x : Z) : Z := Z.lxor x mask32.

Definition ch (x y z : Z) : Z := Z.lxor (Z.land x y) (Z.land (not32 x) z).
Definition maj (x y z : Z) : Z := Z.lxor (Z.lxor (Z.land x y) (Z.land x z)) (Z.land y z).
Definition big_sigma0 (x : Z) : Z := Z.lxor (Z.lxor (rotr 2 x) (rotr 13 x)) (rotr 22 x).
Definition big_sigma1 (x : Z) : Z := Z.lxor (Z.lxor (rotr 6 x) (rotr 11 x)) (rotr 25 x).
Definition small_sigma0 (x : Z) : Z := Z.lxor (Z.lxor (rotr 7 x) (rotr 18 x)) (Z.shiftr x 3).
Definition small_sigma1 (x : Z) : Z := Z.lxor (Z.lxor (rotr 17 x) (rotr 19 x)) (Z.shiftr x 10).

(** The constants as the standard defines them: the first 32 bits of the
    fractional parts of the cube roots of the first 64 primes, and of the square
    roots of the first 8. *)
Definition is_prime (n : Z) : bool :=
  forallb (fun d => negb (n mod (Z.of_nat d) =? 0)) (seq 2 (Z.to_nat (Z.sqrt n) - 1)).
Definition primes : list Z := filter (fun n => is_prime n = true) (map Z.of_nat (seq 2 310)).

(** The integer cube root, bit by bit. *)
Fixpoint cbrt_from (bits : nat) (x r : Z) : Z :=
  match bits with
  | O => r
  | S bits' =>
      let r' := r + 2 ^ Z.of_nat bits' in
      cbrt_from bits' x (if r' * r' * r' <=? x then r' else r)
  end.

Definition sha_k : list Z :=
  Eval vm_compute in map (fun p => Z.land (cbrt_from 36 (p * 2 ^ 96) 0) mask32) primes.
Definition sha_init : list Z :=
  Eval vm_compute in map (fun p => Z.land (Z.sqrt (p * 2 ^ 64)) mask32) (take 8 primes).

(** The message schedule, newest word first: [w] holds W(t-1), W(t-2), ... *)
Fixpoint schedule (n : nat) (w : list Z) : list Z :=
  match n with
  | O => w
  | S n' =>
      let wt := add32 (add32 (small_sigma1 (nth 1 w 0)) (nth 6 w 0))
                      (add32 (small_sigma0 (nth 14 w 0)) (nth 15 w 0)) in
      schedule n' (wt :: w)
  end.

Definition sha_round (st : list Z) (kw : Z * Z) : list Z :=
  match st with
  | [a; b; c; d; e; f; g; h] =>
      let t1 := add32 (add32 (add32 h (big_sigma1 e)) (ch e f g)) (add32 kw.1 kw.2) in
      let t2 := add32 (big_sigma0 a) (maj a b c) in
      [add32 t1 t2; a; b; c; add32 d t1; e; f; g]
  | _ => st
  end.

Fixpoint words (b : bytes) : list Z :=
  match b with
  | b0 :: b1 :: b2 :: b3 :: r => be_get [b0; b1; b2; b3] :: words r
  | _ => []
  end.

Definition compress (st : list Z) (block : bytes) : list Z :=
  let w := rev (schedule 48 (rev (words block))) in
  zip_with add32 st (fold_left sha_round (combine sha_k w) st).

(** Append 0x80, zeros up to 56 modulo 64, and the bit length. *)
Definition sha_pad (m : bytes) : bytes :=
  m ++ x80 :: replicate (Z.to_nat ((55 - blen m) mod 64)) x00 ++ be_put 8 (8 * blen m).

Fixpoint sha_blocks (n : nat) (m : bytes) (st : list Z) : list Z :=
  match n with
  | O => st
  | S n' => sha_blocks n' (drop 64 m) (compress st (take 64 m))
  end.

Definition sha256 (m : bytes) : bytes :=
  let p := sha_pad m in
  concat (map (be_put 4) (sha_blocks (length p / 64) p sha_init)).

(** The padded message is a whole number of blocks. *)
Lemma sha_pad_length m : blen (sha_pad m) mod 64 = 0.
Proof.
  pose proof (Z.mod_pos_bound (55 - blen m) 64 ltac:(lia)).
  assert (blen (sha_pad m) = blen m + 9 + (55 - blen m) mod 64) as ->.
  { unfold sha_pad, blen in *. rewrite length_app, length_cons, length_app, length_replicate, length_be_put. lia. }
  rewrite Zplus_mod_idemp_r. by replace (blen m + 9 + (55 - blen m)) with 64 by lia.
Qed.

Lemma length_sha_blocks n m st : length st = 8%nat → length (sha_blocks n m st) = 8%nat.
Proof.
  revert m st. induction n as [|n IH]; intros m st Hst; [done|]. apply IH.
  unfold compress. rewrite length_zip_with.
  assert (∀ kws s, length s = 8%nat → length (fold_left sha_round kws s) = 8%nat) as Hr.
  { induction kws as [|kw kws IHk]; intros s Hs; [done|]. apply IHk.
    do 9 (destruct s as [|? s]; try done). }
  rewrite Hr by done. lia.
Qed.

Lemma length_sha256 m : length (sha256 m) = 32%nat.
Proof.
  unfold sha256. set (st := sha_blocks _ _ _).
  assert (length st = 8%nat) as Hst by by apply length_sha_blocks.
  do 9 (destruct st as [|? st]; try done).
Qed.

(** The FIPS 180-4 test vector for the message abc. *)
Example sha256_abc :
  be_get (sha256 [x61; x62; x63]) =
  0xba7816bf8f01cfea414140de5dae2223b00361a396177a9cb410ff61f20015ad.
Proof. by vm_compute. Qed.
