(* ===== verification/Sni.v ===== *)
(** internal/sni: the ClientHello parser (src/internal/sni/sni.go).

    Every index and slice of the Go code is a checked access ([bat], [bslice]),
    so an out-of-range access would show as [Panic]; the three loops carry fuel,
    so a loop that does not end would show as [OutOfFuel].  The first theorem
    excludes both for every input.  The reference semantics is a structured
    ClientHello with its wire encoding ([encode_record]). *)
From S2P Require Import Prelude GoBytes.
Local Open Scope Z_scope.
Local Open Scope go_scope.

(** * Data *)

Inductive sni_error : Type :=
| ErrNotTLS
| ErrNotClientHello
| ErrNoSNI
| ErrTruncated
| ErrEmptySNI. (* fmt.Errorf("empty SNI hostname") *)

#[export] Instance sni_error_eq_dec : EqDecision sni_error.
Proof. solve_decision. Defined.

(** (hostname, alpns, err) *)
Definition hello_result : Type := string * list string * option sni_error.

(** * The parser *)

(** The [for pos < end] loop of parseALPNExtension. *)
Fixpoint alpn_loop (fuel : nat) (data : bytes) (pos end_ : Z) (out : list string) : go (list string) :=
  match fuel with
  | O => OutOfFuel
  | S fuel' =>
      if pos <? end_ then
        if end_ <? pos + 1 then Ret out else
        let! nLen := bat data pos in
        let pos := pos + 1 in
        if end_ <? pos + nLen then Ret out else
        let! name := bslice data pos (pos + nLen) in
        alpn_loop fuel' data (pos + nLen) end_ (out ++ [to_string name])
      else Ret out
  end.

Definition parseALPNExtension (data : bytes) : go (list string) :=
  if blen data <? 2 then Ret [] else
  let! d0 := bat data 0 in
  let! d1 := bat data 1 in
  let listLen := be16 d0 d1 in
  if blen data <? 2 + listLen then Ret [] else
  alpn_loop (S (length data)) data 2 (2 + listLen) [].

(** The [for pos+3 <= listEnd] loop of parseSNIExtension. *)
Fixpoint sni_loop (fuel : nat) (data : bytes) (pos listEnd : Z) : go (string * option sni_error) :=
  match fuel with
  | O => OutOfFuel
  | S fuel' =>
      if pos + 3 <=? listEnd then
        let! nameType := bat data pos in
        let! n1 := bat data (pos + 1) in
        let! n2 := bat data (pos + 2) in
        let nameLen := be16 n1 n2 in
        let pos := pos + 3 in
        if listEnd <? pos + nameLen then Ret ("", Some ErrTruncated) else
        if nameType =? 0 then
          let! name := bslice data pos (pos + nameLen) in
          let hostname := to_string name in
          if String.eqb hostname "" then Ret ("", Some ErrEmptySNI) else
          Ret (hostname, None)
        else sni_loop fuel' data (pos + nameLen) listEnd
      else Ret ("", Some ErrNoSNI)
  end.

Definition parseSNIExtension (data : bytes) : go (string * option sni_error) :=
  if blen data <? 2 then Ret ("", Some ErrTruncated) else
  let! d0 := bat data 0 in
  let! d1 := bat data 1 in
  let listLen := be16 d0 d1 in
  if blen data <? 2 + listLen then Ret ("", Some ErrTruncated) else
  sni_loop (S (length data)) data 2 (2 + listLen).

(** The extension loop of ParseClientHello, with the check on the hostname
    that follows it. *)
Fixpoint ext_loop (fuel : nat) (data : bytes) (pos end_ : Z) (hostname : string) (alpns : list string)
  : go hello_result :=
  match fuel with
  | O => OutOfFuel
  | S fuel' =>
      if pos + 4 <=? end_ then
        let! t1 := bat data pos in
        let! t2 := bat data (pos + 1) in
        let! l1 := bat data (pos + 2) in
        let! l2 := bat data (pos + 3) in
        let extType := be16 t1 t2 in
        let extDataLen := be16 l1 l2 in
        let pos := pos + 4 in
        if end_ <? pos + extDataLen then Ret ("", [], Some ErrTruncated) else
        let! body := bslice data pos (pos + extDataLen) in
        if extType =? 0x0000 then
          let! r := parseSNIExtension body in
          let hostname := match r with (h, None) => h | _ => hostname end in
          ext_loop fuel' data (pos + extDataLen) end_ hostname alpns
        else if extType =? 0x0010 then
          let! r := parseALPNExtension body in
          ext_loop fuel' data (pos + extDataLen) end_ hostname r
        else ext_loop fuel' data (pos + extDataLen) end_ hostname alpns
      else
        if String.eqb hostname "" then Ret ("", alpns, Some ErrNoSNI)
        else Ret (hostname, alpns, None)
  end.

(** The ClientHello body: version, random, session id, cipher suites,
    compression methods, extensions. *)
Definition parse_hello_body (data : bytes) : go hello_result :=
  if blen data <? 34 then Ret ("", [], Some ErrTruncated) else
  let pos := 34 in
  if blen data <=? pos then Ret ("", [], Some ErrTruncated) else
  let! sidLen := bat data pos in
  let pos := pos + 1 + sidLen in
  if blen data <? pos + 2 then Ret ("", [], Some ErrTruncated) else
  let! c1 := bat data pos in
  let! c2 := bat data (pos + 1) in
  let csLen := be16 c1 c2 in
  let pos := pos + (2 + csLen) in
  if blen data <=? pos then Ret ("", [], Some ErrTruncated) else
  let! cmLen := bat data pos in
  let pos := pos + (1 + cmLen) in
  if blen data <? pos + 2 then Ret ("", [], Some ErrNoSNI) else
  let! e1 := bat data pos in
  let! e2 := bat data (pos + 1) in
  let extLen := be16 e1 e2 in
  let pos := pos + 2 in
  let end_ := pos + extLen in
  if blen data <? end_ then Ret ("", [], Some ErrTruncated) else
  ext_loop (S (length data)) data pos end_ "" [].

(** The handshake header inside the record. *)
Definition parse_handshake (data : bytes) : go hello_result :=
  if blen data <? 4 then Ret ("", [], Some ErrTruncated) else
  let! d0 := bat data 0 in
  if negb (d0 =? 0x01) then Ret ("", [], Some ErrNotClientHello) else
  let! d1 := bat data 1 in
  let! d2 := bat data 2 in
  let! d3 := bat data 3 in
  let hsLen := be24 d1 d2 d3 in
  if blen data <? 4 + hsLen then Ret ("", [], Some ErrTruncated) else
  let! data := bslice data 4 (4 + hsLen) in
  parse_hello_body data.

(** The TLS record header. *)
Definition ParseClientHello (buf : bytes) : go hello_result :=
  if blen buf <? 5 then Ret ("", [], Some ErrTruncated) else
  let! b0 := bat buf 0 in
  if negb (b0 =? 0x16) then Ret ("", [], Some ErrNotTLS) else
  let! b3 := bat buf 3 in
  let! b4 := bat buf 4 in
  let recordLen := be16 b3 b4 in
  if blen buf <? 5 + recordLen then Ret ("", [], Some ErrTruncated) else
  let! data := bslice buf 5 (5 + recordLen) in
  parse_handshake data.

Definition Parse (buf : bytes) : go (string * option sni_error) :=
  let! r := ParseClientHello buf in
  let '(host, _, err) := r in
  Ret (host, err).

Fixpoint HasALPN (alpns : list string) (proto : string) : bool :=
  match alpns with
  | [] => false
  | p :: rest => if String.eqb p proto then true else HasALPN rest proto
  end.

(** * Safety: no panic, no divergence *)

(** One checked read, whose bounds the context gives. *)
Ltac bread x :=
  match goal with
  | |- context [bat ?b ?i] =>
      let E := fresh in
      destruct (bat_in b i) as (x & E & _); [lia|]; rewrite E; clear E; cbn [go_bind];
      pose proof (byte_val_range x)
  end.
Ltac bcut :=
  match goal with
  | |- context [bslice ?b ?lo ?hi] => rewrite (bslice_in b lo hi) by lia; cbn [go_bind]
  end.

Lemma alpn_loop_returns fuel data pos end_ out :
  0 <= pos → end_ <= blen data → end_ - pos < Z.of_nat fuel → (0 < fuel)%nat →
  returns (alpn_loop fuel data pos end_ out).
Proof.
  revert pos out. induction fuel as [|fuel IH]; [lia|]. intros pos out ?? Hf _.
  cbn [alpn_loop]. zcase; [|done]. zdec. bread x. zcase; [done|]. bcut.
  apply IH; lia.
Qed.

Lemma parseALPNExtension_returns data : returns (parseALPNExtension data).
Proof.
  unfold parseALPNExtension. zcase; [done|]. bread x. bread y. rewrite be16_arith by lia.
  zcase; [done|]. apply alpn_loop_returns; unfold blen in *; lia.
Qed.

Lemma sni_loop_returns fuel data pos listEnd :
  0 <= pos → listEnd <= blen data → listEnd - pos < Z.of_nat fuel → (0 < fuel)%nat →
  returns (sni_loop fuel data pos listEnd).
Proof.
  revert pos. induction fuel as [|fuel IH]; [lia|]. intros pos ?? Hf _.
  cbn [sni_loop]. zcase; [|done]. bread t. bread x. bread y. rewrite be16_arith by lia.
  zcase; [done|]. zcase.
  - bcut. by destruct (String.eqb _ _).
  - apply IH; lia.
Qed.

Lemma parseSNIExtension_returns data : returns (parseSNIExtension data).
Proof.
  unfold parseSNIExtension. zcase; [done|]. bread x. bread y. rewrite be16_arith by lia.
  zcase; [done|]. apply sni_loop_returns; unfold blen in *; lia.
Qed.

Lemma ext_loop_returns fuel data pos end_ hostname alpns :
  0 <= pos → end_ <= blen data → end_ - pos < Z.of_nat fuel → (0 < fuel)%nat →
  returns (ext_loop fuel data pos end_ hostname alpns).
Proof.
  revert pos hostname alpns. induction fuel as [|fuel IH]; [lia|].
  intros pos hostname alpns ?? Hf _. cbn [ext_loop]. zcase.
  - bread t1. bread t2. bread l1. bread l2. rewrite !be16_arith by lia.
    zcase; [done|]. bcut. zcase; [|zcase].
    + apply returns_bind; [apply parseSNIExtension_returns|]. intros r _. apply IH; lia.
    + apply returns_bind; [apply parseALPNExtension_returns|]. intros r _. apply IH; lia.
    + apply IH; lia.
  - by destruct (String.eqb _ _).
Qed.

Lemma parse_hello_body_returns data : returns (parse_hello_body data).
Proof.
  unfold parse_hello_body. cbv zeta. do 2 (zcase; [done|]). bread sid. zcase; [done|].
  bread c1. bread c2. rewrite be16_arith by lia. zcase; [done|]. bread cm. zcase; [done|].
  bread e1. bread e2. rewrite be16_arith by lia. zcase; [done|].
  apply ext_loop_returns; unfold blen in *; lia.
Qed.

Lemma parse_handshake_returns data : returns (parse_handshake data).
Proof.
  unfold parse_handshake. cbv zeta. zcase; [done|]. bread d0. destruct (negb _); [done|].
  bread d1. bread d2. bread d3. rewrite be24_arith by lia. zcase; [done|]. bcut.
  apply parse_hello_body_returns.
Qed.

Lemma ParseClientHello_returns buf : returns (ParseClientHello buf).
Proof.
  unfold ParseClientHello. cbv zeta. zcase; [done|]. bread b0. destruct (negb _); [done|].
  bread b3. bread b4. rewrite be16_arith by lia. zcase; [done|]. bcut.
  apply parse_handshake_returns.
Qed.

(** ParseClientHello is total: on every buffer it returns, without an
    out-of-range index or slice and without a loop that does not end. *)
Theorem ParseClientHello_total buf : returns (ParseClientHello buf).
Proof. apply ParseClientHello_returns. Qed.

(** * Reference: a structured ClientHello and its encoding *)

Record client_hello := {
  ch_version : bytes;       (* 2 bytes *)
  ch_random : bytes;        (* 32 bytes *)
  ch_session_id : bytes;
  ch_cipher_suites : bytes;
  ch_compression : bytes;
  ch_extensions : list (Z * bytes); (* type, body *)
}.

Definition encode_ext (e : Z * bytes) : bytes :=
  be_put 2 e.1 ++ be_put 2 (blen e.2) ++ e.2.

Definition encode_exts (es : list (Z * bytes)) : bytes := concat (map encode_ext es).

Definition encode_body (h : client_hello) : bytes :=
  (ch_version h ++ ch_random h) ++
  be_put 1 (blen (ch_session_id h)) ++ ch_session_id h ++
  be_put 2 (blen (ch_cipher_suites h)) ++ ch_cipher_suites h ++
  be_put 1 (blen (ch_compression h)) ++ ch_compression h ++
  be_put 2 (blen (encode_exts (ch_extensions h))) ++ encode_exts (ch_extensions h).

(** The handshake message, and the TLS record around it. *)
Definition encode_handshake (h : client_hello) : bytes :=
  x01 :: be_put 3 (blen (encode_body h)) ++ encode_body h.
Definition encode_record (h : client_hello) : bytes :=
  x16 :: x03 :: x01 :: be_put 2 (blen (encode_handshake h)) ++ encode_handshake h.

Definition wf_ext (e : Z * bytes) : Prop := 0 <= e.1 < 65536 ∧ blen e.2 < 65536.

Definition wf_hello (h : client_hello) : Prop :=
  blen (ch_version h) = 2 ∧ blen (ch_random h) = 32 ∧
  blen (ch_session_id h) < 256 ∧ blen (ch_cipher_suites h) < 65536 ∧
  blen (ch_compression h) < 256 ∧ Forall wf_ext (ch_extensions h) ∧
  blen (encode_handshake h) < 65536.

(** server_name (RFC 6066) and ALPN (RFC 7301) extension bodies. *)
Definition encode_server_name (ty : Z) (name : string) : bytes :=
  be_put 1 ty ++ be_put 2 (slen name) ++ of_string name.
Definition encode_sni_ext (names : list (Z * string)) : bytes :=
  let l := concat (map (fun n => encode_server_name n.1 n.2) names) in
  be_put 2 (blen l) ++ l.
Definition encode_alpn_name (name : string) : bytes := be_put 1 (slen name) ++ of_string name.
Definition encode_alpn_ext (names : list string) : bytes :=
  let l := concat (map encode_alpn_name names) in
  be_put 2 (blen l) ++ l.

(** What the extensions of a hello say: the last well-formed server_name and
    the last ALPN list. *)
Fixpoint scan_exts (es : list (Z * bytes)) (hostname : string) (alpns : list string) : string * list string :=
  match es with
  | [] => (hostname, alpns)
  | (t, d) :: es' =>
      if t =? 0 then
        match parseSNIExtension d with
        | Ret (h, None) => scan_exts es' h alpns
        | _ => scan_exts es' hostname alpns
        end
      else if t =? 16 then
        match parseALPNExtension d with
        | Ret a => scan_exts es' hostname a
        | _ => scan_exts es' hostname alpns
        end
      else scan_exts es' hostname alpns
  end.

Definition scan_result (r : string * list string) : hello_result :=
  if String.eqb r.1 "" then ("", r.2, Some ErrNoSNI) else (r.1, r.2, None).

(** A complete TLS handshake record: its five header bytes announce exactly the
    bytes that follow. *)
Definition complete_record (buf : bytes) : Prop :=
  ∃ v1 v2 l1 l2 body, buf = x16 :: v1 :: v2 :: l1 :: l2 :: body ∧
    blen body = be16 (byte_val l1) (byte_val l2).

(** * Functional correctness on encoded hellos *)

Lemma be_put_1 v : be_put 1 v = [byte_of_Z v].
Proof. unfold be_put. simpl. by rewrite Z.shiftr_0_r. Qed.

Lemma be_put_2 v : be_put 2 v = [byte_of_Z (Z.shiftr v 8); byte_of_Z v].
Proof. unfold be_put. simpl. by rewrite Z.shiftr_0_r. Qed.

Lemma be16_put v : 0 <= v < 65536 →
  be16 (byte_val (byte_of_Z (Z.shiftr v 8))) (byte_val (byte_of_Z v)) = v.
Proof.
  intros. rewrite !byte_val_of_Z, Z.shiftr_div_pow2 by lia.
  rewrite be16_arith by (apply Z.mod_pos_bound; lia). change (2 ^ 8) with 256.
  pose proof (Z.div_mod v 256 ltac:(lia)).
  rewrite (Z.mod_small (v / 256)) by (split; [apply Z.div_pos|apply Z.div_lt_upper_bound]; lia). lia.
Qed.

Lemma blen_be_put n v : blen (be_put n v) = Z.of_nat n.
Proof. unfold blen. by rewrite length_be_put. Qed.

#[local] Hint Rewrite blen_be_put blen_of_string : gobytes.

(** Reading a field of an encoding at a known offset. *)
Lemma read_put1 l v r data i :
  data = l ++ be_put 1 v ++ r → i = blen l → 0 <= v < 256 → bat data i = Ret v.
Proof.
  intros -> ??. rewrite be_put_1. simpl app. rewrite (bat_app l) by lia.
  by rewrite byte_val_of_Z, Z.mod_small.
Qed.

Lemma read_put2 l v r data i :
  data = l ++ be_put 2 v ++ r → i = blen l → 0 <= v < 65536 →
  ∃ x y, bat data i = Ret x ∧ bat data (i + 1) = Ret y ∧ be16 x y = v.
Proof.
  intros -> -> Hv. rewrite be_put_2. simpl app.
  exists (byte_val (byte_of_Z (Z.shiftr v 8))), (byte_val (byte_of_Z v)). split_and!.
  - by apply bat_app.
  - rewrite cons_middle, app_assoc. apply bat_app. by rewrite blen_app.
  - by apply be16_put.
Qed.

Lemma read_slice l k r data lo hi :
  data = l ++ k ++ r → lo = blen l → hi = blen l + blen k → bslice data lo hi = Ret k.
Proof. intros ->. apply bslice_app. Qed.

(** Side conditions of the three lemmas: an equation between concatenations,
    offsets, field ranges. *)
Ltac enc :=
  first [ by repeat match goal with d := _ |- _ => unfold d end; rewrite <- ?app_assoc
        | autorewrite with gobytes; lia ].
Ltac read1 l v r :=
  match goal with |- context [bat ?data ?i] =>
    rewrite (read_put1 l v r data i) by enc; cbn [go_bind] end.
Ltac read2 l v r i :=
  match goal with |- context [bat ?data i] =>
  let x := fresh "x" in let y := fresh "y" in
  let E1 := fresh in let E2 := fresh in let E := fresh in
  destruct (read_put2 l v r data i) as (x & y & E1 & E2 & E); [enc|enc|enc|];
  rewrite E1; cbn [go_bind]; rewrite E2; cbn [go_bind]; rewrite E; clear x y E1 E2 E end.
Ltac readn l k r :=
  match goal with |- context [bslice ?data ?lo ?hi] =>
    rewrite (read_slice l k r data lo hi) by enc; cbn [go_bind] end.

Ltac readcons :=
  repeat match goal with |- context [bat (?x :: ?r) (Zpos ?p)] =>
    let k := eval vm_compute in (Zpos p - 1) in
    replace (bat (x :: r) (Zpos p)) with (bat r k) by (symmetry; by apply bat_cons_S) end;
  rewrite ?bat_cons_0; cbn [go_bind].

Lemma ext_loop_encoded es : Forall wf_ext es → ∀ fuel pre post data hostname alpns,
  data = pre ++ encode_exts es ++ post → (length es < fuel)%nat →
  ext_loop fuel data (blen pre) (blen pre + blen (encode_exts es)) hostname alpns
  = Ret (scan_result (scan_exts es hostname alpns)).
Proof.
  induction 1 as [|[t d] es [Ht Hd] Hes IH]; intros fuel pre post data hostname alpns -> Hf;
    destruct fuel as [|fuel]; simpl in Hf; try lia; cbn [ext_loop].
  - change (blen (encode_exts [])) with 0. zdec. unfold scan_result. simpl. by destruct (String.eqb _ _).
  - cbn [fst snd] in *. pose proof (blen_nonneg d). pose proof (blen_nonneg (encode_exts es)).
    unfold encode_exts. cbn [map concat]. fold (encode_exts es). unfold encode_ext. cbn [fst snd].
    set (data := pre ++ _ ++ post). rewrite !blen_app, !blen_be_put. zdec.
    read2 pre t (be_put 2 (blen d) ++ d ++ encode_exts es ++ post) (blen pre).
    replace (blen pre + 3) with (blen pre + 2 + 1) by lia.
    read2 (pre ++ be_put 2 t) (blen d) (d ++ encode_exts es ++ post) (blen pre + 2).
    zdec.
    readn (pre ++ be_put 2 t ++ be_put 2 (blen d)) d (encode_exts es ++ post).
    assert (∀ h a, ext_loop fuel data (blen pre + 4 + blen d)
      (blen pre + (Z.of_nat 2 + (Z.of_nat 2 + blen d) + blen (encode_exts es))) h a
      = Ret (scan_result (scan_exts es h a))) as Hrest.
    { intros h a. rewrite <- (IH fuel (pre ++ be_put 2 t ++ be_put 2 (blen d) ++ d) post data h a);
        [|unfold data; by rewrite <- !app_assoc|lia].
      f_equal; autorewrite with gobytes; lia. }
    cbn [scan_exts]. zcase; [|zcase].
    + pose proof (parseSNIExtension_returns d) as [[h oe] ->]%returns_ret. cbn [go_bind].
      destruct oe; by rewrite Hrest.
    + pose proof (parseALPNExtension_returns d) as [a ->]%returns_ret. cbn [go_bind]. by rewrite Hrest.
    + by rewrite Hrest.
Qed.

Lemma length_exts es : (length es <= length (encode_exts es))%nat.
Proof.
  induction es as [|e es IH]; [simpl; lia|]. unfold encode_exts in *. cbn [map concat length].
  unfold encode_ext at 1. rewrite !length_app, !length_be_put. lia.
Qed.

Lemma parse_hello_body_encoded h :
  wf_hello h →
  parse_hello_body (encode_body h) = Ret (scan_result (scan_exts (ch_extensions h) "" [])).
Proof.
  intros (Hv & Hr & Hsid & Hcs & Hcm & Hes & Hlen).
  set (es := ch_extensions h) in *. set (sid := ch_session_id h) in *.
  set (cs := ch_cipher_suites h) in *. set (cm := ch_compression h) in *.
  set (vr := ch_version h ++ ch_random h).
  assert (blen vr = 34) as Hvr by (unfold vr; rewrite blen_app; lia).
  pose proof (blen_nonneg sid). pose proof (blen_nonneg cs). pose proof (blen_nonneg cm).
  pose proof (blen_nonneg (encode_exts es)).
  assert (encode_body h = vr ++ be_put 1 (blen sid) ++ sid ++ be_put 2 (blen cs) ++ cs ++
    be_put 1 (blen cm) ++ cm ++ be_put 2 (blen (encode_exts es)) ++ encode_exts es) as Hbody by done.
  assert (blen (encode_body h) = 34 + 1 + blen sid + 2 + blen cs + 1 + blen cm + 2 + blen (encode_exts es)) as Hb.
  { rewrite Hbody. autorewrite with gobytes. lia. }
  assert (blen (encode_exts es) < 65536) as Hesl.
  { unfold encode_handshake in Hlen. autorewrite with gobytes in Hlen. lia. }
  unfold parse_hello_body. cbv zeta. zdec. rewrite Hbody in *. clear Hbody.
  read1 vr (blen sid) (sid ++ be_put 2 (blen cs) ++ cs ++ be_put 1 (blen cm) ++ cm ++
    be_put 2 (blen (encode_exts es)) ++ encode_exts es).
  zdec. read2 (vr ++ be_put 1 (blen sid) ++ sid) (blen cs)
    (cs ++ be_put 1 (blen cm) ++ cm ++ be_put 2 (blen (encode_exts es)) ++ encode_exts es) (34 + 1 + blen sid).
  zdec.
  read1 (vr ++ be_put 1 (blen sid) ++ sid ++ be_put 2 (blen cs) ++ cs) (blen cm)
    (cm ++ be_put 2 (blen (encode_exts es)) ++ encode_exts es).
  zdec. read2 (vr ++ be_put 1 (blen sid) ++ sid ++ be_put 2 (blen cs) ++ cs ++ be_put 1 (blen cm) ++ cm)
    (blen (encode_exts es)) (encode_exts es) (34 + 1 + blen sid + (2 + blen cs) + (1 + blen cm)).
  zdec. set (data := vr ++ _).
  rewrite <- (ext_loop_encoded es Hes (S (length data)) (vr ++ be_put 1 (blen sid) ++ sid ++ be_put 2 (blen cs)
    ++ cs ++ be_put 1 (blen cm) ++ cm ++ be_put 2 (blen (encode_exts es))) [] data "" []).
  - f_equal; autorewrite with gobytes; lia.
  - rewrite app_nil_r. enc.
  - unfold data. rewrite !length_app. pose proof (length_exts es). lia.
Qed.

Lemma parse_handshake_encoded h :
  wf_hello h →
  parse_handshake (encode_handshake h) = Ret (scan_result (scan_exts (ch_extensions h) "" [])).
Proof.
  intros Hwf. pose proof Hwf as (_ & _ & _ & _ & _ & _ & Hlen). pose proof (blen_nonneg (encode_body h)).
  unfold parse_handshake, encode_handshake in *. set (n := blen (encode_body h)) in *.
  autorewrite with gobytes in *. fold n in Hlen. zdec.
  change (be_put 3 n) with [byte_of_Z (Z.shiftr n 16); byte_of_Z (Z.shiftr n 8); byte_of_Z (Z.shiftr n 0)].
  cbn [app]. readcons. rewrite Z.shiftr_0_r. change (negb (byte_val x01 =? 1)) with false. cbv iota.
  assert (be24 (byte_val (byte_of_Z (Z.shiftr n 16))) (byte_val (byte_of_Z (Z.shiftr n 8)))
    (byte_val (byte_of_Z n)) = n) as ->.
  { rewrite be24_arith by apply byte_val_range.
    pose proof (be16_put n ltac:(lia)) as E. rewrite be16_arith in E by apply byte_val_range.
    rewrite byte_val_of_Z, Z.shiftr_div_pow2, Z.div_small; [|lia|lia]. rewrite Z.mod_0_l by lia. lia. }
  zdec. rewrite (read_slice [x01; byte_of_Z (Z.shiftr n 16); byte_of_Z (Z.shiftr n 8); byte_of_Z n]
    (encode_body h) []); [|by rewrite app_nil_r|done|unfold n; autorewrite with gobytes; lia].
  by apply parse_hello_body_encoded.
Qed.

(** A record is parsed from its own bytes only: whatever follows is ignored. *)
Lemma ParseClientHello_record v1 v2 l1 l2 body extra :
  blen body = be16 (byte_val l1) (byte_val l2) →
  ParseClientHello (x16 :: v1 :: v2 :: l1 :: l2 :: body ++ extra) = parse_handshake body.
Proof.
  intros Hb. unfold ParseClientHello. pose proof (blen_nonneg body). pose proof (blen_nonneg extra).
  autorewrite with gobytes. zdec. readcons. rewrite <- Hb. cbv zeta.
  change (negb (byte_val x16 =? 22)) with false. cbv iota. zdec.
  rewrite (read_slice [x16; v1; v2; l1; l2] body extra); [done|done|done|].
  autorewrite with gobytes. lia.
Qed.

Lemma parse_encoded_record h extra :
  wf_hello h →
  ParseClientHello (encode_record h ++ extra) = Ret (scan_result (scan_exts (ch_extensions h) "" [])).
Proof.
  intros Hwf. rewrite <- (parse_handshake_encoded h Hwf). destruct Hwf as (_ & _ & _ & _ & _ & _ & Hlen).
  pose proof (blen_nonneg (encode_handshake h)). unfold encode_record. rewrite be_put_2. cbn [app].
  apply ParseClientHello_record. by rewrite be16_put.
Qed.

(** Parsing an encoded ClientHello returns what its extensions say: the
    last valid server_name and the last ALPN list, or ErrNoSNI when no
    extension gave a name; bytes after the record are ignored. *)
Theorem ParseClientHello_encoded h extra :
  wf_hello h →
  ParseClientHello (encode_record h ++ extra) = Ret (scan_result (scan_exts (ch_extensions h) "" [])).
Proof. apply parse_encoded_record. Qed.

Lemma parse_strict_prefix buf n :
  complete_record buf → (n < length buf)%nat → ParseClientHello (take n buf) = Ret ("", [], Some ErrTruncated).
Proof.
  intros (v1 & v2 & l1 & l2 & body & -> & Hb) Hn. do 5 (destruct n as [|n]; [done|]). cbn [take length] in *.
  unfold ParseClientHello. pose proof (blen_nonneg (take n body)).
  autorewrite with gobytes. zdec. readcons. rewrite <- Hb.
  change (negb (byte_val x16 =? 22)) with false. cbv iota zeta.
  assert (blen (take n body) < blen body) by (unfold blen; rewrite length_take; lia). by zdec.
Qed.

Lemma parse_extra buf extra :
  complete_record buf → ParseClientHello (buf ++ extra) = ParseClientHello buf.
Proof.
  intros (v1 & v2 & l1 & l2 & body & -> & Hb). cbn [app]. rewrite ParseClientHello_record by done.
  rewrite <- (app_nil_r body) at 2. by rewrite ParseClientHello_record.
Qed.

(** The record is what counts, not how TCP delivered it: on every strict
    prefix of a complete handshake record the parser asks for more
    (ErrTruncated), and once the record is complete, bytes read beyond it do
    not change the result. *)
Theorem ParseClientHello_segmentation buf :
  complete_record buf →
  (∀ n, (n < length buf)%nat → ParseClientHello (take n buf) = Ret ("", [], Some ErrTruncated)) ∧
  (∀ extra, ParseClientHello (buf ++ extra) = ParseClientHello buf).
Proof. split; intros; [by apply parse_strict_prefix|by apply parse_extra]. Qed.

(** * The two extensions the gateway reads *)

Lemma alpn_loop_encoded names : Forall (fun n => slen n < 256) names →
  ∀ fuel pre post data out,
  data = pre ++ concat (map encode_alpn_name names) ++ post → (length names < fuel)%nat →
  alpn_loop fuel data (blen pre) (blen pre + blen (concat (map encode_alpn_name names))) out
  = Ret (out ++ names).
Proof.
  induction 1 as [|n names Hn Hnames IH]; intros fuel pre post data out -> Hf;
    destruct fuel as [|fuel]; simpl in Hf; try lia; cbn [alpn_loop].
  - cbn [map concat]. rewrite blen_nil. zdec. by rewrite app_nil_r.
  - cbn [map concat]. set (rest := concat (map encode_alpn_name names)) in *. unfold encode_alpn_name.
    pose proof (blen_nonneg rest). assert (0 <= slen n) by (unfold slen; lia).
    set (data := pre ++ _). autorewrite with gobytes. zdec.
    read1 pre (slen n) (of_string n ++ rest ++ post). zdec.
    readn (pre ++ be_put 1 (slen n)) (of_string n) (rest ++ post). rewrite to_of_string.
    replace (out ++ n :: names) with ((out ++ [n]) ++ names) by (by rewrite <- app_assoc).
    rewrite <- (IH fuel (pre ++ be_put 1 (slen n) ++ of_string n) post data (out ++ [n]));
      [|unfold data; by rewrite <- !app_assoc|lia].
    f_equal; autorewrite with gobytes; lia.
Qed.

Lemma read_list_len (l : bytes) :
  blen l < 65536 →
  ∃ d0 d1, bat (be_put 2 (blen l) ++ l) 0 = Ret d0 ∧ bat (be_put 2 (blen l) ++ l) 1 = Ret d1 ∧
    be16 d0 d1 = blen l.
Proof. intros. pose proof (blen_nonneg l). by apply (read_put2 [] (blen l) l _ 0). Qed.

Lemma length_alpn_names names : (length names <= length (concat (map encode_alpn_name names)))%nat.
Proof.
  induction names as [|n names IH]; [simpl; lia|]. cbn [map concat length].
  unfold encode_alpn_name at 1. rewrite !length_app, !length_be_put. lia.
Qed.

Lemma parseALPNExtension_encoded names :
  Forall (fun n => slen n < 256) names → blen (concat (map encode_alpn_name names)) < 65536 →
  parseALPNExtension (encode_alpn_ext names) = Ret names.
Proof.
  intros Hn Hl. unfold parseALPNExtension, encode_alpn_ext.
  set (l := concat (map encode_alpn_name names)) in *. pose proof (blen_nonneg l).
  destruct (read_list_len l Hl) as (d0 & d1 & -> & -> & E). cbn [go_bind]. rewrite E.
  autorewrite with gobytes. zdec.
  change (Ret names) with (Ret ([] ++ names)).
  rewrite <- (alpn_loop_encoded names Hn (S (length (be_put 2 (blen l) ++ l))) (be_put 2 (blen l)) []
    (be_put 2 (blen l) ++ l) []).
  - fold l. by rewrite blen_be_put.
  - fold l. by rewrite app_nil_r.
  - rewrite length_app. pose proof (length_alpn_names names). unfold l. lia.
Qed.

(** The first host_name entry of a server_name list. *)
Fixpoint first_host_name (names : list (Z * string)) : string * option sni_error :=
  match names with
  | [] => ("", Some ErrNoSNI)
  | (t, n) :: rest =>
      if t =? 0 then (if String.eqb n "" then ("", Some ErrEmptySNI) else (n, None))
      else first_host_name rest
  end.

Definition server_names (names : list (Z * string)) : bytes :=
  concat (map (fun n => encode_server_name n.1 n.2) names).

Lemma sni_loop_encoded names : Forall (fun n => 0 <= n.1 < 256 ∧ slen n.2 < 65536) names →
  ∀ fuel pre post data,
  data = pre ++ server_names names ++ post → (length names < fuel)%nat →
  sni_loop fuel data (blen pre) (blen pre + blen (server_names names)) = Ret (first_host_name names).
Proof.
  induction 1 as [|[t n] names [Ht Hn] Hnames IH]; intros fuel pre post data -> Hf;
    destruct fuel as [|fuel]; simpl in Hf; try lia; cbn [sni_loop first_host_name].
  - unfold server_names. cbn [map concat]. rewrite blen_nil. by zdec.
  - cbn [fst snd] in *. unfold server_names. cbn [map concat]. cbn [fst snd]. fold (server_names names).
    unfold encode_server_name.
    pose proof (blen_nonneg (server_names names)). assert (0 <= slen n) by (unfold slen; lia).
    set (data := pre ++ _). autorewrite with gobytes. zdec.
    read1 pre t (be_put 2 (slen n) ++ of_string n ++ server_names names ++ post).
    replace (blen pre + 2) with (blen pre + 1 + 1) by lia.
    read2 (pre ++ be_put 1 t) (slen n) (of_string n ++ server_names names ++ post) (blen pre + 1).
    zdec. zcase.
    + readn (pre ++ be_put 1 t ++ be_put 2 (slen n)) (of_string n) (server_names names ++ post).
      rewrite to_of_string. by destruct (String.eqb n "").
    + rewrite <- (IH fuel (pre ++ be_put 1 t ++ be_put 2 (slen n) ++ of_string n) post data);
        [|unfold data; by rewrite <- !app_assoc|lia].
      f_equal; autorewrite with gobytes; lia.
Qed.

Lemma length_server_names names : (length names <= length (server_names names))%nat.
Proof.
  unfold server_names. induction names as [|n names IH]; [simpl; lia|]. cbn [map concat length].
  unfold encode_server_name at 1. rewrite !length_app, !length_be_put. lia.
Qed.

Lemma parseSNIExtension_encoded names :
  Forall (fun n => 0 <= n.1 < 256 ∧ slen n.2 < 65536) names → blen (server_names names) < 65536 →
  parseSNIExtension (encode_sni_ext names) = Ret (first_host_name names).
Proof.
  intros Hn Hl. unfold parseSNIExtension, encode_sni_ext. fold (server_names names).
  set (l := server_names names) in *. pose proof (blen_nonneg l).
  destruct (read_list_len l Hl) as (d0 & d1 & -> & -> & E). cbn [go_bind]. rewrite E.
  autorewrite with gobytes. zdec.
  rewrite <- (sni_loop_encoded names Hn (S (length (be_put 2 (blen l) ++ l))) (be_put 2 (blen l)) []
    (be_put 2 (blen l) ++ l)).
  - fold l. by rewrite blen_be_put.
  - fold l. by rewrite app_nil_r.
  - rewrite length_app. pose proof (length_server_names names). unfold l. lia.
Qed.

(** * Reference: the extensions of a hello and what they say *)

(** An extension as RFC 6066 and RFC 7301 define the two the gateway reads. *)
Inductive extension : Type :=
| ExtServerName (names : list (Z * string))
| ExtALPN (protos : list string)
| ExtOther (ty : Z) (body : bytes).

Definition encode_extension (e : extension) : Z * bytes :=
  match e with
  | ExtServerName names => (0, encode_sni_ext names)
  | ExtALPN protos => (16, encode_alpn_ext protos)
  | ExtOther ty body => (ty, body)
  end.

(** The types and lengths that are written as one byte fit in it. *)
Definition wf_extension (e : extension) : Prop :=
  match e with
  | ExtServerName names => Forall (fun n => 0 <= n.1 < 256) names
  | ExtALPN protos => Forall (fun n => slen n < 256) protos
  | ExtOther ty _ => ty ≠ 0 ∧ ty ≠ 16
  end.

(** The host a server_name extension names: the first entry of type host_name,
    unless it is empty. *)
Definition host_of (e : extension) : option string :=
  match e with
  | ExtServerName names => List.find (fun n => n.1 =? 0) names ≫= fun n => if String.eqb n.2 "" then None else Some n.2
  | _ => None
  end.
Definition protos_of (e : extension) : option (list string) :=
  match e with ExtALPN protos => Some protos | _ => None end.

(** The host and the protocols of a hello: those of the last extension that gives
    any (RFC 8446 allows one of each), wherever it stands among the others. *)
Definition hello_host (es : list extension) : option string := last (omap host_of es).
Definition hello_protos (es : list extension) : list string := default [] (last (omap protos_of es)).

Lemma first_host_name_find names :
  match first_host_name names with (h, None) => Some h | _ => None end = host_of (ExtServerName names).
Proof.
  cbn [host_of]. induction names as [|[t n] names IH]; [done|]. cbn [first_host_name List.find fst snd].
  zcase; [|done]. simpl. by destruct (String.eqb n "").
Qed.

Lemma server_names_bound names : Forall (fun n => slen n.2 <= blen (server_names names)) names.
Proof.
  unfold server_names. induction names as [|n names IH]; constructor.
  - cbn [map concat]. unfold encode_server_name at 1. rewrite !blen_app, blen_of_string.
    pose proof (blen_nonneg (be_put 1 n.1)). pose proof (blen_nonneg (be_put 2 (slen n.2))).
    pose proof (blen_nonneg (concat (map (fun n => encode_server_name n.1 n.2) names))). lia.
  - eapply Forall_impl; [exact IH|]. intros m Hm. cbv beta in Hm. cbn [map concat]. rewrite blen_app.
    pose proof (blen_nonneg (encode_server_name n.1 n.2)). lia.
Qed.

Lemma scan_extension e es h a :
  wf_extension e → wf_ext (encode_extension e) →
  scan_exts (encode_extension e :: es) h a = scan_exts es (default h (host_of e)) (default a (protos_of e)).
Proof.
  intros He [_ Hl]. destruct e as [names|protos|ty body]; cbn [encode_extension scan_exts wf_extension snd] in *.
  - change (0 =? 0) with true. cbv iota.
    assert (blen (server_names names) < 65536).
    { unfold encode_sni_ext in Hl. fold (server_names names) in Hl. rewrite blen_app, blen_be_put in Hl. lia. }
    rewrite parseSNIExtension_encoded; [|  |done].
    + rewrite <- first_host_name_find. by destruct (first_host_name names) as [? []].
    + pose proof (server_names_bound names) as Hb. rewrite Forall_forall in *. intros n Hn. split; [by apply He|].
      specialize (Hb n Hn). lia.
  - change (16 =? 0) with false. change (16 =? 16) with true. cbv iota. rewrite parseALPNExtension_encoded; [done..|].
    unfold encode_alpn_ext in Hl. rewrite blen_app, blen_be_put in Hl. lia.
  - destruct He. by zdec.
Qed.

Lemma scan_extensions es : Forall wf_extension es → Forall wf_ext (map encode_extension es) →
  ∀ h a, scan_exts (map encode_extension es) h a =
    (default h (hello_host es), default a (last (omap protos_of es))).
Proof.
  unfold hello_host. induction 1 as [|e es He Hes IH]; intros Hw h a; [done|].
  cbn [map] in *. apply Forall_cons in Hw as [Hw Hws]. rewrite scan_extension, IH by done. cbn [omap list_omap].
  f_equal.
  - destruct (host_of e) as [x|]; [|done]. rewrite last_cons. by destruct (last (omap host_of es)).
  - destruct (protos_of e) as [x|]; [|done]. rewrite last_cons. by destruct (last (omap protos_of es)).
Qed.

Lemma hello_host_nonempty es host : hello_host es = Some host → host ≠ "".
Proof.
  intros Hl%last_Some_elem_of. apply list_elem_of_omap in Hl as (e & _ & He). destruct e as [names| |]; try done.
  cbn [host_of] in He. destruct (List.find _ names) as [n|]; [|done]. cbn in He.
  destruct (String.eqb_spec n.2 ""); [done|]. by injection He as <-.
Qed.

(** C16: Round trip.  From the encoding of any well-formed ClientHello, with any
    extensions in any order, with or without a server name and protocols, and
    with any bytes after the record, the parser returns the host of its
    server_name extension and the protocols of its ALPN extension (none when
    there is no such extension; the last when there are several), and ErrNoSNI
    with the protocols when no extension names a host. *)
Theorem ParseClientHello_roundtrip h es extra :
  wf_hello h → ch_extensions h = map encode_extension es → Forall wf_extension es →
  ParseClientHello (encode_record h ++ extra) =
  Ret (match hello_host es with
       | Some host => (host, hello_protos es, None)
       | None => ("", hello_protos es, Some ErrNoSNI)
       end).
Proof.
  intros Hwf Hes Hx. rewrite parse_encoded_record, Hes by done.
  destruct Hwf as (_ & _ & _ & _ & _ & Hw & _). rewrite Hes in Hw. rewrite scan_extensions by done.
  unfold scan_result, hello_protos. cbn [fst snd]. pose proof (hello_host_nonempty es) as Hne.
  destruct (hello_host es) as [host|]; [|done]. change (default ""%string (Some host)) with host.
  destruct (String.eqb_spec host "") as [->|]; [|done]. by destruct (Hne ""%string eq_refl).
Qed.

Lemma HasALPN_spec alpns proto : HasALPN alpns proto = true ↔ proto ∈ alpns.
Proof.
  induction alpns as [|p alpns IH]; cbn [HasALPN]; [by split; [|intros ?%not_elem_of_nil]|].
  destruct (String.eqb_spec p proto) as [->|Hne].
  - split; [intros _; apply elem_of_cons; by left|done].
  - rewrite IH, elem_of_cons. naive_solver.
Qed.

(** * Concrete inputs *)

Definition ex_hello : client_hello := {|
  ch_version := [x03; x03];
  ch_random := replicate 32 x07;
  ch_session_id := [x01; x02];
  ch_cipher_suites := [x13; x01];
  ch_compression := [x00];
  ch_extensions :=
    [(43, [x02; x03; x04]); (0, encode_sni_ext [(0, "a.apps.privasys.org"%string)]);
     (16, encode_alpn_ext ["h2"%string; "privasys-ratls/1"%string])];
|}.

Lemma ex_hello_wf : wf_hello ex_hello.
Proof. repeat split; try by vm_compute. repeat constructor; by vm_compute. Qed.

Lemma ex_hello_complete : complete_record (encode_record ex_hello).
Proof.
  exists x03, x01, x00, (byte_of_Z (blen (encode_handshake ex_hello))), (encode_handshake ex_hello).
  by split; vm_compute.
Qed.

Lemma ParseClientHello_encoded_witness :
  ParseClientHello (encode_record ex_hello ++ [x14])
  = Ret ("a.apps.privasys.org"%string, ["h2"%string; "privasys-ratls/1"%string], None).
Proof. rewrite (ParseClientHello_encoded ex_hello [x14] ex_hello_wf). by vm_compute. Defined.

Lemma ParseClientHello_segmentation_witness :
  ParseClientHello (take 40 (encode_record ex_hello)) = Ret ("", [], Some ErrTruncated) ∧
  ParseClientHello (encode_record ex_hello ++ [x14; x03]) = ParseClientHello (encode_record ex_hello).
Proof.
  destruct (ParseClientHello_segmentation (encode_record ex_hello) ex_hello_complete) as [Hp He].
  split; [apply Hp; vm_compute; lia|apply He].
Defined.

(** Protocols before the server name, and extensions around them. *)
Definition ex_extensions : list extension :=
  [ExtALPN ["h2"%string; "privasys-ratls/1"%string]; ExtOther 43 [x02; x03; x04];
   ExtServerName [(1, "x"%string); (0, "a.apps.privasys.org"%string)]; ExtOther 10 []].
Definition ex_permuted : client_hello := {|
  ch_version := [x03; x03]; ch_random := replicate 32 x07; ch_session_id := []; ch_cipher_suites := [x13; x01];
  ch_compression := [x00]; ch_extensions := map encode_extension ex_extensions;
|}.

Lemma ParseClientHello_roundtrip_witness :
  ParseClientHello (encode_record ex_permuted ++ [x14])
  = Ret ("a.apps.privasys.org"%string, ["h2"%string; "privasys-ratls/1"%string], None).
Proof.
  apply (ParseClientHello_roundtrip ex_permuted ex_extensions [x14]).
  - repeat split; try (by vm_compute). repeat constructor; by vm_compute.
  - reflexivity.
  - repeat constructor; by vm_compute.
Defined.
