(* ===== verification/RouteTable.v ===== *)
(** internal/routetable: the routing table (src/internal/routetable/table.go).

    The atomic pointers of the Go table are the fields of [Table]; the two hooks
    are recorded as set or not, and [Update] returns the calls it makes to them,
    in order, after the new map is in place. *)
From Stdlib Require Import Strings.Ascii Strings.String Sorting.Sorted Sorting.Permutation.
From stdpp Require Import sorting.
From S2P Require Import Prelude GoBytes GoStrings GoRuntime Sha256.
Local Open Scope Z_scope.

(** * Routes *)

Record Route := {
  SNI : string;
  Upstream : string;
  AttestationPolicy : string; (* json.RawMessage, opaque bytes *)
  State : string;
  Canonical : string;
  Mode : string;
  ProxyProtocol : bool;
}.

#[export] Instance Route_eq_dec : EqDecision Route.
Proof. solve_decision. Defined.

Definition ModeDirect : string := "direct".
Definition ModeDirectPending : string := "direct-pending".
Definition StateQuarantined : string := "quarantined".

Definition IsDirect (r : Route) : bool := String.eqb (Mode r) ModeDirect.
Definition IsDirectPending (r : Route) : bool := String.eqb (Mode r) ModeDirectPending.
Definition IsAlias (r : Route) : bool :=
  negb (String.eqb (Canonical r) "") && negb (String.eqb (Canonical r) (SNI r)).
Definition UpstreamName (r : Route) : string := if IsAlias r then Canonical r else SNI r.
Definition Quarantined (r : Route) : bool := String.eqb (State r) StateQuarantined.

(** * The table *)

Record Table := {
  routes : gmap string Route;
  version : string;
  count : Z;
  quarantined : Z;
  onQuarantine : bool;
  onRetired : bool;
}.

(** A call to one of the hooks. *)
Inductive hook_call : Type :=
| CallQuarantine (host : string)
| CallRetired (old : Route).

Definition New : Table := {|
  routes := ∅; version := ""; count := 0; quarantined := 0; onQuarantine := false; onRetired := false;
|}.

Definition OnQuarantine (t : Table) : Table := {|
  routes := routes t; version := version t; count := count t; quarantined := quarantined t;
  onQuarantine := true; onRetired := onRetired t;
|}.

Definition OnRetired (t : Table) : Table := {|
  routes := routes t; version := version t; count := count t; quarantined := quarantined t;
  onQuarantine := onQuarantine t; onRetired := true;
|}.

Section table.
Context `{GoUnicode} `{GoRange} `{GoSort}.

Definition Lookup (t : Table) (sni : string) : option Route := routes t !! ToLower sni.

Definition LookupUpstream (t : Table) (sni : string) : string * bool :=
  match Lookup t sni with
  | Some r => (Upstream r, true)
  | None => ("", false)
  end.

(** The loop of Update over the feed: the new map and the quarantined count. *)
Definition build_step (acc : gmap string Route * Z) (r : Route) : gmap string Route * Z :=
  let q := if Quarantined r then acc.2 + 1 else acc.2 in
  (<[ToLower (SNI r) := r]> acc.1, q).
Definition build_map (rs : list Route) : gmap string Route * Z := fold_left build_step rs (∅, 0).

(** The hook loop over the new map: hosts that turn quarantined. *)
Definition quarantine_calls (prev m : gmap string Route) : list hook_call :=
  flat_map (fun '(host, r) =>
    if negb (Quarantined r) then [] else
    match prev !! host with
    | Some old => if negb (Quarantined old) then [CallQuarantine host] else []
    | None => []
    end) (range_map m).

(** What retires a route: its host left the table, or upstream, upstream name,
    mode or PROXY protocol changed. *)
Definition retires (old : Route) (cur : option Route) : bool :=
  match cur with
  | None => true
  | Some cur =>
      negb (String.eqb (Upstream cur) (Upstream old)) ||
      negb (String.eqb (UpstreamName cur) (UpstreamName old)) ||
      negb (String.eqb (Mode cur) (Mode old)) ||
      negb (Bool.eqb (ProxyProtocol cur) (ProxyProtocol old))
  end.

Definition retired_calls (prev m : gmap string Route) : list hook_call :=
  flat_map (fun '(host, old) =>
    if retires old (m !! host) then [CallRetired old] else []) (range_map prev).

(** The new table, whether it changed, and the hook calls in order. *)
Definition Update (t : Table) (rs : list Route) (v : string) : Table * bool * list hook_call :=
  if String.eqb (version t) v && negb (String.eqb v "") then (t, false, []) else
  let '(m, q) := build_map rs in
  let prev := routes t in
  let t' := {| routes := m; version := v; count := Z.of_nat (length rs); quarantined := q;
               onQuarantine := onQuarantine t; onRetired := onRetired t |} in
  let calls_q := if onQuarantine t && (0 <? q) then quarantine_calls prev m else [] in
  let calls_r := if onRetired t then retired_calls prev m else [] in
  (t', true, calls_q ++ calls_r).

Definition sni_less (a b : Route) : bool := str_less (SNI a) (SNI b).

Definition Snapshot (t : Table) : list Route := sort_slice sni_less (map snd (range_map (routes t))).

Definition Version (t : Table) : string := version t.
Definition Count (t : Table) : Z := count t.
Definition QuarantinedCount (t : Table) : Z := quarantined t.

(** The bytes ComputeVersion feeds to the hash for one route. *)
Definition version_line (r : Route) : string :=
  (SNI r ++ chars [0%nat] ++ Upstream r ++ chars [0%nat] ++ AttestationPolicy r
   ++ (if String.eqb (State r) "" then "" else chars [0%nat] ++ State r)
   ++ chars [10%nat])%string.

Definition hex_encode (b : bytes) : string := SJoin (map (fun x => hex_byte (byte_val x)) b) "".

(** Everything ComputeVersion writes to the hash. *)
Definition version_preimage (rs : list Route) : bytes :=
  of_string (SJoin (map version_line (sort_slice sni_less rs)) "").

Definition ComputeVersion (rs : list Route) : string :=
  ("sha256:" ++ hex_encode (sha256 (version_preimage rs)))%string.

End table.

(** * Lookup after Update: last write wins, case-insensitively *)

Section table_theorems.
Context `{GoUnicode} `{GoRange} `{GoSort}.

(** The feed entry a hostname resolves to: the last one with its key. *)
Definition last_for (rs : list Route) (key : string) : option Route :=
  last (filter (fun r => ToLower (SNI r) = key) rs).

Lemma build_map_snoc rs r : build_map (rs ++ [r]) = build_step (build_map rs) r.
Proof. unfold build_map. by rewrite fold_left_app. Qed.

Lemma build_map_lookup rs key : (build_map rs).1 !! key = last_for rs key.
Proof.
  unfold last_for. induction rs as [|r rs IH] using rev_ind; [done|].
  rewrite build_map_snoc, filter_app. unfold build_step. simpl.
  destruct (decide (ToLower (SNI r) = key)) as [<-|Hne].
  - rewrite lookup_insert_eq, filter_cons_True, filter_nil, last_snoc by done. done.
  - rewrite lookup_insert_ne, filter_cons_False, filter_nil, app_nil_r by done. apply IH.
Qed.

Lemma build_map_count rs :
  (build_map rs).2 = Z.of_nat (length (filter (fun r => Quarantined r = true) rs)).
Proof.
  induction rs as [|r rs IH] using rev_ind; [done|].
  rewrite build_map_snoc, filter_app, length_app. unfold build_step. simpl.
  destruct (Quarantined r) eqn:E.
  - rewrite filter_cons_True, filter_nil by done. simpl. lia.
  - rewrite filter_cons_False, filter_nil by congruence. simpl. lia.
Qed.

Lemma last_for_elem rs key r : last_for rs key = Some r → r ∈ rs ∧ ToLower (SNI r) = key.
Proof.
  unfold last_for. intros Hl. apply last_Some in Hl as [l' Hl].
  assert (r ∈ filter (fun r => ToLower (SNI r) = key) rs) as Hr by (rewrite Hl; set_solver).
  apply list_elem_of_filter in Hr. tauto.
Qed.

(** The guard [quarantined > 0] never hides a quarantined host. *)
Lemma build_map_quarantined rs key r :
  (build_map rs).1 !! key = Some r → Quarantined r = true → 0 < (build_map rs).2.
Proof.
  rewrite build_map_lookup, build_map_count. intros [Hr _]%last_for_elem Hq.
  assert (r ∈ filter (fun r => Quarantined r = true) rs) as Hin by (by apply list_elem_of_filter).
  destruct (filter _ rs); [by apply not_elem_of_nil in Hin|]. simpl. lia.
Qed.

Definition same_version (t : Table) (v : string) : bool :=
  String.eqb (version t) v && negb (String.eqb v "").

Lemma Update_same t rs v : same_version t v = true → Update t rs v = (t, false, []).
Proof. unfold Update, same_version. by intros ->. Qed.

Lemma Update_fresh t rs v :
  same_version t v = false →
  Update t rs v =
    ({| routes := (build_map rs).1; version := v; count := Z.of_nat (length rs);
        quarantined := (build_map rs).2; onQuarantine := onQuarantine t; onRetired := onRetired t |},
     true,
     (if onQuarantine t && (0 <? (build_map rs).2) then quarantine_calls (routes t) (build_map rs).1 else [])
     ++ (if onRetired t then retired_calls (routes t) (build_map rs).1 else [])).
Proof. unfold Update, same_version. intros ->. by destruct (build_map rs). Qed.

(** An update with a version the table already has leaves it alone and
    calls no hook; any other update makes every lookup, in any letter case,
    return the last feed entry with that hostname, and reports a change. *)
Theorem Update_Lookup t rs v sni :
  let '(t', changed, calls) := Update t rs v in
  changed = negb (same_version t v) ∧
  (if changed then
     Lookup t' sni = last_for rs (ToLower sni) ∧ Version t' = v ∧
     Count t' = Z.of_nat (length rs) ∧
     QuarantinedCount t' = Z.of_nat (length (filter (fun r => Quarantined r = true) rs))
   else t' = t ∧ calls = []).
Proof.
  destruct (same_version t v) eqn:E; [by rewrite Update_same|].
  rewrite Update_fresh by done. split; [done|]. unfold Lookup. simpl.
  by rewrite build_map_lookup, build_map_count.
Qed.

(** * The hooks *)

Context `{!GoRangeLaws}.

Lemma elem_of_quarantine_calls prev m c :
  c ∈ quarantine_calls prev m ↔
  ∃ host new old, c = CallQuarantine host ∧ m !! host = Some new ∧ prev !! host = Some old ∧
    Quarantined new = true ∧ Quarantined old = false.
Proof.
  unfold quarantine_calls. rewrite list_elem_of_In, in_flat_map. split.
  - intros ([host new] & Hin%list_elem_of_In & Hc). apply range_map_elem in Hin.
    destruct (Quarantined new) eqn:Hn; [|done]. simpl in Hc.
    destruct (prev !! host) as [old|] eqn:Hp; [|done].
    destruct (Quarantined old) eqn:Ho; [done|]. destruct Hc as [<-|[]].
    by exists host, new, old.
  - intros (host & new & old & -> & Hm & Hp & Hn & Ho). exists (host, new).
    split; [by apply list_elem_of_In, range_map_elem|]. rewrite Hn, Hp, Ho. by left.
Qed.

Lemma elem_of_retired_calls prev m c :
  c ∈ retired_calls prev m ↔
  ∃ host old, c = CallRetired old ∧ prev !! host = Some old ∧ retires old (m !! host) = true.
Proof.
  unfold retired_calls. rewrite list_elem_of_In, in_flat_map. split.
  - intros ([host old] & Hin%list_elem_of_In & Hc). apply range_map_elem in Hin.
    destruct (retires old (m !! host)) eqn:E; [|done]. destruct Hc as [<-|[]]. by exists host, old.
  - intros (host & old & -> & Hp & Hr). exists (host, old).
    split; [by apply list_elem_of_In, range_map_elem|]. rewrite Hr. by left.
Qed.

Lemma NoDup_flat_map_keyed {A} (f : string * A → list hook_call) (l : list (string * A)) :
  (∀ x, length (f x) ≤ 1)%nat →
  (∀ x y c, c ∈ f x → c ∈ f y → x.1 = y.1) →
  NoDup l.*1 → NoDup (flat_map f l).
Proof.
  intros Hlen Hkey. induction l as [|x l IH]; [constructor|]. cbn [fmap list_fmap flat_map].
  intros [Hx Hl]%NoDup_cons. apply NoDup_app. split_and!; [| |by apply IH].
  - specialize (Hlen x). destruct (f x) as [|c [|d r]]; [constructor|apply NoDup_singleton|simpl in Hlen; lia].
  - intros c Hc (y & Hy & Hcy)%list_elem_of_In%in_flat_map. apply list_elem_of_In in Hcy.
    apply Hx. rewrite (Hkey x y c Hc Hcy). apply list_elem_of_fmap. exists y. split; [done|by apply list_elem_of_In].
Qed.

Lemma NoDup_quarantine_calls prev m : NoDup (quarantine_calls prev m).
Proof.
  unfold quarantine_calls. apply NoDup_flat_map_keyed; [| |apply range_map_NoDup].
  - intros [host r]. destruct (negb (Quarantined r)); [simpl; lia|].
    destruct (prev !! host) as [old|]; [|simpl; lia]. destruct (negb (Quarantined old)); simpl; lia.
  - intros [h1 r1] [h2 r2] c. simpl.
    destruct (negb (Quarantined r1)); [by intros ?%not_elem_of_nil|].
    destruct (prev !! h1) as [o1|]; [|by intros ?%not_elem_of_nil].
    destruct (negb (Quarantined o1)); [|by intros ?%not_elem_of_nil].
    intros ->%list_elem_of_singleton.
    destruct (negb (Quarantined r2)); [by intros ?%not_elem_of_nil|].
    destruct (prev !! h2) as [o2|]; [|by intros ?%not_elem_of_nil].
    destruct (negb (Quarantined o2)); [|by intros ?%not_elem_of_nil].
    by intros [= ->]%list_elem_of_singleton.
Qed.

(** The quarantine hook runs for exactly the hosts an update turns from
    active to quarantined, once each, and before the retirement calls. *)
Theorem Update_quarantine_hook t rs v t' calls :
  onQuarantine t = true → Update t rs v = (t', true, calls) →
  ∃ cq cr, calls = cq ++ cr ∧ NoDup cq ∧
    (∀ c, c ∈ cr → ∃ old, c = CallRetired old) ∧
    (∀ c, c ∈ cq ↔ ∃ host new old, c = CallQuarantine host ∧
       routes t' !! host = Some new ∧ routes t !! host = Some old ∧
       Quarantined new = true ∧ Quarantined old = false).
Proof.
  intros Hq HU. destruct (same_version t v) eqn:E; [by rewrite Update_same in HU|].
  rewrite Update_fresh in HU by done. rewrite Hq in HU. injection HU as <- <-. simpl.
  set (m := (build_map rs).1).
  exists (if 0 <? (build_map rs).2 then quarantine_calls (routes t) m else []),
    (if onRetired t then retired_calls (routes t) m else []).
  split; [done|]. split_and!.
  - destruct (0 <? _); [apply NoDup_quarantine_calls|constructor].
  - intros c Hc. destruct (onRetired t); [|by apply not_elem_of_nil in Hc].
    apply elem_of_retired_calls in Hc as (? & old & -> & _). eauto.
  - intros c. zcase; [apply elem_of_quarantine_calls|]. split; [by intros ?%not_elem_of_nil|].
    intros (host & new & old & -> & Hm & _ & Hn & _).
    pose proof (build_map_quarantined rs host new Hm Hn). lia.
Qed.

(** The retirement hook is called with exactly the old routes that are
    gone or whose upstream, upstream name, mode or PROXY protocol changed; a
    route that only changed its policy or its state is kept. *)
Theorem Update_retired_hook t rs v t' calls old :
  onRetired t = true → Update t rs v = (t', true, calls) →
  CallRetired old ∈ calls ↔
  ∃ host, routes t !! host = Some old ∧
    match routes t' !! host with
    | None => True
    | Some cur =>
        Upstream cur ≠ Upstream old ∨ UpstreamName cur ≠ UpstreamName old ∨
        Mode cur ≠ Mode old ∨ ProxyProtocol cur ≠ ProxyProtocol old
    end.
Proof.
  intros Hr HU. destruct (same_version t v) eqn:E; [by rewrite Update_same in HU|].
  rewrite Update_fresh in HU by done. rewrite Hr in HU. injection HU as <- <-. simpl.
  set (m := (build_map rs).1). rewrite elem_of_app, elem_of_retired_calls.
  assert (∀ cur, retires old (Some cur) = true ↔
    Upstream cur ≠ Upstream old ∨ UpstreamName cur ≠ UpstreamName old ∨
    Mode cur ≠ Mode old ∨ ProxyProtocol cur ≠ ProxyProtocol old) as Hret.
  { intros cur. unfold retires. rewrite !orb_true_iff, !negb_true_iff, !String.eqb_neq, Bool.eqb_false_iff. tauto. }
  split.
  - intros [Hc|(host & o & [= ->] & Hp & Ho)].
    + destruct (_ && _); [|by apply not_elem_of_nil in Hc].
      by apply elem_of_quarantine_calls in Hc as (? & ? & ? & ? & _).
    + exists host. split; [done|]. destruct (m !! host); [by apply Hret|done].
  - intros (host & Hp & Hc). right. exists host, old. split_and!; [done..|].
    destruct (m !! host); [by apply Hret|done].
Qed.

(** * The table invariant *)

(** The quarantined entries of a table. *)
Definition quarantined_entries (m : gmap string Route) : gmap string Route :=
  filter (fun kr => Quarantined kr.2 = true) m.

(** Every entry sits under the lower-cased hostname it carries, and each of the
    two counters is at least the number of entries it counts. *)
Definition table_wf (t : Table) : Prop :=
  (∀ k r, routes t !! k = Some r → k = ToLower (SNI r)) ∧
  Z.of_nat (size (routes t)) <= Count t ∧
  Z.of_nat (size (quarantined_entries (routes t))) <= QuarantinedCount t.

(** The table of a feed: the last entry of each hostname, and the numbers of its
    entries and of its quarantined entries. *)
Definition table_of_feed (rs : list Route) (t : Table) : Prop :=
  (∀ key, routes t !! key = last_for rs key) ∧
  Count t = Z.of_nat (length rs) ∧
  QuarantinedCount t = Z.of_nat (length (filter (fun r => Quarantined r = true) rs)).

(** The tables the gateway can build. *)
Inductive table_reachable : Table → Prop :=
| reach_new : table_reachable New
| reach_on_quarantine t : table_reachable t → table_reachable (OnQuarantine t)
| reach_on_retired t : table_reachable t → table_reachable (OnRetired t)
| reach_update t rs v : table_reachable t → table_reachable (Update t rs v).1.1.

Lemma build_map_size rs : (size (build_map rs).1 ≤ length rs)%nat.
Proof.
  induction rs as [|r rs IH] using rev_ind; [done|].
  rewrite build_map_snoc, length_app. unfold build_step. simpl.
  rewrite map_size_insert. destruct (_ !! _); simpl; lia.
Qed.

Lemma build_map_quarantined_size rs :
  Z.of_nat (size (quarantined_entries (build_map rs).1)) <= (build_map rs).2.
Proof.
  unfold quarantined_entries. induction rs as [|r rs IH] using rev_ind; [done|].
  rewrite build_map_snoc. unfold build_step. simpl. destruct (Quarantined r) eqn:E.
  - rewrite map_filter_insert_True by done. rewrite map_size_insert. destruct (_ !! _); simpl; lia.
  - rewrite map_filter_insert_False by (simpl; congruence).
    rewrite map_filter_delete, map_size_delete. destruct (_ !! _); simpl; lia.
Qed.

Lemma New_wf : table_wf New.
Proof. by split_and!. Qed.

Lemma Update_wf t rs v : table_wf t → table_wf (Update t rs v).1.1.
Proof.
  intros Hwf. destruct (same_version t v) eqn:E; [by rewrite Update_same|].
  rewrite Update_fresh by done. unfold table_wf, Count, QuarantinedCount. simpl. split_and!.
  - intros k r. rewrite build_map_lookup. by intros [_ <-]%last_for_elem.
  - pose proof (build_map_size rs). lia.
  - apply build_map_quarantined_size.
Qed.

Lemma Update_table_of_feed t rs v :
  (Update t rs v).1.1 = t ∨ table_of_feed rs (Update t rs v).1.1.
Proof.
  destruct (same_version t v) eqn:E; [left; by rewrite Update_same|right].
  rewrite Update_fresh by done. split_and!; [intros key; apply build_map_lookup|done|apply build_map_count].
Qed.


(** * The computed version *)

Context `{!GoSortLaws}.

Lemma sni_sorted rs : StronglySorted (fun a b => sni_less b a = false) (sort_slice sni_less rs).
Proof.
  apply sort_slice_sorted; unfold sni_less; [intros ??; apply str_less_asym|intros ???; apply str_ge_trans].
Qed.

Lemma sorted_unique rs rs' :
  rs ≡ₚ rs' → NoDup (map SNI rs) →
  StronglySorted (fun a b => sni_less b a = false) rs →
  StronglySorted (fun a b => sni_less b a = false) rs' → rs = rs'.
Proof.
  intros Hp Hnd Hs Hs'.
  eapply (StronglySorted_unique_strong (fun a b => sni_less b a = false)); [|done..].
  intros a b Ha Hb. rewrite <- Hp in Hb. unfold sni_less. rewrite !str_ge_cases. intros Hab Hba.
  assert (SNI a = SNI b) as Heq.
  { destruct Hab as [?|Hab]; [done|]. destruct Hba as [?|Hba]; [done|].
    apply str_less_asym in Hab. congruence. }
  apply list_elem_of_lookup in Ha as [i Hi], Hb as [j Hj].
  assert (i = j) as ->; [|congruence].
  eapply (NoDup_lookup (map SNI rs)); [done| |];
    change (map SNI rs) with (SNI <$> rs); rewrite list_lookup_fmap; [by rewrite Hi|by rewrite Hj, Heq].
Qed.

(** The fields the version covers. *)
Definition same_version_fields (a b : Route) : Prop :=
  SNI a = SNI b ∧ Upstream a = Upstream b ∧ AttestationPolicy a = AttestationPolicy b ∧ State a = State b.

Lemma same_fields_sorted rs rs' :
  Forall2 same_version_fields rs rs' →
  StronglySorted (fun a b => sni_less b a = false) rs → StronglySorted (fun a b => sni_less b a = false) rs'.
Proof.
  intros HF. induction HF as [|a b rs rs' (Hs & _) HF IH]; intros Hst; [constructor|].
  apply StronglySorted_inv in Hst as [Hst Ha]. constructor; [by apply IH|].
  clear IH Hst. induction HF as [|x y rs rs' (Hs' & _) _ IH]; [constructor|].
  inversion_clear Ha. constructor; [|by apply IH]. unfold sni_less in *. by rewrite <- Hs, <- Hs'.
Qed.

Lemma version_lines_fields rs rs' :
  Forall2 same_version_fields rs rs' → map version_line rs = map version_line rs'.
Proof.
  induction 1 as [|a b rs rs' (E1 & E2 & E3 & E4) _ IH]; [done|]. simpl. rewrite IH. f_equal.
  unfold version_line. by rewrite E1, E2, E3, E4.
Qed.

Lemma ComputeVersion_same rs rs' rs'' :
  NoDup (map SNI rs) → Forall2 same_version_fields rs rs' → rs' ≡ₚ rs'' →
  ComputeVersion rs = ComputeVersion rs''.
Proof.
  intros Hnd HF Hp. unfold ComputeVersion, version_preimage.
  assert (Permutation rs (sort_slice sni_less rs)) as Hs by (by rewrite sort_slice_perm).
  destruct (Permutation_Forall2 Hs HF) as (srt & Hsrt & HF').
  assert (srt = sort_slice sni_less rs'') as Heq.
  { apply sorted_unique; [by rewrite sort_slice_perm, <- Hp| |by eapply same_fields_sorted, sni_sorted|apply sni_sorted].
    assert (map SNI srt = map SNI (sort_slice sni_less rs)) as ->.
    { clear -HF'. induction HF' as [|a b ? ? (E & _) _ IH]; [done|]. simpl. by rewrite E, IH. }
    by rewrite sort_slice_perm. }
  by rewrite (version_lines_fields _ _ HF'), Heq.
Qed.

(** The computed version depends on the hostname, upstream, policy and
    state of each route and on nothing else: not on the order of the feed (its
    hostnames being distinct), and not on canonical name, mode or PROXY
    protocol. *)
Theorem ComputeVersion_fields rs rs' rs'' :
  NoDup (map SNI rs) → Forall2 same_version_fields rs rs' → rs' ≡ₚ rs'' →
  ComputeVersion rs = ComputeVersion rs''.
Proof. apply ComputeVersion_same. Qed.

(** Snapshot lists exactly the routes of the table, ordered by hostname. *)
Lemma Snapshot_spec t :
  (∀ r, r ∈ Snapshot t ↔ ∃ host, routes t !! host = Some r) ∧
  length (Snapshot t) = size (routes t) ∧
  StronglySorted (fun a b => sni_less b a = false) (Snapshot t).
Proof.
  unfold Snapshot. split_and!.
  - intros r. rewrite sort_slice_perm. change (map snd (range_map (routes t))) with ((range_map (routes t)).*2).
    rewrite list_elem_of_fmap. split.
    + intros ([host r'] & -> & Hin). exists host. by apply range_map_elem.
    + intros [host Hr]. exists (host, r). split; [done|]. by apply range_map_elem.
  - rewrite sort_slice_perm, length_map. apply length_range_map.
  - apply sni_sorted.
Qed.

(** No NUL and no newline in the fields the version joins with them. *)
Definition clean_route (r : Route) : Prop :=
  Forall (fun s => sin (ascii_of_nat 0) s = false ∧ sin (ascii_of_nat 10) s = false)
    [SNI r; Upstream r; AttestationPolicy r; State r].

Definition version_body (r : Route) : string :=
  (SNI r ++ chars [0%nat] ++ Upstream r ++ chars [0%nat] ++ AttestationPolicy r
   ++ (if String.eqb (State r) "" then "" else chars [0%nat] ++ State r))%string.

Lemma version_line_body r : version_line r = (version_body r ++ String (ascii_of_nat 10) "")%string.
Proof. unfold version_line, version_body. by rewrite !sapp_assoc. Qed.

Lemma version_body_no_newline r : clean_route r → sin (ascii_of_nat 10) (version_body r) = false.
Proof.
  unfold clean_route. rewrite !Forall_cons. intros ((_ & E1) & (_ & E2) & (_ & E3) & (_ & E4) & _).
  unfold version_body. rewrite !sin_app, E1, E2, E3. simpl.
  destruct (String.eqb _ _); [done|]. by rewrite sin_app, E4.
Qed.

Lemma version_body_inj a b :
  clean_route a → clean_route b → version_body a = version_body b → same_version_fields a b.
Proof.
  unfold clean_route. rewrite !Forall_cons. intros ((A1 & _) & (A2 & _) & (A3 & _) & (A4 & _) & _)
    ((B1 & _) & (B2 & _) & (B3 & _) & (B4 & _) & _).
  unfold version_body. change (chars [0%nat]) with (String (ascii_of_nat 0) "").
  rewrite !sapp_cons, !sapp_nil_l. intros [E1 [E2 E3]%split_unique]%split_unique; [|done..].
  unfold same_version_fields. rewrite E1, E2.
  destruct (String.eqb_spec (State a) "") as [Ea|Ea], (String.eqb_spec (State b) "") as [Eb|Eb].
  - rewrite !sapp_nil_r in E3. by rewrite E3, Ea, Eb.
  - apply (f_equal (sin (ascii_of_nat 0))) in E3. by rewrite !sin_app, A3, B3 in E3.
  - apply (f_equal (sin (ascii_of_nat 0))) in E3. by rewrite !sin_app, A3, B3 in E3.
  - apply split_unique in E3 as [-> ->]; done.
Qed.

Lemma version_lines_inj rs rs' :
  Forall clean_route rs → Forall clean_route rs' →
  SJoin (map version_line rs) "" = SJoin (map version_line rs') "" → Forall2 same_version_fields rs rs'.
Proof.
  intros Hc. revert rs'. induction Hc as [|a rs Ha Hrs IH]; intros rs' Hc'; destruct Hc' as [|b rs' Hb Hrs'];
    cbn [map]; rewrite ?SJoin_cons_empty, ?version_line_body, ?sapp_assoc, ?sapp_cons, ?sapp_nil_l.
  - constructor.
  - intros E. apply (f_equal String.length) in E. rewrite slength_app in E. simpl in E. lia.
  - intros E. apply (f_equal String.length) in E. rewrite slength_app in E. simpl in E. lia.
  - intros [E1 E2]%split_unique; [|by apply version_body_no_newline..].
    constructor; [by apply version_body_inj|by apply IH].
Qed.

Definition unhex_pair (s : string) : option Z :=
  match s with
  | String a (String b "") =>
      match hex_val a, hex_val b with Some x, Some y => Some (16 * x + y) | _, _ => None end
  | _ => None
  end.

Lemma unhex_byte b : unhex_pair (hex_byte (byte_val b)) = Some (byte_val b).
Proof. by destruct b; vm_compute. Qed.

Lemma hex_encode_inj a b : hex_encode a = hex_encode b → a = b.
Proof.
  unfold hex_encode. revert b. induction a as [|x a IH]; intros [|y b]; cbn [map]; rewrite ?SJoin_cons_empty; try done.
  intros E. assert (hex_byte (byte_val x) = hex_byte (byte_val y) ∧
    SJoin (map (fun x => hex_byte (byte_val x)) a) "" = SJoin (map (fun x => hex_byte (byte_val x)) b) "") as [Ex Er].
  { unfold hex_byte in *. rewrite !sapp_cons, !sapp_nil_l in E. by injection E as -> -> ->. }
  apply (f_equal unhex_pair) in Ex. rewrite !unhex_byte in Ex. injection Ex as Ex%byte_val_inj.
  by rewrite Ex, (IH b Er).
Qed.

(** The computed version identifies the feed: two feeds (without NUL or
    newline in their fields) with the same version list the same hostnames,
    upstreams, policies and states, or else the two byte strings hashed for
    them are a SHA-256 collision. *)
Theorem ComputeVersion_identifies rs rs' :
  Forall clean_route rs → Forall clean_route rs' →
  ComputeVersion rs = ComputeVersion rs' →
  Forall2 same_version_fields (sort_slice sni_less rs) (sort_slice sni_less rs') ∨
  (version_preimage rs ≠ version_preimage rs' ∧
   sha256 (version_preimage rs) = sha256 (version_preimage rs')).
Proof.
  intros Hc Hc' HV. unfold ComputeVersion in HV. rewrite !sapp_cons, !sapp_nil_l in HV.
  injection HV as HV%hex_encode_inj.
  destruct (decide (version_preimage rs = version_preimage rs')) as [Hp|Hp]; [left|by right].
  apply (f_equal to_string) in Hp. unfold version_preimage in Hp. rewrite !to_of_string in Hp.
  apply version_lines_inj; [by rewrite sort_slice_perm..|done].
Qed.

End table_theorems.

(** * Concrete inputs *)

Definition ex_route (sni up state : string) : Route := {|
  SNI := sni; Upstream := up; AttestationPolicy := ""; State := state; Canonical := ""; Mode := "";
  ProxyProtocol := false;
|}.

Module RouteTableExamples.
#[export] Existing Instances ascii_unicode ascii_unicode_laws map_range map_range_laws
  insertion_sort insertion_sort_laws.
End RouteTableExamples.

Section witnesses.
Import RouteTableExamples.

Definition ex_table : Table :=
  (Update (OnRetired (OnQuarantine New))
     [ex_route "App.example.org" "10.0.0.1:443" ""; ex_route "b.example.org" "10.0.0.2:443" ""] "v1").1.1.

Definition ex_feed : list Route := [ex_route "app.example.org" "10.0.0.1:443" "quarantined"].
Definition ex_update : Table * bool * list hook_call := Update ex_table ex_feed "v2".

Lemma ex_update_eq : Update ex_table ex_feed "v2" = (ex_update.1.1, true, ex_update.2).
Proof. by vm_compute. Qed.

Lemma Update_quarantine_hook_witness : CallQuarantine "app.example.org" ∈ ex_update.2.
Proof.
  destruct (Update_quarantine_hook ex_table ex_feed "v2" ex_update.1.1 ex_update.2 eq_refl ex_update_eq)
    as (cq & cr & Hc & _ & _ & Hq).
  rewrite Hc. apply elem_of_app. left. apply Hq.
  exists "app.example.org"%string, (ex_route "app.example.org" "10.0.0.1:443" "quarantined"),
    (ex_route "App.example.org" "10.0.0.1:443" "").
  split_and!; vm_compute; reflexivity.
Defined.

Lemma Update_retired_hook_witness : CallRetired (ex_route "b.example.org" "10.0.0.2:443" "") ∈ ex_update.2.
Proof.
  apply (Update_retired_hook ex_table ex_feed "v2" ex_update.1.1 ex_update.2 _ eq_refl ex_update_eq).
  exists "b.example.org"%string. split; vm_compute; [reflexivity|exact I].
Defined.


Lemma ComputeVersion_fields_witness :
  ComputeVersion [ex_route "a" "1" ""; ex_route "b" "2" ""] =
  ComputeVersion [ex_route "b" "2" "";
    {| SNI := "a"; Upstream := "1"; AttestationPolicy := ""; State := ""; Canonical := "c"; Mode := "direct";
       ProxyProtocol := true |}].
Proof.
  apply (ComputeVersion_fields _ [{| SNI := "a"; Upstream := "1"; AttestationPolicy := ""; State := "";
    Canonical := "c"; Mode := "direct"; ProxyProtocol := true |}; ex_route "b" "2" ""]).
  - apply (bool_decide_unpack _). by vm_compute.
  - repeat constructor.
  - constructor.
Defined.

Lemma ComputeVersion_identifies_witness :
  Forall2 same_version_fields
    (sort_slice sni_less [ex_route "a" "1" ""]) (sort_slice sni_less [ex_route "a" "1" ""]) ∨
  (version_preimage [ex_route "a" "1" ""] ≠ version_preimage [ex_route "a" "1" ""] ∧
   sha256 (version_preimage [ex_route "a" "1" ""]) = sha256 (version_preimage [ex_route "a" "1" ""])).
Proof. apply (ComputeVersion_identifies [ex_route "a" "1" ""] [ex_route "a" "1" ""]); [repeat constructor..|done]. Defined.

End witnesses.
