(* ===== verification/Tracker.v ===== *)
(** internal/quarantine/tracker.go: the open traffic per hostname.

    A tracked entry's close function is represented by the number of the
    connection or stream it tears down; [CutHost] returns the entries whose
    close functions it starts.  A nil *Tracker is [None]. *)
From Stdlib Require Import Strings.String.
From S2P Require Import Prelude GoBytes GoStrings GoRuntime.
Local Open Scope Z_scope.

Definition KindSplice : string := "splice".
Definition KindHTTP : string := "http".
Definition KindWebSocket : string := "websocket".
Definition KindSealedWS : string := "sealed_ws".

Record tracked := { kind : string; close : nat }.

Record Tracker := {
  next : Z; (* uint64 *)
  hosts : gmap string (gmap Z tracked);
}.

Definition NewTracker : Tracker := {| next := 0; hosts := ∅ |}.

(** The closure Track returns: the host and id it captured and its sync.Once. *)
Record release := { rel_host : string; rel_id : Z; rel_done : bool }.

Section tracker.
Context `{GoUnicode} `{GoRange}.

Definition Track (t : Tracker) (host kind_ : string) (closeFn : nat) : Tracker * release :=
  let host := ToLower host in
  let id := wrap 64 (next t + 1) in
  let m := match hosts t !! host with Some m => m | None => ∅ end in
  ({| next := id; hosts := <[host := <[id := {| kind := kind_; close := closeFn |}]> m]> (hosts t) |},
   {| rel_host := host; rel_id := id; rel_done := false |}).

(** Calling the release closure. *)
Definition Release (t : Tracker) (r : release) : Tracker * release :=
  if rel_done r then (t, r) else
  let r' := {| rel_host := rel_host r; rel_id := rel_id r; rel_done := true |} in
  match hosts t !! rel_host r with
  | None => (t, r')
  | Some m =>
      let m := delete (rel_id r) m in
      ({| next := next t;
          hosts := if decide (size m = 0%nat) then delete (rel_host r) (hosts t)
                   else <[rel_host r := m]> (hosts t) |}, r')
  end.

Definition Open (t : Tracker) (host : string) : Z :=
  match hosts t !! ToLower host with Some m => Z.of_nat (size m) | None => 0 end.

(** The entries cut, in the order their close functions start, and their number. *)
Definition CutHost (t : Tracker) (host : string) : Tracker * list (Z * tracked) * Z :=
  let host := ToLower host in
  let m := match hosts t !! host with Some m => m | None => ∅ end in
  ({| next := next t; hosts := delete host (hosts t) |}, range_map m, Z.of_nat (size m)).

(** The methods on a possibly nil *Tracker. *)
Definition TrackOpt (t : option Tracker) (host kind_ : string) (closeFn : nat) : option Tracker * option release :=
  match t with
  | None => (None, None)
  | Some t => let '(t', r) := Track t host kind_ closeFn in (Some t', Some r)
  end.
Definition ReleaseOpt (t : option Tracker) (r : option release) : option Tracker * option release :=
  match t, r with
  | Some t, Some r => let '(t', r') := Release t r in (Some t', Some r')
  | _, _ => (t, r)
  end.
Definition CutHostOpt (t : option Tracker) (host : string) : option Tracker * list (Z * tracked) * Z :=
  match t with
  | None => (None, [], 0)
  | Some t => let '(t', cut, n) := CutHost t host in (Some t', cut, n)
  end.

(** * Specification: what is tracked *)

(** The entry under (host, id), for a lower-cased host. *)
Definition entry (t : Tracker) (host : string) (id : Z) : option tracked :=
  match hosts t !! host with Some m => m !! id | None => None end.

(** Ids lie in 1..next, no inner map is empty. *)
Definition tracker_wf (t : Tracker) : Prop :=
  0 <= next t < 2 ^ 64 ∧
  (∀ host m, hosts t !! host = Some m → m ≠ ∅) ∧
  (∀ host id e, entry t host id = Some e → 1 <= id <= next t).

Lemma entry_Track t host k c h i :
  next t + 1 < 2 ^ 64 → 0 <= next t →
  entry (Track t host k c).1 h i =
  if decide (h = ToLower host ∧ i = next t + 1) then Some {| kind := k; close := c |} else entry t h i.
Proof.
  intros Hn Hpos. unfold entry, Track, wrap. simpl. rewrite Z.mod_small by lia.
  destruct (decide (h = ToLower host)) as [->|Hh].
  - rewrite lookup_insert_eq. destruct (decide (i = next t + 1)) as [->|Hi].
    + rewrite lookup_insert_eq. by rewrite decide_True.
    + rewrite lookup_insert_ne, decide_False by naive_solver. by destruct (hosts t !! ToLower host).
  - rewrite lookup_insert_ne, decide_False by naive_solver. done.
Qed.

Lemma entry_Release t r h i :
  entry (Release t r).1 h i =
  if decide (rel_done r = false ∧ h = rel_host r ∧ i = rel_id r) then None else entry t h i.
Proof.
  unfold entry, Release. destruct (rel_done r); [by rewrite decide_False by naive_solver|].
  destruct (hosts t !! rel_host r) as [m|] eqn:Em; simpl.
  - case_decide as Hs.
    + destruct (decide (h = rel_host r)) as [->|Hh].
      * rewrite lookup_delete_eq, Em. case_decide; [done|].
        apply map_size_empty_inv in Hs. destruct (decide (i = rel_id r)); [naive_solver|].
        rewrite <- (lookup_delete_ne m (rel_id r) i) by done. by rewrite Hs.
      * rewrite lookup_delete_ne, decide_False by naive_solver. done.
    + destruct (decide (h = rel_host r)) as [->|Hh].
      * rewrite lookup_insert_eq, Em. destruct (decide (i = rel_id r)) as [->|].
        -- rewrite lookup_delete_eq. by rewrite decide_True.
        -- rewrite lookup_delete_ne, decide_False by naive_solver. done.
      * rewrite lookup_insert_ne, decide_False by naive_solver. done.
  - case_decide as Hd; [|done]. destruct Hd as (_ & -> & ->). by rewrite Em.
Qed.

Lemma entry_CutHost t host h i :
  entry (CutHost t host).1.1 h i = if decide (h = ToLower host) then None else entry t h i.
Proof.
  unfold entry, CutHost. simpl. case_decide as Hd; [subst; by rewrite lookup_delete_eq|].
  by rewrite lookup_delete_ne.
Qed.

Context `{!GoRangeLaws}.

Lemma elem_of_cut t host id e : (id, e) ∈ (CutHost t host).1.2 ↔ entry t (ToLower host) id = Some e.
Proof.
  unfold entry, CutHost. simpl. rewrite range_map_elem. by destruct (hosts t !! ToLower host).
Qed.

(** * Well-formedness is preserved *)

Lemma NewTracker_wf : tracker_wf NewTracker.
Proof. split_and!; [done|done| |]; by intros. Qed.

Lemma Track_wf t host k c : tracker_wf t → next t + 1 < 2 ^ 64 → tracker_wf (Track t host k c).1.
Proof.
  intros (Hn & Hm & He) Hroom. split_and!.
  - unfold Track, wrap. simpl. rewrite Z.mod_small by lia. lia.
  - unfold Track, wrap. simpl. rewrite Z.mod_small by lia. lia.
  - intros h m. unfold Track. simpl. rewrite lookup_insert. case_decide; [|by apply Hm].
    intros [= <-]. apply insert_non_empty.
  - intros h i e. rewrite entry_Track by lia. unfold Track, wrap. simpl. rewrite Z.mod_small by lia.
    case_decide; [intros _; lia|]. intros ?%He. lia.
Qed.

Lemma Release_wf t r : tracker_wf t → tracker_wf (Release t r).1.
Proof.
  intros (Hn & Hm & He). assert (next (Release t r).1 = next t) as Hnext.
  { unfold Release. destruct (rel_done r); [done|]. by destruct (hosts t !! _). }
  split_and!; [rewrite Hnext; lia..| |].
  - intros h m. unfold Release. destruct (rel_done r); [apply Hm|].
    destruct (hosts t !! rel_host r) as [m'|]; [|apply Hm]. simpl. case_decide as Hs.
    + intros [_ ?]%lookup_delete_Some. by eapply Hm.
    + rewrite lookup_insert. case_decide; [|apply Hm]. intros [= <-] E.
      by rewrite E, map_size_empty in Hs.
  - intros h i e. rewrite Hnext, entry_Release. case_decide; [done|]. apply He.
Qed.

Lemma CutHost_wf t host : tracker_wf t → tracker_wf (CutHost t host).1.1.
Proof.
  intros (Hn & Hm & He). split_and!; [simpl; lia..| |].
  - intros h m. simpl. intros [_ ?]%lookup_delete_Some. by eapply Hm.
  - intros h i e. rewrite entry_CutHost. case_decide; [done|]. apply He.
Qed.

(** * Refinement: the two-level map implements one map from ids to entries *)

(** The abstract tracker: each live id with its lower-cased host and its entry. *)
Abbreviation abs_tracker := (gmap Z (string * tracked)).

Definition tracker_sim (t : Tracker) (A : abs_tracker) : Prop :=
  ∀ h i e, entry t h i = Some e ↔ A !! i = Some (h, e).

Lemma Track_sim t A host k c :
  tracker_wf t → tracker_sim t A → next t + 1 < 2 ^ 64 →
  let '(t', r) := Track t host k c in
  A !! rel_id r = None ∧ tracker_wf t' ∧
  tracker_sim t' (<[rel_id r := (ToLower host, {| kind := k; close := c |})]> A).
Proof.
  intros Hwf Hsim Hroom. pose proof Hwf as (Hn & _ & He). pose proof (Track_wf t host k c Hwf Hroom) as Hwf'.
  pose proof (entry_Track t host k c) as HE. destruct (Track t host k c) as [t' r] eqn:ET.
  assert (rel_id r = next t + 1) as ->.
  { unfold Track, wrap in ET. rewrite Z.mod_small in ET by lia. by injection ET as _ <-. }
  assert (A !! (next t + 1) = None) as Hfresh.
  { destruct (A !! (next t + 1)) as [[h e]|] eqn:EA; [|done]. apply Hsim, He in EA. lia. }
  split_and!; [done|done|]. intros h i e. simpl in HE. rewrite HE by lia. rewrite lookup_insert.
  destruct (decide (next t + 1 = i)) as [<-|Hi].
  - destruct (decide (h = ToLower host)) as [->|Hh].
    + rewrite decide_True by done. naive_solver.
    + rewrite decide_False by naive_solver. rewrite (Hsim h (next t + 1) e), Hfresh. naive_solver.
  - rewrite decide_False by naive_solver. apply Hsim.
Qed.

Lemma Release_twice t r : let '(t', r') := Release t r in Release t' r' = (t', r').
Proof.
  destruct (Release t r) as [t' r'] eqn:ER. assert (rel_done r' = true) as Hd.
  { unfold Release in ER. destruct (rel_done r) eqn:Ed; [by injection ER as <- <-|].
    destruct (hosts t !! rel_host r); by injection ER as <- <-. }
  unfold Release. by rewrite Hd.
Qed.

Lemma Release_sim t A r :
  tracker_sim t A → (∀ h e, A !! rel_id r = Some (h, e) → h = rel_host r) →
  tracker_sim (Release t r).1 (if rel_done r then A else delete (rel_id r) A).
Proof.
  intros Hsim Hr h i e. rewrite entry_Release. destruct (rel_done r) eqn:Ed.
  { rewrite decide_False by naive_solver. apply Hsim. }
  rewrite lookup_delete. destruct (decide (rel_id r = i)) as [<-|Hi].
  - case_decide as Hd; [naive_solver|]. split; [|done]. intros Hh. exfalso.
    apply Hd. split_and!; [done| |done]. apply Hsim in Hh. by eapply Hr.
  - rewrite decide_False by naive_solver. apply Hsim.
Qed.

Lemma CutHost_sim t A host :
  tracker_sim t A →
  let '(t', cut, n) := CutHost t host in
  tracker_sim t' (filter (fun x => x.2.1 ≠ ToLower host) A) ∧
  n = Z.of_nat (length cut) ∧ NoDup cut.*1 ∧
  (∀ i e, (i, e) ∈ cut ↔ A !! i = Some (ToLower host, e)).
Proof.
  intros Hsim. pose proof (entry_CutHost t host) as HE. pose proof (elem_of_cut t host) as HC.
  destruct (CutHost t host) as [[t' cut] n] eqn:EC. simpl in *.
  unfold CutHost in EC. injection EC as _ Ecut En. split_and!.
  - intros h i e. rewrite HE, map_lookup_filter_Some. simpl. rewrite <- (Hsim h i e). case_decide; naive_solver.
  - by rewrite <- En, <- Ecut, length_range_map.
  - rewrite <- Ecut. apply range_map_NoDup.
  - intros i e. rewrite HC. apply Hsim.
Qed.

(** C18: The tracker implements the abstract map of live ids.  Track adds
    one entry under an id no live or past entry has; calling the release of an
    entry removes that entry and no other, and nothing the second time;
    CutHost removes exactly the entries of its host, whatever the letter case
    it is given in, and returns each of them once, with their number. *)
Theorem tracker_refines t A :
  tracker_wf t → tracker_sim t A →
  (∀ host k c, next t + 1 < 2 ^ 64 →
     let '(t', r) := Track t host k c in
     A !! rel_id r = None ∧ tracker_wf t' ∧
     tracker_sim t' (<[rel_id r := (ToLower host, {| kind := k; close := c |})]> A)) ∧
  (∀ r, (∀ h e, A !! rel_id r = Some (h, e) → h = rel_host r) →
     let '(t', r') := Release t r in
     tracker_wf t' ∧ tracker_sim t' (if rel_done r then A else delete (rel_id r) A) ∧
     Release t' r' = (t', r')) ∧
  (∀ host,
     let '(t', cut, n) := CutHost t host in
     tracker_wf t' ∧ tracker_sim t' (filter (fun x => x.2.1 ≠ ToLower host) A) ∧
     n = Z.of_nat (length cut) ∧ NoDup cut.*1 ∧
     (∀ i e, (i, e) ∈ cut ↔ A !! i = Some (ToLower host, e))).
Proof.
  intros Hwf Hsim. split_and!; [by intros; apply Track_sim| |].
  - intros r Hr. pose proof (Release_wf t r Hwf). pose proof (Release_sim t A r Hsim Hr).
    pose proof (Release_twice t r). by destruct (Release t r).
  - intros host. pose proof (CutHost_wf t host Hwf). pose proof (CutHost_sim t A host Hsim).
    by destruct (CutHost t host) as [[??]?].
Qed.

End tracker.

(** * Concrete inputs *)

Section witnesses.
#[local] Existing Instances ascii_unicode map_range map_range_laws.

Definition ex_tracker : Tracker := (Track NewTracker "App.example.org" KindSplice 7).1.

Lemma ex_tracker_sim : tracker_wf NewTracker ∧ tracker_sim NewTracker ∅.
Proof.
  split; [split; [done|split]|].
  - intros host m Hm. simpl in Hm. by rewrite lookup_empty in Hm.
  - intros host id e He. unfold entry in He. simpl in He. by rewrite lookup_empty in He.
  - intros i h e. unfold entry. simpl. by rewrite !lookup_empty.
Qed.

Lemma tracker_refines_witness :
  let '(t', cut, n) := CutHost ex_tracker "APP.example.org" in
  n = Z.of_nat (length cut) ∧ (1, {| kind := KindSplice; close := 7 |}) ∈ cut.
Proof.
  destruct ex_tracker_sim as [Hwf Hsim].
  destruct (tracker_refines NewTracker ∅ Hwf Hsim) as (Ht & _).
  specialize (Ht "App.example.org" KindSplice 7%nat).
  assert (E : Track NewTracker "App.example.org" KindSplice 7 =
    (ex_tracker, {| rel_host := "app.example.org"; rel_id := 1; rel_done := false |})) by (vm_compute; reflexivity).
  rewrite E in Ht. destruct Ht as (_ & Hwf' & Hsim'); [done|].
  destruct (tracker_refines ex_tracker _ Hwf' Hsim') as (_ & _ & Hc).
  specialize (Hc "APP.example.org"). destruct (CutHost ex_tracker "APP.example.org") as [[t' cut] n].
  destruct Hc as (_ & _ & Hn & _ & Hin). split; [exact Hn|]. apply Hin. apply lookup_insert_eq.
Defined.

End witnesses.
