(* ===== verification/CutProtocol.v ===== *)
(** The quarantine cut: how route updates, their quarantine hook, and the
    handlers of open traffic interleave.

    Every handler of client traffic follows one discipline: look the route up
    and refuse a quarantined one, register with the tracker, look the route up
    again, serve, release (src/internal/proxy/proxy.go handleConn for splices,
    src/internal/terminate/terminate.go serveHTTP and wsmux.go
    serveSealedWSMux for terminated traffic).  An update swaps the table and then
    runs the quarantine hook, which main wires to Tracker.CutHost, host by host.
    Each table access, each tracker call and each hook call is one step, and the
    steps of the updating goroutine and of the handlers interleave freely.

    The tracker is used through the interface [HostTracker]; the instance at the
    end shows that the code's tracker implements it.  System.v shows that the
    translated handlers, run concurrently, take only the steps of this protocol. *)
From Stdlib Require Import Strings.String.
From S2P Require Import Prelude GoBytes GoStrings GoRuntime RouteTable Tracker.
Local Open Scope Z_scope.

(** * The interface of the tracker *)

Class HostTracker (T : Type) := {
  ht_wf : T → Prop;
  ht_room : T → bool;      (* the id counter has not wrapped around *)
  ht_next : T → Z;
  ht_entry : T → string → Z → option nat; (* the connection registered under (host, id) *)
  ht_track : T → string → string → nat → T * (string * Z);
  ht_release : T → string * Z → T;
  ht_cut : T → string → T * list nat;
}.

Class HostTrackerLaws `{GoUnicode} (T : Type) `{HostTracker T} : Prop := {
  ht_track_spec : ∀ t host k c, ht_wf t → ht_room t = true →
    let '(t', (h0, id)) := ht_track t host k c in
    ht_wf t' ∧ h0 = ToLower host ∧ ht_next t < id ∧ ht_next t' = id ∧
    ∀ h i, ht_entry t' h i = if decide (h = h0 ∧ i = id) then Some c else ht_entry t h i;
  ht_release_spec : ∀ t h0 id, ht_wf t →
    ht_wf (ht_release t (h0, id)) ∧ ht_next (ht_release t (h0, id)) = ht_next t ∧
    ∀ h i, ht_entry (ht_release t (h0, id)) h i = if decide (h = h0 ∧ i = id) then None else ht_entry t h i;
  ht_cut_spec : ∀ t host, ht_wf t →
    let '(t', cut) := ht_cut t host in
    ht_wf t' ∧ ht_next t' = ht_next t ∧
    (∀ h i, ht_entry t' h i = if decide (h = ToLower host) then None else ht_entry t h i) ∧
    (∀ c i, ht_entry t (ToLower host) i = Some c → c ∈ cut);
}.

(** * States *)

(** Where a handler stands.  The key is what its release closure captured. *)
Inductive phase : Type :=
| Checked                       (* a route was found; not registered *)
| Registered (key : string * Z) (* registered, route not checked again yet *)
| Serving (key : string * Z)    (* checked again; bytes flow to the enclave *)
| Ended.

Record conn := { c_host : string; c_phase : phase }.

Definition phase_key (p : phase) : option (string * Z) :=
  match p with Registered key | Serving key => Some key | _ => None end.

Record gateway (T : Type) := {
  g_table : Table;
  g_tracker : T;
  g_pending : list string;   (* hosts whose hook call the running Update still has to make *)
  g_conns : gmap nat conn;
  g_closed : gset nat;       (* connections whose close function was started *)
  g_gone : gset string;      (* history: hosts that have left the table at some update *)
}.
Arguments g_table {T} g.
Arguments g_tracker {T} g.
Arguments g_pending {T} g.
Arguments g_conns {T} g.
Arguments g_closed {T} g.
Arguments g_gone {T} g.

(** The test [live, ok := Lookup(host); ok && live.Quarantined()]. *)
Definition quarantined_now `{GoUnicode} (t : Table) (host : string) : bool :=
  match Lookup t host with Some r => Quarantined r | None => false end.

(** The hosts of the quarantine calls an update makes. *)
Definition hook_hosts (calls : list hook_call) : list string :=
  flat_map (fun c => match c with CallQuarantine h => [h] | CallRetired _ => [] end) calls.

Definition set_conn {T} (g : gateway T) (tr : T) (c : nat) (cn : conn) : gateway T := {|
  g_table := g_table g; g_tracker := tr; g_pending := g_pending g;
  g_conns := <[c := cn]> (g_conns g); g_closed := g_closed g; g_gone := g_gone g;
|}.

Definition with_phase (cn : conn) (p : phase) : conn :=
  {| c_host := c_host cn; c_phase := p |}.

Section protocol.
Context `{GoUnicode} `{GoRange} {T : Type} `{HostTracker T}.

Inductive step : gateway T → gateway T → Prop :=
(* the handler of a connection found a route *)
| step_accept g c host r :
    g_conns g !! c = None → Lookup (g_table g) host = Some r →
    step g (set_conn g (g_tracker g) c {| c_host := host; c_phase := Checked |})
(* dial failed, client hung up, request refused before registering *)
| step_abort g c cn :
    g_conns g !! c = Some cn → c_phase cn = Checked →
    step g (set_conn g (g_tracker g) c (with_phase cn Ended))
(* tracker.Track, under the host in any letter case *)
| step_register g c cn host k tr key :
    g_conns g !! c = Some cn → c_phase cn = Checked → ht_room (g_tracker g) = true →
    ToLower host = ToLower (c_host cn) →
    ht_track (g_tracker g) host k c = (tr, key) →
    step g (set_conn g tr c (with_phase cn (Registered key)))
(* the lookup after registering does not find a quarantine *)
| step_serve g c cn key :
    g_conns g !! c = Some cn → c_phase cn = Registered key →
    quarantined_now (g_table g) (c_host cn) = false →
    step g (set_conn g (g_tracker g) c (with_phase cn (Serving key)))
(* the traffic is refused or ends; a keep-alive connection goes on with its next request *)
| step_done g c cn key p :
    g_conns g !! c = Some cn → phase_key (c_phase cn) = Some key → p = Checked ∨ p = Ended →
    step g (set_conn g (ht_release (g_tracker g) key) c (with_phase cn p))
(* Table.Update up to its hook loop *)
| step_update g rs v t' changed calls :
    g_pending g = [] → Update (g_table g) rs v = (t', changed, calls) →
    step g {| g_table := t'; g_tracker := g_tracker g; g_pending := hook_hosts calls;
              g_conns := g_conns g; g_closed := g_closed g;
              g_gone := g_gone g ∪ (dom (routes (g_table g)) ∖ dom (routes t')) |}
(* one hook call: tracker.CutHost(host) *)
| step_hook g host rest tr cut :
    g_pending g = host :: rest → ht_cut (g_tracker g) host = (tr, cut) →
    step g {| g_table := g_table g; g_tracker := tr; g_pending := rest;
              g_conns := g_conns g; g_closed := g_closed g ∪ list_to_set cut; g_gone := g_gone g |}.

(** The table as main wires it: the quarantine hook always, the retirement hook
    when the gateway terminates TLS. *)
Definition wired_table (terminates : bool) : Table :=
  if terminates then OnRetired (OnQuarantine New) else OnQuarantine New.

(** The gateway at start-up: an empty table with its hooks set. *)
Definition initial (terminates : bool) (tr : T) : gateway T := {|
  g_table := wired_table terminates; g_tracker := tr; g_pending := []; g_conns := ∅; g_closed := ∅; g_gone := ∅;
|}.

Inductive reachable (tr0 : T) : gateway T → Prop :=
| reachable_initial terminates : reachable tr0 (initial terminates tr0)
| reachable_step g g' : reachable tr0 g → step g g' → reachable tr0 g'.

(** * The same steps as a function of a schedule *)

Inductive event : Type :=
| EvAccept (c : nat) (host : string)
| EvAbort (c : nat)
| EvRegister (c : nat) (host k : string)
| EvRecheck (c : nat)
| EvDone (c : nat) (keep_alive : bool)
| EvUpdate (rs : list Route) (v : string)
| EvHook.

Definition exec (g : gateway T) (ev : event) : option (gateway T) :=
  match ev with
  | EvAccept c host =>
      match g_conns g !! c, Lookup (g_table g) host with
      | None, Some r => Some (set_conn g (g_tracker g) c {| c_host := host; c_phase := Checked |})
      | _, _ => None
      end
  | EvAbort c =>
      match g_conns g !! c with
      | Some cn =>
          match c_phase cn with
          | Checked => Some (set_conn g (g_tracker g) c (with_phase cn Ended))
          | _ => None
          end
      | None => None
      end
  | EvRegister c host k =>
      match g_conns g !! c with
      | Some cn =>
          match c_phase cn with
          | Checked =>
              if ht_room (g_tracker g) && String.eqb (ToLower host) (ToLower (c_host cn)) then
                let '(tr, key) := ht_track (g_tracker g) host k c in
                Some (set_conn g tr c (with_phase cn (Registered key)))
              else None
          | _ => None
          end
      | None => None
      end
  | EvRecheck c =>
      match g_conns g !! c with
      | Some cn =>
          match c_phase cn with
          | Registered key =>
              if quarantined_now (g_table g) (c_host cn)
              then Some (set_conn g (ht_release (g_tracker g) key) c (with_phase cn Ended))
              else Some (set_conn g (g_tracker g) c (with_phase cn (Serving key)))
          | _ => None
          end
      | None => None
      end
  | EvDone c keep_alive =>
      match g_conns g !! c with
      | Some cn =>
          match c_phase cn with
          | Serving key =>
              Some (set_conn g (ht_release (g_tracker g) key) c
                     (with_phase cn (if keep_alive then Checked else Ended)))
          | _ => None
          end
      | None => None
      end
  | EvUpdate rs v =>
      match g_pending g with
      | [] =>
          let '(t', _, calls) := Update (g_table g) rs v in
          Some {| g_table := t'; g_tracker := g_tracker g; g_pending := hook_hosts calls;
                  g_conns := g_conns g; g_closed := g_closed g;
                  g_gone := g_gone g ∪ (dom (routes (g_table g)) ∖ dom (routes t')) |}
      | _ => None
      end
  | EvHook =>
      match g_pending g with
      | host :: rest =>
          let '(tr, cut) := ht_cut (g_tracker g) host in
          Some {| g_table := g_table g; g_tracker := tr; g_pending := rest;
                  g_conns := g_conns g; g_closed := g_closed g ∪ list_to_set cut; g_gone := g_gone g |}
      | [] => None
      end
  end.

Fixpoint run (g : gateway T) (evs : list event) : option (gateway T) :=
  match evs with
  | [] => Some g
  | ev :: evs' => match exec g ev with Some g' => run g' evs' | None => None end
  end.

Lemma exec_step g ev g' : exec g ev = Some g' → step g g'.
Proof.
  destruct ev; simpl; intros He; repeat (case_match; simplify_eq);
    repeat match goal with
    | H : _ && _ = true |- _ => apply andb_true_iff in H as [? ?%String.eqb_eq]
    | H : c_phase ?cn = _ |- context [ht_release _ ?k] =>
        assert (phase_key (c_phase cn) = Some k) by (by rewrite H); clear H
    end; econstructor; eauto; destruct keep_alive; auto.
Qed.

Lemma run_reachable tr0 evs g g' : reachable tr0 g → run g evs = Some g' → reachable tr0 g'.
Proof.
  revert g. induction evs as [|ev evs IH]; simpl; intros g Hg He; [by simplify_eq|].
  destruct (exec g ev) as [g1|] eqn:E; [|done]. eapply IH; [|done].
  eapply reachable_step; [done|]. by eapply exec_step.
Qed.

(** * The invariant *)

Definition active (t : Table) (key : string) : Prop :=
  ∃ r, routes t !! key = Some r ∧ Quarantined r = false.

Record inv (g : gateway T) : Prop := {
  inv_hook : onQuarantine (g_table g) = true;
  inv_table : table_wf (g_table g);
  inv_tracker : ht_wf (g_tracker g);
  inv_pending : ∀ h, h ∈ g_pending g → ToLower h = h;
  (* a registered connection is in the tracker or has been cut *)
  inv_key : ∀ c cn h i, g_conns g !! c = Some cn → phase_key (c_phase cn) = Some (h, i) →
    h = ToLower (c_host cn) ∧ i <= ht_next (g_tracker g) ∧
    (ht_entry (g_tracker g) h i = Some c ∨ c ∈ g_closed g);
  (* no two registrations share an id *)
  inv_unique : ∀ c c' cn cn' h h' i, g_conns g !! c = Some cn → g_conns g !! c' = Some cn' →
    phase_key (c_phase cn) = Some (h, i) → phase_key (c_phase cn') = Some (h', i) → c = c';
  inv_known : ∀ c cn, g_conns g !! c = Some cn → c_phase cn ≠ Ended →
    ToLower (c_host cn) ∈ g_gone g ∨ is_Some (routes (g_table g) !! ToLower (c_host cn));
  inv_serving : ∀ c cn key, g_conns g !! c = Some cn → c_phase cn = Serving key →
    c ∈ g_closed g ∨ ToLower (c_host cn) ∈ g_gone g ∨ ToLower (c_host cn) ∈ g_pending g ∨
    active (g_table g) (ToLower (c_host cn));
}.

(** * Preservation *)

Context `{!GoUnicodeLaws} `{!GoRangeLaws} `{!HostTrackerLaws T}.

Lemma elem_of_hook_hosts calls h : h ∈ hook_hosts calls ↔ CallQuarantine h ∈ calls.
Proof.
  unfold hook_hosts. rewrite list_elem_of_In, in_flat_map. split.
  - intros ([h'|] & Hc & Hh); [|done]. destruct Hh as [->|[]]. by apply list_elem_of_In.
  - intros Hc%list_elem_of_In. exists (CallQuarantine h). split; [done|by left].
Qed.

(** An update of a table with the hook set: an active entry is gone, active
    or on the list of hook calls afterwards. *)
Lemma Update_active t rs v t' changed calls key :
  onQuarantine t = true → Update t rs v = (t', changed, calls) → active t key →
  routes t' !! key = None ∨ active t' key ∨ key ∈ hook_hosts calls.
Proof.
  intros Hq HU (old & Hold & Ha). destruct (same_version t v) eqn:E.
  { rewrite Update_same in HU by done. injection HU as <- _ _. right. left. by exists old. }
  rewrite Update_fresh, Hq in HU by done. injection HU as <- _ <-. unfold active. simpl.
  destruct ((build_map rs).1 !! key) as [new|] eqn:En; [right|by left].
  destruct (Quarantined new) eqn:Eq; [right|left; by exists new].
  apply elem_of_hook_hosts, elem_of_app. left.
  pose proof (build_map_quarantined rs key new En Eq). zdec.
  apply elem_of_quarantine_calls. by exists key, new, old.
Qed.

Lemma hook_hosts_lower t rs v t' changed calls h :
  Update t rs v = (t', changed, calls) → h ∈ hook_hosts calls → ToLower h = h.
Proof.
  intros HU Hh. apply elem_of_hook_hosts in Hh. destruct (same_version t v) eqn:E.
  { rewrite Update_same in HU by done. injection HU as _ _ <-. by apply not_elem_of_nil in Hh. }
  rewrite Update_fresh in HU by done. injection HU as _ _ <-.
  apply elem_of_app in Hh as [Hh|Hh].
  - destruct (_ && _); [|by apply not_elem_of_nil in Hh].
    apply elem_of_quarantine_calls in Hh as (h' & new & old & [= <-] & Hm & _).
    rewrite build_map_lookup in Hm. apply last_for_elem in Hm as [_ <-]. apply ToLower_idem.
  - destruct (onRetired t); [|by apply not_elem_of_nil in Hh].
    by apply elem_of_retired_calls in Hh as (? & ? & ? & _).
Qed.

Lemma Update_onQuarantine t rs v t' changed calls :
  Update t rs v = (t', changed, calls) → onQuarantine t' = onQuarantine t.
Proof.
  destruct (same_version t v) eqn:E; [rewrite Update_same by done|rewrite Update_fresh by done];
    by intros [= <- _ _].
Qed.

(** A step of one handler: what has to be shown of the connection it moves. *)
Lemma inv_set_conn g tr c cn :
  inv g → ht_wf tr → ht_next (g_tracker g) <= ht_next tr →
  (* the other registrations are untouched *)
  (∀ c' cn' h i, c' ≠ c → g_conns g !! c' = Some cn' → phase_key (c_phase cn') = Some (h, i) →
     ht_entry tr h i = ht_entry (g_tracker g) h i) →
  (* the moved connection *)
  (∀ h i, phase_key (c_phase cn) = Some (h, i) →
     h = ToLower (c_host cn) ∧ i <= ht_next tr ∧ (ht_entry tr h i = Some c ∨ c ∈ g_closed g) ∧
     ∀ c' cn' h', c' ≠ c → g_conns g !! c' = Some cn' → phase_key (c_phase cn') ≠ Some (h', i)) →
  (c_phase cn ≠ Ended → ToLower (c_host cn) ∈ g_gone g ∨ is_Some (routes (g_table g) !! ToLower (c_host cn))) →
  (∀ key, c_phase cn = Serving key → c ∈ g_closed g ∨ ToLower (c_host cn) ∈ g_gone g ∨
     ToLower (c_host cn) ∈ g_pending g ∨ active (g_table g) (ToLower (c_host cn))) →
  inv (set_conn g tr c cn).
Proof.
  intros Hinv Hwf Hnext Hother Hkey Hknown Hserv. destruct Hinv as [I1 I2 I3 I4 I5 I6 I7 I8].
  split; simpl; try done.
  - intros c' cn' h i. rewrite lookup_insert. case_decide as Hc; [subst c'; intros [= <-]|].
    + intros Hk. destruct (Hkey h i Hk) as (? & ? & ? & _). done.
    + intros Hl Hk. destruct (I5 c' cn' h i Hl Hk) as (? & ? & ?).
      rewrite (Hother c' cn' h i) by done. split_and!; [done|lia|done].
  - intros c1 c2 cn1 cn2 h1 h2 i. rewrite !lookup_insert.
    case_decide as H1c; case_decide as H2c; [congruence| | |by eauto].
    + subst c1. intros [= <-] Hl2 Hk1 Hk2. by destruct (Hkey h1 i Hk1) as (_ & _ & _ & []%(λ f, f c2 cn2 h2)).
    + subst c2. intros Hl1 [= <-] Hk1 Hk2. by destruct (Hkey h2 i Hk2) as (_ & _ & _ & []%(λ f, f c1 cn1 h1)).
  - intros c' cn'. rewrite lookup_insert. case_decide; [intros [= <-]; done|apply I7].
  - intros c' cn' key. rewrite lookup_insert. case_decide as Hc; [subst c'; intros [= <-]; apply Hserv|apply I8].
Qed.

(** Releasing the registration of one connection. *)
Lemma inv_release g c cn h i p :
  inv g → g_conns g !! c = Some cn → phase_key (c_phase cn) = Some (h, i) → phase_key p = None →
  (p ≠ Ended → c_phase cn ≠ Ended) →
  inv (set_conn g (ht_release (g_tracker g) (h, i)) c (with_phase cn p)).
Proof.
  intros Hinv Hl Hk Hp Hne. destruct (ht_release_spec (g_tracker g) h i (inv_tracker g Hinv)) as (Hwf & Hnext & He).
  apply inv_set_conn; simpl; [done|done|lia| | | |].
  - intros c' cn' h' i' Hc' Hl' Hk'. rewrite He. case_decide as Hd; [|done].
    destruct Hd as [-> ->]. destruct Hc'. by eapply (inv_unique g Hinv).
  - by rewrite Hp.
  - intros Hpe. by apply (inv_known g Hinv c), Hne.
  - intros key ->. done.
Qed.

Lemma inv_register g c cn host k tr key :
  inv g → g_conns g !! c = Some cn → c_phase cn = Checked → ht_room (g_tracker g) = true →
  ToLower host = ToLower (c_host cn) →
  ht_track (g_tracker g) host k c = (tr, key) →
  inv (set_conn g tr c (with_phase cn (Registered key))).
Proof.
  intros Hinv Hc Hp Hroom Hlow Ht. destruct key as [h0 id].
  pose proof (ht_track_spec (g_tracker g) host k c (inv_tracker g Hinv) Hroom) as Hs.
  rewrite Ht in Hs. destruct Hs as (Hwf & -> & Hlt & Hnext & He).
  apply inv_set_conn; simpl; [done|done|lia| | | |done].
  - intros c' cn' h i Hc' Hl' Hk'. rewrite He. case_decide as Hd; [|done]. destruct Hd as [-> ->].
    destruct (inv_key g Hinv c' cn' _ _ Hl' Hk') as (_ & ? & _). lia.
  - intros h i [= <- <-]. split_and!; [done|lia|left; rewrite He; by rewrite decide_True|].
    intros c' cn' h' Hc' Hl' Hk'. destruct (inv_key g Hinv c' cn' _ _ Hl' Hk') as (_ & ? & _). lia.
  - intros _. apply (inv_known g Hinv c); [done|by rewrite Hp].
Qed.

Lemma inv_serve g c cn key :
  inv g → g_conns g !! c = Some cn → c_phase cn = Registered key →
  quarantined_now (g_table g) (c_host cn) = false →
  inv (set_conn g (g_tracker g) c (with_phase cn (Serving key))).
Proof.
  intros Hinv Hc Hp Hq.
  assert (phase_key (c_phase cn) = Some key) as Hk by (by rewrite Hp). destruct key as [h i].
  destruct (inv_key g Hinv c cn h i Hc Hk) as (Hh & Hi & He).
  assert (ToLower (c_host cn) ∈ g_gone g ∨ is_Some (routes (g_table g) !! ToLower (c_host cn))) as Hkn.
  { apply (inv_known g Hinv c); [done|by rewrite Hp]. }
  apply inv_set_conn; simpl; [done|apply Hinv|lia|done| |done|].
  - intros h' i' [= <- <-]. split_and!; [done..|]. intros c' cn' h' Hc' Hl' Hk'.
    apply Hc'. by eapply (inv_unique g Hinv).
  - intros key' _. right. destruct Hkn as [Hg|[r Hr]]; [by left|]. right. right. exists r. split; [done|].
    unfold quarantined_now, Lookup in Hq. by rewrite Hr in Hq.
Qed.

Lemma inv_update g rs v t' changed calls :
  inv g → g_pending g = [] → Update (g_table g) rs v = (t', changed, calls) →
  inv {| g_table := t'; g_tracker := g_tracker g; g_pending := hook_hosts calls;
         g_conns := g_conns g; g_closed := g_closed g;
         g_gone := g_gone g ∪ (dom (routes (g_table g)) ∖ dom (routes t')) |}.
Proof.
  intros Hinv Hpend HU. destruct Hinv as [I1 I2 I3 I4 I5 I6 I7 I8]. split; simpl; try done.
  - by rewrite (Update_onQuarantine _ _ _ _ _ _ HU).
  - pose proof (Update_wf (g_table g) rs v I2) as Hw. by rewrite HU in Hw.
  - intros h. by eapply hook_hosts_lower.
  - intros c cn Hc Hne. destruct (routes t' !! ToLower (c_host cn)) eqn:Er; [by right; eauto|left].
    destruct (I7 c cn Hc Hne) as [Hg|Hs]; [set_solver|]. apply elem_of_union_r, elem_of_difference.
    split; [by apply elem_of_dom|by apply not_elem_of_dom].
  - intros c cn key Hc Hp. destruct (I8 c cn key Hc Hp) as [?|[?|[Hin|Ha]]]; [by left|right; left; set_solver| |].
    { rewrite Hpend in Hin. by apply not_elem_of_nil in Hin. }
    right. destruct (Update_active _ _ _ _ _ _ _ I1 HU Ha) as [Hn|[?|?]]; [|by auto|by auto].
    left. apply elem_of_union_r, elem_of_difference. destruct Ha as (r & Hr & _).
    split; [by apply elem_of_dom; eauto|by apply not_elem_of_dom].
Qed.

Lemma inv_hook_call g host rest tr cut :
  inv g → g_pending g = host :: rest → ht_cut (g_tracker g) host = (tr, cut) →
  inv {| g_table := g_table g; g_tracker := tr; g_pending := rest;
         g_conns := g_conns g; g_closed := g_closed g ∪ list_to_set cut; g_gone := g_gone g |}.
Proof.
  intros Hinv Hpend Hcut.
  pose proof (ht_cut_spec (g_tracker g) host (inv_tracker g Hinv)) as Hs. rewrite Hcut in Hs.
  destruct Hs as (Hwf & Hnext & He & Hcl). destruct Hinv as [I1 I2 I3 I4 I5 I6 I7 I8].
  assert (ToLower host = host) as Hlow by (apply I4; rewrite Hpend; set_solver).
  rewrite Hlow in He, Hcl. split; simpl; try done.
  - intros h Hh. apply I4. rewrite Hpend. by apply elem_of_cons; right.
  - intros c cn h i Hc Hk. destruct (I5 c cn h i Hc Hk) as (Hh & Hi & Hent). rewrite He, Hnext.
    split_and!; [done|done|]. case_decide as Hd; [|set_solver]. right. subst h.
    destruct Hent as [Hent|?]; [|set_solver]. rewrite Hd in Hent. apply Hcl in Hent. set_solver.
  - intros c cn key Hc Hp. destruct (I8 c cn key Hc Hp) as [?|[?|[Hin|Ha]]]; [set_solver|by auto| |by auto].
    rewrite Hpend in Hin. apply elem_of_cons in Hin as [Hin|?]; [|by auto]. left.
    destruct key as [h i]. destruct (I5 c cn h i Hc) as (-> & _ & Hent); [by rewrite Hp|].
    destruct Hent as [Hent|?]; [|set_solver]. rewrite Hin in Hent. apply Hcl in Hent. set_solver.
Qed.

Lemma inv_step g g' : inv g → step g g' → inv g'.
Proof.
  intros Hinv Hstep. destruct Hstep as [g c host r Hc Hr|g c cn Hc Hp|g c cn host k tr key Hc Hp Hroom Hlow Ht
    |g c cn key Hc Hp Hq|g c cn [h i] p Hc Hp Hpe|g rs v t' changed calls Hpend HU
    |g host rest tr cut Hpend Hcut].
  - apply inv_set_conn; simpl; try done; [apply Hinv|]. intros _. right. unfold Lookup in Hr. by rewrite Hr.
  - apply inv_set_conn; simpl; try done. apply Hinv.
  - by eapply inv_register.
  - by apply inv_serve.
  - apply inv_release; [done..|by destruct Hpe as [->| ->]|]. by destruct (c_phase cn).
  - by eapply inv_update.
  - by eapply inv_hook_call.
Qed.

Lemma inv_reachable tr0 g :
  ht_wf tr0 → reachable tr0 g → inv g.
Proof.
  intros Hwf. induction 1 as [[]|g g' _ IH Hs]; [| |by eapply inv_step];
    (split; simpl; try done; by intros ? ?%not_elem_of_nil).
Qed.

Lemma served_is_cut tr0 g c cn key :
  ht_wf tr0 → reachable tr0 g → g_pending g = [] →
  g_conns g !! c = Some cn → c_phase cn = Serving key →
  quarantined_now (g_table g) (c_host cn) = true →
  c ∈ g_closed g ∨ ToLower (c_host cn) ∈ g_gone g.
Proof.
  intros Hwf Hr Hpend Hc Hp Hq. pose proof (inv_reachable tr0 g Hwf Hr) as Hinv.
  destruct (inv_serving g Hinv c cn key Hc Hp) as [?|[?|[Hin|(r & Hl & Ha)]]]; [by left|by right| |].
  - rewrite Hpend in Hin. by apply not_elem_of_nil in Hin.
  - unfold quarantined_now, Lookup in Hq. by rewrite Hl, Ha in Hq.
Qed.

(** In every interleaving of route updates, hook calls and connection
    handlers, whenever no hook call is outstanding, a connection still being
    served on a host whose route is quarantined has been cut (its close
    function was started), unless that host left the table at an earlier update
    and came back. *)
Theorem quarantine_cuts_open_traffic tr0 g c cn key :
  ht_wf tr0 → reachable tr0 g → g_pending g = [] →
  g_conns g !! c = Some cn → c_phase cn = Serving key →
  quarantined_now (g_table g) (c_host cn) = true →
  c ∈ g_closed g ∨ ToLower (c_host cn) ∈ g_gone g.
Proof. apply served_is_cut. Qed.

End protocol.

(** * The code's tracker implements the interface *)

#[export] Instance tracker_host_tracker `{GoUnicode} `{GoRange} : HostTracker Tracker := {|
  ht_wf := tracker_wf;
  ht_room t := next t + 1 <? 2 ^ 64;
  ht_next := next;
  ht_entry t h i := close <$> entry t h i;
  ht_track t h k c := let '(t', r) := Track t h k c in (t', (rel_host r, rel_id r));
  ht_release t key := (Release t {| rel_host := key.1; rel_id := key.2; rel_done := false |}).1;
  ht_cut t h := let '(t', cut, _) := CutHost t h in (t', map (fun x => close x.2) cut);
|}.

#[export] Instance tracker_host_tracker_laws `{GoUnicode} `{GoRangeLaws} : HostTrackerLaws Tracker.
Proof.
  split.
  - intros t host k c Hwf Hroom%Z.ltb_lt.
    cbn [ht_track ht_wf ht_next ht_entry tracker_host_tracker]. pose proof (Track_wf t host k c Hwf Hroom) as Hwf'.
    destruct Hwf as (Hn & _ & _). pose proof (entry_Track t host k c) as HE.
    destruct (Track t host k c) as [t' r] eqn:ET.
    assert (rel_host r = ToLower host ∧ rel_id r = next t + 1 ∧ next t' = next t + 1) as (-> & -> & Hn').
    { unfold Track, wrap in ET. rewrite Z.mod_small in ET by lia. by injection ET as <- <-. }
    split_and!; [done|done|lia|done|]. intros h i. simpl in HE. rewrite HE by lia. by case_decide.
  - intros t h0 id Hwf. split_and!; [by apply Release_wf| |].
    + simpl. unfold Release. simpl. by destruct (hosts t !! h0).
    + intros h i. cbn [ht_entry ht_release tracker_host_tracker]. rewrite entry_Release. simpl.
      repeat case_decide; naive_solver.
  - intros t host Hwf. cbn [ht_cut ht_wf ht_next ht_entry tracker_host_tracker]. pose proof (CutHost_wf t host Hwf) as Hwf'.
    pose proof (entry_CutHost t host) as HE. pose proof (elem_of_cut t host) as HC.
    destruct (CutHost t host) as [[t' cut] n] eqn:EC. simpl in *. split_and!; [done| | |].
    + unfold CutHost in EC. by injection EC as <- _ _.
    + intros h i. rewrite HE. by case_decide.
    + intros c i Hc. apply fmap_Some in Hc as (e & He & ->). apply HC in He.
      change (map (fun x => close x.2) cut) with ((fun x => close x.2) <$> cut).
      apply list_elem_of_fmap. by exists (i, e).
Qed.

(** * Concrete schedules *)

Section witnesses.
Import RouteTableExamples.

Definition ex_active : list Route := [ex_route "App.example.org" "10.0.0.1:443" ""].
Definition ex_quarantined : list Route := [ex_route "app.example.org" "10.0.0.1:443" "quarantined"].

(** Connection 7 is served, then its route turns quarantined. *)
Definition ex_schedule : list event :=
  [EvUpdate ex_active "v1"; EvAccept 7 "APP.example.org"; EvRegister 7 "App.example.org" KindSplice; EvRecheck 7;
   EvUpdate ex_quarantined "v2"; EvHook].

(** The same, but the route is missing from one feed in between. *)
Definition ex_gap_schedule : list event :=
  [EvUpdate ex_active "v1"; EvAccept 7 "APP.example.org"; EvRegister 7 "App.example.org" KindSplice; EvRecheck 7;
   EvUpdate [] "v2"; EvUpdate ex_quarantined "v3"].

Definition ex_conn : conn := {|
  c_host := "APP.example.org"; c_phase := Serving ("app.example.org", 1) |}.

Definition end_state (evs : list event) : gateway Tracker :=
  match run (initial true NewTracker) evs with Some g => g | None => initial true NewTracker end.

Lemma end_state_reachable evs : reachable NewTracker (end_state evs).
Proof.
  unfold end_state. destruct (run _ evs) eqn:E; [|constructor].
  eapply run_reachable; [constructor|done].
Qed.

Lemma quarantine_cuts_open_traffic_witness : 7%nat ∈ g_closed (end_state ex_schedule).
Proof.
  destruct (quarantine_cuts_open_traffic NewTracker (end_state ex_schedule) 7 ex_conn ("app.example.org"%string, 1))
    as [?|Hg]; [apply NewTracker_wf|apply end_state_reachable|vm_compute; reflexivity..|done|].
  exfalso. revert Hg. apply (bool_decide_unpack _). vm_compute. exact I.
Defined.

(** The exception is real: when a host leaves the feed for one update
    and comes back quarantined, no hook call is made for it, and a connection
    opened before stays open to the quarantined enclave. *)
Theorem quarantine_gap_not_cut :
  ∃ g, reachable NewTracker g ∧ g_pending g = [] ∧ g_conns g !! 7%nat = Some ex_conn ∧
    quarantined_now (g_table g) (c_host ex_conn) = true ∧ 7%nat ∉ g_closed g.
Proof.
  exists (end_state ex_gap_schedule). split; [apply end_state_reachable|].
  split_and!; [vm_compute; reflexivity..|]. apply (bool_decide_unpack _). vm_compute. exact I.
Qed.

End witnesses.
