(* ===== verification/Http.v ===== *)
(** net/http as the gateway uses it: header maps with canonical keys, requests,
    status texts, and the wire form of the small responses the gateway writes
    itself. *)
From Stdlib Require Import Strings.Ascii Strings.String.
From stdpp Require Import pretty.
From S2P Require Import Prelude GoBytes GoStrings GoRuntime.
Local Open Scope string_scope.

Definition crlf : string := chars [13; 10]%nat.
Definition dquote : string := chars [34]%nat.

(** * Header keys *)

(** textproto's validHeaderFieldByte: the token characters of RFC 7230. *)
Definition token_char (c : ascii) : bool :=
  let n := char_code c in
  is_upper c || is_lower c || ((48 <=? n)%nat && (n <=? 57)%nat) ||
  existsb (Nat.eqb n) [33; 35; 36; 37; 38; 39; 42; 43; 45; 46; 94; 95; 96; 124; 126]%nat.

Fixpoint canonical_from (upper : bool) (s : string) : string :=
  match s with
  | EmptyString => EmptyString
  | String c s' =>
      let c := if upper then upper_char c else lower_char c in
      String c (canonical_from (Ascii.eqb c "-") s')
  end.

(** http.CanonicalHeaderKey *)
Definition CanonicalHeaderKey (s : string) : string :=
  if sall token_char s then canonical_from true s else s.

(** * http.Header *)

Abbreviation Header := (gmap string (list string)).

Definition HValues (h : Header) (k : string) : list string :=
  match h !! CanonicalHeaderKey k with Some vs => vs | None => [] end.
Definition HGet (h : Header) (k : string) : string :=
  match HValues h k with v :: _ => v | [] => "" end.
Definition HSet (h : Header) (k v : string) : Header := <[CanonicalHeaderKey k := [v]]> h.
Definition HAdd (h : Header) (k v : string) : Header :=
  <[CanonicalHeaderKey k := (HValues h k ++ [v])%list]> h.
Definition HDel (h : Header) (k : string) : Header := delete (CanonicalHeaderKey k) h.

(** * Requests *)

Record Request := {
  Method : string;
  ReqHost : string;     (* req.Host *)
  Path : string;        (* req.URL.Path *)
  RequestURI : string;  (* req.URL.RequestURI() *)
  ReqHeader : Header;
}.

(** http.StatusText *)
Definition status_texts : list (Z * string) :=
  [(100%Z, "Continue"); (101%Z, "Switching Protocols"); (102%Z, "Processing"); (103%Z, "Early Hints");
   (200%Z, "OK"); (201%Z, "Created"); (202%Z, "Accepted"); (203%Z, "Non-Authoritative Information");
   (204%Z, "No Content"); (205%Z, "Reset Content"); (206%Z, "Partial Content"); (207%Z, "Multi-Status");
   (208%Z, "Already Reported"); (226%Z, "IM Used"); (300%Z, "Multiple Choices"); (301%Z, "Moved Permanently");
   (302%Z, "Found"); (303%Z, "See Other"); (304%Z, "Not Modified"); (305%Z, "Use Proxy");
   (307%Z, "Temporary Redirect"); (308%Z, "Permanent Redirect"); (400%Z, "Bad Request");
   (401%Z, "Unauthorized"); (402%Z, "Payment Required"); (403%Z, "Forbidden"); (404%Z, "Not Found");
   (405%Z, "Method Not Allowed"); (406%Z, "Not Acceptable"); (407%Z, "Proxy Authentication Required");
   (408%Z, "Request Timeout"); (409%Z, "Conflict"); (410%Z, "Gone"); (411%Z, "Length Required");
   (412%Z, "Precondition Failed"); (413%Z, "Request Entity Too Large"); (414%Z, "Request URI Too Long");
   (415%Z, "Unsupported Media Type"); (416%Z, "Requested Range Not Satisfiable");
   (417%Z, "Expectation Failed"); (418%Z, "I'm a teapot"); (421%Z, "Misdirected Request");
   (422%Z, "Unprocessable Entity"); (423%Z, "Locked"); (424%Z, "Failed Dependency"); (425%Z, "Too Early");
   (426%Z, "Upgrade Required"); (428%Z, "Precondition Required"); (429%Z, "Too Many Requests");
   (431%Z, "Request Header Fields Too Large"); (451%Z, "Unavailable For Legal Reasons");
   (500%Z, "Internal Server Error"); (501%Z, "Not Implemented"); (502%Z, "Bad Gateway");
   (503%Z, "Service Unavailable"); (504%Z, "Gateway Timeout"); (505%Z, "HTTP Version Not Supported");
   (506%Z, "Variant Also Negotiates"); (507%Z, "Insufficient Storage"); (508%Z, "Loop Detected");
   (510%Z, "Not Extended"); (511%Z, "Network Authentication Required")].
Definition StatusText (code : Z) : string :=
  match list_find (fun ct => ct.1 = code) status_texts with Some (_, ct) => ct.2 | None => "" end.

(** One header line as fmt.Fprintf writes it. *)
Definition header_line (k v : string) : string := k ++ ": " ++ v ++ crlf.

(** * Reference: rendering and reading a response *)

Definition header_block (hs : list (string * string)) : string :=
  SJoin (map (fun kv => header_line kv.1 kv.2) hs) "".

Definition render_response (status : string) (hs : list (string * string)) (body : string) : string :=
  status ++ crlf ++ header_block hs ++ crlf ++ body.

(** Up to the first CR LF. *)
Fixpoint read_line (s : string) : option (string * string) :=
  match s with
  | EmptyString => None
  | String c s' =>
      if String.prefix crlf s then Some ("", sdrop 2 s)
      else match read_line s' with Some (l, r) => Some (String c l, r) | None => None end
  end.

(** Field name and value around the first colon and its blank. *)
Fixpoint split_field (l : string) : option (string * string) :=
  match l with
  | EmptyString => None
  | String c l' =>
      if Ascii.eqb c ":" then Some ("", TrimPrefix l' " ")
      else match split_field l' with Some (k, v) => Some (String c k, v) | None => None end
  end.

Fixpoint read_headers (fuel : nat) (s : string) : option (list (string * string) * string) :=
  match fuel with
  | O => None
  | S fuel' =>
      match read_line s with
      | None => None
      | Some (l, r) =>
          if String.eqb l "" then Some ([], r) else
          match split_field l, read_headers fuel' r with
          | Some kv, Some (hs, body) => Some (kv :: hs, body)
          | _, _ => None
          end
      end
  end.

(** Status line, header fields in order, body. *)
Definition read_response (s : string) : option (string * list (string * string) * string) :=
  match read_line s with
  | None => None
  | Some (status, r) =>
      match read_headers (S (String.length r)) r with
      | Some (hs, body) => Some (status, hs, body)
      | None => None
      end
  end.

Definition cr : ascii := ascii_of_nat 13.

(** A field that cannot break out of its line. *)
Definition clean_field (kv : string * string) : Prop :=
  kv.1 ≠ "" ∧ sin cr kv.1 = false ∧ sin ":" kv.1 = false ∧ sin cr kv.2 = false.

(** * Lemmas *)

Lemma read_line_app l r : sin cr l = false → read_line (l ++ crlf ++ r) = Some (l, r).
Proof.
  induction l as [|c l IH]; intros Hl.
  - rewrite sapp_nil_l. unfold crlf. simpl. by destruct r.
  - cbn [sin] in Hl. apply orb_false_iff in Hl as [Hc Hl]. rewrite sapp_cons. cbn [read_line].
    rewrite IH by done. unfold crlf at 1. cbn [chars foldr String.prefix].
    destruct (ascii_dec _ _) as [<-|]; [|done]. by rewrite Ascii.eqb_refl in Hc.
Qed.

Lemma split_field_line k v : sin ":" k = false → split_field (k ++ ": " ++ v) = Some (k, v).
Proof.
  induction k as [|c k IH]; intros Hk.
  - rewrite sapp_nil_l. change (": " ++ v) with (String ":" (" " ++ v)). cbn [split_field].
    change (Ascii.eqb ":" ":") with true. cbv iota. by rewrite TrimPrefix_app.
  - cbn [sin] in Hk. apply orb_false_iff in Hk as [Hc Hk]. rewrite sapp_cons. cbn [split_field].
    by rewrite Hc, IH.
Qed.

Lemma header_block_cons k v hs :
  header_block ((k, v) :: hs) = header_line k v ++ header_block hs.
Proof. unfold header_block. cbn [map fst snd]. apply SJoin_cons_empty. Qed.

Lemma header_block_app hs hs' : header_block (hs ++ hs')%list = header_block hs ++ header_block hs'.
Proof.
  induction hs as [|[k v] hs IH]; [done|].
  cbn [app]. by rewrite !header_block_cons, IH, sapp_assoc.
Qed.

Lemma read_headers_block hs body fuel :
  Forall clean_field hs → (length hs < fuel)%nat →
  read_headers fuel (header_block hs ++ crlf ++ body) = Some (hs, body).
Proof.
  intros Hc. revert fuel. induction Hc as [|[k v] hs (Hne & Hkc & Hkk & Hvc) _ IH]; intros fuel Hf;
    destruct fuel as [|fuel]; simpl in Hf; try lia; cbn [read_headers fst snd] in *.
  - unfold header_block. cbn [map SJoin]. rewrite sapp_nil_l.
    rewrite <- (sapp_nil_l (crlf ++ body)), read_line_app by done. done.
  - rewrite header_block_cons. unfold header_line.
    replace (((k ++ ": " ++ v ++ crlf) ++ header_block hs) ++ crlf ++ body)
      with ((k ++ ": " ++ v) ++ crlf ++ (header_block hs ++ crlf ++ body)) by (by rewrite !sapp_assoc).
    rewrite read_line_app by (by rewrite !sin_app, Hkc, Hvc).
    destruct (String.eqb_spec (k ++ ": " ++ v) "") as [E|_]; [by destruct k|].
    rewrite split_field_line by done. by rewrite IH by lia.
Qed.

Lemma length_header_block hs : (length hs <= String.length (header_block hs))%nat.
Proof.
  induction hs as [|[k v] hs IH]; [done|]. rewrite header_block_cons, slength_app.
  unfold header_line. rewrite !slength_app. simpl. lia.
Qed.

(** What is rendered from clean fields is read back, whatever the body. *)
Lemma read_render status hs body :
  sin cr status = false → Forall clean_field hs →
  read_response (render_response status hs body) = Some (status, hs, body).
Proof.
  intros Hs Hc. unfold read_response, render_response. rewrite read_line_app by done.
  rewrite read_headers_block; [done|done|].
  rewrite slength_app. pose proof (length_header_block hs). lia.
Qed.

Lemma canonical_from_idem u s : canonical_from u (canonical_from u s) = canonical_from u s.
Proof.
  revert u. induction s as [|c s IH]; intros u; [done|]. cbn [canonical_from].
  assert ((if u then upper_char (if u then upper_char c else lower_char c)
           else lower_char (if u then upper_char c else lower_char c)) =
          (if u then upper_char c else lower_char c)) as ->.
  { destruct u; [|apply lower_char_idem]. apply Ascii.eqb_eq. revert c. apply ascii_cases. by vm_compute. }
  by rewrite IH.
Qed.

Lemma sall_canonical_from u s : sall token_char s = true → sall token_char (canonical_from u s) = true.
Proof.
  revert u. induction s as [|c s IH]; intros u; [done|]. cbn [sall canonical_from].
  intros [Hc Hs]%andb_true_iff. rewrite IH, andb_true_r by done. destruct u.
  - revert Hc. apply Bool.implb_true_iff. revert c. apply ascii_cases. by vm_compute.
  - revert Hc. apply Bool.implb_true_iff. revert c. apply ascii_cases. by vm_compute.
Qed.

Lemma CanonicalHeaderKey_idem k : CanonicalHeaderKey (CanonicalHeaderKey k) = CanonicalHeaderKey k.
Proof.
  unfold CanonicalHeaderKey. destruct (sall token_char k) eqn:E; [|by rewrite E].
  by rewrite sall_canonical_from, canonical_from_idem.
Qed.

Lemma HValues_set h k v k' :
  HValues (HSet h k v) k' = if decide (CanonicalHeaderKey k = CanonicalHeaderKey k') then [v] else HValues h k'.
Proof. unfold HValues, HSet. rewrite lookup_insert. by case_decide. Qed.

Lemma HValues_add h k v k' :
  HValues (HAdd h k v) k' =
  if decide (CanonicalHeaderKey k = CanonicalHeaderKey k') then (HValues h k ++ [v])%list else HValues h k'.
Proof. unfold HValues at 1, HAdd. rewrite lookup_insert. by case_decide. Qed.

Lemma HValues_del h k k' :
  HValues (HDel h k) k' = if decide (CanonicalHeaderKey k = CanonicalHeaderKey k') then [] else HValues h k'.
Proof. unfold HValues, HDel. rewrite lookup_delete. by case_decide. Qed.

Lemma HValues_empty k : HValues ∅ k = [].
Proof. done. Qed.

Lemma HValues_del_all l h k :
  HValues (fold_left HDel l h) k =
  if decide (CanonicalHeaderKey k ∈ map CanonicalHeaderKey l) then [] else HValues h k.
Proof.
  revert h. induction l as [|k0 l IH]; intros h; cbn [fold_left map]; [by rewrite decide_False by apply not_elem_of_nil|].
  rewrite IH, HValues_del. repeat case_decide; set_solver.
Qed.

Lemma pretty_N_go_no_cr x s : sin cr s = false → sin cr (pretty_N_go x s) = false.
Proof.
  revert s. induction (N.lt_wf_0 x) as [x _ IH]; intros s Hs.
  destruct (decide (x = 0)%N) as [->|Hx]; [by rewrite pretty_N_go_0|].
  rewrite pretty_N_go_step by lia. apply IH; [by apply N.div_lt; lia|]. cbn [sin]. rewrite Hs, orb_false_r.
  unfold pretty_N_char. by repeat case_match.
Qed.

Lemma itoa_no_cr z : sin cr (itoa z) = false.
Proof.
  assert (Hn : ∀ n : N, sin cr (pretty n) = false).
  { intros n. unfold pretty, pretty_N. case_decide; [done|]. by apply pretty_N_go_no_cr. }
  destruct z as [|p|p]; [done|apply (Hn (Npos p))|]. change (sin cr ("-" ++ pretty (Npos p)) = false).
  by rewrite sin_app, Hn.
Qed.

(** * Copying headers *)

Lemma HValues_add_all k vs h k' :
  HValues (fold_left (fun d v => HAdd d k v) vs h) k' =
  if decide (CanonicalHeaderKey k = CanonicalHeaderKey k') then (HValues h k' ++ vs)%list else HValues h k'.
Proof.
  revert h. induction vs as [|v vs IH]; intros h; cbn [fold_left].
  - case_decide; by rewrite ?app_nil_r.
  - rewrite IH, HValues_add. case_decide as E; [|done]. rewrite <- app_assoc. unfold HValues. by rewrite E.
Qed.

(** The values a list of (key, values) pairs holds for a key. *)
Definition values_at (k : string) (l : list (string * list string)) : list string :=
  flat_map (fun kv => if decide (CanonicalHeaderKey kv.1 = CanonicalHeaderKey k) then kv.2 else []) l.

Lemma values_at_none k l :
  Forall (fun kv => CanonicalHeaderKey kv.1 = kv.1) l → CanonicalHeaderKey k ∉ l.*1 → values_at k l = [].
Proof.
  intros Hc Hn. induction l as [|[k1 vs1] l IH]; [done|]. apply Forall_cons in Hc as [Hc1 Hc]. simpl in Hc1.
  unfold values_at. cbn [flat_map fst snd]. rewrite Hc1, decide_False; [apply IH; [done|]|].
  - intros Hin. apply Hn. cbn. by right.
  - intros ->. apply Hn. cbn. by left.
Qed.

Lemma values_at_unique k vs l :
  NoDup l.*1 → Forall (fun kv => CanonicalHeaderKey kv.1 = kv.1) l →
  (CanonicalHeaderKey k, vs) ∈ l → values_at k l = vs.
Proof.
  intros Hnd Hc Hin. induction l as [|[k0 vs0] l IH]; [by apply not_elem_of_nil in Hin|].
  apply NoDup_cons in Hnd as [Hk0 Hnd]. apply Forall_cons in Hc as [Hc0 Hc]. simpl in Hc0.
  unfold values_at. cbn [flat_map fst snd]. fold (values_at k l). rewrite Hc0.
  apply elem_of_cons in Hin as [[= <- <-]|Hin].
  - rewrite decide_True by done. rewrite values_at_none by done. by rewrite app_nil_r.
  - rewrite decide_False; [by apply IH|]. intros ->. apply Hk0. apply list_elem_of_fmap. by exists (CanonicalHeaderKey k, vs).
Qed.
