(* ===== verification/Quarantine.v ===== *)
(** internal/quarantine/quarantine.go: the refusals of a quarantined route. *)
From Stdlib Require Import Strings.Ascii Strings.String.
From S2P Require Import Prelude GoBytes GoStrings GoRuntime Http.
Local Open Scope string_scope.

Definition ModeTerminate : string := "terminate".
Definition ModeSplice : string := "splice".
Definition RetryAfterSeconds : Z := 300.
Definition ErrorCode : string := "enclave_quarantined".
Definition Message : string :=
  "This application is temporarily unavailable while its enclave's clock is checked.".

Definition newline : string := chars [10]%nat.

Definition jsonBody : string :=
  "{" ++ dquote ++ "error" ++ dquote ++ ":" ++ dquote ++ ErrorCode ++ dquote ++ "," ++
  dquote ++ "message" ++ dquote ++ ":" ++ dquote ++ Message ++ dquote ++ "}" ++ newline.

Definition htmlBody : string :=
  "<!DOCTYPE html>" ++ newline ++
  "<html><head><meta charset=" ++ dquote ++ "utf-8" ++ dquote ++
  "><title>503 Service Unavailable</title></head>" ++ newline ++
  "<body><h1>503 Service Unavailable</h1><p>" ++ Message ++
  "</p><p>Please try again in a few minutes.</p></body>" ++ newline ++
  "</html>".

(** tlsAlert: a fatal handshake_failure alert record. *)
Definition tlsAlert : bytes := [x15; x03; x03; x00; x02; x02; x28].

Section quarantine.
Context `{GoUnicode} `{GoSort} `{GoRange}.

(** The labels of the refusal counter. *)
Definition Refused (host mode : string) : string * string := (ToLower host, mode).

(** The media type of one Accept element: what precedes its first semicolon. *)
Definition media_type (part : string) : string :=
  ToLower (TrimSpace (match SplitChar ";" part with p :: _ => p | [] => "" end)).

Fixpoint wants_html_parts (parts : list string) : bool :=
  match parts with
  | [] => false
  | part :: rest =>
      let mt := media_type part in
      if String.eqb mt "text/html" || String.eqb mt "application/xhtml+xml" then true
      else if String.eqb mt "" || String.eqb mt "*/*" then wants_html_parts rest
      else false
  end.

Definition WantsHTML (accept : string) : bool := wants_html_parts (SplitChar "," accept).

(** The header loop over the extra headers: the lines written and the Vary value. *)
Definition extra_step (extra : Header) (acc : string * string) (k : string) : string * string :=
  let vs := match extra !! k with Some vs => vs | None => [] end in
  if String.eqb (CanonicalHeaderKey k) "Vary"
  then (acc.1, SJoin vs ", " ++ ", " ++ acc.2)
  else (acc.1 ++ SJoin (map (header_line (CanonicalHeaderKey k)) vs) "", acc.2).

Definition extra_lines (extra : Header) : string * string :=
  let keys := sort_slice str_less (map fst (range_map extra)) in
  fold_left (extra_step extra) keys ("", "Accept").

(** The bytes WriteHTTP writes; [None] is a nil request. *)
Definition WriteHTTP (req : option Request) (extra : Header) : string :=
  let html := match req with Some r => WantsHTML (HGet (ReqHeader r) "Accept") | None => false end in
  let contentType := if html then "text/html; charset=utf-8" else "application/json" in
  let body := if html then htmlBody else jsonBody in
  let '(lines, vary) := extra_lines extra in
  "HTTP/1.1 503 Service Unavailable" ++ crlf ++
  header_line "Content-Type" contentType ++
  header_line "Content-Length" (itoa (slen body)) ++
  header_line "Retry-After" (itoa RetryAfterSeconds) ++
  header_line "Cache-Control" "no-store" ++
  lines ++
  header_line "Vary" vary ++
  header_line "Connection" "close" ++ crlf ++
  (match req with
   | Some r => if String.eqb (Method r) "HEAD" then "" else body
   | None => body
   end).

(** * What a client reads *)

(** The fields the extra headers become, for a list of their keys. *)
Definition extra_fields (extra : Header) (keys : list string) : list (string * string) :=
  flat_map (fun k =>
    if String.eqb (CanonicalHeaderKey k) "Vary" then []
    else map (pair (CanonicalHeaderKey k)) (default [] (extra !! k))) keys.

(** Keys and values that stay on their line. *)
Definition clean_header (h : Header) : Prop :=
  ∀ k vs, h !! k = Some vs → CanonicalHeaderKey k ≠ "" ∧ sin cr (CanonicalHeaderKey k) = false ∧
    sin ":" (CanonicalHeaderKey k) = false ∧ Forall (fun v => sin cr v = false) vs.

Lemma header_block_values k vs : header_block (map (pair k) vs) = SJoin (map (header_line k) vs) "".
Proof. unfold header_block. f_equal. rewrite map_map. by apply map_ext. Qed.

Lemma extra_fold extra keys hs vary :
  (fold_left (extra_step extra) keys (header_block hs, vary)).1 =
  header_block (hs ++ extra_fields extra keys)%list.
Proof.
  revert hs vary. induction keys as [|k keys IH]; intros hs vary; [by rewrite app_nil_r|].
  cbn [fold_left extra_fields flat_map]. fold (extra_fields extra keys). unfold extra_step at 2. cbn [fst snd].
  destruct (String.eqb (CanonicalHeaderKey k) "Vary"); [by rewrite IH|].
  unfold default. rewrite <- header_block_values, <- header_block_app, IH, app_assoc. by destruct (extra !! k).
Qed.

Lemma SJoin_clean c l sep : Forall (fun v => sin c v = false) l → sin c sep = false → sin c (SJoin l sep) = false.
Proof.
  intros Hl Hs. induction Hl as [|v l Hv Hl IH]; [done|]. destruct l as [|w l]; [done|].
  cbn [SJoin] in *. by rewrite !sin_app, Hv, Hs, IH.
Qed.

Lemma extra_vary_clean extra keys acc :
  clean_header extra → sin cr acc.2 = false → sin cr (fold_left (extra_step extra) keys acc).2 = false.
Proof.
  intros Hc. revert acc. induction keys as [|k keys IH]; intros acc Hv; [done|]. apply IH.
  unfold extra_step. destruct (String.eqb _ _); [|done]. cbn [snd]. rewrite !sin_app, Hv.
  rewrite SJoin_clean; [done| |done]. destruct (extra !! k) as [vs|] eqn:E; [|constructor]. by eapply Hc.
Qed.

Lemma extra_fields_clean extra keys : clean_header extra → Forall clean_field (extra_fields extra keys).
Proof.
  intros Hc. unfold extra_fields. apply Forall_forall. intros [k v] Hin%list_elem_of_In%in_flat_map.
  destruct Hin as (k0 & _ & Hin). destruct (String.eqb _ _); [done|].
  apply in_map_iff in Hin as (v0 & [= <- ->] & Hv). destruct (extra !! k0) as [vs|] eqn:E; [|done].
  destruct (Hc k0 vs E) as (? & ? & ? & Hvs). rewrite Forall_forall in Hvs.
  split_and!; [done..|]. simpl. by apply Hvs, list_elem_of_In.
Qed.

Definition wants_html (req : option Request) : bool :=
  match req with Some r => WantsHTML (HGet (ReqHeader r) "Accept") | None => false end.
Definition refusal_body (req : option Request) : string := if wants_html req then htmlBody else jsonBody.
Definition is_head (req : option Request) : bool :=
  match req with Some r => String.eqb (Method r) "HEAD" | None => false end.

Definition refusal_fields (req : option Request) (extra : Header) : list (string * string) :=
  ([("Content-Type", if wants_html req then "text/html; charset=utf-8" else "application/json");
    ("Content-Length", itoa (slen (refusal_body req)));
    ("Retry-After", itoa RetryAfterSeconds); ("Cache-Control", "no-store")]
   ++ extra_fields extra (sort_slice str_less (map fst (range_map extra)))
   ++ [("Vary", (extra_lines extra).2); ("Connection", "close")])%list.

Lemma WriteHTTP_render req extra :
  WriteHTTP req extra =
  render_response "HTTP/1.1 503 Service Unavailable" (refusal_fields req extra)
    (if is_head req then "" else refusal_body req).
Proof.
  unfold WriteHTTP, render_response, refusal_fields, refusal_body, is_head. fold (wants_html req).
  pose proof (extra_fold extra (sort_slice str_less (map fst (range_map extra))) [] "Accept") as Hx.
  change (header_block []) with "" in Hx. fold (extra_lines extra) in Hx.
  destruct (extra_lines extra) as [lines vary]. cbn [fst snd app] in *.
  rewrite !header_block_cons, header_block_app, !header_block_cons, <- Hx.
  change (header_block []) with "". rewrite !sapp_assoc, !sapp_nil_l. do 8 f_equal.
  by destruct req as [r|]; [destruct (String.eqb (Method r) "HEAD")|].
Qed.

Context `{!GoRangeLaws} `{!GoSortLaws}.

(** The Vary value the loop ends with. *)
Lemma extra_vary_none extra keys acc :
  (∀ k, k ∈ keys → CanonicalHeaderKey k ≠ "Vary") → (fold_left (extra_step extra) keys acc).2 = acc.2.
Proof.
  revert acc. induction keys as [|k keys IH]; intros acc Hk; [done|]. cbn [fold_left].
  rewrite IH by set_solver. unfold extra_step. rewrite (proj2 (String.eqb_neq _ _)); [done|]. apply Hk. set_solver.
Qed.

Lemma extra_vary_one extra keys k acc :
  NoDup keys → k ∈ keys → CanonicalHeaderKey k = "Vary" →
  (∀ k', k' ∈ keys → CanonicalHeaderKey k' = "Vary" → k' = k) →
  (fold_left (extra_step extra) keys acc).2 = SJoin (default [] (extra !! k)) ", " ++ ", " ++ acc.2.
Proof.
  intros Hnd Hin Hk Hu. apply list_elem_of_split in Hin as (pre & post & ->). rewrite fold_left_app. cbn [fold_left].
  apply NoDup_app in Hnd as (_ & Hd & [Hn _]%NoDup_cons).
  rewrite extra_vary_none.
  - unfold extra_step at 1. rewrite Hk, String.eqb_refl. cbn [snd]. rewrite extra_vary_none; [by destruct (extra !! k)|].
    intros k' Hin' Hv. assert (k' = k) as -> by (apply Hu; [set_solver|done]).
    apply (Hd k Hin'). set_solver.
  - intros k' Hin' Hv. assert (k' = k) as -> by (apply Hu; [set_solver|done]). done.
Qed.

Lemma keys_NoDup (extra : Header) : NoDup (sort_slice str_less (map fst (range_map extra))).
Proof. rewrite sort_slice_perm. apply range_map_NoDup. Qed.

Lemma elem_of_keys (extra : Header) k : k ∈ sort_slice str_less (map fst (range_map extra)) ↔ is_Some (extra !! k).
Proof.
  rewrite sort_slice_perm, list_elem_of_fmap. split.
  - intros ([k' vs] & -> & Hin). apply range_map_elem in Hin. eauto.
  - intros [vs Hk]. exists (k, vs). split; [done|]. by apply range_map_elem.
Qed.

(** A client that asks for HTML first: the first element of its Accept header that
    names a type, wildcards and empty ones aside, is an HTML type. *)
Definition prefers_html (accept : string) : Prop :=
  ∃ pre part post, SplitChar "," accept = (pre ++ part :: post)%list ∧
    Forall (fun p => media_type p ∈ [""; "*/*"]) pre ∧
    media_type part ∈ ["text/html"; "application/xhtml+xml"].

Lemma WantsHTML_spec accept : WantsHTML accept = true ↔ prefers_html accept.
Proof.
  unfold WantsHTML, prefers_html. generalize (SplitChar "," accept). intros parts.
  induction parts as [|part parts IH]; cbn [wants_html_parts].
  { split; [done|]. by intros ([] & ? & ? & ? & _). }
  cbv zeta. destruct (String.eqb_spec (media_type part) "text/html") as [E|E1]; cbn [orb].
  { split; [intros _|done]. exists [], part, parts. rewrite E. split_and!; [done|done|set_solver]. }
  destruct (String.eqb_spec (media_type part) "application/xhtml+xml") as [E|E2].
  { split; [intros _|done]. exists [], part, parts. rewrite E. split_and!; [done|done|set_solver]. }
  destruct (String.eqb (media_type part) "" || String.eqb (media_type part) "*/*") eqn:E3.
  - assert (media_type part ∈ [""; "*/*"]) as Hw.
    { apply orb_true_iff in E3 as [->%String.eqb_eq| ->%String.eqb_eq]; set_solver. }
    rewrite IH. split.
    + intros (pre & p & post & -> & Hp & Hm). exists (part :: pre), p, post. by split_and!; [|constructor|].
    + intros ([|q pre] & p & post & [= <- ->] & Hp & Hm); [set_solver|].
      apply Forall_cons in Hp as [_ Hp]. by exists pre, p, post.
  - split; [done|]. apply orb_false_iff in E3 as [E3%String.eqb_neq E4%String.eqb_neq].
    intros ([|q pre] & p & post & [= <- ->] & Hp & Hm); [set_solver|].
    apply Forall_cons in Hp as [Hp _]. set_solver.
Qed.

(** The fields of a refusal: the type and the length of its body, the extra values
    each on a line of its own under their canonical names, and a Vary that names
    Accept after the tokens of an extra one. *)
Definition refusal_header (ctype body : string) (extra : Header) (hs : list (string * string)) : Prop :=
  ∃ mid vary,
    hs = ([("Content-Type", ctype); ("Content-Length", itoa (slen body)); ("Retry-After", "300");
           ("Cache-Control", "no-store")] ++ mid ++ [("Vary", vary); ("Connection", "close")])%list ∧
    mid ≡ₚ (map_to_list extra ≫= fun kv =>
      if decide (CanonicalHeaderKey kv.1 = "Vary") then [] else pair (CanonicalHeaderKey kv.1) <$> kv.2) ∧
    ((∀ k, is_Some (extra !! k) → CanonicalHeaderKey k ≠ "Vary") → vary = "Accept") ∧
    (∀ k vs, extra !! k = Some vs → CanonicalHeaderKey k = "Vary" →
       (∀ k', is_Some (extra !! k') → CanonicalHeaderKey k' = "Vary" → k' = k) →
       vary = SJoin vs ", " ++ ", Accept").

Lemma refusal_fields_header req extra :
  refusal_header (if wants_html req then "text/html; charset=utf-8" else "application/json")
    (refusal_body req) extra (refusal_fields req extra).
Proof.
  unfold refusal_header, refusal_fields, extra_lines. eexists _, _. split; [reflexivity|].
  set (keys := sort_slice str_less (map fst (range_map extra))). split_and!.
  - unfold extra_fields, keys. rewrite sort_slice_perm, <- range_map_perm.
    pose proof (fun k vs => proj1 (range_map_elem extra k vs)) as Hin. revert Hin.
    generalize (range_map extra). intros l Hin. induction l as [|[k vs] l IH]; [done|].
    cbn [map flat_map fst]. rewrite bind_cons. apply Permutation_app; [|apply IH; set_solver].
    rewrite (Hin k vs) by set_solver. destruct (String.eqb_spec (CanonicalHeaderKey k) "Vary"); by case_decide.
  - intros Hno. apply extra_vary_none. intros k Hk. apply Hno. by apply elem_of_keys.
  - intros k vs Hk Hv Hu. rewrite (extra_vary_one extra keys k); [by rewrite Hk|apply keys_NoDup| |done|].
    + apply elem_of_keys. eauto.
    + intros k' Hin'. apply Hu. by apply elem_of_keys.
Qed.

(** C29: A refusal whose extra headers stay on their lines (names that are not
    empty and hold no colon, no carriage return in names and values, which the
    caller has to see to) is one well-formed 503 response.  A client reads back
    the HTML page as text/html when it asked for HTML first, the JSON body as
    application/json otherwise, or no body on HEAD, with the Content-Length of
    that body, Retry-After 300, no-store, Connection: close, a Vary of Accept
    after the tokens of an extra one, and every extra value (the CORS headers)
    on a line of its own, and no other header. *)
Theorem WriteHTTP_read req extra :
  clean_header extra →
  let html := match req with Some r => prefers_html (HGet (ReqHeader r) "Accept") | None => False end in
  ∃ ctype body hs,
    read_response (WriteHTTP req extra) =
      Some ("HTTP/1.1 503 Service Unavailable", hs, if is_head req then "" else body) ∧
    (html → ctype = "text/html; charset=utf-8" ∧ body = htmlBody) ∧
    (¬ html → ctype = "application/json" ∧ body = jsonBody) ∧
    refusal_header ctype body extra hs.
Proof.
  intros Hc html. assert (wants_html req = true ↔ html) as Hw.
  { unfold wants_html, html. destruct req; [apply WantsHTML_spec|done]. }
  exists (if wants_html req then "text/html; charset=utf-8" else "application/json"), (refusal_body req),
    (refusal_fields req extra).
  rewrite WriteHTTP_render. split_and!.
  - apply read_render; [done|]. unfold refusal_fields.
    apply Forall_app. split; [|apply Forall_app; split; [by apply extra_fields_clean|]].
    + unfold refusal_body. destruct (wants_html req); repeat constructor; by vm_compute.
    + repeat constructor; try done. simpl. by apply extra_vary_clean.
  - intros Hh%Hw. unfold refusal_body. by rewrite Hh.
  - intros Hh. unfold refusal_body. destruct (wants_html req); [by destruct Hh; apply Hw|done].
  - apply refusal_fields_header.
Qed.

End quarantine.

Section witnesses.
#[local] Existing Instances ascii_unicode map_range map_range_laws insertion_sort insertion_sort_laws.

Definition ex_browser : Request := {|
  Method := "GET"; ReqHost := "app.example.org"; Path := "/"; RequestURI := "/";
  ReqHeader := HSet ∅ "Accept" "text/html,application/xhtml+xml,*/*;q=0.8" |}.

Example WantsHTML_cases :
  map WantsHTML [""; "*/*"; "application/json"; "application/json, text/html";
    "text/html,application/xhtml+xml,application/xml;q=0.9,*/*;q=0.8"; "*/*, text/html"; "TEXT/HTML"]
  = [false; false; false; false; true; true; true].
Proof. by vm_compute. Qed.

Lemma WriteHTTP_read_witness :
  ∃ hs, read_response (WriteHTTP (Some ex_browser) (HSet (HSet ∅ "Access-Control-Allow-Origin" "https://a.example") "Vary" "Origin")) =
    Some ("HTTP/1.1 503 Service Unavailable", hs, htmlBody) ∧
    ("Content-Type", "text/html; charset=utf-8") ∈ hs ∧
    ("Access-Control-Allow-Origin", "https://a.example") ∈ hs ∧ ("Vary", "Origin, Accept") ∈ hs.
Proof.
  destruct (WriteHTTP_read (Some ex_browser) (HSet (HSet ∅ "Access-Control-Allow-Origin" "https://a.example") "Vary" "Origin"))
    as (ctype & body & hs & Hr & Hh & _ & mid & vary & -> & Hm & _ & Hv).
  - intros k vs Hk. unfold HSet in Hk.
    repeat (apply lookup_insert_Some in Hk as [[<- <-]|[_ Hk]];
      [split_and!; [by vm_compute..|]; repeat constructor; by vm_compute|]).
    by rewrite lookup_empty in Hk.
  - destruct Hh as [-> ->]; [apply WantsHTML_spec; vm_compute; reflexivity|].
    eexists. split; [exact Hr|]. split; [left|].
    rewrite (Hv "Vary" ["Origin"]); [|reflexivity|reflexivity|].
    + split; apply elem_of_app; right; apply elem_of_app; [left|right; left].
      rewrite Hm. vm_compute. repeat constructor.
    + intros k' [vs Hk] Hc. unfold HSet in Hk.
      apply lookup_insert_Some in Hk as [[<- _]|[_ Hk]]; [reflexivity|].
      apply lookup_insert_Some in Hk as [[<- _]|[_ Hk]]; [vm_compute in Hc; discriminate|].
      by rewrite lookup_empty in Hk.
Defined.

End witnesses.
