(* ===== verification/ProxyProto.v ===== *)
(** internal/proxy/proxyproto.go: the PROXY protocol v2 header. *)
From S2P Require Import Prelude GoBytes.
Local Open Scope Z_scope.

(** A net.Addr: a *net.TCPAddr, or an address of another dynamic type. *)
Inductive Addr : Type :=
| TCPAddr (IP : bytes) (Port : Z)
| OtherAddr.

(** net.IP.To4 and net.IP.To16; [None] is nil. *)
Definition v4InV6Prefix : bytes := replicate 10 x00 ++ [xff; xff].
Definition To4 (ip : bytes) : option bytes :=
  if decide (length ip = 4%nat) then Some ip
  else if decide (length ip = 16%nat ∧ take 12 ip = v4InV6Prefix) then Some (drop 12 ip)
  else None.
Definition To16 (ip : bytes) : option bytes :=
  if decide (length ip = 4%nat) then Some (v4InV6Prefix ++ ip)
  else if decide (length ip = 16%nat) then Some ip
  else None.

Definition proxyV2Signature : bytes :=
  [x0d; x0a; x0d; x0a; x00; x0d; x0a; x51; x55; x49; x54; x0a].

(** append(dst, x...) with a nil x appends nothing. *)
Definition spread (x : option bytes) : bytes := match x with Some b => b | None => [] end.

(** [None] is the error return. *)
Definition proxyV2Header (src dst : Addr) : option bytes :=
  match src, dst with
  | TCPAddr sIP sPort, TCPAddr dIP dPort =>
      let hdr := proxyV2Signature ++ [x21] in
      let '(hdr, body) :=
        match To4 sIP, To4 dIP with
        | Some s4, Some d4 => (hdr ++ [x11], s4 ++ d4)
        | _, _ => (hdr ++ [x21], spread (To16 sIP) ++ spread (To16 dIP))
        end in
      let body := body ++ be_put 2 (wrap 16 sPort) in
      let body := body ++ be_put 2 (wrap 16 dPort) in
      let hdr := hdr ++ be_put 2 (wrap 16 (blen body)) in
      Some (hdr ++ body)
  | _, _ => None
  end.

(** * Reference: a receiver of the protocol (haproxy PROXY protocol, section 2.2) *)

(** The two endpoints as 16-byte addresses with their ports, and the rest of
    the stream.  The receiver takes the announced length from the header. *)
Definition decode_v2 (stream : bytes) : option (bytes * Z * bytes * Z * bytes) :=
  if decide (take 12 stream = proxyV2Signature) then
    match drop 12 stream with
    | vc :: fam :: l1 :: l2 :: rest =>
        let len := be_get [l1; l2] in
        if negb (byte_val vc =? 0x21) || (blen rest <? len) then None else
        let body := take (Z.to_nat len) rest in
        let rest := drop (Z.to_nat len) rest in
        if (byte_val fam =? 0x11) && (12 <=? len) then
          Some (v4InV6Prefix ++ take 4 body, be_get (take 2 (drop 8 body)),
                v4InV6Prefix ++ take 4 (drop 4 body), be_get (take 2 (drop 10 body)), rest)
        else if (byte_val fam =? 0x21) && (36 <=? len) then
          Some (take 16 body, be_get (take 2 (drop 32 body)),
                take 16 (drop 16 body), be_get (take 2 (drop 34 body)), rest)
        else None
    | _ => None
    end
  else None.

Definition valid_ip (ip : bytes) : Prop := length ip = 4%nat ∨ length ip = 16%nat.
Definition valid_port (p : Z) : Prop := 0 <= p < 65536.

Lemma To4_To16 ip ip4 : To4 ip = Some ip4 → length ip4 = 4%nat ∧ spread (To16 ip) = v4InV6Prefix ++ ip4.
Proof.
  unfold To4, To16. case_decide as H4; [by intros [= ->]|]. case_decide as H16; [|done]. intros [= <-].
  destruct H16 as [Hl Hp]. rewrite decide_True by done. rewrite length_drop, Hl. split; [done|].
  cbn [spread]. rewrite <- Hp. by rewrite take_drop.
Qed.

Lemma To16_length ip : valid_ip ip → length (spread (To16 ip)) = 16%nat.
Proof.
  unfold valid_ip, To16. intros Hv. case_decide as H4; [simpl; by rewrite H4|].
  rewrite decide_True by naive_solver. simpl. naive_solver.
Qed.

(** The receiver on a header in general form: [w] is the width of an address. *)
Lemma body_fields (s d rest : bytes) (w : nat) sp dp :
  length s = w → length d = w → valid_port sp → valid_port dp →
  let body := s ++ d ++ be_put 2 sp ++ be_put 2 dp in
  take w body = s ∧ take w (drop w body) = d ∧
  be_get (take 2 (drop (w + w) body)) = sp ∧ be_get (take 2 (drop (w + w + 2) body)) = dp ∧
  blen body = 2 * Z.of_nat w + 4.
Proof.
  intros Hs Hd Hsp Hdp body. unfold body. split_and!.
  - by rewrite take_app_length'.
  - rewrite drop_app_length' by done. by rewrite take_app_length'.
  - rewrite app_assoc, drop_app_length' by (rewrite length_app; lia).
    rewrite take_app_length' by (by rewrite length_be_put). by apply be_get_put_id.
  - rewrite !app_assoc, drop_app_length' by (rewrite !length_app, length_be_put; lia).
    rewrite firstn_all2 by (by rewrite length_be_put). by apply be_get_put_id.
  - unfold blen. rewrite !length_app, !length_be_put. lia.
Qed.

Lemma decode_v2_step (vc fam : Byte.byte) l body rest :
  blen body = l → 0 <= l < 65536 → byte_val vc = 0x21 →
  decode_v2 (proxyV2Signature ++ vc :: fam :: be_put 2 l ++ body ++ rest) =
  if (byte_val fam =? 0x11) && (12 <=? l) then
    Some (v4InV6Prefix ++ take 4 body, be_get (take 2 (drop 8 body)),
          v4InV6Prefix ++ take 4 (drop 4 body), be_get (take 2 (drop 10 body)), rest)
  else if (byte_val fam =? 0x21) && (36 <=? l) then
    Some (take 16 body, be_get (take 2 (drop 32 body)),
          take 16 (drop 16 body), be_get (take 2 (drop 34 body)), rest)
  else None.
Proof.
  intros Hb Hl Hvc. unfold decode_v2.
  rewrite take_app_length', drop_app_length' by done. rewrite decide_True by done.
  assert (∃ l1 l2, be_put 2 l = [l1; l2]) as (l1 & l2 & El) by (eexists _, _; reflexivity).
  rewrite El. cbn [app]. assert (be_get [l1; l2] = l) as -> by (rewrite <- El; by apply be_get_put_id).
  rewrite Hvc, blen_app, Hb. pose proof (blen_nonneg rest). change (33 =? 33) with true. zdec. cbn [negb orb].
  assert (Z.to_nat l = length body) as -> by (unfold blen in Hb; lia).
  by rewrite take_app_length, drop_app_length.
Qed.

(** The bytes proxyV2Header assembles for one address family. *)
Definition assembled (fam : Byte.byte) (s d : bytes) (sPort dPort : Z) : bytes :=
  let body := ((s ++ d) ++ be_put 2 sPort) ++ be_put 2 dPort in
  (((proxyV2Signature ++ [x21]) ++ [fam]) ++ be_put 2 (wrap 16 (blen body))) ++ body.

Lemma decode_assembled fam s d w sPort dPort rest :
  length s = w → length d = w → valid_port sPort → valid_port dPort →
  (fam = x11 ∧ w = 4%nat) ∨ (fam = x21 ∧ w = 16%nat) →
  length (assembled fam s d sPort dPort) = (20 + w + w)%nat ∧
  decode_v2 (assembled fam s d sPort dPort ++ rest) =
  Some (if decide (w = 4%nat) then (v4InV6Prefix ++ s, sPort, v4InV6Prefix ++ d, dPort, rest)
        else (s, sPort, d, dPort, rest)).
Proof.
  intros Hs Hd Hsp Hdp Hw. destruct (body_fields s d [] w sPort dPort) as (B1 & B2 & B3 & B4 & B5); [done..|].
  unfold assembled, wrap. cbv zeta. rewrite <- !app_assoc. rewrite B5, Z.mod_small by (destruct Hw as [[_ ->]|[_ ->]]; lia). split.
  - rewrite !length_app, !length_be_put. simpl. lia.
  - transitivity (decode_v2 (proxyV2Signature ++ x21 :: fam :: be_put 2 (2 * Z.of_nat w + 4) ++
      (s ++ d ++ be_put 2 sPort ++ be_put 2 dPort) ++ rest)); [f_equal; by rewrite <- !app_assoc|].
    rewrite (decode_v2_step x21 fam) by (done || (destruct Hw as [[_ ->]|[_ ->]]; lia)).
    by destruct Hw as [[-> ->]|[-> ->]]; cbn [Nat.add] in B3, B4; cbn [byte_val]; rewrite B1, B2, B3, B4.
Qed.

(** C30: For TCP endpoints the header is one a PROXY protocol receiver reads
    back: it yields exactly the client's and the gateway's address and port,
    IPv4 or IPv6 or mixed, and consumes the header and nothing of the stream
    after it. *)
Theorem proxyV2Header_roundtrip sIP sPort dIP dPort :
  valid_ip sIP → valid_ip dIP → valid_port sPort → valid_port dPort →
  ∃ hdr, proxyV2Header (TCPAddr sIP sPort) (TCPAddr dIP dPort) = Some hdr ∧
    (length hdr = 28%nat ∨ length hdr = 52%nat) ∧
    ∀ rest, decode_v2 (hdr ++ rest) = Some (spread (To16 sIP), sPort, spread (To16 dIP), dPort, rest).
Proof.
  intros Hs Hd Hsp Hdp. unfold proxyV2Header.
  assert (wrap 16 sPort = sPort) as -> by (by apply Z.mod_small).
  assert (wrap 16 dPort = dPort) as -> by (by apply Z.mod_small).
  pose proof (To16_length _ Hs) as Hl1. pose proof (To16_length _ Hd) as Hl2.
  pose proof (fun rest => decode_assembled x21 _ _ 16 sPort dPort rest Hl1 Hl2 Hsp Hdp (or_intror (conj eq_refl eq_refl))) as H6.
  destruct (To4 sIP) as [s4|] eqn:E1; [destruct (To4 dIP) as [d4|] eqn:E2|]; cbv zeta; eexists; (split; [reflexivity|]).
  - apply To4_To16 in E1 as [Hk1 ->], E2 as [Hk2 ->].
    pose proof (fun rest => decode_assembled x11 s4 d4 4 sPort dPort rest Hk1 Hk2 Hsp Hdp (or_introl (conj eq_refl eq_refl))) as H4.
    split; [left; apply (H4 [])|apply H4].
  - split; [right; apply (H6 [])|apply H6].
  - split; [right; apply (H6 [])|apply H6].
Qed.

Lemma proxyV2Header_roundtrip_witness : ∃ hdr,
  proxyV2Header (TCPAddr [xc0; x00; x02; x01] 50000) (TCPAddr (v4InV6Prefix ++ [x0a; x00; x00; x01]) 443) = Some hdr ∧
  decode_v2 (hdr ++ [x16; x03]) =
    Some (v4InV6Prefix ++ [xc0; x00; x02; x01], 50000, v4InV6Prefix ++ [x0a; x00; x00; x01], 443, [x16; x03]).
Proof.
  destruct (proxyV2Header_roundtrip [xc0; x00; x02; x01] 50000 (v4InV6Prefix ++ [x0a; x00; x00; x01]) 443)
    as (hdr & Hh & _ & Hr); [by left|by right|done|done|].
  exists hdr. split; [exact Hh|]. rewrite Hr. reflexivity.
Defined.

Example proxyV2Header_other : proxyV2Header OtherAddr (TCPAddr [x0a; x00; x00; x01] 443) = None.
Proof. done. Qed.
