(* ===== verification/Proxy.v ===== *)
(** internal/proxy/proxy.go: reading the ClientHello, choosing the transport,
    and splicing.

    The bytes a peer sends are the list of segments its socket delivers; reading
    past the last one is the error return of Read (end of stream, reset, or the
    deadline).  What handleConn does after the ClientHello is a program over the
    operations [op]; its deferred calls run at the end, last first.  Log lines
    are left out, the counters are operations. *)
From Stdlib Require Import Strings.String.
From S2P Require Import Prelude GoBytes GoStrings GoRuntime Effects Sni RouteTable Tracker Http Quarantine ProxyProto.
Local Open Scope Z_scope.

(** * Connections *)

(** conn.Read(b) with len(b) = cap. *)
Definition conn_read (c : list bytes) (cap : Z) : option (bytes * list bytes) :=
  match c with
  | [] => None
  | seg :: rest =>
      if blen seg <=? cap then Some (seg, rest)
      else Some (take (Z.to_nat cap) seg, drop (Z.to_nat cap) seg :: rest)
  end.

(** prefixConn: replay the buffered bytes, then read the connection. *)
Record prefixConn := { pc_conn : list bytes; pc_buf : bytes }.

Definition NewPrefixConn (conn : list bytes) (buf : bytes) : prefixConn := {| pc_conn := conn; pc_buf := buf |}.

Definition prefixConn_Read (c : prefixConn) (cap : Z) : option (bytes * prefixConn) :=
  if 0 <? blen (pc_buf c) then
    let n := Z.min cap (blen (pc_buf c)) in
    Some (take (Z.to_nat n) (pc_buf c), {| pc_conn := pc_conn c; pc_buf := drop (Z.to_nat n) (pc_buf c) |})
  else
    match conn_read (pc_conn c) cap with
    | Some (b, conn) => Some (b, {| pc_conn := conn; pc_buf := pc_buf c |})
    | None => None
    end.

(** * The ClientHello loop of handleConn *)

Inductive hello : Type :=
| HelloReadErr
| HelloParseErr (e : sni_error)
| Hello (buf : bytes) (hostname : string) (alpns : list string) (rest : list bytes).

Fixpoint hello_loop (fuel : nat) (bufferSize : Z) (buf : bytes) (c : list bytes) : go hello :=
  match fuel with
  | O => OutOfFuel
  | S fuel' =>
      match conn_read c (bufferSize - blen buf) with
      | None => Ret HelloReadErr
      | Some (m, c) =>
          let buf := buf ++ m in
          let! r := ParseClientHello buf in
          match r with
          | (hostname, alpns, None) => Ret (Hello buf hostname alpns c)
          | (_, _, Some err) =>
              if match err with ErrTruncated => true | _ => false end && (blen buf <? bufferSize)
              then hello_loop fuel' bufferSize buf c
              else Ret (HelloParseErr err)
          end
      end
  end%go.

(** A segment is consumed by every iteration that continues. *)
Definition read_hello (bufferSize : Z) (c : list bytes) : go hello :=
  hello_loop (S (length c)) bufferSize [] c.

(** * handleConn *)

Record Gateway := {
  bufferSize : Z;
  terminator : bool;   (* g.terminator != nil *)
  tunnels : bool;      (* g.tunnels != nil *)
  fallbackTLS : bool;  (* g.fallbackTLS != nil *)
}.

Record client := {
  RemoteAddr : Addr;
  RemoteAddrString : string;
  LocalAddr : Addr;
}.

Inductive op : Type :=
| OActiveInc | OActiveDec | OWgDone
| OSetReadDeadline (seconds : option Z) | OSetWriteDeadline (seconds : Z)
| OConnError (reason : string)
| OTunnelHandle (clientHello : bytes)
| OLookup (host : string)
| OTerminatorHandle (clientHello : bytes) (route : Route)
| ORefused (labels : string * string)
| OClientWrite (b : bytes)
| OTLSHandshake (clientHello : bytes)  (* tls.Server on the prefixConn, with the fallback certificate *)
| OTLSWrite (b : bytes) | OTLSClose
| ODial (upstream clientAddr : string)
| OTrack (host kind_ : string) | ORelease
| OBackendWrite (b : bytes)
| OSplice
| OBackendClose | OClientClose.

(** What each operation answers; [true] is a nil error. *)
Definition ans (o : op) : Type :=
  match o with
  | OLookup _ => option Route
  | OClientWrite _ | OTLSHandshake _ | OTLSWrite _ | ODial _ _ | OBackendWrite _ => bool
  | _ => unit
  end.

Abbreviation call := (@pdo op ans).

Definition ALPN : string := "privasys-tunnel/1".

Definition isACMEChallengeOnly (alpns : list string) : bool :=
  match alpns with
  | [p] => String.eqb p "acme-tls/1"
  | _ => false
  end.

Definition http404Body : string :=
  ("<!DOCTYPE html>" ++ newline ++
   "<html><head><title>404 Not Found</title></head>" ++ newline ++
   "<body><h1>404 Not Found</h1><p>The requested application does not exist.</p></body>" ++ newline ++
   "</html>")%string.

Definition response404 : string :=
  ("HTTP/1.1 404 Not Found" ++ crlf ++ header_line "Content-Type" "text/html; charset=utf-8" ++
   header_line "Content-Length" (itoa (slen http404Body)) ++ header_line "Connection" "close" ++
   crlf ++ http404Body)%string.

(** [live, ok := ...; ok && live.Quarantined()] *)
Definition is_quarantined (a : option Route) : bool :=
  match a with Some r => Quarantined r | None => false end.

Section handle.
Context `{GoUnicode}.
Local Open Scope prog_scope.

Definition send404 (g : Gateway) (clientHello : bytes) : prog ans unit :=
  if negb (fallbackTLS g) then PRet tt else
  do ok <- call (OTLSHandshake clientHello);
  if negb ok then PRet tt else
  call (OTLSWrite (of_string response404)) ;;
  call OTLSClose.

Definition write_alert (hostname : string) : prog ans unit :=
  call (ORefused (Refused hostname ModeSplice)) ;;
  call (OSetWriteDeadline 5) ;;
  call (OClientWrite tlsAlert) ;;
  PRet tt.

(** The code after the dial succeeded, up to its return: its deferred
    release and backendConn.Close follow in [splice_conn]. *)
Definition dialed (direct : bool) (route : Route) (cl : client) (buf : bytes) (hostname : string) : prog ans unit :=
  do live <- call (OLookup hostname);
  if is_quarantined live then write_alert hostname else
  do ok <- (if direct && ProxyProtocol route && negb (HasPrefix (Upstream route) "tunnel:") then
              match proxyV2Header (RemoteAddr cl) (LocalAddr cl) return prog ans bool with
              | Some hdr => call (OBackendWrite hdr)
              | None => PRet true
              end
            else PRet true : prog ans bool);
  if negb ok then call (OConnError "write_upstream") else
  do ok <- call (OBackendWrite buf);
  if negb ok then call (OConnError "write_upstream") else
  call OSplice.

Definition splice_conn (direct : bool) (route : Route) (cl : client) (buf : bytes) (hostname : string) : prog ans unit :=
  do ok <- call (ODial (Upstream route) (RemoteAddrString cl));
  if negb ok then call (OConnError "dial_upstream") else
  call (OTrack hostname KindSplice) ;;
  dialed direct route cl buf hostname ;;
  call ORelease ;;
  call OBackendClose.

(** handleConn once the ClientHello is read. *)
Definition route_conn (g : Gateway) (cl : client) (buf : bytes) (hostname : string) (alpns : list string) : prog ans unit :=
  if tunnels g && HasALPN alpns ALPN then call (OTunnelHandle buf) else
  do found <- call (OLookup hostname);
  match found with
  | None => call (OConnError "no_route") ;; send404 g buf
  | Some route =>
      let ratlsCapable := HasALPN alpns "privasys-ratls/1" in
      let direct := IsDirect route || (IsDirectPending route && isACMEChallengeOnly alpns) in
      if negb direct && IsAlias route then call (OConnError "adopter_not_direct") ;; send404 g buf
      else if negb direct && negb ratlsCapable && terminator g then call (OTerminatorHandle buf route)
      else if Quarantined route then write_alert hostname
      else splice_conn direct route cl buf hostname
  end.

Definition hello_conn (g : Gateway) (cl : client) (h : hello) : prog ans unit :=
  match h with
  | HelloReadErr => call (OConnError "client_read")
  | HelloParseErr _ => call (OConnError "sni_parse")
  | Hello buf hostname alpns _ =>
      call (OSetReadDeadline None) ;;
      route_conn g cl buf hostname alpns
  end.

(** The whole handler on a client that sends the segments [c]. *)
Definition handleConn (g : Gateway) (cl : client) (c : list bytes) : go (prog ans unit) :=
  (let! h := read_hello (bufferSize g) c in
   Ret (call OActiveInc ;;
        call (OSetReadDeadline (Some 5)) ;;
        hello_conn g cl h ;;
        call OActiveDec ;;
        call OClientClose ;;
        call OWgDone))%go.

End handle.

(** * splice *)

(** The answer of one Write: how many bytes were taken, and whether it failed. *)
Definition write_result : Type := Z * bool.

(** copyWithIdleTimeout: the bytes written to dst, in order, and the total
    returned.  [src] is what src delivers until its Read fails, [ws] the answers
    of dst to the writes; a write without an answer in [ws] succeeds. *)
Definition take_write (b : bytes) (ws : list write_result) : bytes * bool * list write_result :=
  match ws with
  | [] => (b, false, [])
  | (nw, failed) :: ws => (take (Z.to_nat nw) b, failed, ws)
  end.

Fixpoint copyWithIdleTimeout (fuel : nat) (src : list bytes) (ws : list write_result) (out : bytes) (total : Z)
    : go (bytes * Z) :=
  match fuel with
  | O => OutOfFuel
  | S fuel' =>
      match conn_read src (32 * 1024) with
      | None => Ret (out, total)
      | Some (b, src) =>
          if 0 <? blen b then
            let '(w, failed, ws) := take_write b ws in
            if failed then Ret (out ++ w, total + blen w)
            else copyWithIdleTimeout fuel' src ws (out ++ w) (total + blen w)
          else copyWithIdleTimeout fuel' src ws out total
      end
  end.

(** What the two goroutines of splice leave behind: the bytes delivered each
    way, the counts added to gateway_bytes_total, and the half-closes. *)
Record splice_result := {
  client_to_backend : bytes;
  backend_to_client : bytes;
  count_up : Z;
  count_down : Z;
  backend_half_closed : bool;
  client_half_closed : bool;
}.

(** A continuing iteration consumes a segment or 32 KiB of one. *)
Definition copy_fuel (src : list bytes) : nat := S (length src + length (concat src)).

(** [cw_backend], [cw_client]: whether the connection is a closeWriter. *)
Definition splice (cw_backend cw_client : bool) (client backend : list bytes)
    (to_backend to_client : list write_result) : go splice_result :=
  (let! up := copyWithIdleTimeout (copy_fuel client) client to_backend [] 0 in
   let! down := copyWithIdleTimeout (copy_fuel backend) backend to_client [] 0 in
   Ret {| client_to_backend := up.1; backend_to_client := down.1;
          count_up := up.2; count_down := down.2;
          backend_half_closed := cw_backend; client_half_closed := cw_client |})%go.

(** * Reading *)

Lemma conn_read_spec c cap m c' :
  0 <= cap → conn_read c cap = Some (m, c') →
  m ++ concat c' = concat c ∧ blen m <= cap ∧
  (length c = S (length c') ∨ (length c = length c' ∧ blen m = cap)).
Proof.
  destruct c as [|seg c]; [done|]. simpl. intros Hcap. zcase; intros [= <- <-].
  - auto.
  - simpl. rewrite app_assoc, take_drop. split; [done|]. unfold blen in *. rewrite length_take. lia.
Qed.

Lemma conn_read_some c cap : concat c ≠ [] → ∃ m c', conn_read c cap = Some (m, c').
Proof. destruct c as [|seg c]; [done|]. intros _. simpl. zcase; eauto. Qed.

Lemma hello_loop_spec fuel bs buf c :
  0 <= bs → blen buf <= bs → (length c < fuel)%nat →
  ∃ h, hello_loop fuel bs buf c = Ret h ∧
    ∀ buf' host alpns rest, h = Hello buf' host alpns rest →
      buf' ++ concat rest = buf ++ concat c ∧ blen buf' <= bs ∧ ParseClientHello buf' = Ret (host, alpns, None).
Proof.
  revert buf c. induction fuel as [|fuel IH]; intros buf c Hbs Hbuf Hf; [lia|]. simpl.
  destruct (conn_read c (bs - blen buf)) as [[m c']|] eqn:Er; [|by eexists].
  apply conn_read_spec in Er as (Hcat & Hm & Hlen); [|lia].
  assert (blen (buf ++ m) <= bs) by (rewrite blen_app; lia).
  pose proof (ParseClientHello_returns (buf ++ m)) as [[[host alpns] err] Hp]%returns_ret. rewrite Hp. simpl.
  destruct err as [err|].
  - destruct (match err with ErrTruncated => true | _ => false end) eqn:Et; simpl; [|by eexists].
    zcase; [|by eexists].
    assert (length c' < fuel)%nat. { destruct Hlen as [|[_ Heq]]; [lia|]. rewrite blen_app in *. lia. }
    destruct (IH (buf ++ m) c') as (h & -> & Hh); [done..|]. eexists. split; [done|].
    intros * Eh. apply Hh in Eh. by rewrite <- app_assoc, Hcat in Eh.
  - eexists. split; [done|]. intros * [= <- <- <- <-]. by rewrite <- app_assoc, Hcat.
Qed.

(** Reading the ClientHello always ends, for every way the client cuts its
    bytes into segments, and loses or invents nothing: the buffered bytes and
    what is still unread are together the client's stream, the buffer holds at
    most bufferSize bytes, and the hostname and protocols are those of the
    buffered bytes. *)
Theorem read_hello_total bs c :
  0 <= bs →
  ∃ h, read_hello bs c = Ret h ∧
    ∀ buf host alpns rest, h = Hello buf host alpns rest →
      buf ++ concat rest = concat c ∧ blen buf <= bs ∧ ParseClientHello buf = Ret (host, alpns, None).
Proof. intros Hbs. unfold read_hello. apply (hello_loop_spec _ bs []); [done|done|lia]. Qed.

Lemma prefix_split {A} (b r rec extra : list A) :
  b ++ r = rec ++ extra →
  (length b < length rec ∧ b = take (length b) rec)%nat ∨ (∃ e, b = rec ++ e).
Proof.
  intros E. destruct (decide (length b < length rec)%nat) as [Hl|Hl]; [left|right].
  - split; [done|]. apply (f_equal (take (length b))) in E. rewrite take_app_length in E.
    by rewrite take_app_le in E by lia.
  - exists (drop (length rec) b). apply (f_equal (take (length rec))) in E. rewrite take_app_length in E.
    rewrite take_app_le in E by lia. rewrite <- E at 1. by rewrite take_drop.
Qed.

Lemma hello_loop_segments fuel bs rec extra host alpns buf c :
  complete_record rec → ParseClientHello rec = Ret (host, alpns, None) → blen rec <= bs →
  buf ++ concat c = rec ++ extra → (length buf < length rec)%nat → (length c < fuel)%nat →
  ∃ e rest, hello_loop fuel bs buf c = Ret (Hello (rec ++ e) host alpns rest) ∧ e ++ concat rest = extra.
Proof.
  intros Hrec Hparse Hbs. revert buf c. induction fuel as [|fuel IH]; intros buf c Hcat Hl Hf; [lia|]. simpl.
  destruct (conn_read_some c (bs - blen buf)) as (m & c' & Er).
  { intros Hnil. rewrite Hnil, app_nil_r in Hcat. subst buf. rewrite length_app in Hl. lia. }
  rewrite Er. apply conn_read_spec in Er as (Hcat' & Hm & Hlen); [|unfold blen in *; lia].
  assert (Hcat2 : (buf ++ m) ++ concat c' = rec ++ extra) by (by rewrite <- app_assoc, Hcat').
  destruct (prefix_split _ _ _ _ Hcat2) as [[Hlt Heq]|[e Heq]].
  - assert (ParseClientHello (buf ++ m) = Ret ("", [], Some ErrTruncated)) as ->
      by (rewrite Heq; by apply parse_strict_prefix). simpl.
    assert (blen (buf ++ m) < bs) by (unfold blen in *; lia). zdec.
    apply IH; [done..|]. destruct Hlen as [|[_ E]]; [lia|]. rewrite blen_app in *. lia.
  - rewrite Heq in *. rewrite parse_extra, Hparse by done. simpl. exists e, c'. split; [done|].
    rewrite <- app_assoc in Hcat2. by apply app_inv_head in Hcat2.
Qed.

(** C17: A complete ClientHello record that fits the buffer is recognised
    however TCP segments it: the loop stops with its hostname and protocols, the
    record buffered, and the bytes after the record kept in order. *)
Theorem read_hello_segmentation bs rec extra host alpns c :
  complete_record rec → ParseClientHello rec = Ret (host, alpns, None) → blen rec <= bs →
  concat c = rec ++ extra →
  ∃ e rest, read_hello bs c = Ret (Hello (rec ++ e) host alpns rest) ∧ e ++ concat rest = extra.
Proof.
  intros Hrec Hparse Hbs Hc. apply hello_loop_segments; [done..| |lia].
  destruct Hrec as (? & ? & ? & ? & ? & -> & _). simpl. lia.
Qed.

(** * Observing a trace of handleConn *)

Definition is_dial (e : event ans) : bool := match e with existT (ODial _ _) _ => true | _ => false end.
Definition is_terminate (e : event ans) : bool := match e with existT (OTerminatorHandle _ _) _ => true | _ => false end.
Definition is_splice (e : event ans) : bool := match e with existT OSplice _ => true | _ => false end.
Definition to_backend (e : event ans) : bytes := match e with existT (OBackendWrite b) _ => b | _ => [] end.
Definition to_client (e : event ans) : bytes := match e with existT (OClientWrite b) _ => b | _ => [] end.
(** A lookup and its answer. *)
Definition looked_up (e : event ans) : list (option Route) :=
  match e with existT (OLookup _) a => [a] | _ => [] end.

Definition lookups (tr : list (event ans)) : list (option Route) := flat_map looked_up tr.
Definition backend_bytes (tr : list (event ans)) : bytes := flat_map to_backend tr.
Definition client_bytes (tr : list (event ans)) : bytes := flat_map to_client tr.
Definition dials (tr : list (event ans)) : bool := existsb is_dial tr.
Definition terminates (tr : list (event ans)) : bool := existsb is_terminate tr.
Definition splices (tr : list (event ans)) : bool := existsb is_splice tr.

(** Follow a trace through every branch of the handler. *)
Ltac walk H :=
  repeat
   (cbv beta zeta delta [hello_conn send404 write_alert splice_conn dialed route_conn] in H;
    cbn [pbind trace pdo negb andb orb] in H;
    match type of H with
    | ∃ _, _ => let x := fresh "x" in destruct H as [x H]; cbn [ans] in x;
        match type of x with unit => destruct x | _ => idtac end
    | _ = _ ∧ _ => let E := fresh "E" in destruct H as [E H]; subst
    | trace (match ?b with _ => _ end) _ _ => destruct b eqn:?
    | trace (pbind (match ?b with _ => _ end) _) _ _ => destruct b eqn:?
    | trace (pbind (pbind (match ?b with _ => _ end) _) _) _ _ => destruct b eqn:?
    end).

Section traces.
Context `{GoUnicode}.

Lemma handleConn_frame g cl c p :
  handleConn g cl c = Ret p →
  ∃ h, read_hello (bufferSize g) c = Ret h ∧
    ∀ tr, trace p tr tt → ∃ tr1, trace (hello_conn g cl h) tr1 tt ∧
      tr = ev OActiveInc tt :: ev (OSetReadDeadline (Some 5)) tt ::
           (tr1 ++ [ev OActiveDec tt; ev OClientClose tt; ev OWgDone tt]).
Proof.
  unfold handleConn. intros (h & Hh & [= <-])%go_bind_ret. exists h. split; [done|]. intros tr.
  cbn [pbind trace pdo]. intros ([] & t1 & -> & [] & t2 & -> & Ht).
  apply trace_bind in Ht as (tr1 & [] & tr2 & -> & H1 & H2). exists tr1. split; [done|].
  cbn [pbind trace pdo] in H2. destruct H2 as ([] & t3 & -> & [] & t4 & -> & [] & t5 & -> & -> & _). done.
Qed.

Lemma observe_frame {A} (f : event ans → list A) (tr1 : list (event ans)) :
  f (ev OActiveInc tt) = [] → f (ev (OSetReadDeadline (Some 5)) tt) = [] → f (ev OActiveDec tt) = [] →
  f (ev OClientClose tt) = [] → f (ev OWgDone tt) = [] →
  flat_map f (ev OActiveInc tt :: ev (OSetReadDeadline (Some 5)) tt ::
    (tr1 ++ [ev OActiveDec tt; ev OClientClose tt; ev OWgDone tt])) = flat_map f tr1.
Proof.
  intros E1 E2 E3 E4 E5. cbn [flat_map]. rewrite E1, E2, flat_map_app. cbn [flat_map app].
  by rewrite E3, E4, E5, app_nil_r.
Qed.

Lemma existsb_frame (f : event ans → bool) (tr1 : list (event ans)) :
  f (ev OActiveInc tt) = false → f (ev (OSetReadDeadline (Some 5)) tt) = false → f (ev OActiveDec tt) = false →
  f (ev OClientClose tt) = false → f (ev OWgDone tt) = false →
  existsb f (ev OActiveInc tt :: ev (OSetReadDeadline (Some 5)) tt ::
    (tr1 ++ [ev OActiveDec tt; ev OClientClose tt; ev OWgDone tt])) = existsb f tr1.
Proof.
  intros E1 E2 E3 E4 E5. cbn [existsb]. rewrite E1, E2, existsb_app. cbn [existsb orb].
  by rewrite E3, E4, E5, orb_false_r.
Qed.

(** Close what is left of a trace: the facts about its lookups decide. *)
Ltac observe :=
  cbn; repeat match goal with E : is_quarantined _ = _ |- _ => rewrite E | E : Quarantined _ = _ |- _ => rewrite E end;
  try naive_solver.

Lemma hello_conn_quarantined g cl h tr :
  trace (hello_conn g cl h) tr tt →
  existsb is_quarantined (lookups tr) = true →
  backend_bytes tr = [] ∧ splices tr = false ∧
  (is_quarantined (hd None (lookups tr)) = true → dials tr = false) ∧
  (dials tr = true → client_bytes tr = tlsAlert).
Proof. intros Ht. destruct h; walk Ht; observe.
Qed.

(** C6: A quarantined route never gets a client byte.  When a lookup of
    handleConn answers a quarantined route, nothing is written to the enclave
    and nothing is spliced; when the first lookup does, the enclave is not even
    dialed; when the route turns quarantined during the dial, the client gets the
    fatal alert. *)
Theorem handleConn_quarantined g cl c p tr :
  handleConn g cl c = Ret p → trace p tr tt →
  existsb is_quarantined (lookups tr) = true →
  backend_bytes tr = [] ∧ splices tr = false ∧
  (is_quarantined (hd None (lookups tr)) = true → dials tr = false) ∧
  (dials tr = true → client_bytes tr = tlsAlert).
Proof.
  intros (h & _ & Hf)%handleConn_frame (tr1 & Ht & ->)%Hf.
  unfold lookups, backend_bytes, client_bytes, splices, dials.
  rewrite !observe_frame, !existsb_frame by done. apply (hello_conn_quarantined _ _ _ _ Ht).
Qed.

(** * The transport of a connection *)

(** The transports of a gateway with a certificate. *)
Inductive transport : Type := Splice | Terminate | Refuse.

(** The ways a route is spliced whatever the client: direct mode, and the
    challenge of a name that waits for its certificate. *)
Definition spliced_mode (r : Route) (alpns : list string) : Prop :=
  Mode r = ModeDirect ∨ (Mode r = ModeDirectPending ∧ alpns = ["acme-tls/1"]).

(** The transport selection as proxy.go documents it (lines 289 to 301): a case
    for every route and every list of protocols. *)
Inductive transport_row (r : Route) (alpns : list string) : transport → Prop :=
| select_direct : spliced_mode r alpns → transport_row r alpns Splice
| select_adopter : ¬ spliced_mode r alpns → IsAlias r = true → transport_row r alpns Refuse
| select_ratls :
    ¬ spliced_mode r alpns → IsAlias r = false → "privasys-ratls/1" ∈ alpns → transport_row r alpns Splice
| select_terminate :
    ¬ spliced_mode r alpns → IsAlias r = false → "privasys-ratls/1" ∉ alpns → transport_row r alpns Terminate.

(** The six rows of the table in README.md, "Transport selection".  They overlap:
    the first one is about any routed name, the last two refuse an adopter name
    whatever it offers. *)
Inductive readme_row (r : Route) (alpns : list string) : transport → Prop :=
| row_ratls : "privasys-ratls/1" ∈ alpns → readme_row r alpns Splice
| row_platform : IsAlias r = false → "privasys-ratls/1" ∉ alpns → readme_row r alpns Terminate
| row_direct : IsAlias r = true → Mode r = ModeDirect → readme_row r alpns Splice
| row_pending_acme :
    IsAlias r = true → Mode r = ModeDirectPending → alpns = ["acme-tls/1"] → readme_row r alpns Splice
| row_pending_other :
    IsAlias r = true → Mode r = ModeDirectPending → alpns ≠ ["acme-tls/1"] → readme_row r alpns Refuse
| row_not_direct :
    IsAlias r = true → Mode r ≠ ModeDirect → Mode r ≠ ModeDirectPending → readme_row r alpns Refuse.

(** A mode is set on adopter names only (table.go, Route.Mode). *)
Definition adopter_mode (r : Route) : Prop :=
  IsAlias r = false → Mode r ≠ ModeDirect ∧ Mode r ≠ ModeDirectPending.

#[global] Instance spliced_mode_dec r alpns : Decision (spliced_mode r alpns).
Proof. unfold spliced_mode. apply _. Defined.

Lemma transport_row_total r alpns : ∃ t, transport_row r alpns t.
Proof.
  destruct (decide (spliced_mode r alpns)); [by eexists; apply select_direct|].
  destruct (IsAlias r) eqn:Ha; [by eexists; apply select_adopter|].
  destruct (decide ("privasys-ratls/1" ∈ alpns)); eexists; [by apply select_ratls|by apply select_terminate].
Qed.

(** The selection is a row of README's table, and the only one that applies,
    unless the refusal of an adopter name meets the row of any routed name. *)
Lemma transport_row_readme r alpns t :
  adopter_mode r → transport_row r alpns t →
  readme_row r alpns t ∧
  (∀ t', readme_row r alpns t' →
    t' = t ∨ (t' = Splice ∧ t = Refuse ∧ IsAlias r = true ∧ "privasys-ratls/1" ∈ alpns)).
Proof.
  unfold adopter_mode. intros Ham Ht. split.
  - destruct Ht as [[Hm|[Hm Hal]]|Hn Ha|Hn Ha Hin|Hn Ha Hin].
    + apply row_direct; [|done]. destruct (IsAlias r); [done|]. by destruct (Ham eq_refl).
    + apply row_pending_acme; [|done..]. destruct (IsAlias r); [done|]. by destruct (Ham eq_refl).
    + unfold spliced_mode in Hn. destruct (decide (Mode r = ModeDirectPending)).
      * apply row_pending_other; tauto.
      * apply row_not_direct; tauto.
    + by apply row_ratls.
    + by apply row_platform.
  - intros t' Hr.
    destruct Ht as [Hs|Hn Ha|Hn Ha Hin|Hn Ha Hin], Hr; try (by left); try (right; tauto); exfalso;
      unfold spliced_mode in *; try tauto; try congruence; destruct Hs as [Hs|[Hs Hal]]; try tauto; try congruence.
    by rewrite Hs in *.
Qed.

(** What the handler of a connection with this transport does. *)
Definition served_as (t : transport) (r : Route) (buf : bytes) (tr : list (event ans)) : Prop :=
  match t with
  | Splice => terminates tr = false ∧
      if Quarantined r then dials tr = false ∧ client_bytes tr = tlsAlert else dials tr = true
  | Terminate => dials tr = false ∧
      ∃ tr1 tr2, tr = tr1 ++ ev (OTerminatorHandle buf r) tt :: tr2 ∧ client_bytes tr = []
  | Refuse => dials tr = false ∧ terminates tr = false ∧
      ∃ tr1 tr2, tr = tr1 ++ ev (OConnError "adopter_not_direct") tt :: tr2
  end.

Lemma isACMEChallengeOnly_spec alpns : isACMEChallengeOnly alpns = true ↔ alpns = ["acme-tls/1"].
Proof.
  destruct alpns as [|p [|q alpns]]; [done| |done]. simpl. rewrite String.eqb_eq. naive_solver.
Qed.

(** What the conditions of handleConn say of a row. *)
Definition direct_route (r : Route) (alpns : list string) : bool :=
  IsDirect r || (IsDirectPending r && isACMEChallengeOnly alpns).

Lemma direct_route_spec r alpns : direct_route r alpns = true ↔ spliced_mode r alpns.
Proof.
  unfold direct_route, spliced_mode, IsDirect, IsDirectPending.
  by rewrite orb_true_iff, andb_true_iff, !String.eqb_eq, isACMEChallengeOnly_spec.
Qed.

Lemma row_guards r alpns t :
  transport_row r alpns t →
  match t with
  | Splice => negb (direct_route r alpns) && IsAlias r = false ∧
      negb (direct_route r alpns) && negb (HasALPN alpns "privasys-ratls/1") = false
  | Terminate => direct_route r alpns = false ∧ IsAlias r = false ∧ HasALPN alpns "privasys-ratls/1" = false
  | Refuse => negb (direct_route r alpns) && IsAlias r = true
  end.
Proof.
  destruct 1 as [Hs|Hs Ha|Hs Ha Hin|Hs Ha Hin]; rewrite <- direct_route_spec in Hs;
    rewrite ?not_true_iff_false in Hs; rewrite Hs, ?Ha.
  - done.
  - done.
  - apply HasALPN_spec in Hin. by rewrite Hin.
  - split_and!; [done..|]. apply not_true_is_false. by rewrite HasALPN_spec.
Qed.

Lemma hello_conn_transport g cl buf host alpns rest tr r more t :
  trace (hello_conn g cl (Hello buf host alpns rest)) tr tt →
  terminator g = true → tunnels g && HasALPN alpns ALPN = false →
  lookups tr = Some r :: more → transport_row r alpns t → served_as t r buf tr.
Proof.
  intros Ht Hterm Htun Hl Hrow%row_guards. unfold direct_route in Hrow.
  cbv beta delta [hello_conn] in Ht. cbn [pbind trace pdo] in Ht. destruct Ht as ([] & tr0 & -> & Ht).
  cbv beta zeta delta [route_conn] in Ht. rewrite Htun in Ht. cbn [pbind trace pdo] in Ht.
  destruct Ht as (a & tr1 & -> & Ht). cbn in Hl. injection Hl as -> _.
  rewrite Hterm, andb_true_r in Ht.
  destruct t.
  - destruct Hrow as [H1 H2]. rewrite H1, H2 in Ht. unfold served_as. destruct (Quarantined r) eqn:Eq;
      walk Ht; observe.
  - destruct Hrow as (H1 & H2 & H3). rewrite H1, H2, H3 in Ht. walk Ht. split; [done|].
    by exists [ev (OSetReadDeadline None) tt; ev (OLookup host) (Some r)], [].
  - rewrite Hrow in Ht. walk Ht; (split; [done|split; [done|]]);
      by eexists [ev (OSetReadDeadline None) tt; ev (OLookup host) (Some r)], _.
Qed.

Lemma served_as_frame t r buf tr1 :
  served_as t r buf tr1 →
  served_as t r buf (ev OActiveInc tt :: ev (OSetReadDeadline (Some 5)) tt ::
    (tr1 ++ [ev OActiveDec tt; ev OClientClose tt; ev OWgDone tt])).
Proof.
  unfold served_as, dials, terminates, client_bytes. rewrite !existsb_frame, observe_frame by done.
  destruct t; [done| |].
  - intros (? & t1 & t2 & -> & ?). split; [done|]. eexists (_ :: _ :: t1), _. split; [|done].
    cbn. by rewrite <- !app_assoc.
  - intros (? & ? & t1 & t2 & ->). split_and!; [done..|]. eexists (_ :: _ :: t1), _.
    cbn. by rewrite <- !app_assoc.
Qed.


Lemma hello_conn_adopter g cl h tr r more :
  trace (hello_conn g cl h) tr tt → lookups tr = Some r :: more → IsAlias r = true → terminates tr = false.
Proof.
  intros Ht. destruct h; walk Ht; try done; observe. intros [= <- <-] Ha.
  rewrite Ha, andb_true_r in *. by destruct (negb _).
Qed.

(** The gateway never terminates TLS for an adopter's hostname, whatever
    the mode, the protocols offered and the configuration. *)
Theorem handleConn_adopter_never_terminated g cl c p tr r more :
  handleConn g cl c = Ret p → trace p tr tt → lookups tr = Some r :: more → IsAlias r = true →
  terminates tr = false.
Proof.
  intros (h & _ & Hf)%handleConn_frame (tr1 & Ht & ->)%Hf. unfold lookups, terminates.
  rewrite observe_frame, existsb_frame by done. apply (hello_conn_adopter _ _ _ _ _ _ Ht).
Qed.

(** * Registration *)

(** The discipline that the quarantine cut relies on, as an automaton over the
    events of a handler: a route found and not quarantined, registered with the
    tracker, checked again, and only then bytes to the enclave; then released. *)
Inductive stage : Type := Fresh | Found | Tracked | Live | Refusing | Finished.

Definition stage_step (s : stage) (e : event ans) : option stage :=
  match e, s with
  | existT (OLookup _) a, Fresh =>
      Some (match a with Some r => if Quarantined r then Finished else Found | None => Finished end)
  | existT (OLookup _) a, Tracked => Some (if is_quarantined a then Refusing else Live)
  | existT (OLookup _) _, _ => None
  | existT (OTrack _ _) _, Found => Some Tracked
  | existT (OTrack _ _) _, _ => None
  | existT (OBackendWrite _) _, Live => Some Live
  | existT (OBackendWrite _) _, _ => None
  | existT OSplice _, Live => Some Live
  | existT OSplice _, _ => None
  | existT ORelease _, (Live | Refusing) => Some Finished
  | existT ORelease _, _ => None
  | _, _ => Some s
  end.

Abbreviation stages := (automaton stage_step).

Lemma hello_conn_stages g cl h tr :
  trace (hello_conn g cl h) tr tt →
  stages Fresh tr = Some Fresh ∨ stages Fresh tr = Some Found ∨ stages Fresh tr = Some Finished.
Proof.
  intros Ht. destruct h; walk Ht; cbn;
    repeat match goal with E : is_quarantined _ = _ |- _ => rewrite E | E : Quarantined _ = _ |- _ => rewrite E end;
    cbn; try (by auto); destruct (Quarantined r); auto.
Qed.

(** The discipline of open traffic.  In every run of handleConn, under
    every answer of the table, the dialer and the connections, a byte reaches
    the enclave only after the splice was registered and the route was looked up
    again and found not quarantined; the registration is released exactly once,
    before the handler ends, and its last steps close the client connection. *)
Theorem handleConn_discipline g cl c p tr :
  handleConn g cl c = Ret p → trace p tr tt →
  (stages Fresh tr = Some Fresh ∨ stages Fresh tr = Some Found ∨ stages Fresh tr = Some Finished) ∧
  ∃ tr0, tr = tr0 ++ [ev OActiveDec tt; ev OClientClose tt; ev OWgDone tt].
Proof.
  intros (h & _ & Hf)%handleConn_frame (tr1 & Ht & ->)%Hf. split.
  - cbn. rewrite automaton_app. apply hello_conn_stages in Ht as [->|[->| ->]]; cbn; auto.
  - by exists (ev OActiveInc tt :: ev (OSetReadDeadline (Some 5)) tt :: tr1).
Qed.

(** * What the enclave receives *)

Lemma copy_spec fuel src ws out total :
  (length src + length (concat src) < fuel)%nat →
  ∃ w, copyWithIdleTimeout fuel src ws out total = Ret (out ++ w, total + blen w) ∧
    (ws = [] → w = concat src) ∧
    (Forall (fun r => r.2 = true ∨ 32768 <= r.1) ws → w `prefix_of` concat src).
Proof.
  revert src ws out total. induction fuel as [|fuel IH]; intros src ws out total Hf; [lia|]. cbn [copyWithIdleTimeout].
  change (32 * 1024) with 32768.
  destruct (conn_read src 32768) as [[b src']|] eqn:Er; cycle 1.
  { destruct src; [|simpl in Er; by destruct (blen _ <=? _)]. exists []. rewrite app_nil_r, Z.add_0_r.
    split_and!; [done..|]. intros _. apply prefix_nil. }
  pose proof Er as Er'. apply conn_read_spec in Er as (Hcat & Hb & Hlen); [|done].
  assert (Hf' : (length src' + length (concat src') < fuel)%nat).
  { rewrite <- Hcat, length_app in Hf. unfold blen in Hlen. lia. }
  zcase; cycle 1.
  { destruct (IH src' ws out total Hf') as (w & -> & H1 & H2). exists w.
    assert (b = []) as -> by (apply nil_length_inv; unfold blen in *; lia).
    simpl in Hcat. by rewrite Hcat in *. }
  destruct ws as [|[nw failed] ws]; cbn [take_write].
  - destruct (IH src' [] (out ++ b) (total + blen b) Hf') as (w & -> & H1 & H2).
    exists (b ++ w). rewrite <- app_assoc, blen_app, Z.add_assoc, H1, Hcat by done.
    split_and!; [done..|]. intros _. done.
  - destruct failed.
    + eexists. split_and!; [done..|]. intros _. rewrite <- Hcat. apply prefix_app_r, prefix_take.
    + destruct (IH src' ws (out ++ take (Z.to_nat nw) b) (total + blen (take (Z.to_nat nw) b)) Hf')
        as (w & -> & H1 & H2).
      eexists (_ ++ w). rewrite <- app_assoc, blen_app, Z.add_assoc. split_and!; [done..|].
      intros [[?|Hnw] Hws]%Forall_cons; [done|]. simpl in Hnw. rewrite <- Hcat.
      rewrite firstn_all2 by (unfold blen in *; lia). apply prefix_app. by apply H2.
Qed.

(** The PROXY header a splice of route [r] opens with. *)
Definition sent_header (r : Route) (alpns : list string) (cl : client) : bytes :=
  if direct_route r alpns && ProxyProtocol r && negb (HasPrefix (Upstream r) "tunnel:")
  then default [] (proxyV2Header (RemoteAddr cl) (LocalAddr cl)) else [].

Lemma hello_conn_bytes g cl h tr :
  trace (hello_conn g cl h) tr tt → splices tr = true →
  ∃ buf host alpns rest r more, h = Hello buf host alpns rest ∧ lookups tr = Some r :: more ∧
    backend_bytes tr = sent_header r alpns cl ++ buf.
Proof.
  intros Ht. destruct h; walk Ht; try (by cbn); intros _; do 6 eexists; (split; [done|split; [done|]]);
    unfold sent_header, direct_route; cbn;
    repeat match goal with E : _ && _ = _ |- _ => rewrite E | E : proxyV2Header _ _ = _ |- _ => rewrite E end;
    by rewrite app_nil_r.
Qed.

Lemma splice_spec cwb cwc cl be wb wc :
  ∃ s, splice cwb cwc cl be wb wc = Ret s ∧
    count_up s = blen (client_to_backend s) ∧ count_down s = blen (backend_to_client s) ∧
    (wb = [] → client_to_backend s = concat cl) ∧ (wc = [] → backend_to_client s = concat be).
Proof.
  unfold splice. destruct (copy_spec (copy_fuel cl) cl wb [] 0) as (u & -> & Hu & _); [unfold copy_fuel; lia|].
  destruct (copy_spec (copy_fuel be) be wc [] 0) as (d & -> & Hd & _); [unfold copy_fuel; lia|].
  eexists. split; [reflexivity|]. done.
Qed.

(** C4: A splice is transparent.  Whatever the segmentation of the client's
    bytes, the enclave receives the PROXY header (exactly on a direct route that
    asks for it, never through a tunnel) and then the client's stream from its
    first byte, each byte once and in order; the client receives the enclave's
    stream unchanged; both copies end and report the bytes they delivered. *)
Theorem splice_transparent g cl c p tr :
  0 <= bufferSize g → handleConn g cl c = Ret p → trace p tr tt → splices tr = true →
  ∃ buf host alpns rest r more,
    read_hello (bufferSize g) c = Ret (Hello buf host alpns rest) ∧ lookups tr = Some r :: more ∧
    ∀ cwb cwc enclave, ∃ s, splice cwb cwc rest enclave [] [] = Ret s ∧
      backend_bytes tr ++ client_to_backend s = sent_header r alpns cl ++ concat c ∧
      backend_to_client s = concat enclave ∧
      count_up s = blen (client_to_backend s) ∧ count_down s = blen (concat enclave).
Proof.
  intros Hbs (h & Hh & Hf)%handleConn_frame (tr1 & Ht & ->)%Hf. unfold splices, lookups, backend_bytes.
  rewrite !observe_frame, existsb_frame by done. intros Hs.
  apply hello_conn_bytes in Ht as (buf & host & alpns & rest & r & more & -> & Hl & Hb); [|done].
  exists buf, host, alpns, rest, r, more. split_and!; [done..|]. intros cwb cwc enclave.
  destruct (splice_spec cwb cwc rest enclave [] []) as (s & Es & Hu & Hd & Hcu & Hcd).
  exists s. rewrite Hcu, Hcd in * by done. split_and!; [done| |done..]. fold (backend_bytes tr1). rewrite Hb, <- app_assoc.
  f_equal. destruct (hello_loop_spec (S (length c)) (bufferSize g) [] c) as (h' & Hh' & Hp); [done|done|lia|].
  unfold read_hello in Hh. rewrite Hh in Hh'. injection Hh' as <-. by destruct (Hp _ _ _ _ eq_refl) as [? _].
Qed.

(** A copy that fails keeps the order: when the peer's writes fail or the
    connection is cut, what was delivered is a prefix of the source, and the
    count is the number of bytes delivered. *)
Theorem copy_prefix src ws :
  Forall (fun r => r.2 = true ∨ 32768 <= r.1) ws →
  ∃ w, copyWithIdleTimeout (copy_fuel src) src ws [] 0 = Ret (w, blen w) ∧ w `prefix_of` concat src.
Proof.
  intros Hws. destruct (copy_spec (copy_fuel src) src ws [] 0) as (w & -> & _ & Hp); [unfold copy_fuel; lia|].
  exists w. split; [done|]. by apply Hp.
Qed.

(** prefixConn replays: reading it is reading the buffered bytes and then the
    connection. *)
Lemma prefixConn_Read_spec pc cap b pc' :
  0 <= cap → prefixConn_Read pc cap = Some (b, pc') →
  b ++ pc_buf pc' ++ concat (pc_conn pc') = pc_buf pc ++ concat (pc_conn pc) ∧ blen b <= cap.
Proof.
  intros Hcap. unfold prefixConn_Read. zcase.
  - intros [= <- <-]. simpl. rewrite app_assoc, take_drop. split; [done|]. unfold blen in *. rewrite length_take. lia.
  - destruct (conn_read _ _) as [[b0 conn]|] eqn:Er; [|done]. intros [= <- <-].
    apply conn_read_spec in Er as (Hcat & Hb & _); [|done]. simpl.
    assert (pc_buf pc = []) as -> by (apply nil_length_inv; unfold blen in *; lia). done.
Qed.

End traces.

Example response404_read :
  read_response response404 =
  Some ("HTTP/1.1 404 Not Found",
        [("Content-Type", "text/html; charset=utf-8"); ("Content-Length", "155"); ("Connection", "close")],
        http404Body)%string.
Proof. vm_compute. reflexivity. Qed.

(** * Concrete inputs *)

Section witnesses.
Import RouteTableExamples.

(** Surroundings where every call succeeds and the lookups answer in turn. *)
Definition ex_env (o : op) (s : list (option Route)) : ans o * list (option Route) :=
  match o with
  | OLookup _ => match s with a :: s => (a, s) | [] => (None, []) end
  | OClientWrite _ | OTLSHandshake _ | OTLSWrite _ | ODial _ _ | OBackendWrite _ => (true, s)
  | _ => (tt, s)
  end.

Definition ex_gateway : Gateway := {| bufferSize := 32768; terminator := true; tunnels := true; fallbackTLS := true |}.
Definition ex_client : client := {|
  RemoteAddr := TCPAddr [xc0; x00; x02; x01] 50000; RemoteAddrString := "192.0.2.1:50000";
  LocalAddr := TCPAddr [x0a; x00; x00; x01] 443 |}.

(** The RA-TLS hello of [ex_hello], delivered in three segments with two bytes after it. *)
Definition ex_segments : list bytes :=
  [take 3 (encode_record ex_hello); drop 3 (encode_record ex_hello) ++ [x14]; [x03]].
Definition ex_prog : prog ans unit := match handleConn ex_gateway ex_client ex_segments with Ret p => p | _ => PRet tt end.
Definition ex_trace (s : list (option Route)) : list (event ans) := (prun ex_env ex_prog s).1.1.

Lemma ex_handle : handleConn ex_gateway ex_client ex_segments = Ret ex_prog.
Proof. vm_compute. reflexivity. Qed.

Lemma ex_trace_ok s : trace ex_prog (ex_trace s) tt.
Proof. apply prun_trace_unit. Qed.

Definition ex_live : Route := ex_route "a.apps.privasys.org" "10.0.0.1:443" "".
Definition ex_quarantined : Route := ex_route "a.apps.privasys.org" "10.0.0.1:443" "quarantined".
Definition ex_adopter : Route := {|
  SNI := "a.apps.privasys.org"; Upstream := "10.0.0.1:443"; AttestationPolicy := ""; State := "";
  Canonical := "shop.apps.privasys.org"; Mode := "direct"; ProxyProtocol := true |}.

Lemma ex_read_hello : read_hello 32768 ex_segments =
  Ret (Hello (encode_record ex_hello ++ [x14]) "a.apps.privasys.org" ["h2"; "privasys-ratls/1"]%string [[x03]]).
Proof. vm_compute. reflexivity. Qed.

Lemma read_hello_total_witness :
  ∃ h, read_hello 32768 [[x16; x03]; []; [x01]] = Ret h ∧
    ∀ buf host alpns rest, h = Hello buf host alpns rest → buf ++ concat rest = [x16; x03; x01].
Proof.
  destruct (read_hello_total 32768 [[x16; x03]; []; [x01]]) as (h & Hh & Hp); [done|].
  exists h. split; [exact Hh|]. intros buf host alpns rest Eh. destruct (Hp buf host alpns rest Eh) as [E _]. exact E.
Defined.

Lemma read_hello_segmentation_witness :
  ∃ e rest, read_hello 4096 ex_segments =
    Ret (Hello (encode_record ex_hello ++ e) "a.apps.privasys.org" ["h2"; "privasys-ratls/1"]%string rest) ∧
    e ++ concat rest = [x14; x03].
Proof.
  apply (read_hello_segmentation 4096 (encode_record ex_hello) [x14; x03]).
  - exact ex_hello_complete.
  - vm_compute. reflexivity.
  - vm_compute. discriminate.
  - vm_compute. reflexivity.
Defined.

Lemma handleConn_quarantined_witness :
  client_bytes (ex_trace [Some ex_live; Some ex_quarantined]) = tlsAlert ∧
  backend_bytes (ex_trace [Some ex_live; Some ex_quarantined]) = [].
Proof.
  destruct (handleConn_quarantined ex_gateway ex_client ex_segments ex_prog
    (ex_trace [Some ex_live; Some ex_quarantined])) as (Hb & _ & _ & Hc).
  - exact ex_handle.
  - apply ex_trace_ok.
  - vm_compute. reflexivity.
  - split; [|exact Hb]. apply Hc. vm_compute. reflexivity.
Defined.


Lemma handleConn_adopter_never_terminated_witness :
  terminates (ex_trace [Some ex_adopter; Some ex_adopter]) = false.
Proof.
  apply (handleConn_adopter_never_terminated ex_gateway ex_client ex_segments ex_prog _ ex_adopter [Some ex_adopter]).
  - exact ex_handle.
  - apply ex_trace_ok.
  - vm_compute. reflexivity.
  - vm_compute. reflexivity.
Defined.

Lemma handleConn_discipline_witness :
  ∃ tr0, ex_trace [Some ex_live; None] = tr0 ++ [ev OActiveDec tt; ev OClientClose tt; ev OWgDone tt].
Proof.
  destruct (handleConn_discipline ex_gateway ex_client ex_segments ex_prog (ex_trace [Some ex_live; None])) as [_ Hx].
  - exact ex_handle.
  - apply ex_trace_ok.
  - exact Hx.
Defined.

Lemma splice_transparent_witness :
  ∃ rest alpns s, splice true true rest [[x16]; [x17]] [] [] = Ret s ∧
    backend_bytes (ex_trace [Some ex_adopter; Some ex_adopter]) ++ client_to_backend s =
    sent_header ex_adopter alpns ex_client ++ concat ex_segments.
Proof.
  destruct (splice_transparent ex_gateway ex_client ex_segments ex_prog (ex_trace [Some ex_adopter; Some ex_adopter]))
    as (buf & host & alpns & rest & r & more & _ & Hl & Hs).
  - done.
  - exact ex_handle.
  - apply ex_trace_ok.
  - vm_compute. reflexivity.
  - assert (lookups (ex_trace [Some ex_adopter; Some ex_adopter]) = [Some ex_adopter; Some ex_adopter]) as E
      by (vm_compute; reflexivity).
    rewrite E in Hl. injection Hl as <- _.
    destruct (Hs true true [[x16]; [x17]]) as (s & Es & Hb & _). exists rest, alpns, s. split; [exact Es|exact Hb].
Defined.

Lemma copy_prefix_witness :
  ∃ w, copyWithIdleTimeout (copy_fuel [[x01; x02]; [x03; x04]]) [[x01; x02]; [x03; x04]] [(32768, false); (1, true)] [] 0
    = Ret (w, blen w) ∧ w `prefix_of` [x01; x02; x03; x04].
Proof.
  apply (copy_prefix [[x01; x02]; [x03; x04]] [(32768, false); (1, true)]).
  repeat constructor; simpl; lia.
Defined.

End witnesses.
