(* ===== verification/Cors.v ===== *)
(** internal/terminate/terminate.go, cross-origin part: the allow-list, the
    preflight answer, the headers stripped from the enclave's response and the
    reconciliation with a public response's own headers. *)
From Stdlib Require Import Strings.Ascii Strings.String.
From S2P Require Import Prelude GoBytes GoStrings GoRuntime Http.
Local Open Scope string_scope.

(** * The allow-list *)

(** Cut [s] at the first [sub]: what precedes it ([s[:i]]) or follows it. *)
Definition cut_before (s sub : string) : string :=
  match Index s sub with Some i => stake i s | None => s end.
Definition cut_after (s sub : string) : string :=
  match Index s sub with Some i => sdrop (i + String.length sub) s | None => s end.

Section cors.
Context `{GoUnicode}.

(** [None] is ok = false. *)
Definition parseWildcardOrigin (spec : string) : option string :=
  let s := TrimSpace spec in
  let s := cut_after s "://" in
  let s := cut_before s ":" in
  let s := cut_before s "/" in
  if negb (HasPrefix s "*.") then None else
  let suf := ToLower (TrimPrefix s "*.") in
  if String.eqb suf "" then None else Some suf.

Definition originHost (origin : string) : string :=
  let s := cut_after origin "://" in
  let s := cut_before s "/" in
  let s := cut_before s ":" in
  ToLower s.

(** The corsOrigins and corsSuffixes of a Handler. *)
Record Cors := { corsOrigins : gset string; corsSuffixes : list string }.

(** The loop of New over opts.CORSOrigins. *)
Definition cors_step (c : Cors) (o : string) : Cors :=
  let o := TrimSpace o in
  if String.eqb o "" then c else
  match parseWildcardOrigin o with
  | Some suf => {| corsOrigins := corsOrigins c; corsSuffixes := (corsSuffixes c ++ [suf])%list |}
  | None => {| corsOrigins := {[ o ]} ∪ corsOrigins c; corsSuffixes := corsSuffixes c |}
  end.
Definition cors_of (origins : list string) : Cors :=
  fold_left cors_step origins {| corsOrigins := ∅; corsSuffixes := [] |}.

Definition isAllowedOrigin (c : Cors) (origin : string) : bool :=
  if String.eqb origin "" then false else
  if decide (origin ∈ corsOrigins c) then true else
  match corsSuffixes c with
  | [] => false
  | _ =>
      let host := originHost origin in
      if String.eqb host "" then false else
      existsb (fun suf => String.eqb host suf || HasSuffix host ("." ++ suf)) (corsSuffixes c)
  end.

(** * Preflight *)

Definition writeCORSPreflight (req : Request) : string :=
  let origin := HGet (ReqHeader req) "Origin" in
  let method := HGet (ReqHeader req) "Access-Control-Request-Method" in
  let method := if String.eqb method "" then "GET, POST, PUT, DELETE, OPTIONS" else method in
  let headers := HGet (ReqHeader req) "Access-Control-Request-Headers" in
  let headers := if String.eqb headers "" then "Authorization, Content-Type, Accept" else headers in
  "HTTP/1.1 204 No Content" ++ crlf ++
  "Access-Control-Allow-Origin: " ++ origin ++ crlf ++
  "Access-Control-Allow-Methods: " ++ method ++ crlf ++
  "Access-Control-Allow-Headers: " ++ headers ++ crlf ++
  "Access-Control-Allow-Credentials: true" ++ crlf ++
  "Access-Control-Max-Age: 600" ++ crlf ++
  "Vary: Origin" ++ crlf ++
  "Content-Length: 0" ++ crlf ++
  crlf.

(** The CORS headers serveHTTP sets on the response writer. *)
Definition inject_cors (c : Cors) (req : Request) : Header :=
  let origin := HGet (ReqHeader req) "Origin" in
  if negb (String.eqb origin "") && isAllowedOrigin c origin then
    HSet (HSet (HSet (HSet ∅ "Access-Control-Allow-Origin" origin) "Vary" "Origin")
      "Access-Control-Allow-Credentials" "true")
      "Access-Control-Expose-Headers"
      "X-Privasys-Reason, X-Privasys-EncAuth-Reject, X-Privasys-Inner-Status, X-Privasys-Edge"
  else ∅.

(** The CORS headers of refuseQuarantined. *)
Definition refusal_cors (c : Cors) (req : Request) : Header :=
  let origin := HGet (ReqHeader req) "Origin" in
  if negb (String.eqb origin "") && isAllowedOrigin c origin then
    HSet (HSet (HSet (HSet ∅ "Access-Control-Allow-Origin" origin)
      "Access-Control-Allow-Credentials" "true")
      "Access-Control-Expose-Headers" "Retry-After") "Vary" "Origin"
  else ∅.

(** * The enclave's response *)

Definition publicTransportHeader : string := "X-Privasys-Transport".
Definition isPublicResponse (h : Header) : bool := String.eqb (HGet h publicTransportHeader) "public".

(** The tokens of a comma-separated list that are kept by [keep], trimmed. *)
Definition kept_tokens (keep : string → bool) (line : string) : list string :=
  filter (fun t => negb (String.eqb t "") && keep t = true) (map TrimSpace (SplitChar "," line)).

Definition cors_headers : list string :=
  ["Access-Control-Allow-Origin"; "Access-Control-Allow-Credentials"; "Access-Control-Allow-Methods";
   "Access-Control-Allow-Headers"; "Access-Control-Expose-Headers"; "Access-Control-Max-Age"].

(** The Vary loop of ModifyResponse: one line, without its Origin token. *)
Definition vary_step (h : Header) (line : string) : Header :=
  let kept := kept_tokens (fun t => negb (EqualFold t "Origin")) line in
  match kept with
  | [] => h
  | _ => HAdd h "Vary" (SJoin kept ", ")
  end.

(** rp.ModifyResponse on the headers of the enclave's response. *)
Definition ModifyResponse (h : Header) : Header :=
  if isPublicResponse h then HDel h "Access-Control-Allow-Credentials" else
  let h := fold_left HDel cors_headers h in
  match HValues h "Vary" with
  | [] => h
  | vs => fold_left vary_step vs (HDel h "Vary")
  end.

(** The token loop of reconcilePublicCORS: tokens seen (lower-cased) and merged. *)
Definition merge_step (acc : gset string * list string) (tok : string) : gset string * list string :=
  let t := TrimSpace tok in
  if String.eqb t "" || bool_decide (ToLower t ∈ acc.1) then acc
  else ({[ ToLower t ]} ∪ acc.1, (acc.2 ++ [t])%list).
Definition merge_tokens (vs : list string) : list string :=
  (fold_left merge_step (flat_map (SplitChar ",") vs) (∅, [])).2.

Definition reconcilePublicCORS (h : Header) : Header :=
  if negb (isPublicResponse h) then h else
  let h := HDel h "Access-Control-Allow-Credentials" in
  let open := existsb (fun v => String.eqb (TrimSpace v) "*") (HValues h "Access-Control-Allow-Origin") in
  let h := if open then HDel (HSet h "Access-Control-Allow-Origin" "*") "Vary" else h in
  match HValues h "Access-Control-Expose-Headers" with
  | vs =>
      if (1 <? length vs)%nat then HSet h "Access-Control-Expose-Headers" (SJoin (merge_tokens vs) ", ") else h
  end.

(** httputil's copyHeader: the enclave's headers are added to the writer's. *)
Definition copyHeader `{GoRange} (dst src : Header) : Header :=
  fold_left (fun d kv => fold_left (fun d v => HAdd d kv.1 v) kv.2 d) (range_map src) dst.

(** The headers of a proxied response as the client sees them: the gateway's,
    then the enclave's after ModifyResponse, reconciled when the header is
    written.  [resp] is what ReverseProxy hands to ModifyResponse, its hop-by-hop
    headers already removed. *)
Definition final_header `{GoRange} (c : Cors) (req : Request) (resp : Header) : Header :=
  reconcilePublicCORS (copyHeader (inject_cors c req) (ModifyResponse resp)).

End cors.

(** * Who is allowed *)

Section origin_theorems.
Context `{GoUnicode}.

(** What follows the first [://] of a string, or the string itself. *)
Definition after_scheme (s rest : string) : Prop :=
  (∃ scheme, s = scheme ++ "://" ++ rest ∧ ∀ x y, scheme ≠ x ++ "://" ++ y) ∨
  (rest = s ∧ ∀ x y, s ≠ x ++ "://" ++ y).

(** The name at the head of an authority: up to a port, a path or the end. *)
Definition leading_name (s name : string) : Prop :=
  sin ":" name = false ∧ sin "/" name = false ∧
  ∃ rest, s = name ++ rest ∧ (rest = "" ∨ ∃ r, rest = String ":" r ∨ rest = String "/" r).

(** A wildcard entry: [scheme://] or nothing, then [*.name], then a port, a path or
    nothing.  Its suffix is the name, lower-cased. *)
Definition wildcard_entry (spec suf : string) : Prop :=
  suf ≠ "" ∧ ∃ s name, after_scheme spec s ∧ leading_name s ("*." ++ name) ∧ suf = ToLower name.

(** What one configured entry allows, once trimmed: a wildcard entry the hosts at
    or below its suffix, any other entry exactly itself. *)
Definition entry_allows (spec origin host : string) : Prop :=
  TrimSpace spec ≠ "" ∧
  ((∃ suf, wildcard_entry (TrimSpace spec) suf ∧ host ≠ "" ∧ (host = suf ∨ ∃ sub, host = sub ++ "." ++ suf)) ∨
   ((∀ suf, ¬ wildcard_entry (TrimSpace spec) suf) ∧ origin = TrimSpace spec)).

Lemma cut_after_scheme s : after_scheme s (cut_after s "://").
Proof.
  unfold after_scheme, cut_after. destruct (Index s "://") as [i|] eqn:E.
  - left. destruct (Index_first _ _ _ E) as (a & b & Hs & Ha & Hf). exists a. split.
    + rewrite Hs at 2. rewrite <- Ha, sdrop_app. exact Hs.
    + intros x y ->. rewrite Hs in Hf. specialize (Hf x (y ++ "://" ++ b)). rewrite !sapp_assoc in Hf.
      specialize (Hf eq_refl). rewrite !slength_app in Ha. cbn in Ha. lia.
  - right. split; [done|]. intros x y. by apply Index_absent.
Qed.

(** The end of the first [://] is one place. *)
Lemma scheme_prefix a b s1 s2 :
  a ++ "://" ++ s1 = b ++ "://" ++ s2 → (∀ x y, b ≠ x ++ "://" ++ y) →
  (∃ l, b = a ++ l) → a = b.
Proof.
  intros Heq Hb [l ->]. rewrite sapp_assoc in Heq. apply sapp_inj_l in Heq.
  destruct l as [|c1 [|c2 [|c3 l]]]; [by rewrite sapp_nil_r| | |].
  - by inversion Heq.
  - by inversion Heq.
  - exfalso. apply (Hb a l). f_equal. inversion Heq; subst. done.
Qed.

Lemma sapp_compare (a b x y : string) : a ++ x = b ++ y → (∃ l, b = a ++ l) ∨ (∃ l, a = b ++ l).
Proof.
  revert b. induction a as [|c a IH]; intros b; [left; by exists b|].
  destruct b as [|d b]; [right; by exists (String c a)|]. rewrite !sapp_cons. intros Heq.
  inversion Heq as [[Hd Ht]]. destruct (IH b Ht) as [[l ->]|[l ->]]; [left|right]; by exists l.
Qed.

Lemma after_scheme_unique s r1 r2 : after_scheme s r1 → after_scheme s r2 → r1 = r2.
Proof.
  intros [(a & -> & Ha)|[-> Ha]] [(b & Hb & Hn)|[-> Hb]]; [|by destruct (Hb a r1)|by destruct (Ha b r2)|done].
  assert (a = b) as ->.
  { destruct (sapp_compare _ _ _ _ Hb) as [Hl|Hl]; [by eapply scheme_prefix|symmetry; by eapply scheme_prefix]. }
  by apply sapp_inj_l, sapp_inj_l in Hb.
Qed.

Lemma cut_before_spec c s :
  sin c (cut_before s (String c "")) = false ∧
  ∃ r, s = cut_before s (String c "") ++ r ∧ (r = "" ∨ ∃ r', r = String c r').
Proof.
  unfold cut_before. destruct (Index s (String c "")) as [i|] eqn:E.
  - destruct (Index_first _ _ _ E) as (a & b & Hs & Ha & Hf). rewrite Hs, <- Ha, stake_app. split.
    + destruct (sin c a) eqn:Ein; [|done]. apply sin_split in Ein as (x & y & ->).
      rewrite Hs in Hf. specialize (Hf x (y ++ String c "" ++ b)). rewrite sapp_assoc in Hf.
      specialize (Hf eq_refl). rewrite slength_app in Ha. cbn in Ha. lia.
    + exists (String c b). split; [done|]. right. eauto.
  - split; [|exists ""; split; [by rewrite sapp_nil_r|by left]].
    destruct (sin c s) eqn:Ein; [|done]. apply sin_split in Ein as (x & y & ->).
    by destruct (Index_absent _ _ x y E).
Qed.

Lemma cut_leading_name s : leading_name s (cut_before (cut_before s ":") "/").
Proof.
  destruct (cut_before_spec ":" s) as (H1 & r1 & E1 & D1).
  destruct (cut_before_spec "/" (cut_before s ":")) as (H2 & r2 & E2 & D2).
  set (a := cut_before s ":") in *. set (n := cut_before a "/") in *. split_and!; [|done|].
  - rewrite E2, sin_app in H1. by apply orb_false_iff in H1 as [-> _].
  - exists (r2 ++ r1). rewrite <- sapp_assoc, <- E2. split; [done|].
    destruct D2 as [->|[r' ->]]; [|right; exists (r' ++ r1); by right].
    rewrite sapp_nil_l. destruct D1 as [->|[r' ->]]; [by left|right; eauto].
Qed.

Lemma leading_name_unique s a b : leading_name s a → leading_name s b → a = b.
Proof.
  intros (Ha1 & Ha2 & r & -> & Hr) (Hb1 & Hb2 & q & Hs & Hq).
  revert b Hb1 Hb2 Hs. induction a as [|c a IH]; intros [|d b] Hb1 Hb2 Hs; [done| | |].
  - exfalso. rewrite sapp_nil_l, sapp_cons in Hs. cbn [sin] in Hb1, Hb2.
    destruct Hr as [->|[r' [->| ->]]]; [done|by inversion Hs; subst|by inversion Hs; subst].
  - exfalso. rewrite sapp_nil_l, sapp_cons in Hs. cbn [sin] in Ha1, Ha2.
    destruct Hq as [->|[r' [->| ->]]]; [done|by inversion Hs; subst|by inversion Hs; subst].
  - rewrite !sapp_cons in Hs. inversion Hs as [[Hd Ht]]. subst d. f_equal. cbn [sin] in *.
    apply orb_false_iff in Ha1 as [_ ?], Ha2 as [_ ?], Hb1 as [_ ?], Hb2 as [_ ?]. by apply IH.
Qed.

(** parseWildcardOrigin recognises the wildcard entries. *)
Lemma parseWildcardOrigin_spec spec suf :
  parseWildcardOrigin (TrimSpace spec) = Some suf ↔ wildcard_entry (TrimSpace spec) suf.
Proof.
  unfold parseWildcardOrigin, wildcard_entry. rewrite TrimSpace_idem.
  set (t := TrimSpace spec). pose proof (cut_after_scheme t) as Hs. set (s := cut_after t "://") in *.
  pose proof (cut_leading_name s) as Hn. set (n := cut_before (cut_before s ":") "/") in *. split.
  - destruct (HasPrefix n "*.") eqn:Ep; [|done]. apply HasPrefix_spec in Ep as [name Hname]. cbn [negb].
    rewrite Hname, TrimPrefix_app. destruct (String.eqb_spec (ToLower name) "") as [|Hne]; [done|]. intros [= <-].
    split; [done|]. exists s, name. by rewrite <- Hname.
  - intros (Hne & s' & name & Hs' & Hn' & ->). rewrite (after_scheme_unique _ _ _ Hs' Hs) in Hn'.
    rewrite (leading_name_unique _ _ _ Hn Hn'). rewrite (proj2 (HasPrefix_spec _ _)) by eauto. cbn [negb].
    rewrite TrimPrefix_app. by destruct (String.eqb_spec (ToLower name) "").
Qed.

Lemma entry_allows_parsed spec origin host :
  entry_allows spec origin host ↔
  TrimSpace spec ≠ "" ∧
  match parseWildcardOrigin (TrimSpace spec) with
  | Some suf => host ≠ "" ∧ (host = suf ∨ ∃ sub, host = sub ++ "." ++ suf)
  | None => origin = TrimSpace spec
  end.
Proof.
  unfold entry_allows. pose proof (parseWildcardOrigin_spec spec) as Hp.
  destruct (parseWildcardOrigin (TrimSpace spec)) as [suf|].
  - assert (wildcard_entry (TrimSpace spec) suf) as Hw by (by apply Hp).
    assert (∀ suf', wildcard_entry (TrimSpace spec) suf' → suf' = suf) as Hu.
    { intros suf' Hw'. apply Hp in Hw'. congruence. }
    split; intros [Hne Hm]; (split; [done|]).
    + destruct Hm as [(suf' & ->%Hu & Hm)|[Hno _]]; [done|]. by destruct (Hno suf).
    + left. by exists suf.
  - split; intros [Hne Hm]; (split; [done|]).
    + destruct Hm as [(suf' & Hw%Hp & _)|[_ Hm]]; done.
    + right. split; [|done]. by intros suf' Hw%Hp.
Qed.

(** The two parts of the allow-list, each entry in one of them. *)
Lemma cors_of_acc specs c o :
  (o ∈ corsOrigins (fold_left cors_step specs c) ↔ o ∈ corsOrigins c ∨
    ∃ spec, spec ∈ specs ∧ TrimSpace spec ≠ "" ∧ parseWildcardOrigin (TrimSpace spec) = None ∧ o = TrimSpace spec) ∧
  (o ∈ corsSuffixes (fold_left cors_step specs c) ↔ o ∈ corsSuffixes c ∨
    ∃ spec, spec ∈ specs ∧ TrimSpace spec ≠ "" ∧ parseWildcardOrigin (TrimSpace spec) = Some o).
Proof.
  revert c. induction specs as [|spec specs IH]; intros c; cbn [fold_left].
  { split; split; auto; intros [?|(? & []%not_elem_of_nil & _)]; done. }
  destruct (IH (cors_step c spec)) as [I1 I2]. rewrite I1, I2. unfold cors_step.
  destruct (String.eqb_spec (TrimSpace spec) "") as [E|E].
  { split; split; intros [?|(s & Hs & ?)]; auto; right; exists s; set_solver. }
  destruct (parseWildcardOrigin (TrimSpace spec)) as [suf|] eqn:Ep; cbn [corsOrigins corsSuffixes].
  - split; split.
    + intros [?|(s & Hs & ?)]; [by left|]. right. exists s. set_solver.
    + intros [?|(s & Hs & ? & ? & ?)]; [by left|]. right. exists s. set_solver.
    + rewrite elem_of_app, list_elem_of_singleton. intros [[?| ->]|(s & Hs & ?)]; [by left|right|right].
      * exists spec. set_solver.
      * exists s. set_solver.
    + rewrite elem_of_app, list_elem_of_singleton.
      intros [?|(s & [->|Hs]%elem_of_cons & ? & Hp)]; [by left; left| |right; eauto].
      left. right. congruence.
  - split; split.
    + intros [Ho|(s & Hs & ?)]; [|right; exists s; set_solver].
      apply elem_of_union in Ho as [->%elem_of_singleton|?]; [|by left]. right. exists spec. set_solver.
    + intros [?|(s & [->|Hs]%elem_of_cons & ? & ? & ->)]; [left; set_solver|left; set_solver|right; eauto].
    + intros [?|(s & Hs & ?)]; [by left|]. right. exists s. set_solver.
    + intros [?|(s & [->|Hs]%elem_of_cons & ? & Hp)]; [by left|congruence|right; eauto].
Qed.

Lemma suffix_match host suf :
  String.eqb host suf || HasSuffix host ("." ++ suf) = true ↔ host = suf ∨ ∃ sub, host = sub ++ "." ++ suf.
Proof. by rewrite orb_true_iff, String.eqb_eq, HasSuffix_spec. Qed.

Lemma isAllowedOrigin_list specs origin :
  isAllowedOrigin (cors_of specs) origin = true ↔
  origin ≠ "" ∧ ∃ spec, spec ∈ specs ∧ entry_allows spec origin (originHost origin).
Proof.
  pose proof (cors_of_acc specs {| corsOrigins := ∅; corsSuffixes := [] |} origin) as [Ho _].
  pose proof (fun suf => proj2 (cors_of_acc specs {| corsOrigins := ∅; corsSuffixes := [] |} suf)) as Hs.
  fold (cors_of specs) in Ho, Hs. simpl in Ho, Hs. setoid_rewrite entry_allows_parsed. unfold isAllowedOrigin.
  destruct (String.eqb_spec origin "") as [|Hne]; [naive_solver|].
  case_decide as Hd.
  { apply Ho in Hd as [?%not_elem_of_empty|(spec & ? & ? & Hp & ?)]; [done|].
    split; [intros _|done]. split; [done|]. exists spec. by rewrite Hp. }
  transitivity (existsb (fun suf => String.eqb (originHost origin) suf || HasSuffix (originHost origin) ("." ++ suf))
    (corsSuffixes (cors_of specs)) = true ∧ originHost origin ≠ "").
  { destruct (String.eqb_spec (originHost origin) ""); destruct (corsSuffixes (cors_of specs)); naive_solver. }
  rewrite existsb_exists. setoid_rewrite suffix_match. setoid_rewrite <- list_elem_of_In. split.
  - intros [(suf & Hin & Hm) Hh]. apply Hs in Hin as [?%not_elem_of_nil|(spec & ? & ? & Hp)]; [done|].
    split; [done|]. exists spec. by rewrite Hp.
  - intros (_ & spec & Hin & Ht & Hm). destruct (parseWildcardOrigin (TrimSpace spec)) as [suf|] eqn:Ep.
    + split; [|by destruct Hm]. exists suf. split; [|by destruct Hm]. apply Hs. right. eauto.
    + exfalso. apply Hd, Ho. right. eauto.
Qed.

Lemma originHost_origin scheme host port :
  sin ":" scheme = false → sin "/" host = false → sin ":" host = false →
  port = "" ∨ (∃ p, port = ":" ++ p ∧ sin "/" p = false) →
  originHost (scheme ++ "://" ++ host ++ port) = ToLower host.
Proof.
  intros Hs Hh1 Hh2 Hp. unfold originHost, cut_after, cut_before.
  rewrite (Index_app ":" "//" scheme) by done. rewrite sdrop_app.
  change (sdrop (String.length "://") ("://" ++ host ++ port)) with (host ++ port).
  assert (sin "/" (host ++ port) = false) as Hslash.
  { rewrite sin_app, Hh1. destruct Hp as [->|(p & -> & Hp)]; [done|]. by rewrite sin_app, Hp. }
  rewrite (Index_none "/") by done. destruct Hp as [->|(p & -> & _)].
  - rewrite sapp_nil_r. by rewrite (Index_none ":").
  - change (host ++ ":" ++ p) with (host ++ String ":" "" ++ p).
    by rewrite (Index_app ":" "" host), stake_app by done.
Qed.

(** C31: The allow-list is the union of its entries.  An origin of the form
    scheme://host[:port] is allowed exactly when some entry, trimmed and not
    empty, allows it: an entry [scheme://]*.name[:port][/path] the hosts that
    are the name, lower-cased, or below it at a label boundary, whatever the
    scheme, the port and the letter case of the origin; every other entry the
    origin that is the entry itself.  The empty origin is never allowed. *)
Theorem isAllowedOrigin_spec specs scheme host port :
  sin ":" scheme = false → sin "/" host = false → sin ":" host = false →
  port = "" ∨ (∃ p, port = ":" ++ p ∧ sin "/" p = false) →
  let origin := scheme ++ "://" ++ host ++ port in
  isAllowedOrigin (cors_of specs) "" = false ∧
  (isAllowedOrigin (cors_of specs) origin = true ↔
   ∃ spec, spec ∈ specs ∧ entry_allows spec origin (ToLower host)).
Proof.
  intros Hs Hh1 Hh2 Hp origin. split; [done|]. rewrite isAllowedOrigin_list.
  unfold origin at 3. rewrite originHost_origin by done. fold origin.
  assert (origin ≠ "") by (unfold origin; by destruct scheme). naive_solver.
Qed.

End origin_theorems.

(** * The headers a browser sees *)

(** Keys as http.ReadResponse leaves them. *)
Definition canonical_header (h : Header) : Prop :=
  ∀ k vs, h !! k = Some vs → CanonicalHeaderKey k = k.

(** Decide the comparison of two literal header names. *)
Ltac hkey :=
  repeat (case_decide;
    [ try (exfalso; match goal with E : CanonicalHeaderKey _ = CanonicalHeaderKey _ |- _ =>
        vm_compute in E; discriminate E end)
    | try (exfalso; match goal with E : CanonicalHeaderKey _ ≠ CanonicalHeaderKey _ |- _ =>
        apply E; reflexivity end) ]).

Section header_theorems.
Context `{GoUnicode} `{GoRange} `{!GoRangeLaws}.

Lemma copyHeader_fold l d k :
  HValues (fold_left (fun d kv => fold_left (fun d v => HAdd d kv.1 v) kv.2 d) l d) k =
  (HValues d k ++ values_at k l)%list.
Proof.
  revert d. induction l as [|[k0 vs0] l IH]; intros d; cbn [fold_left]; [by rewrite app_nil_r|].
  rewrite IH, HValues_add_all. unfold values_at at 2. cbn [flat_map fst snd]. fold (values_at k l).
  case_decide; [by rewrite app_assoc|done].
Qed.

Lemma HValues_copyHeader dst src k :
  canonical_header src → HValues (copyHeader dst src) k = (HValues dst k ++ HValues src k)%list.
Proof.
  intros Hc. unfold copyHeader. rewrite copyHeader_fold. f_equal.
  assert (Hf : Forall (fun kv => CanonicalHeaderKey kv.1 = kv.1) (range_map src)).
  { apply Forall_forall. intros [k0 vs0] Hin%range_map_elem. by eapply Hc. }
  unfold HValues. destruct (src !! CanonicalHeaderKey k) as [vs|] eqn:E.
  - apply values_at_unique; [apply range_map_NoDup|done|by apply range_map_elem].
  - apply values_at_none; [done|]. intros ([k0 vs0] & Hk & Hin)%list_elem_of_fmap.
    apply range_map_elem in Hin. simpl in Hk. subst. congruence.
Qed.

Lemma canonical_HDel h k : canonical_header h → canonical_header (HDel h k).
Proof. intros Hc k0 vs Hk. unfold HDel in Hk. apply lookup_delete_Some in Hk as [_ Hl]. by eapply Hc. Qed.

Lemma canonical_HAdd h k v : canonical_header h → canonical_header (HAdd h k v).
Proof.
  intros Hc k0 vs Hk. unfold HAdd in Hk.
  apply lookup_insert_Some in Hk as [[<- _]|[_ Hl]]; [apply CanonicalHeaderKey_idem|by eapply Hc].
Qed.

Lemma canonical_ModifyResponse h : canonical_header h → canonical_header (ModifyResponse h).
Proof.
  intros Hc. unfold ModifyResponse. destruct (isPublicResponse h); [by apply canonical_HDel|].
  assert (Hd : ∀ l h, canonical_header h → canonical_header (fold_left HDel l h)).
  { induction l as [|k l IH]; intros h0 Hh; [done|]. apply IH. by apply canonical_HDel. }
  specialize (Hd cors_headers h Hc). destruct (HValues _ "Vary") as [|v vs]; [done|].
  generalize (v :: vs). intros l. apply (canonical_HDel _ "Vary") in Hd. revert Hd.
  generalize (HDel (fold_left HDel cors_headers h) "Vary"). induction l as [|line l IH]; intros h0 Hh; [done|].
  apply IH. unfold vary_step. destruct (kept_tokens _ line); [done|]. by apply canonical_HAdd.
Qed.

Lemma HValues_vary lines h k :
  HValues (fold_left vary_step lines h) k =
  if decide (CanonicalHeaderKey k = "Vary")
  then (HValues h k ++
    flat_map (fun line => match kept_tokens (fun t => negb (EqualFold t "Origin")) line with
                          | [] => [] | kept => [SJoin kept ", "] end) lines)%list
  else HValues h k.
Proof.
  revert h. induction lines as [|line lines IH]; intros h; cbn [fold_left flat_map].
  - case_decide; by rewrite ?app_nil_r.
  - rewrite IH. unfold vary_step. destruct (kept_tokens _ line) as [|t ts]; [by case_decide|].
    rewrite HValues_add. change (CanonicalHeaderKey "Vary") with "Vary".
    repeat case_decide; try congruence. rewrite <- app_assoc. unfold HValues at 1.
    change (CanonicalHeaderKey "Vary") with "Vary". unfold HValues.
    match goal with E : CanonicalHeaderKey k = "Vary" |- _ => by rewrite E end.
Qed.

(** What is left of the enclave's Vary lines. *)
Definition vary_kept (h : Header) : list string :=
  flat_map (fun line => match kept_tokens (fun t => negb (EqualFold t "Origin")) line with
                        | [] => [] | kept => [SJoin kept ", "] end) (HValues h "Vary").

Lemma cors_headers_canonical : map CanonicalHeaderKey cors_headers = cors_headers.
Proof. vm_compute. reflexivity. Qed.

Lemma HValues_ModifyResponse h k :
  isPublicResponse h = false →
  HValues (ModifyResponse h) k =
  if decide (CanonicalHeaderKey k ∈ cors_headers) then []
  else if decide (CanonicalHeaderKey k = "Vary") then vary_kept h
  else HValues h k.
Proof.
  intros Hp. unfold ModifyResponse. rewrite Hp.
  assert (HV : HValues (fold_left HDel cors_headers h) "Vary" = HValues h "Vary").
  { rewrite HValues_del_all, cors_headers_canonical, decide_False; [done|]. by apply (bool_decide_unpack _). }
  unfold vary_kept. destruct (HValues (fold_left HDel cors_headers h) "Vary") as [|v vs] eqn:E; rewrite <- HV.
  - rewrite HValues_del_all, cors_headers_canonical. case_decide; [done|]. case_decide as Hk; [|done].
    unfold HValues in *. by rewrite Hk.
  - rewrite HValues_vary, HValues_del, HValues_del_all, cors_headers_canonical.
    change (CanonicalHeaderKey "Vary") with "Vary". repeat case_decide; try done; try congruence.
    all: match goal with E1 : ?x ∈ cors_headers, E2 : ?x = "Vary" |- _ =>
      exfalso; rewrite E2 in E1; revert E1; by apply (bool_decide_unpack _) end.
Qed.

(** serveHTTP's test: an Origin header that is on the allow-list. *)
Definition cross_origin_allowed (c : Cors) (req : Request) : bool :=
  let origin := HGet (ReqHeader req) "Origin" in negb (String.eqb origin "") && isAllowedOrigin c origin.

Lemma HValues_inject c req k :
  HValues (inject_cors c req) k =
  if cross_origin_allowed c req then
    if decide (CanonicalHeaderKey k = "Access-Control-Allow-Origin") then [HGet (ReqHeader req) "Origin"]
    else if decide (CanonicalHeaderKey k = "Vary") then ["Origin"]
    else if decide (CanonicalHeaderKey k = "Access-Control-Allow-Credentials") then ["true"]
    else if decide (CanonicalHeaderKey k = "Access-Control-Expose-Headers") then
      ["X-Privasys-Reason, X-Privasys-EncAuth-Reject, X-Privasys-Inner-Status, X-Privasys-Edge"]
    else []
  else [].
Proof.
  unfold inject_cors, cross_origin_allowed. destruct (_ && _); [|apply HValues_empty].
  rewrite !HValues_set, HValues_empty.
  change (CanonicalHeaderKey "Access-Control-Allow-Origin") with "Access-Control-Allow-Origin".
  change (CanonicalHeaderKey "Vary") with "Vary".
  change (CanonicalHeaderKey "Access-Control-Allow-Credentials") with "Access-Control-Allow-Credentials".
  change (CanonicalHeaderKey "Access-Control-Expose-Headers") with "Access-Control-Expose-Headers".
  repeat case_decide; congruence.
Qed.

Lemma isPublic_copy c req resp :
  canonical_header resp → isPublicResponse (copyHeader (inject_cors c req) resp) = isPublicResponse resp.
Proof.
  intros Hc. unfold isPublicResponse, HGet. rewrite HValues_copyHeader, HValues_inject by done.
  change (CanonicalHeaderKey publicTransportHeader) with publicTransportHeader.
  by destruct (cross_origin_allowed c req).
Qed.

Lemma isPublic_ModifyResponse resp : isPublicResponse (ModifyResponse resp) = isPublicResponse resp.
Proof.
  destruct (isPublicResponse resp) eqn:E.
  - unfold ModifyResponse. rewrite E. unfold isPublicResponse, HGet in *. by rewrite HValues_del.
  - unfold isPublicResponse, HGet in *. by rewrite HValues_ModifyResponse.
Qed.

(** On an ordinary response CORS is the gateway's alone.  Whatever
    cross-origin headers the enclave sends, the browser sees exactly the ones
    this gateway sets: one Access-Control-Allow-Origin, echoing the origin, with
    credentials, when the origin is allowed, and none at all otherwise; Vary
    keeps the enclave's tokens except Origin, and every other header that
    reached ModifyResponse passes unchanged. *)
Theorem final_header_private c req resp :
  canonical_header resp → isPublicResponse resp = false →
  let h := final_header c req resp in
  HValues h "Access-Control-Allow-Origin" =
    (if cross_origin_allowed c req then [HGet (ReqHeader req) "Origin"] else []) ∧
  (∀ k, CanonicalHeaderKey k ∈ cors_headers → HValues h k = HValues (inject_cors c req) k) ∧
  HValues h "Vary" = ((if cross_origin_allowed c req then ["Origin"] else []) ++ vary_kept resp)%list ∧
  (∀ k, CanonicalHeaderKey k ∉ cors_headers → CanonicalHeaderKey k ≠ "Vary" → HValues h k = HValues resp k).
Proof.
  intros Hc Hp h. pose proof (canonical_ModifyResponse resp Hc) as Hc'.
  assert (Hh : ∀ k, HValues h k = (HValues (inject_cors c req) k ++ HValues (ModifyResponse resp) k)%list).
  { intros k. unfold h, final_header, reconcilePublicCORS.
    rewrite isPublic_copy, isPublic_ModifyResponse, Hp by done. by apply HValues_copyHeader. }
  assert (Hg : ∀ k, CanonicalHeaderKey k ∈ cors_headers → HValues h k = HValues (inject_cors c req) k).
  { intros k Hk. rewrite Hh, HValues_ModifyResponse, decide_True by done. by rewrite app_nil_r. }
  split_and!.
  - rewrite Hg by (apply (bool_decide_unpack _); vm_compute; exact I). rewrite HValues_inject.
    by destruct (cross_origin_allowed c req).
  - exact Hg.
  - rewrite Hh, HValues_inject, HValues_ModifyResponse by done. by destruct (cross_origin_allowed c req).
  - intros k Hk Hv. rewrite Hh, HValues_inject, HValues_ModifyResponse by done.
    rewrite !decide_False by (done || intros E; apply Hk; rewrite E; apply (bool_decide_unpack _); vm_compute; exact I).
    by destruct (cross_origin_allowed c req).
Qed.

Definition is_star (v : string) : bool := String.eqb (TrimSpace v) "*".

(** On a response the enclave marked public the enclave's decision wins:
    credentials are never allowed, and an open star of the enclave is the only
    Access-Control-Allow-Origin the browser sees, for every origin; without a
    star the gateway's echo stays. *)
Theorem final_header_public c req resp :
  canonical_header resp → isPublicResponse resp = true →
  let h := final_header c req resp in
  let origins := (HValues (inject_cors c req) "Access-Control-Allow-Origin" ++
                  HValues resp "Access-Control-Allow-Origin")%list in
  HValues h "Access-Control-Allow-Credentials" = [] ∧
  HValues h "Access-Control-Allow-Origin" = (if existsb is_star origins then ["*"] else origins) ∧
  (existsb is_star (HValues resp "Access-Control-Allow-Origin") = true → existsb is_star origins = true).
Proof.
  intros Hc Hp h origins. pose proof (canonical_ModifyResponse resp Hc) as Hc'.
  set (h0 := copyHeader (inject_cors c req) (ModifyResponse resp)).
  assert (Hao : HValues h0 "Access-Control-Allow-Origin" = origins).
  { unfold h0, origins. rewrite HValues_copyHeader by done. unfold ModifyResponse. by rewrite Hp, HValues_del. }
  unfold h, final_header. fold h0. unfold reconcilePublicCORS.
  assert (isPublicResponse h0 = true) as ->.
  { unfold h0. by rewrite isPublic_copy, isPublic_ModifyResponse. }
  cbn [negb].
  assert (Hstar : existsb is_star (HValues (HDel h0 "Access-Control-Allow-Credentials") "Access-Control-Allow-Origin")
    = existsb is_star origins) by (rewrite HValues_del; hkey; by rewrite Hao).
  unfold is_star in Hstar at 1. rewrite Hstar. split_and!.
  - destruct (existsb is_star origins); destruct (1 <? _)%nat;
      rewrite ?HValues_set, ?HValues_del, ?HValues_set, ?HValues_del; by hkey.
  - destruct (existsb is_star origins); destruct (1 <? _)%nat;
      rewrite ?HValues_set, ?HValues_del, ?HValues_set, ?HValues_del; by hkey.
  - intros Hs. unfold origins. by rewrite existsb_app, Hs, orb_true_r.
Qed.

(** The merged Access-Control-Expose-Headers list: every token once, whatever
    its letter case. *)
Lemma merge_fold toks seen out :
  seen = list_to_set (ToLower <$> out) → NoDup (ToLower <$> out) →
  let r := fold_left merge_step toks (seen, out) in
  r.1 = list_to_set (ToLower <$> r.2) ∧ NoDup (ToLower <$> r.2) ∧
  (∀ t, t ∈ r.2 → t ∈ out ∨ ∃ tok, tok ∈ toks ∧ t = TrimSpace tok) ∧
  (∀ x, x ∈ ToLower <$> out → x ∈ ToLower <$> r.2) ∧
  (∀ tok, tok ∈ toks → TrimSpace tok ≠ "" → ToLower (TrimSpace tok) ∈ ToLower <$> r.2).
Proof.
  revert seen out. induction toks as [|tok toks IH]; intros seen out Hs Hnd; cbn [fold_left].
  { split_and!; [done|done|auto|auto|]. by intros ? ?%not_elem_of_nil. }
  assert (merge_step (seen, out) tok =
    if String.eqb (TrimSpace tok) "" || bool_decide (ToLower (TrimSpace tok) ∈ seen) then (seen, out)
    else ({[ToLower (TrimSpace tok)]} ∪ seen, (out ++ [TrimSpace tok])%list)) as -> by done.
  destruct (String.eqb_spec (TrimSpace tok) "") as [Et|Et]; cbn [orb].
  { destruct (IH seen out Hs Hnd) as (I1 & I2 & I3 & I4 & I5). split_and!; [done|done| |done|].
    - intros t Ht. destruct (I3 t Ht) as [?|(tk & ? & ?)]; [by left|]. right. exists tk. set_solver.
    - intros tk [->|Htk]%elem_of_cons Hne; [done|]. by apply I5. }
  case_bool_decide as Hin.
  { destruct (IH seen out Hs Hnd) as (I1 & I2 & I3 & I4 & I5). split_and!; [done|done| |done|].
    - intros t Ht. destruct (I3 t Ht) as [?|(tk & ? & ?)]; [by left|]. right. exists tk. set_solver.
    - intros tk [->|Htk]%elem_of_cons Hne; [|by apply I5]. apply I4. by rewrite Hs, elem_of_list_to_set in Hin. }
  destruct (IH ({[ToLower (TrimSpace tok)]} ∪ seen) (out ++ [TrimSpace tok])%list) as (I1 & I2 & I3 & I4 & I5).
  { rewrite Hs, fmap_app, list_to_set_app_L. simpl. set_solver. }
  { rewrite fmap_app. apply NoDup_app. split_and!; [done| |apply NoDup_singleton].
    intros x Hx Hx'. apply list_elem_of_singleton in Hx' as ->. apply Hin. by rewrite Hs, elem_of_list_to_set. }
  split_and!; [done|done| | |].
  - intros t Ht. destruct (I3 t Ht) as [[?|Hl]%elem_of_app|(tk & ? & ?)]; [by left| |].
    + apply list_elem_of_singleton in Hl as ->. right. exists tok. set_solver.
    + right. exists tk. set_solver.
  - intros x Hx. apply I4. rewrite fmap_app. apply elem_of_app. by left.
  - intros tk [->|Htk]%elem_of_cons Hne; [|by apply I5]. apply I4. rewrite fmap_app. apply elem_of_app. right.
    simpl. by left.
Qed.

(** The merged list of exposed headers has every token of every line
    once, compared without case, and nothing else. *)
Theorem merge_tokens_spec vs :
  NoDup (ToLower <$> merge_tokens vs) ∧
  (∀ t, t ∈ merge_tokens vs → ∃ line tok, line ∈ vs ∧ tok ∈ SplitChar "," line ∧ t = TrimSpace tok) ∧
  (∀ line tok, line ∈ vs → tok ∈ SplitChar "," line → TrimSpace tok ≠ "" →
     ToLower (TrimSpace tok) ∈ ToLower <$> merge_tokens vs).
Proof.
  destruct (merge_fold (flat_map (SplitChar ",") vs) ∅ []) as (_ & I2 & I3 & _ & I5); [done|constructor|].
  fold (merge_tokens vs) in I2, I3, I5.
  assert (Hin : ∀ tok, tok ∈ flat_map (SplitChar ",") vs ↔ ∃ line, line ∈ vs ∧ tok ∈ SplitChar "," line).
  { intros tok. rewrite list_elem_of_In, in_flat_map. by setoid_rewrite <- list_elem_of_In. }
  split_and!; [done| |].
  - intros t Ht. destruct (I3 t Ht) as [?%not_elem_of_nil|(tok & (line & ? & ?)%Hin & ?)]; [done|]. by exists line, tok.
  - intros line tok Hl Ht Hne. apply I5; [|done]. apply Hin. eauto.
Qed.

(** The preflight answer as a status line, seven fields and no body. *)
Definition preflight_fields (req : Request) : list (string * string) :=
  [("Access-Control-Allow-Origin", HGet (ReqHeader req) "Origin");
   ("Access-Control-Allow-Methods",
     let m := HGet (ReqHeader req) "Access-Control-Request-Method" in
     if String.eqb m "" then "GET, POST, PUT, DELETE, OPTIONS" else m);
   ("Access-Control-Allow-Headers",
     let m := HGet (ReqHeader req) "Access-Control-Request-Headers" in
     if String.eqb m "" then "Authorization, Content-Type, Accept" else m);
   ("Access-Control-Allow-Credentials", "true"); ("Access-Control-Max-Age", "600");
   ("Vary", "Origin"); ("Content-Length", "0")].

Lemma preflight_render req :
  writeCORSPreflight req = render_response "HTTP/1.1 204 No Content" (preflight_fields req) "".
Proof.
  unfold writeCORSPreflight, render_response, preflight_fields. rewrite !header_block_cons. unfold header_line.
  change (header_block []) with "". rewrite !sapp_assoc, sapp_nil_l. cbv zeta. done.
Qed.

Lemma preflight_clean req : (∀ k, sin cr (HGet (ReqHeader req) k) = false) → Forall clean_field (preflight_fields req).
Proof.
  intros Hc. repeat constructor; try done; simpl; try (destruct (String.eqb _ _); [done|]); apply Hc.
Qed.

(** The preflight answer is one well-formed 204 response without a body
    that allows exactly the origin asked with, echoes the requested method and
    headers, and cannot be split by a header value. *)
Theorem writeCORSPreflight_read req :
  (∀ k, sin cr (HGet (ReqHeader req) k) = false) →
  ∃ hs, read_response (writeCORSPreflight req) = Some ("HTTP/1.1 204 No Content", hs, "") ∧
    ("Access-Control-Allow-Origin", HGet (ReqHeader req) "Origin") ∈ hs ∧
    (HGet (ReqHeader req) "Access-Control-Request-Method" ≠ "" →
     ("Access-Control-Allow-Methods", HGet (ReqHeader req) "Access-Control-Request-Method") ∈ hs) ∧
    (HGet (ReqHeader req) "Access-Control-Request-Headers" ≠ "" →
     ("Access-Control-Allow-Headers", HGet (ReqHeader req) "Access-Control-Request-Headers") ∈ hs) ∧
    ("Access-Control-Allow-Credentials", "true") ∈ hs ∧ length hs = 7%nat.
Proof.
  intros Hc. rewrite preflight_render. eexists. split; [apply read_render; [done|by apply preflight_clean]|].
  unfold preflight_fields. split_and!; [set_solver| | |set_solver|done]; intros Hne%String.eqb_neq; cbv zeta; rewrite Hne; set_solver.
Qed.

End header_theorems.

(** A public response with an open star loses the enclave's own Vary tokens. *)
Example reconcile_drops_vary `{GoUnicode} :
  HValues (reconcilePublicCORS (HSet (HSet (HSet ∅ "X-Privasys-Transport" "public")
    "Access-Control-Allow-Origin" "*") "Vary" "Accept-Encoding")) "Vary" = [].
Proof. vm_compute. reflexivity. Qed.

(** * Concrete inputs *)

Section witnesses.
#[local] Existing Instances ascii_unicode map_range map_range_laws.

Definition ex_specs : list string := ["https://chat.example.org"; " https://*.Privasys.org "].

Lemma isAllowedOrigin_spec_witness :
  isAllowedOrigin (cors_of ex_specs) "https://app.privasys.ORG:8443" = true ∧
  isAllowedOrigin (cors_of ex_specs) "https://evilprivasys.org" = false.
Proof.
  split; [|vm_compute; reflexivity].
  apply (isAllowedOrigin_spec ex_specs "https" "app.privasys.ORG" ":8443");
    [reflexivity..|right; exists "8443"; split; reflexivity|].
  exists " https://*.Privasys.org ". split; [right; left|]. apply entry_allows_parsed.
  split; [vm_compute; discriminate|].
  replace (parseWildcardOrigin (TrimSpace " https://*.Privasys.org ")) with (Some "privasys.org")
    by (vm_compute; reflexivity).
  split; [vm_compute; discriminate|]. right. exists "app". vm_compute. reflexivity.
Defined.

Definition ex_cors_req : Request := {|
  Method := "GET"; ReqHost := "app.privasys.org"; Path := "/"; RequestURI := "/";
  ReqHeader := HSet ∅ "Origin" "https://id.privasys.org" |}.

Definition ex_resp (transport : string) : Header :=
  HSet (HSet (HSet ∅ "Access-Control-Allow-Origin" "*") "Vary" "Origin, Accept-Encoding")
    "X-Privasys-Transport" transport.

Lemma ex_resp_canonical transport : canonical_header (ex_resp transport).
Proof.
  intros k vs Hk. unfold ex_resp, HSet in Hk.
  repeat (apply lookup_insert_Some in Hk as [[<- _]|[_ Hk]]; [apply CanonicalHeaderKey_idem|]).
  by rewrite lookup_empty in Hk.
Qed.

Lemma final_header_private_witness :
  HValues (final_header (cors_of ex_specs) ex_cors_req (ex_resp "sealed")) "Access-Control-Allow-Origin"
    = ["https://id.privasys.org"] ∧
  HValues (final_header (cors_of ex_specs) ex_cors_req (ex_resp "sealed")) "Vary" = ["Origin"; "Accept-Encoding"].
Proof.
  destruct (final_header_private (cors_of ex_specs) ex_cors_req (ex_resp "sealed")) as (Ho & _ & Hv & _).
  - apply ex_resp_canonical.
  - vm_compute. reflexivity.
  - rewrite Ho, Hv. vm_compute. split; reflexivity.
Defined.

Lemma final_header_public_witness :
  HValues (final_header (cors_of ex_specs) ex_cors_req (ex_resp "public")) "Access-Control-Allow-Origin" = ["*"] ∧
  HValues (final_header (cors_of ex_specs) ex_cors_req (ex_resp "public")) "Access-Control-Allow-Credentials" = [].
Proof.
  destruct (final_header_public (cors_of ex_specs) ex_cors_req (ex_resp "public")) as (Hc & Ho & _).
  - apply ex_resp_canonical.
  - vm_compute. reflexivity.
  - rewrite Ho, Hc. vm_compute. split; reflexivity.
Defined.

Lemma writeCORSPreflight_read_witness :
  ∃ hs, read_response (writeCORSPreflight ex_cors_req) = Some ("HTTP/1.1 204 No Content", hs, "") ∧
    ("Access-Control-Allow-Origin", "https://id.privasys.org") ∈ hs.
Proof.
  destruct (writeCORSPreflight_read ex_cors_req) as (hs & Hr & Ho & _).
  - intros k. unfold HGet, ex_cors_req. cbn [ReqHeader]. rewrite HValues_set, HValues_empty. by case_decide.
  - exists hs. split; [exact Hr|exact Ho].
Defined.

End witnesses.
