(* ===== verification/ResponseWriter.v ===== *)
(** internal/terminate/io.go: connResponseWriter, the http.ResponseWriter that
    writes HTTP/1.1 to the terminated TLS connection.

    [out] is everything written through the bufio.Writer, in order; [unflushed]
    records whether some of it may still sit in the buffer.  Write deadlines are
    left out.  newPrefixConn and its Read are those of Proxy.v. *)
From Stdlib Require Import Strings.Ascii Strings.String.
From S2P Require Import Prelude GoBytes GoStrings GoRuntime Http Cors.
Local Open Scope string_scope.

(** strconv.FormatInt(n, 16) for a non-negative int64, which has at most 16 digits. *)
Fixpoint hex_digits (fuel : nat) (n : Z) (acc : string) : string :=
  match fuel with
  | O => acc
  | S fuel' =>
      let acc := String (hex_digit (Z.to_nat (n mod 16))) acc in
      if (n <? 16)%Z then acc else hex_digits fuel' (n / 16)%Z acc
  end.
Definition FormatHex (n : Z) : string := hex_digits 16 n "".

Record connResponseWriter := {
  header : Header;
  status : Z;
  wroteHeader : bool;
  closeRequested : bool;
  chunked : bool;
  hijacked : bool;
  out : string;
  unflushed : bool;
}.

Definition newConnResponseWriter : connResponseWriter := {|
  header := ∅; status := 200; wroteHeader := false; closeRequested := false; chunked := false;
  hijacked := false; out := ""; unflushed := false;
|}.

Definition put (w : connResponseWriter) (s : string) : connResponseWriter := {|
  header := header w; status := status w; wroteHeader := wroteHeader w; closeRequested := closeRequested w;
  chunked := chunked w; hijacked := hijacked w; out := out w ++ s; unflushed := true;
|}.

Definition bw_flush (w : connResponseWriter) : connResponseWriter := {|
  header := header w; status := status w; wroteHeader := wroteHeader w; closeRequested := closeRequested w;
  chunked := chunked w; hijacked := hijacked w; out := out w; unflushed := false;
|}.

Section writer.
Context `{GoUnicode} `{GoRange}.

(** The header lines, in the order of the map. *)
Definition header_lines (h : Header) : string :=
  SJoin (map (fun kv => SJoin (map (header_line kv.1) kv.2) "") (range_map h)) "".

Definition status_line (code : Z) : string := "HTTP/1.1 " ++ itoa code ++ " " ++ StatusText code.

Definition WriteHeader (w : connResponseWriter) (code : Z) : connResponseWriter :=
  if wroteHeader w then w else
  let h := reconcilePublicCORS (header w) in
  let frame := ((200 <=? code)%Z && String.eqb (HGet h "Content-Length") "")
               && String.eqb (HGet h "Transfer-Encoding") "" in
  let h := if frame then HSet h "Transfer-Encoding" "chunked" else h in
  let close := EqualFold (HGet h "Connection") "close" in
  put {| header := h; status := code; wroteHeader := true; closeRequested := closeRequested w || close;
         chunked := chunked w || frame; hijacked := hijacked w; out := out w; unflushed := unflushed w |}
      (status_line code ++ crlf ++ header_lines h ++ crlf).

Definition chunk (p : string) : string := FormatHex (slen p) ++ crlf ++ p ++ crlf.

Definition Write (w : connResponseWriter) (p : string) : connResponseWriter :=
  let w := if wroteHeader w then w else WriteHeader w 200 in
  if chunked w then bw_flush (put w (chunk p)) else put w p.

Definition Flush (w : connResponseWriter) : connResponseWriter :=
  bw_flush (if wroteHeader w then w else WriteHeader w 200).

Definition last_chunk : string := "0" ++ crlf ++ crlf.

Definition flushClose (w : connResponseWriter) : connResponseWriter :=
  let w := if wroteHeader w then w else WriteHeader w 200 in
  bw_flush (if chunked w then put w last_chunk else w).

Definition Hijack (w : connResponseWriter) : connResponseWriter :=
  bw_flush {| header := header w; status := status w; wroteHeader := wroteHeader w;
    closeRequested := closeRequested w; chunked := chunked w; hijacked := true;
    out := out w; unflushed := unflushed w |}.

End writer.

(** * Reference: reading a chunked body (RFC 9112, section 7.1) *)

(** The body, and what follows it on the connection. *)
Fixpoint decode_chunked (fuel : nat) (s : string) : option (string * string) :=
  match fuel with
  | O => None
  | S fuel' =>
      match read_line s with
      | None => None
      | Some (size, r) =>
          match parse_hex_from 0 size with
          | None => None
          | Some n =>
              if (n =? 0)%Z then
                if HasPrefix r crlf then Some ("", sdrop 2 r) else None
              else
                let data := stake (Z.to_nat n) r in
                let r := sdrop (Z.to_nat n) r in
                if (slen data =? n)%Z && HasPrefix r crlf then
                  match decode_chunked fuel' (sdrop 2 r) with
                  | Some (body, rest) => Some (data ++ body, rest)
                  | None => None
                  end
                else None
          end
      end
  end.

(** ** Sizes *)

Lemma parse_hex_digits fuel n tail :
  (0 <= n < 16 ^ Z.of_nat fuel)%Z → (0 < fuel)%nat →
  parse_hex_from 0 (hex_digits fuel n tail) = parse_hex_from n tail.
Proof.
  revert n tail. induction fuel as [|fuel IH]; intros n tail Hn Hf; [lia|]. cbn [hex_digits].
  assert (Hm : (0 <= n mod 16 < 16)%Z) by (apply Z.mod_pos_bound; lia).
  assert (Hd : ∀ acc, parse_hex_from acc (String (hex_digit (Z.to_nat (n mod 16))) tail) =
    parse_hex_from (16 * acc + n mod 16) tail).
  { intros acc. cbn [parse_hex_from]. rewrite hex_val_digit by lia. by rewrite Z2Nat.id by lia. }
  destruct (Z.ltb_spec n 16).
  - rewrite Hd, Z.mod_small by lia. done.
  - destruct fuel as [|fuel]; [change (Z.of_nat 1) with 1%Z in Hn; lia|].
    rewrite IH; [|split; [apply Z.div_pos; lia|]|lia].
    + rewrite Hd. f_equal. pose proof (Z.div_mod n 16). lia.
    + apply Z.div_lt_upper_bound; [lia|]. rewrite (Nat2Z.inj_succ (S fuel)), Z.pow_succ_r in Hn by lia. lia.
Qed.

Lemma hex_digits_no_cr fuel n tail : (0 <= n)%Z → sin cr tail = false → sin cr (hex_digits fuel n tail) = false.
Proof.
  revert n tail. induction fuel as [|fuel IH]; intros n tail Hn Ht; [done|]. cbn [hex_digits].
  assert (Hc : sin cr (String (hex_digit (Z.to_nat (n mod 16))) tail) = false).
  { cbn [sin]. rewrite Ht, orb_false_r.
    assert (forallb (fun n => negb (Ascii.eqb (hex_digit n) cr)) (seq 0 16) = true) as Hf by (vm_compute; reflexivity).
    rewrite forallb_forall in Hf. apply negb_true_iff, Hf, in_seq.
    pose proof (Z.mod_pos_bound n 16 ltac:(lia)). lia. }
  destruct (n <? 16)%Z; [done|]. apply IH; [|done]. apply Z.div_pos; lia.
Qed.

Lemma FormatHex_parse n : (0 <= n < 2 ^ 63)%Z → parse_hex_from 0 (FormatHex n) = Some n.
Proof. intros Hn. unfold FormatHex. rewrite parse_hex_digits; [done|simpl; lia|lia]. Qed.

(** ** Chunks *)

Lemma HasPrefix_app s r : HasPrefix (s ++ r) s = true.
Proof. apply HasPrefix_spec. eauto. Qed.

Lemma sdrop_exact p r : sdrop (String.length p) (p ++ r) = r.
Proof. rewrite <- (Nat.add_0_r (String.length p)). by rewrite sdrop_app. Qed.

Lemma sdrop_crlf r : sdrop 2 (crlf ++ r) = r.
Proof. exact (sdrop_app crlf r 0). Qed.

Lemma decode_last fuel r : (0 < fuel)%nat → decode_chunked fuel (last_chunk ++ r) = Some ("", r).
Proof.
  intros Hf. destruct fuel as [|fuel]; [lia|]. cbn [decode_chunked]. unfold last_chunk. rewrite !sapp_assoc.
  rewrite (read_line_app "0" (crlf ++ r)) by done. cbn [parse_hex_from hex_val].
  change (parse_hex_from 0 "0") with (Some 0%Z). cbv iota. change (0 =? 0)%Z with true. cbv iota.
  rewrite HasPrefix_app. by rewrite sdrop_crlf.
Qed.

Lemma decode_chunk fuel p r :
  (0 < slen p < 2 ^ 63)%Z →
  decode_chunked (S fuel) (chunk p ++ r) =
  match decode_chunked fuel r with Some (body, rest) => Some (p ++ body, rest) | None => None end.
Proof.
  intros Hp. cbn [decode_chunked]. unfold chunk. rewrite !sapp_assoc.
  rewrite read_line_app by (apply hex_digits_no_cr; [lia|done]). rewrite FormatHex_parse by lia.
  rewrite (proj2 (Z.eqb_neq _ _)) by lia. cbv zeta.
  assert (Z.to_nat (slen p) = String.length p) as -> by (unfold slen; lia).
  rewrite stake_app, sdrop_exact, Z.eqb_refl, HasPrefix_app. cbn [andb]. by rewrite sdrop_crlf.
Qed.

Lemma decode_chunks fuel ps r :
  Forall (fun p => 0 < slen p < 2 ^ 63)%Z ps → (length ps < fuel)%nat →
  decode_chunked fuel (SJoin (map chunk ps) "" ++ last_chunk ++ r) = Some (SJoin ps "", r).
Proof.
  intros Hps. revert fuel. induction Hps as [|p ps Hp _ IH]; intros fuel Hf.
  - cbn [map SJoin]. rewrite sapp_nil_l. by apply decode_last.
  - destruct fuel as [|fuel]; [simpl in Hf; lia|]. cbn [map]. rewrite !SJoin_cons_empty, sapp_assoc.
    rewrite decode_chunk by done. simpl in Hf. by rewrite IH by lia.
Qed.

(** * A whole response *)

(** The header fields in map order. *)
Definition fields_of `{GoRange} (h : Header) : list (string * string) :=
  flat_map (fun kv => map (pair kv.1) kv.2) (range_map h).

(** A writer before anything was written. *)
Definition fresh (w : connResponseWriter) : Prop :=
  wroteHeader w = false ∧ chunked w = false ∧ out w = "".

(** The calls of a handler: the status, the body in pieces, the end. *)
Definition respond `{GoUnicode} `{GoRange} (w : connResponseWriter) (code : Z) (ps : list string) : connResponseWriter :=
  flushClose (fold_left Write ps (WriteHeader w code)).

Section response.
Context `{GoUnicode} `{GoRange}.

Lemma header_lines_block h : header_lines h = header_block (fields_of h).
Proof.
  unfold header_lines, fields_of. induction (range_map h) as [|[k vs] l IH]; [done|].
  cbn [map flat_map fst snd]. rewrite SJoin_cons_empty, header_block_app, IH. f_equal.
  induction vs as [|v vs IHv]; [done|]. cbn [map]. by rewrite SJoin_cons_empty, header_block_cons, IHv.
Qed.

Lemma writes_chunked w ps :
  wroteHeader w = true → chunked w = true →
  let w' := fold_left Write ps w in
  wroteHeader w' = true ∧ chunked w' = true ∧ out w' = out w ++ SJoin (map chunk ps) "" ∧ header w' = header w.
Proof.
  revert w. induction ps as [|p ps IH]; intros w Hw Hc; cbn [fold_left map].
  { split_and!; [done|done| |done]. by rewrite sapp_nil_r. }
  assert (Write w p = bw_flush (put w (chunk p))) as -> by (unfold Write; by rewrite Hw, Hc).
  destruct (IH (bw_flush (put w (chunk p)))) as (I1 & I2 & I3 & I4); [done..|].
  split_and!; [done|done| |done]. rewrite I3, SJoin_cons_empty. cbn [bw_flush put out]. by rewrite sapp_assoc.
Qed.

Lemma writes_plain w ps :
  wroteHeader w = true → chunked w = false →
  let w' := fold_left Write ps w in
  wroteHeader w' = true ∧ chunked w' = false ∧ out w' = out w ++ SJoin ps "" ∧ header w' = header w.
Proof.
  revert w. induction ps as [|p ps IH]; intros w Hw Hc; cbn [fold_left].
  { split_and!; [done|done| |done]. by rewrite sapp_nil_r. }
  assert (Write w p = put w p) as -> by (unfold Write; by rewrite Hw, Hc).
  destruct (IH (put w p)) as (I1 & I2 & I3 & I4); [done..|].
  split_and!; [done|done| |done]. rewrite I3, SJoin_cons_empty. cbn [put out]. by rewrite sapp_assoc.
Qed.

(** Whether WriteHeader frames the body in chunks, and the header it writes. *)
Definition frames (h : Header) (code : Z) : bool :=
  ((200 <=? code)%Z && String.eqb (HGet (reconcilePublicCORS h) "Content-Length") "")
  && String.eqb (HGet (reconcilePublicCORS h) "Transfer-Encoding") "".
Definition sent_headers (h : Header) (code : Z) : Header :=
  if frames h code then HSet (reconcilePublicCORS h) "Transfer-Encoding" "chunked" else reconcilePublicCORS h.

Lemma respond_out w code ps :
  fresh w →
  out (respond w code ps) =
  render_response (status_line code) (fields_of (sent_headers (header w) code))
    (if frames (header w) code then SJoin (map chunk ps) "" ++ last_chunk else SJoin ps "") ∧
  unflushed (respond w code ps) = false.
Proof.
  intros (Hw & Hc & Ho). split; [|done]. unfold respond.
  set (w1 := WriteHeader w code).
  assert (Hh : wroteHeader w1 = true ∧ chunked w1 = frames (header w) code ∧
    out w1 = status_line code ++ crlf ++ header_block (fields_of (sent_headers (header w) code)) ++ crlf).
  { unfold w1, WriteHeader. rewrite Hw. cbn [put wroteHeader chunked out]. rewrite Hc, Ho, sapp_nil_l.
    rewrite <- header_lines_block. done. }
  destruct Hh as (H1 & H2 & H3). unfold flushClose, render_response.
  destruct (frames (header w) code) eqn:Ef.
  - destruct (writes_chunked w1 ps H1 H2) as (I1 & I2 & I3 & _). rewrite I1, I2. cbn [bw_flush put out].
    rewrite I3, H3. by rewrite !sapp_assoc.
  - destruct (writes_plain w1 ps H1 H2) as (I1 & I2 & I3 & _). rewrite I1, I2. cbn [bw_flush out].
    rewrite I3, H3. by rewrite !sapp_assoc.
Qed.

Lemma StatusText_no_cr code : sin cr (StatusText code) = false.
Proof.
  unfold StatusText. destruct (list_find _ _) as [[i [c t]]|] eqn:E; [|done].
  apply list_find_Some in E as (Hi & _). apply list_elem_of_lookup_2 in Hi.
  assert (Forall (fun ct => sin cr ct.2 = false) status_texts) as Hf by (apply (bool_decide_unpack _); vm_compute; exact I).
  rewrite Forall_forall in Hf. by apply Hf in Hi.
Qed.

Lemma status_line_no_cr code : sin cr (status_line code) = false.
Proof. unfold status_line. by rewrite !sin_app, itoa_no_cr, StatusText_no_cr. Qed.

(** A proxied response survives the writer.  Without a Content-Length a
    client reads the status, exactly the header fields set, and, undoing the
    chunks, exactly the bytes the handler wrote, in pieces of any size, and the
    connection is left at the first byte after the response; with a Content-Length
    the body follows unframed.  Everything is flushed at the end. *)
Theorem respond_read w code ps rest :
  fresh w → (200 <= code)%Z → Forall (fun p => 0 < slen p < 2 ^ 63)%Z ps →
  Forall clean_field (fields_of (sent_headers (header w) code)) →
  unflushed (respond w code ps) = false ∧
  ∃ body, read_response (out (respond w code ps) ++ rest) =
      Some (status_line code, fields_of (sent_headers (header w) code), body ++ rest) ∧
    if frames (header w) code
    then decode_chunked (S (length ps)) (body ++ rest) = Some (SJoin ps "", rest)
    else body = SJoin ps "".
Proof.
  intros Hw Hcode Hps Hclean. destruct (respond_out w code ps Hw) as [-> Hu]. split; [done|].
  exists (if frames (header w) code then SJoin (map chunk ps) "" ++ last_chunk else SJoin ps ""). split.
  - unfold render_response. rewrite !sapp_assoc. apply read_render; [apply status_line_no_cr|done].
  - destruct (frames (header w) code); [|done]. rewrite sapp_assoc. apply decode_chunks; [done|lia].
Qed.

(** Statuses without a body are framed too: a 204 or 304 response without
    a Content-Length is followed by a last chunk.  A client that takes these
    responses to end with their header (RFC 9112, section 6.3) finds it in front
    of the next response on the connection, whose status line then reads 0. *)
Theorem bodyless_desync w code next :
  fresh w → code = 204%Z ∨ code = 304%Z → frames (header w) code = true →
  Forall clean_field (fields_of (sent_headers (header w) code)) →
  ∃ rest, read_response (out (respond w code []) ++ next) =
      Some (status_line code, fields_of (sent_headers (header w) code), rest) ∧
    rest = last_chunk ++ next ∧ read_line rest = Some ("0", crlf ++ next).
Proof.
  intros Hw Hcode Hf Hclean. destruct (respond_out w code [] Hw) as [-> _]. rewrite Hf. exists (last_chunk ++ next). split.
  - unfold render_response. rewrite !sapp_assoc. apply read_render; [apply status_line_no_cr|done].
  - split; [done|]. unfold last_chunk. rewrite !sapp_assoc. by apply (read_line_app "0").
Qed.

(** The first WriteHeader counts, also an informational one: after a 1xx
    other than the 101 of an upgrade, the final status and its framing are
    ignored, and the body is written after the informational response as it is. *)
Theorem informational_swallows_final w code final p :
  fresh w → (100 <= code < 200)%Z →
  WriteHeader (WriteHeader w code) final = WriteHeader w code ∧
  out (flushClose (Write (WriteHeader (WriteHeader w code) final) p)) = out (WriteHeader w code) ++ p.
Proof.
  intros (Hw & Hc & Ho) Hcode.
  assert (H1 : wroteHeader (WriteHeader w code) = true) by (unfold WriteHeader; by rewrite Hw).
  assert (H2 : chunked (WriteHeader w code) = false).
  { unfold WriteHeader. rewrite Hw. cbn [put chunked]. rewrite Hc.
    rewrite (proj2 (Z.leb_gt 200 code)) by lia. done. }
  assert (E : ∀ f, WriteHeader (WriteHeader w code) f = WriteHeader w code).
  { intros f. set (w1 := WriteHeader w code) in *. unfold WriteHeader at 1. by rewrite H1. }
  split; [apply E|]. rewrite E. unfold Write. rewrite H1, H2. unfold flushClose. cbn [put wroteHeader chunked].
  rewrite H1. cbv iota. cbn [put chunked]. by rewrite H2.
Qed.

End response.

(** * Concrete inputs *)

Section witnesses.
#[local] Existing Instances ascii_unicode map_range.

Lemma new_fresh : fresh newConnResponseWriter.
Proof. repeat split. Qed.

Lemma ex_framed code : (200 <= code)%Z →
  frames (header newConnResponseWriter) code = true ∧
  fields_of (sent_headers (header newConnResponseWriter) code) = [("Transfer-Encoding", "chunked")].
Proof.
  intros Hcode. assert (frames (header newConnResponseWriter) code = true) as Hf.
  { unfold frames. rewrite (proj2 (Z.leb_le _ _) Hcode). vm_compute. reflexivity. }
  split; [done|]. unfold sent_headers. rewrite Hf. vm_compute. reflexivity.
Qed.

Lemma ex_clean : Forall clean_field [("Transfer-Encoding", "chunked")].
Proof. apply Forall_singleton. repeat split; done. Qed.

Lemma respond_read_witness :
  ∃ body, read_response (out (respond newConnResponseWriter 200 ["event: a"; "b"]) ++ "HTTP/1.1 ") =
      Some (status_line 200, [("Transfer-Encoding", "chunked")], body ++ "HTTP/1.1 ") ∧
    decode_chunked 3 (body ++ "HTTP/1.1 ") = Some ("event: ab", "HTTP/1.1 ").
Proof.
  destruct (ex_framed 200 ltac:(lia)) as [Hf Hx].
  destruct (respond_read newConnResponseWriter 200 ["event: a"; "b"] "HTTP/1.1 ") as [_ (body & Hr & Hd)].
  - exact new_fresh.
  - lia.
  - repeat constructor; vm_compute; done.
  - rewrite Hx. exact ex_clean.
  - rewrite Hx in Hr. rewrite Hf in Hd. exists body. split; [exact Hr|exact Hd].
Defined.

Lemma bodyless_desync_witness : ∃ rest,
  read_response (out (respond newConnResponseWriter 304 []) ++ "HTTP/1.1 200 OK") =
    Some (status_line 304, [("Transfer-Encoding", "chunked")], rest) ∧
  read_line rest = Some ("0", crlf ++ "HTTP/1.1 200 OK").
Proof.
  destruct (ex_framed 304 ltac:(lia)) as [Hf Hx].
  destruct (bodyless_desync newConnResponseWriter 304 "HTTP/1.1 200 OK") as (rest & Hr & _ & Hl).
  - exact new_fresh.
  - right. reflexivity.
  - exact Hf.
  - rewrite Hx. exact ex_clean.
  - rewrite Hx in Hr. exists rest. split; [exact Hr|exact Hl].
Defined.

Lemma informational_swallows_final_witness :
  out (flushClose (Write (WriteHeader (WriteHeader newConnResponseWriter 103) 200) "<html>")) =
  out (WriteHeader newConnResponseWriter 103) ++ "<html>".
Proof. apply (informational_swallows_final newConnResponseWriter 103 200 "<html>" new_fresh); lia. Defined.

End witnesses.
