(* ===== verification/WsFrame.v ===== *)
(** internal/terminate/wsmux.go, wire part: recognising a sealed WebSocket and
    the frames of privasys-mux/1. *)
From Stdlib Require Import Strings.Ascii Strings.String.
From S2P Require Import Prelude GoBytes GoStrings GoRuntime Http.
Local Open Scope Z_scope.

Definition sealedWSSubprotocol : string := "privasys.sealed.v1".

Definition muxTypeOpen : Z := 1.
Definition muxTypeData : Z := 2.
Definition muxTypeClose : Z := 3.
Definition muxTypePing : Z := 4.
Definition muxTypePong : Z := 5.

Definition muxMaxFrame : Z := 16 * 1024 * 1024 + 64 * 1024.

(** websocket.StatusCode values the code names. *)
Definition StatusNormalClosure : Z := 1000.
Definition StatusGoingAway : Z := 1001.
Definition StatusProtocolError : Z := 1002.
Definition StatusUnsupportedData : Z := 1003.
Definition StatusPolicyViolation : Z := 1008.
Definition StatusTryAgainLater : Z := 1013.
Definition StatusBadGateway : Z := 1014.

(** * The upgrade request *)

Record sealedWSParams := { sessionID : string; streamID : Z; streamHex : string }.

(** strconv.ParseUint(hex, 16, 64) on a non-empty string of at most 16 digits. *)
Definition ParseUint16 (s : string) : option Z := parse_hex_from 0 s.

Definition subprotocol_tokens (req : Request) : list string :=
  flat_map (fun line =>
    filter (fun t => String.eqb t "" = false) (map TrimSpace (SplitChar "," line)))
    (HValues (ReqHeader req) "Sec-WebSocket-Protocol").

(** [None] is nil. *)
Definition parseSealedWS `{GoUnicode} (req : Request) : option sealedWSParams :=
  if negb (EqualFold (HGet (ReqHeader req) "Upgrade") "websocket") then None else
  match subprotocol_tokens req with
  | t0 :: t1 :: t2 :: _ =>
      if negb (String.eqb t0 sealedWSSubprotocol) then None else
      let hex := ToLower t2 in
      if negb (slen hex =? 16) then None else
      match ParseUint16 hex with
      | None => None
      | Some id => Some {| sessionID := t1; streamID := id; streamHex := hex |}
      end
  | _ => None
  end.

(** * Frames *)

(** The bytes writeFrame puts on the connection. *)
Definition frame_bytes (typ : Z) (sid : string) (stream : Z) (payload : bytes) : bytes :=
  [byte_of_Z typ; byte_of_Z (slen sid)] ++ of_string sid ++
  be_put 8 stream ++ be_put 4 (wrap 32 (blen payload)) ++ payload.

Inductive frame_error : Type := FrameEOF | FrameTooLarge.

(** io.ReadFull of n bytes. *)
Definition read_full (n : nat) (s : bytes) : option (bytes * bytes) :=
  if (length s <? n)%nat then None else Some (take n s, drop n s).

(** readMuxFrame on the bytes of the connection: the frame and what follows it. *)
Definition readMuxFrame (s : bytes) : (Z * string * Z * bytes * bytes) + frame_error :=
  match read_full 2 s with
  | Some ([t; l], s) =>
      let sidLen := Z.to_nat (byte_val l) in
      match read_full (sidLen + 12) s with
      | None => inr FrameEOF
      | Some (buf, s) =>
          let sid := to_string (take sidLen buf) in
          let stream := be_get (take 8 (drop sidLen buf)) in
          let plen := be_get (take 4 (drop (sidLen + 8) buf)) in
          if muxMaxFrame <? plen then inr FrameTooLarge else
          match read_full (Z.to_nat plen) s with
          | None => inr FrameEOF
          | Some (payload, s) => inl (byte_val t, sid, stream, payload, s)
          end
      end
  | _ => inr FrameEOF
  end.

Definition encodeMuxOpen (host path : string) (openEnv : bytes) : bytes :=
  be_put 2 (wrap 16 (slen host)) ++ of_string host ++
  be_put 2 (wrap 16 (slen path)) ++ of_string path ++ openEnv.

Definition encodeMuxClose (code : Z) (reason : string) : bytes :=
  be_put 2 (wrap 16 code) ++ of_string reason.

Definition parseMuxClose (payload : bytes) : Z * string :=
  if blen payload <? 2 then (StatusNormalClosure, ""%string) else
  let code := be_get (take 2 payload) in
  let code := if code =? 0 then StatusNormalClosure else code in
  (code, to_string (drop 2 payload)).

Definition shortSID (sid : string) : string :=
  if 8 <? slen sid then (stake 8 sid ++ chars [226; 128; 166]%nat)%string else sid.

(** * Frame round trip *)

Lemma read_full_app a b : read_full (length a) (a ++ b) = Some (a, b).
Proof.
  unfold read_full. rewrite length_app.
  rewrite (proj2 (Nat.ltb_ge _ _)) by lia. by rewrite take_app_length, drop_app_length.
Qed.

Lemma read_full_app' n a b : n = length a → read_full n (a ++ b) = Some (a, b).
Proof. intros ->. apply read_full_app. Qed.

Lemma read_full_2 t l s : read_full 2 (t :: l :: s) = Some ([t; l], s).
Proof. exact (read_full_app [t; l] s). Qed.

Lemma length_of_string s : length (of_string s) = String.length s.
Proof. pose proof (blen_of_string s) as E. unfold blen, slen in E. lia. Qed.

(** Reading one frame off a buffer that starts with a complete header. *)
Lemma readMuxFrame_header t l sid stream plen s :
  length sid = Z.to_nat (byte_val l) → 0 <= stream < 2 ^ 64 → 0 <= plen < 2 ^ 32 →
  readMuxFrame (t :: l :: sid ++ be_put 8 stream ++ be_put 4 plen ++ s) =
  if muxMaxFrame <? plen then inr FrameTooLarge else
  match read_full (Z.to_nat plen) s with
  | None => inr FrameEOF
  | Some (payload, s) => inl (byte_val t, to_string sid, stream, payload, s)
  end.
Proof.
  intros Hsid Hst Hp. unfold readMuxFrame. rewrite read_full_2. cbv zeta. rewrite <- Hsid.
  rewrite !app_assoc, (read_full_app' (length sid + 12)) by (rewrite !length_app, !length_be_put; lia).
  rewrite <- !app_assoc. rewrite take_app_length.
  assert (take 8 (drop (length sid) (sid ++ be_put 8 stream ++ be_put 4 plen)) = be_put 8 stream) as ->
    by (apply take_drop_app_exact; by rewrite ?length_be_put).
  assert (take 4 (drop (length sid + 8) (sid ++ be_put 8 stream ++ be_put 4 plen)) = be_put 4 plen) as ->.
  { rewrite app_assoc, drop_app_length' by (rewrite length_app, length_be_put; lia).
    by rewrite firstn_all2 by (by rewrite length_be_put). }
  rewrite !be_get_put_id by done. done.
Qed.

(** A mux frame is read back as it was written: for a session id of at
    most 255 bytes and a payload within the frame limit, the reader returns the
    same type, session, stream and payload and stops at the next frame. *)
Theorem mux_frame_roundtrip typ sid stream payload rest :
  0 <= typ < 256 → slen sid < 256 → 0 <= stream < 2 ^ 64 → blen payload <= muxMaxFrame →
  readMuxFrame (frame_bytes typ sid stream payload ++ rest) = inl (typ, sid, stream, payload, rest).
Proof.
  intros Ht Hs Hst Hp. pose proof (blen_nonneg payload). unfold muxMaxFrame in Hp.
  unfold frame_bytes, wrap. rewrite Z.mod_small by lia. rewrite <- !app_assoc. cbn [app].
  rewrite readMuxFrame_header; [|rewrite byte_val_of_Z, length_of_string; unfold slen in *; rewrite Z.mod_small by lia; lia|done|lia].
  unfold muxMaxFrame. zdec. rewrite (read_full_app' (Z.to_nat (blen payload))) by (unfold blen; lia).
  rewrite byte_val_of_Z, Z.mod_small by lia. by rewrite to_of_string.
Qed.

(** A session id of 256 bytes or more breaks the framing.  Its length is
    written modulo 256, and for an id of printable bytes, which is what the
    Sec-WebSocket-Protocol header lets a client choose, the reader takes four of
    its bytes as the payload length: every such frame is refused as too large, and
    the reader drops the shared connection. *)
Theorem long_session_id_breaks_framing typ sid stream payload rest :
  256 <= slen sid → Forall (fun b => 32 <= byte_val b) (of_string sid) →
  readMuxFrame (frame_bytes typ sid stream payload ++ rest) = inr FrameTooLarge.
Proof.
  intros Hs Hb. set (k := Z.to_nat (slen sid mod 256)).
  assert (Hk : (k + 12 <= length (of_string sid))%nat).
  { rewrite length_of_string. unfold k, slen in *. pose proof (Z.mod_pos_bound (Z.of_nat (String.length sid)) 256).
    pose proof (Z.div_mod (Z.of_nat (String.length sid)) 256).
    pose proof (Z.div_le_lower_bound (Z.of_nat (String.length sid)) 256 1). lia. }
  unfold frame_bytes. rewrite <- !app_assoc. unfold readMuxFrame.
  cbn [app]. rewrite read_full_2. cbv zeta. rewrite byte_val_of_Z. fold k.
  set (tail := be_put 8 stream ++ _). unfold read_full.
  rewrite (proj2 (Nat.ltb_ge _ _)) by (rewrite length_app; lia).
  rewrite take_app_le by lia. rewrite skipn_firstn_comm. replace (k + 12 - (k + 8))%nat with 4%nat by lia.
  rewrite firstn_firstn. change (Nat.min 4 4) with 4%nat.
  assert (Hl : length (take 4 (drop (k + 8) (of_string sid))) = 4%nat) by (rewrite length_take, length_drop; lia).
  assert (Hf : Forall (fun b => 32 <= byte_val b) (take 4 (drop (k + 8) (of_string sid)))) by (by apply Forall_take, Forall_drop).
  destruct (take 4 (drop (k + 8) (of_string sid))) as [|b0 [|b1 [|b2 [|b3 [|? ?]]]]]; try done.
  rewrite !Forall_cons in Hf. destruct Hf as (H0 & H1 & H2 & H3 & _).
  assert (muxMaxFrame < be_get [b0; b1; b2; b3]) as Hlt; [|by zdec].
  rewrite !be_get_cons. change (be_get []) with 0. pose proof (byte_val_range b1). pose proof (byte_val_range b2).
  pose proof (byte_val_range b3). unfold muxMaxFrame, blen. cbn [length]. lia.
Qed.

(** * Payloads *)

(** Reference: the receiver of an OPEN payload. *)
Definition decode_open (b : bytes) : option (string * string * bytes) :=
  match read_full 2 b with
  | None => None
  | Some (l1, b) =>
      match read_full (Z.to_nat (be_get l1)) b with
      | None => None
      | Some (host, b) =>
          match read_full 2 b with
          | None => None
          | Some (l2, b) =>
              match read_full (Z.to_nat (be_get l2)) b with
              | None => None
              | Some (path, env) => Some (to_string host, to_string path, env)
              end
          end
      end
  end.

Lemma read_sized s rest :
  slen s < 65536 →
  read_full 2 (be_put 2 (wrap 16 (slen s)) ++ of_string s ++ rest) = Some (be_put 2 (slen s), of_string s ++ rest) ∧
  read_full (Z.to_nat (be_get (be_put 2 (slen s)))) (of_string s ++ rest) = Some (of_string s, rest).
Proof.
  intros Hs. assert (0 <= slen s) by (unfold slen; lia). unfold wrap. rewrite Z.mod_small by lia. split.
  - apply read_full_app'. by rewrite length_be_put.
  - rewrite be_get_put_id by (simpl; lia). apply read_full_app'. rewrite length_of_string. unfold slen. lia.
Qed.

(** The payloads of OPEN and CLOSE read back: host, path and the sealed
    open for a host and a path of less than 64 KiB, and the status code and reason
    of a close. *)
Theorem mux_payload_roundtrip host path env code reason :
  slen host < 65536 → slen path < 65536 → 0 < code < 65536 →
  decode_open (encodeMuxOpen host path env) = Some (host, path, env) ∧
  parseMuxClose (encodeMuxClose code reason) = (code, reason).
Proof.
  intros Hh Hp Hc. split.
  - unfold decode_open, encodeMuxOpen.
    destruct (read_sized host (be_put 2 (wrap 16 (slen path)) ++ of_string path ++ env) Hh) as [-> ->].
    destruct (read_sized path env Hp) as [-> ->]. by rewrite !to_of_string.
  - unfold parseMuxClose, encodeMuxClose, wrap. rewrite Z.mod_small by lia.
    assert (blen (be_put 2 code ++ of_string reason) = 2 + slen reason) as ->
      by (rewrite blen_app, blen_of_string; unfold blen; by rewrite length_be_put).
    assert (0 <= slen reason) by (unfold slen; lia). zdec.
    rewrite take_app_length', drop_app_length' by (by rewrite length_be_put).
    rewrite be_get_put_id by (simpl; lia). zdec. by rewrite to_of_string.
Qed.

Lemma parse_hex_range acc s n :
  0 <= acc → parse_hex_from acc s = Some n →
  acc * 16 ^ slen s <= n < (acc + 1) * 16 ^ slen s.
Proof.
  unfold slen. revert acc. induction s as [|c s IH]; intros acc Ha; cbn [parse_hex_from String.length].
  - intros [= <-]. change (16 ^ Z.of_nat 0) with 1. lia.
  - destruct (hex_val c) as [d|] eqn:Ed; [|done].
    assert (0 <= d < 16).
    { unfold hex_val in Ed. repeat case_match; simplify_eq; rewrite ?andb_true_iff, ?Nat.leb_le in *; lia. }
    intros Hn. apply IH in Hn; [|lia]. rewrite Nat2Z.inj_succ, Z.pow_succ_r by lia.
    assert (0 < 16 ^ Z.of_nat (String.length s)) by (apply Z.pow_pos_nonneg; lia). nia.
Qed.

Lemma tokens_nonempty req t : t ∈ subprotocol_tokens req → t ≠ ""%string.
Proof.
  unfold subprotocol_tokens. intros (line & _ & Hin)%list_elem_of_In%in_flat_map.
  apply list_elem_of_In, list_elem_of_filter in Hin as [Hne _]. by apply String.eqb_neq.
Qed.

(** What parseSealedWS accepts: a WebSocket upgrade whose first
    subprotocol is the sealed marker; the session id is the second token and not
    empty, and the stream id the value of the third, sixteen hexadecimal digits,
    so it fits the 64 bits of the frame header. *)
Theorem parseSealedWS_sound `{GoUnicode} req p :
  parseSealedWS req = Some p →
  EqualFold (HGet (ReqHeader req) "Upgrade") "websocket" = true ∧
  sessionID p ≠ ""%string ∧ 0 <= streamID p < 2 ^ 64 ∧ slen (streamHex p) = 16 ∧
  parse_hex_from 0 (streamHex p) = Some (streamID p) ∧
  ∃ t2 more, subprotocol_tokens req = sealedWSSubprotocol :: sessionID p :: t2 :: more ∧ streamHex p = ToLower t2.
Proof.
  unfold parseSealedWS. destruct (EqualFold _ _); [|done]. cbn [negb].
  destruct (subprotocol_tokens req) as [|t0 [|t1 [|t2 more]]] eqn:Et; try done.
  destruct (String.eqb_spec t0 sealedWSSubprotocol) as [->|]; [|done]. cbn [negb].
  destruct (Z.eqb_spec (slen (ToLower t2)) 16) as [Hl|]; [|done]. cbn [negb].
  destruct (ParseUint16 (ToLower t2)) as [id|] eqn:Ep; [|done]. intros [= <-]. cbn [sessionID streamID streamHex].
  pose proof (parse_hex_range 0 _ _ ltac:(lia) Ep) as Hr. rewrite Hl in Hr. change (16 ^ 16) with (2 ^ 64) in Hr.
  split_and!; [done| |lia|lia|done|done|by exists t2, more].
  apply (tokens_nonempty req). rewrite Et. right. left.
Qed.

(** * Concrete inputs *)

Section witnesses.
#[local] Existing Instance ascii_unicode.

Definition ex_upgrade : Request := {|
  Method := "GET"; ReqHost := "app.privasys.org"; Path := "/ws"; RequestURI := "/ws";
  ReqHeader := HSet (HSet ∅ "Upgrade" "WebSocket") "Sec-WebSocket-Protocol"
    "privasys.sealed.v1, sess-1, 00000000000000Ff" |}.

Lemma mux_frame_roundtrip_witness :
  readMuxFrame (frame_bytes muxTypeData "sess-1" 255 [x01; x02] ++ [x04])
  = inl (muxTypeData, "sess-1"%string, 255, [x01; x02], [x04]).
Proof. apply (mux_frame_roundtrip muxTypeData "sess-1" 255 [x01; x02] [x04]); vm_compute; split || idtac; discriminate || reflexivity. Defined.

Lemma long_session_id_breaks_framing_witness :
  readMuxFrame (frame_bytes muxTypeOpen (to_string (replicate 300 x41)) 1 [] ++ []) = inr FrameTooLarge.
Proof.
  apply (long_session_id_breaks_framing muxTypeOpen (to_string (replicate 300 x41)) 1 [] []).
  - vm_compute. discriminate.
  - rewrite of_to_string. apply Forall_replicate. vm_compute. discriminate.
Defined.

Lemma mux_payload_roundtrip_witness :
  decode_open (encodeMuxOpen "app.privasys.org" "/ws" [x01]) = Some ("app.privasys.org"%string, "/ws"%string, [x01]) ∧
  parseMuxClose (encodeMuxClose StatusTryAgainLater "bye") = (StatusTryAgainLater, "bye"%string).
Proof. apply (mux_payload_roundtrip "app.privasys.org" "/ws" [x01] StatusTryAgainLater "bye"); vm_compute; done. Defined.

Lemma parseSealedWS_sound_witness : ∃ p, parseSealedWS ex_upgrade = Some p ∧ streamID p = 255 ∧ sessionID p ≠ ""%string.
Proof.
  assert (parseSealedWS ex_upgrade =
    Some {| sessionID := "sess-1"; streamID := 255; streamHex := "00000000000000ff" |}) as E by (vm_compute; reflexivity).
  destruct (parseSealedWS_sound ex_upgrade _ E) as (_ & Hne & _).
  eexists. split; [exact E|]. split; [reflexivity|exact Hne].
Defined.

End witnesses.
