(* ===== verification/WsMux.v ===== *)
(** internal/terminate/wsmux.go: the shared mux connection and its streams.

    A gwMuxConn and its streams live in one heap: a stream is referred to by its
    number, as the code refers to it by its pointer, and the map of the connection
    holds such references.  The per-stream queue between the read loop and the
    browser pump is a transition system of its own, because its counter and its
    channel are updated by two goroutines without a common lock. *)
From Stdlib Require Import Strings.String.
From S2P Require Import Prelude GoBytes GoStrings GoRuntime WsFrame.
Local Open Scope Z_scope.

Definition gwMuxPoolSize : Z := 2.
Definition gwMuxStreamQueue : nat := 4096.
Definition gwMuxStreamQueueBytes : Z := Z.shiftl 8 20.

Definition muxKey : Type := string * Z.

(** * One stream *)

Record gwStream := {
  key : muxKey;
  outbound : list bytes;
  queued : Z;
  done : option (Z * string);  (* the first finish: how the browser side was closed *)
}.

(** finish: sync.Once, so the first call decides. *)
Definition finish (st : gwStream) (code : Z) (reason : string) : gwStream :=
  match done st with
  | Some _ => st
  | None => {| key := key st; outbound := outbound st; queued := queued st; done := Some (code, reason) |}
  end.

(** * The connection *)

Record gwMuxConn := {
  streams : gmap muxKey nat;
  heap : gmap nat gwStream;
  dead : bool;
  wire : bytes;  (* what was written towards the enclave *)
}.

Definition set_streams (c : gwMuxConn) (m : gmap muxKey nat) : gwMuxConn :=
  {| streams := m; heap := heap c; dead := dead c; wire := wire c |}.
Definition set_stream (c : gwMuxConn) (i : nat) (st : gwStream) : gwMuxConn :=
  {| streams := streams c; heap := <[i := st]> (heap c); dead := dead c; wire := wire c |}.

(** writeFrame on a connection whose writes succeed; [false] is the error of a
    dead connection. *)
Definition writeFrame (c : gwMuxConn) (typ : Z) (sid : string) (stream : Z) (payload : bytes) : gwMuxConn * bool :=
  if dead c then (c, false)
  else ({| streams := streams c; heap := heap c; dead := dead c;
           wire := wire c ++ frame_bytes typ sid stream payload |}, true).

Definition register (c : gwMuxConn) (i : nat) (st : gwStream) : gwMuxConn * bool :=
  match streams c !! key st with
  | Some _ => (c, false)
  | None => (set_streams (set_stream c i st) (<[key st := i]> (streams c)), true)
  end.

Definition finish_at (c : gwMuxConn) (i : nat) (code : Z) (reason : string) : gwMuxConn :=
  match heap c !! i with Some st => set_stream c i (finish st code reason) | None => c end.

Definition unregister (c : gwMuxConn) (i : nat) (fin : bool) : gwMuxConn :=
  match heap c !! i with
  | None => c
  | Some st =>
      let c := if decide (streams c !! key st = Some i) then set_streams c (delete (key st) (streams c)) else c in
      if fin then finish_at c i StatusNormalClosure "" else c
  end.

Definition streamCount (c : gwMuxConn) : Z := Z.of_nat (size (streams c)).

Section conn.
Context `{GoRange}.

Definition kill (c : gwMuxConn) : gwMuxConn :=
  if dead c then c else
  let sts := map snd (range_map (streams c)) in
  let c := {| streams := ∅; heap := heap c; dead := true; wire := wire c |} in
  fold_left (fun c i => finish_at c i StatusGoingAway "enclave mux connection lost") sts c.

(** The data case of the read loop, for the stream found under the key. *)
Definition enqueue (c : gwMuxConn) (i : nat) (st : gwStream) (sid : string) (stream : Z) (payload : bytes) : gwMuxConn :=
  let overflow := gwMuxStreamQueueBytes <? queued st + blen payload in
  let full := (gwMuxStreamQueue <=? length (outbound st))%nat in
  if negb overflow && negb full then
    set_stream c i {| key := key st; outbound := outbound st ++ [payload];
                      queued := queued st + blen payload; done := done st |}
  else
    let c := (writeFrame c muxTypeClose sid stream
                (encodeMuxClose StatusPolicyViolation "browser backpressure overflow")).1 in
    let c := unregister c i false in
    finish_at c i StatusPolicyViolation "backpressure overflow".

(** One frame of readLoop; [None] ends the loop. *)
Definition read_frame (c : gwMuxConn) (typ : Z) (sid : string) (stream : Z) (payload : bytes) : option gwMuxConn :=
  if typ =? muxTypePong then Some c else
  if typ =? muxTypePing then Some (writeFrame c muxTypePong "" 0 payload).1 else
  if typ =? muxTypeData then
    match streams c !! (sid, stream) with
    | None =>
        Some (writeFrame c muxTypeClose sid stream (encodeMuxClose StatusProtocolError "unknown stream")).1
    | Some i =>
        match heap c !! i with
        | None => Some c
        | Some st => Some (enqueue c i st sid stream payload)
        end
    end else
  if typ =? muxTypeClose then
    match streams c !! (sid, stream) with
    | None => Some c
    | Some i =>
        let '(code, reason) := parseMuxClose payload in
        Some (finish_at (unregister c i false) i code reason)
    end else
  None.

(** readLoop on what the enclave sends until the connection ends: frames are
    taken off the stream until one is malformed, cut short or of an unknown type,
    and then the connection is killed.  Each frame takes at least 14 bytes. *)
Fixpoint readLoop (fuel : nat) (c : gwMuxConn) (input : bytes) : go gwMuxConn :=
  match fuel with
  | O => OutOfFuel
  | S fuel' =>
      match readMuxFrame input with
      | inr _ => Ret (kill c)
      | inl (typ, sid, stream, payload, rest) =>
          match read_frame c typ sid stream payload with
          | None => Ret (kill c)
          | Some c => readLoop fuel' c rest
          end
      end
  end.

(** * Invariant *)

(** Every registered stream exists and has the key it is registered under. *)
Definition conn_wf (c : gwMuxConn) : Prop :=
  ∀ k i, streams c !! k = Some i → ∃ st, heap c !! i = Some st ∧ key st = k.

Lemma writeFrame_same c typ sid stream payload :
  let c' := (writeFrame c typ sid stream payload).1 in
  streams c' = streams c ∧ heap c' = heap c ∧ dead c' = dead c.
Proof. unfold writeFrame. destruct (dead c) eqn:E; cbn; auto. Qed.

Lemma finish_at_same c i code reason :
  streams (finish_at c i code reason) = streams c ∧ dead (finish_at c i code reason) = dead c ∧
  wire (finish_at c i code reason) = wire c.
Proof. unfold finish_at. by destruct (heap c !! i). Qed.

Lemma finish_at_heap c i code reason j :
  heap (finish_at c i code reason) !! j =
  if decide (j = i) then (fun st => finish st code reason) <$> heap c !! j else heap c !! j.
Proof.
  unfold finish_at. destruct (heap c !! i) as [st|] eqn:Ei.
  - cbn [set_stream heap]. case_decide as E; [subst; by rewrite lookup_insert_eq, Ei|by rewrite lookup_insert_ne].
  - case_decide as E; [subst; by rewrite Ei|done].
Qed.

(** Two streams are never registered under one number. *)
Lemma registered_inj c k k' i : conn_wf c → streams c !! k = Some i → streams c !! k' = Some i → k = k'.
Proof.
  intros Hs H1 H2. destruct (Hs _ _ H1) as (st & E & <-), (Hs _ _ H2) as (st' & E' & <-). congruence.
Qed.

Lemma unregister_registered c k i :
  conn_wf c → streams c !! k = Some i → unregister c i false = set_streams c (delete k (streams c)).
Proof.
  intros Hwf Hk. destruct (Hwf k i Hk) as (st & Hst & Hkey).
  unfold unregister. rewrite Hst, Hkey. by rewrite decide_True.
Qed.

(** Taking a registered stream off the map and finishing it. *)
Lemma drop_stream_wf c k i code reason :
  conn_wf c → streams c !! k = Some i →
  conn_wf (finish_at (unregister c i false) i code reason) ∧
  streams (finish_at (unregister c i false) i code reason) = delete k (streams c).
Proof.
  intros Hwf Hk. destruct (Hwf k i Hk) as (st & Hst & Hkey).
  rewrite (unregister_registered c k i Hwf Hk). destruct (finish_at_same (set_streams c (delete k (streams c))) i code reason) as (Es & Ed & _).
  split; [|by rewrite Es].
  unfold conn_wf. rewrite Es. cbn [set_streams streams]. intros k' j [Hne Hk']%lookup_delete_Some.
    rewrite finish_at_heap. cbn [set_streams heap]. rewrite decide_False; [by apply Hwf|].
  intros ->. apply Hne. by eapply registered_inj.
Qed.

Lemma wf_congr c c' :
  streams c' = streams c → heap c' = heap c → dead c' = dead c → conn_wf c → conn_wf c'.
Proof. unfold conn_wf. by intros -> -> _. Qed.

Lemma writeFrame_wf c typ sid stream payload : conn_wf c → conn_wf (writeFrame c typ sid stream payload).1.
Proof. destruct (writeFrame_same c typ sid stream payload) as (?&?&?). by apply wf_congr. Qed.

Lemma enqueue_wf c k i st sid stream payload :
  conn_wf c → streams c !! k = Some i → heap c !! i = Some st → conn_wf (enqueue c i st sid stream payload).
Proof.
  intros Hwf Hk Hst. unfold enqueue. destruct (negb _ && negb _).
  - destruct (Hwf k i Hk) as (st0 & E0 & Hkey). rewrite Hst in E0. injection E0 as <-.
    unfold conn_wf. cbn [set_stream streams heap]. intros k' j Hk'. destruct (decide (j = i)) as [->|Hj].
    + rewrite lookup_insert_eq. eexists. split; [done|]. cbn. rewrite Hkey. by eapply registered_inj.
    + rewrite lookup_insert_ne by done. by apply Hwf.
  - eapply drop_stream_wf; [by apply writeFrame_wf|].
    by destruct (writeFrame_same c muxTypeClose sid stream
      (encodeMuxClose StatusPolicyViolation "browser backpressure overflow")) as (-> & _ & _).
Qed.

Lemma read_frame_wf c typ sid stream payload c' :
  conn_wf c → read_frame c typ sid stream payload = Some c' → conn_wf c'.
Proof.
  intros Hwf. unfold read_frame.
  destruct (typ =? muxTypePong); [by intros [= <-]|].
  destruct (typ =? muxTypePing); [intros [= <-]; by apply writeFrame_wf|].
  destruct (typ =? muxTypeData).
  { destruct (streams c !! (sid, stream)) as [i|] eqn:Ek; [|intros [= <-]; by apply writeFrame_wf].
    destruct (heap c !! i) as [st|] eqn:Ei; [|by intros [= <-]]. intros [= <-]. by eapply enqueue_wf. }
  destruct (typ =? muxTypeClose); [|done].
  destruct (streams c !! (sid, stream)) as [i|] eqn:Ek; [|by intros [= <-]].
  destruct (parseMuxClose payload) as [code reason]. intros [= <-]. by eapply drop_stream_wf.
Qed.

Lemma register_wf c i st c' b :
  conn_wf c → heap c !! i = None →
  register c i st = (c', b) → conn_wf c'.
Proof.
  intros Hwf Hi. unfold register. destruct (streams c !! key st) as [j|] eqn:Ek; [by intros [= <- <-]|].
  intros [= <- <-]. unfold conn_wf. cbn [set_streams set_stream streams heap].
  intros k j [[<- <-]|[Hne Hk]]%lookup_insert_Some.
  - rewrite lookup_insert_eq. eauto.
  - destruct (Hwf k j Hk) as (st' & Hj & ?). rewrite lookup_insert_ne by congruence. eauto.
Qed.

(** * Killing the connection *)

Lemma kill_fold l c code reason :
  let c' := fold_left (fun c i => finish_at c i code reason) l c in
  streams c' = streams c ∧ dead c' = dead c ∧ wire c' = wire c ∧
  ∀ j, heap c' !! j = if decide (j ∈ l) then (fun st => finish st code reason) <$> heap c !! j else heap c !! j.
Proof.
  revert c. induction l as [|i l IH]; intros c; cbn [fold_left].
  { split_and!; [done..|]. intros j. by rewrite decide_False by apply not_elem_of_nil. }
  destruct (IH (finish_at c i code reason)) as (-> & -> & -> & Hh).
  destruct (finish_at_same c i code reason) as (-> & -> & ->). split_and!; [done..|].
  intros j. rewrite Hh, finish_at_heap.
  assert (Hidem : ∀ o, (fun st => finish st code reason) <$> ((fun st => finish st code reason) <$> o) =
    (fun st => finish st code reason) <$> o :> option gwStream).
  { intros [st|]; [|done]. cbn. unfold finish. by destruct (done st) eqn:E; rewrite ?E. }
  repeat case_decide; try done; try set_solver.
Qed.

Context `{!GoRangeLaws}.

Lemma kill_wf c : conn_wf c → conn_wf (kill c).
Proof.
  intros Hwf. unfold kill. destruct (dead c); [done|].
  destruct (kill_fold (map snd (range_map (streams c)))
    {| streams := ∅; heap := heap c; dead := true; wire := wire c |} StatusGoingAway "enclave mux connection lost")
    as (Es & _). unfold conn_wf. rewrite Es. intros k i. cbn [streams]. by rewrite lookup_empty.
Qed.

Lemma kill_spec c :
  conn_wf c → dead c = false →
  dead (kill c) = true ∧ streams (kill c) = ∅ ∧
  (∀ k i, streams c !! k = Some i →
     ∃ st, heap c !! i = Some st ∧
       heap (kill c) !! i = Some (finish st StatusGoingAway "enclave mux connection lost")) ∧
  (∀ i, (∀ k, streams c !! k ≠ Some i) → heap (kill c) !! i = heap c !! i).
Proof.
  intros Hwf Hd. unfold kill. rewrite Hd.
  destruct (kill_fold (map snd (range_map (streams c)))
    {| streams := ∅; heap := heap c; dead := true; wire := wire c |} StatusGoingAway "enclave mux connection lost")
    as (-> & -> & _ & Hh). cbn [heap] in Hh.
  assert (Hin : ∀ i, i ∈ map snd (range_map (streams c)) ↔ ∃ k, streams c !! k = Some i).
  { intros i. rewrite list_elem_of_In, in_map_iff. setoid_rewrite <- list_elem_of_In. split.
    - intros ([k j] & <- & Hin%range_map_elem). eauto.
    - intros [k Hk]. exists (k, i). split; [done|]. by apply range_map_elem. }
  split_and!; [done|done| |].
  - intros k i Hk. rewrite Hh, decide_True by (apply Hin; eauto).
    destruct (Hwf k i Hk) as (st & -> & _). cbn. eauto.
  - intros i Hno. rewrite Hh, decide_False; [done|]. intros [k Hk]%Hin. by apply (Hno k).
Qed.

(** * The read loop *)

(** What a step may do to the streams: they stay what they are or are finished
    once, and a registered one is still registered or finished afterwards. *)
Definition streams_kept (c c' : gwMuxConn) : Prop :=
  (∀ i st, heap c !! i = Some st → ∃ st', heap c' !! i = Some st' ∧ key st' = key st ∧
     (done st ≠ None → done st' = done st)) ∧
  (∀ k i, streams c !! k = Some i → streams c' !! k = Some i ∨ ∃ st', heap c' !! i = Some st' ∧ done st' ≠ None).

Lemma streams_kept_refl c c' : streams c' = streams c → heap c' = heap c → streams_kept c c'.
Proof. intros Es Eh. split; [rewrite Eh; eauto|rewrite Es; auto]. Qed.

Lemma streams_kept_trans c1 c2 c3 : streams_kept c1 c2 → streams_kept c2 c3 → streams_kept c1 c3.
Proof.
  intros [A1 B1] [A2 B2]. split.
  - intros i st Hi. destruct (A1 i st Hi) as (st2 & H2 & K2 & D2). destruct (A2 i st2 H2) as (st3 & H3 & K3 & D3).
    exists st3. split; [done|]. split; [congruence|]. intros Hd. specialize (D2 Hd). rewrite D3; congruence.
  - intros k i Hk. destruct (B1 k i Hk) as [Hk2|(st2 & H2 & D2)].
    + by apply B2.
    + right. destruct (A2 i st2 H2) as (st3 & H3 & _ & D3). exists st3. split; [done|]. by rewrite D3.
Qed.

Lemma finish_done st code reason : done (finish st code reason) ≠ None.
Proof. unfold finish. by destruct (done st) eqn:E; rewrite ?E. Qed.

Lemma finish_keeps st code reason : key (finish st code reason) = key st ∧ (done st ≠ None → done (finish st code reason) = done st).
Proof. unfold finish. destruct (done st) eqn:E; naive_solver. Qed.

Lemma drop_stream_kept c k i code reason :
  conn_wf c → streams c !! k = Some i → streams_kept c (finish_at (unregister c i false) i code reason).
Proof.
  intros Hwf Hk. pose proof (drop_stream_wf c k i code reason Hwf Hk) as [_ Es].
  destruct (Hwf k i Hk) as (st & Hst & Hkey).
  assert (Hh : ∀ j, heap (finish_at (unregister c i false) i code reason) !! j =
    if decide (j = i) then (fun st => finish st code reason) <$> heap c !! j else heap c !! j).
  { intros j. rewrite finish_at_heap. by rewrite (unregister_registered c k i Hwf Hk). }
  split.
  - intros j stj Hj. rewrite Hh, Hj. case_decide; [|eauto]. cbn. eexists. split; [done|]. apply finish_keeps.
  - intros k' j Hk'. rewrite Es, Hh. destruct (decide (k' = k)) as [->|Hne].
    + right. rewrite Hk in Hk'. injection Hk' as <-. rewrite decide_True, Hst by done. cbn. eexists. split; [done|].
      apply finish_done.
    + left. by rewrite lookup_delete_ne.
Qed.

Lemma writeFrame_kept c typ sid stream payload : streams_kept c (writeFrame c typ sid stream payload).1.
Proof. destruct (writeFrame_same c typ sid stream payload) as (?&?&_). by apply streams_kept_refl. Qed.

Lemma read_frame_kept c typ sid stream payload c' :
  conn_wf c → read_frame c typ sid stream payload = Some c' → streams_kept c c'.
Proof.
  intros Hwf. unfold read_frame.
  destruct (typ =? muxTypePong); [intros [= <-]; by apply streams_kept_refl|].
  destruct (typ =? muxTypePing); [intros [= <-]; by apply writeFrame_kept|].
  destruct (typ =? muxTypeData).
  { destruct (streams c !! (sid, stream)) as [i|] eqn:Ek; [|intros [= <-]; by apply writeFrame_kept].
    destruct (heap c !! i) as [st|] eqn:Ei; [|intros [= <-]; by apply streams_kept_refl]. intros [= <-].
    unfold enqueue. destruct (negb _ && negb _).
    - split; [|by left]. intros j stj Hj. cbn [set_stream heap]. destruct (decide (j = i)) as [->|].
      + rewrite lookup_insert_eq. eexists. split; [done|]. by replace stj with st by congruence.
      + rewrite lookup_insert_ne by done. eauto.
    - eapply streams_kept_trans; [apply writeFrame_kept|]. eapply drop_stream_kept; [by apply writeFrame_wf|].
      by destruct (writeFrame_same c muxTypeClose sid stream
        (encodeMuxClose StatusPolicyViolation "browser backpressure overflow")) as (-> & _ & _). }
  destruct (typ =? muxTypeClose); [|done].
  destruct (streams c !! (sid, stream)) as [i|] eqn:Ek; [|intros [= <-]; by apply streams_kept_refl].
  destruct (parseMuxClose payload) as [code reason]. intros [= <-]. by eapply drop_stream_kept.
Qed.

Lemma readMuxFrame_progress s typ sid stream payload rest :
  readMuxFrame s = inl (typ, sid, stream, payload, rest) → (length rest < length s)%nat.
Proof.
  unfold readMuxFrame, read_full. intros Hr. repeat case_match; simplify_eq;
    rewrite ?length_drop in *; repeat match goal with E : (_ <? _)%nat = false |- _ => apply Nat.ltb_ge in E end;
    simpl in *; lia.
Qed.

Lemma kill_finishes c k i :
  conn_wf c → dead c = false → streams c !! k = Some i → ∃ st, heap (kill c) !! i = Some st ∧ done st ≠ None.
Proof.
  intros Hwf Ed Hk.
  destruct (kill_spec c Hwf Ed) as (_ & _ & Hf & _). destruct (Hf k i Hk) as (st & _ & ->). eexists. split; [done|apply finish_done].
Qed.

Lemma kill_keeps_done c i st :
  conn_wf c → heap c !! i = Some st → done st ≠ None → heap (kill c) !! i = Some st.
Proof.
  intros Hwf Hi Hd. destruct (dead c) eqn:Ed; [unfold kill; by rewrite Ed|].
  assert (Hfin : ∀ code reason, finish st code reason = st) by (intros; unfold finish; by destruct (done st)).
  unfold kill. rewrite Ed.
  destruct (kill_fold (map snd (range_map (streams c)))
    {| streams := ∅; heap := heap c; dead := true; wire := wire c |} StatusGoingAway "enclave mux connection lost")
    as (_ & _ & _ & ->). cbn [heap]. rewrite Hi. case_decide; [|done]. cbn. by rewrite Hfin.
Qed.

Lemma read_frame_dead c typ sid stream payload c' :
  read_frame c typ sid stream payload = Some c' → dead c' = dead c.
Proof.
  assert (Hu : ∀ c i, dead (unregister c i false) = dead c).
  { intros c0 i. unfold unregister. destruct (heap c0 !! i); [|done]. by case_decide. }
  assert (Hw : ∀ t s n p, dead (writeFrame c t s n p).1 = dead c).
  { intros t s0 n p. by destruct (writeFrame_same c t s0 n p) as (_&_&?). }
  assert (Hf : ∀ c i code reason, dead (finish_at c i code reason) = dead c).
  { intros c0 i code reason. by destruct (finish_at_same c0 i code reason) as (_&?&_). }
  unfold read_frame, enqueue. repeat case_match; intros; simplify_eq; rewrite ?Hf, ?Hu, ?Hw; done.
Qed.

(** C21: The read loop ends on every input, valid or not, and leaves nothing
    hanging: whatever bytes the enclave sends, the loop stops with the connection
    dead and no stream registered, and every browser socket that was riding it has
    been closed exactly once, by the code that was decided first. *)
Theorem readLoop_total fuel c input :
  conn_wf c → dead c = false → (length input < fuel)%nat →
  ∃ c', readLoop fuel c input = Ret c' ∧ conn_wf c' ∧ dead c' = true ∧ streams c' = ∅ ∧
    (∀ k i, streams c !! k = Some i → ∃ st, heap c' !! i = Some st ∧ done st ≠ None) ∧
    (∀ i st, heap c !! i = Some st → done st ≠ None → ∃ st', heap c' !! i = Some st' ∧ done st' = done st).
Proof.
  revert c input. induction fuel as [|fuel IH]; intros c input Hwf Hdead Hf; [lia|]. cbn [readLoop].
  assert (Hkill : ∃ c', Ret (kill c) = Ret c' ∧ conn_wf c' ∧ dead c' = true ∧ streams c' = ∅ ∧
    (∀ k i, streams c !! k = Some i → ∃ st, heap c' !! i = Some st ∧ done st ≠ None) ∧
    (∀ i st, heap c !! i = Some st → done st ≠ None → ∃ st', heap c' !! i = Some st' ∧ done st' = done st)).
  { destruct (kill_spec c Hwf Hdead) as (H1 & H2 & _). exists (kill c). split_and!; [done|by apply kill_wf|done|done| |].
    - intros k i. by apply kill_finishes.
    - intros i st Hi Hd. exists st. split; [by apply kill_keeps_done|done]. }
  destruct (readMuxFrame input) as [[[[[typ sid] stream] payload] rest]|e] eqn:Er; [|exact Hkill].
  destruct (read_frame c typ sid stream payload) as [c1|] eqn:Ef; [|exact Hkill].
  apply readMuxFrame_progress in Er. pose proof (read_frame_wf _ _ _ _ _ _ Hwf Ef) as Hwf1.
  pose proof (read_frame_kept _ _ _ _ _ _ Hwf Ef) as [Hk Hr].
  pose proof (read_frame_dead _ _ _ _ _ _ Ef) as Hdead1. rewrite Hdead in Hdead1.
  destruct (IH c1 rest Hwf1 Hdead1 ltac:(lia)) as (c' & -> & Hwf' & Hd & Hs & Hfin & Hkeep).
  exists c'. split; [done|]. split; [done|]. split; [done|]. split; [done|]. split.
  - intros k i Hki. destruct (Hr k i Hki) as [?|(st1 & H1 & D1)]; [by eapply Hfin|].
    destruct (Hkeep i st1 H1 D1) as (st' & ? & E). exists st'. by rewrite E.
  - intros i st Hi Hdn. destruct (Hk i st Hi) as (st1 & H1 & _ & D1). specialize (D1 Hdn).
    destruct (Hkeep i st1 H1 ltac:(by rewrite D1)) as (st' & ? & E). exists st'. by rewrite E.
Qed.

(** Streams are isolated: a frame for one stream changes no other.  Every
    other registration and every other stream's queue and state are the same
    after it, whether the frame is delivered, overflows the queue, closes the
    stream or names a stream that does not exist. *)
Theorem read_frame_isolated c typ sid stream payload c' :
  conn_wf c → read_frame c typ sid stream payload = Some c' →
  (∀ k, k ≠ (sid, stream) → streams c' !! k = streams c !! k) ∧
  (∀ i, streams c !! (sid, stream) ≠ Some i → heap c' !! i = heap c !! i).
Proof.
  intros Hwf. unfold read_frame.
  assert (Hsame : ∀ c'', streams c'' = streams c → heap c'' = heap c →
    (∀ k, k ≠ (sid, stream) → streams c'' !! k = streams c !! k) ∧
    (∀ i, streams c !! (sid, stream) ≠ Some i → heap c'' !! i = heap c !! i)).
  { by intros c'' -> ->. }
  assert (Hdrop : ∀ c0 i code reason, conn_wf c0 → streams c0 = streams c → heap c0 = heap c →
    streams c !! (sid, stream) = Some i →
    let c'' := finish_at (unregister c0 i false) i code reason in
    (∀ k, k ≠ (sid, stream) → streams c'' !! k = streams c !! k) ∧
    (∀ j, streams c !! (sid, stream) ≠ Some j → heap c'' !! j = heap c !! j)).
  { intros c0 i code reason Hwf0 Es Eh Ek c''. unfold c''. rewrite <- Es in Ek.
    destruct (drop_stream_wf c0 _ i code reason Hwf0 Ek) as [_ ->]. split.
    - intros k Hk. by rewrite lookup_delete_ne, Es.
    - intros j Hj. rewrite finish_at_heap, decide_False by (intros ->; apply Hj; by rewrite <- Es).
      unfold unregister. rewrite <- Eh. destruct (heap c0 !! i); [|done]. by case_decide. }
  destruct (typ =? muxTypePong); [intros [= <-]; by apply Hsame|].
  destruct (typ =? muxTypePing).
  { intros [= <-]. destruct (writeFrame_same c muxTypePong "" 0 payload) as (?&?&_). by apply Hsame. }
  destruct (typ =? muxTypeData).
  { destruct (streams c !! (sid, stream)) as [i|] eqn:Ek; cycle 1.
    { intros [= <-]. match goal with |- context [writeFrame c ?t ?s ?n ?p] =>
        destruct (writeFrame_same c t s n p) as (?&?&_) end. by apply Hsame. }
    destruct (heap c !! i) as [st|] eqn:Ei; [|intros [= <-]; by apply Hsame]. intros [= <-].
    unfold enqueue. destruct (negb _ && negb _).
    - split; [done|]. intros j Hj. cbn [set_stream heap]. rewrite lookup_insert_ne by congruence. done.
    - match goal with |- context [writeFrame c ?t ?s ?n ?p] =>
        destruct (writeFrame_same c t s n p) as (?&?&_) end. apply Hdrop; [by apply writeFrame_wf|done..]. }
  destruct (typ =? muxTypeClose); [|done].
  destruct (streams c !! (sid, stream)) as [i|] eqn:Ek; [|intros [= <-]; by apply Hsame].
  destruct (parseMuxClose payload) as [code reason]. intros [= <-]. by apply Hdrop.
Qed.

End conn.

(** * Concrete inputs *)

Section witnesses.
#[local] Existing Instances map_range map_range_laws.

Definition ex_stream (sid : string) (n : Z) : gwStream := {| key := (sid, n); outbound := []; queued := 0; done := None |}.

Definition ex_conn0 : gwMuxConn := {| streams := ∅; heap := ∅; dead := false; wire := [] |}.
Definition ex_conn1 : gwMuxConn := (register ex_conn0 1 (ex_stream "a" 7)).1.
Definition ex_conn : gwMuxConn := (register ex_conn1 2 (ex_stream "b" 8)).1.

Lemma ex_conn_wf : conn_wf ex_conn.
Proof.
  assert (Hw0 : conn_wf ex_conn0) by (intros k i Hk; cbn [ex_conn0 streams] in Hk; by rewrite lookup_empty in Hk).
  assert (Hw1 : conn_wf ex_conn1).
  { apply (register_wf ex_conn0 1 (ex_stream "a" 7) ex_conn1 true Hw0); vm_compute; reflexivity. }
  apply (register_wf ex_conn1 2 (ex_stream "b" 8) ex_conn true Hw1); vm_compute; reflexivity.
Qed.

(** The enclave closes one stream, then sends a frame of an unknown type. *)
Definition ex_input : bytes :=
  frame_bytes muxTypeClose "a" 7 (encodeMuxClose 1000 "bye") ++ frame_bytes 9 "" 0 [].

Lemma readLoop_total_witness :
  ∃ c', readLoop (S (length ex_input)) ex_conn ex_input = Ret c' ∧ streams c' = ∅ ∧
    ∃ st, heap c' !! 2%nat = Some st ∧ done st ≠ None.
Proof.
  destruct (readLoop_total (S (length ex_input)) ex_conn ex_input) as (c' & Hr & _ & _ & Hs & Hf & _).
  - exact ex_conn_wf.
  - reflexivity.
  - lia.
  - exists c'. split; [exact Hr|]. split; [exact Hs|]. apply (Hf ("b"%string, 8) 2%nat). vm_compute. reflexivity.
Defined.

Lemma read_frame_isolated_witness : ∃ c',
  read_frame ex_conn muxTypeData "a" 7 [x01] = Some c' ∧ heap c' !! 2%nat = Some (ex_stream "b" 8).
Proof.
  destruct (read_frame ex_conn muxTypeData "a" 7 [x01]) as [c'|] eqn:E; [|vm_compute in E; discriminate E].
  destruct (read_frame_isolated ex_conn muxTypeData "a" 7 [x01] c' ex_conn_wf E) as [_ Hh].
  exists c'. split; [reflexivity|]. rewrite Hh.
  - vm_compute. reflexivity.
  - vm_compute. discriminate.
Defined.

End witnesses.
