(* ===== verification/Policy.v ===== *)
(** internal/terminate/terminate.go, attestation part: the policy of a route and
    the verification of the enclave's certificate against it.

    The X.509 parser and path validation of crypto/x509 are a parameter ([GoX509]);
    the JSON decoder is an interface ([GoJSON]) that Feeds implements; the order in which the policy is visited
    is Go's unspecified map order. *)
From Stdlib Require Import Strings.Ascii Strings.String.
From S2P Require Import Prelude GoBytes GoStrings GoRuntime Sha256 RouteTable.
Local Open Scope Z_scope.

(** * Parameters *)

Class GoX509 := {
  certificate : Type;
  ParseCertificate : bytes → option certificate;
  (** c.Extensions: the arcs of the identifier and the value, in order. *)
  Extensions : certificate → list (list Z * bytes);
  CertPool : Type;
  (** leaf.Verify with these roots and intermediates, server authentication. *)
  chain_ok : CertPool → list certificate → certificate → bool;
}.

Record PolicyDoc := { ExpectedOIDs : gmap string string }.

(** json.Unmarshal into a PolicyDoc; [None] is its error. *)
Class GoJSON := { unmarshal_policy : string → option PolicyDoc }.

(** * hex.DecodeString *)

Fixpoint hex_decode (s : string) : option bytes :=
  match s with
  | EmptyString => Some []
  | String _ EmptyString => None
  | String a (String b s') =>
      match hex_val a, hex_val b, hex_decode s' with
      | Some x, Some y, Some r => Some (byte_of_Z (16 * x + y) :: r)
      | _, _, _ => None
      end
  end.

(** * Policies *)

Definition parsePolicy `{GoJSON} (raw : string) : option PolicyDoc :=
  if slen raw =? 0 then Some {| ExpectedOIDs := ∅ |} else unmarshal_policy raw.

Definition hashPolicy (raw : string) : string :=
  if slen raw =? 0 then "empty"%string else hex_encode (take 8 (sha256 (of_string raw))).

(** asn1.ObjectIdentifier.String *)
Definition oid_string (arcs : list Z) : string := SJoin (map itoa arcs) ".".

Definition indexExtensions (exts : list (list Z * bytes)) : gmap string bytes :=
  fold_left (fun out e => <[oid_string e.1 := e.2]> out) exts ∅.

(** The loop of bytesEqual. *)
Fixpoint bytes_eq_loop (a b : bytes) : bool :=
  match a, b with
  | x :: a', y :: b' => if negb (byte_val x =? byte_val y) then false else bytes_eq_loop a' b'
  | _, _ => true
  end.
Definition bytesEqual (a b : bytes) : bool :=
  if negb (blen a =? blen b) then false else bytes_eq_loop a b.

(** The results of VerifyPeerCertificate, by the label they count under. *)
Inductive verdict : Type :=
| Accepted
| NoCertificate
| ParseError
| ChainInvalid
| OidMissing (oid : string)
| InvalidHex (oid : string)
| OidMismatch (oid : string).

Section verifier.
Context `{GoX509} `{GoRange}.

Fixpoint check_oids (present : gmap string bytes) (policy : list (string * string)) : verdict :=
  match policy with
  | [] => Accepted
  | (oid, expectedHex) :: rest =>
      match present !! oid with
      | None => OidMissing oid
      | Some got =>
          match hex_decode (TrimPrefix expectedHex "0x") with
          | None => InvalidHex oid
          | Some want => if negb (bytesEqual got want) then OidMismatch oid else check_oids present rest
          end
      end
  end.

Definition makeRATLSVerifier (caPool : option CertPool) (insecureSkip : bool) (policy : option PolicyDoc)
    (rawCerts : list bytes) : verdict :=
  match rawCerts with
  | [] => NoCertificate
  | raw :: chain =>
      match ParseCertificate raw with
      | None => ParseError
      | Some leaf =>
          let chain_fails :=
            match caPool with
            | Some pool => negb insecureSkip && negb (chain_ok pool (omap ParseCertificate chain) leaf)
            | None => false
            end in
          if chain_fails then ChainInvalid else
          match policy with
          | Some p =>
              if 0 <? Z.of_nat (size (ExpectedOIDs p))
              then check_oids (indexExtensions (Extensions leaf)) (range_map (ExpectedOIDs p))
              else Accepted
          | None => Accepted
          end
      end
  end.

(** * What acceptance means *)

Lemma bytesEqual_eq a b : bytesEqual a b = true ↔ a = b.
Proof.
  unfold bytesEqual. destruct (Z.eqb_spec (blen a) (blen b)) as [Hl|Hl]; simpl; [|naive_solver].
  unfold blen in Hl. apply Nat2Z.inj in Hl. revert b Hl.
  induction a as [|x a IH]; intros [|y b] Hl; try done. cbn [bytes_eq_loop].
  destruct (Z.eqb_spec (byte_val x) (byte_val y)) as [E|E]; simpl.
  - apply byte_val_inj in E as ->. rewrite IH by (simpl in Hl; lia). naive_solver.
  - naive_solver.
Qed.

Lemma check_oids_accepted present policy :
  check_oids present policy = Accepted ↔
  ∀ oid h, (oid, h) ∈ policy →
    ∃ v, present !! oid = Some v ∧ hex_decode (TrimPrefix h "0x") = Some v.
Proof.
  induction policy as [|[oid h] policy IH]; cbn [check_oids].
  { split; [|done]. by intros _ ?? ?%not_elem_of_nil. }
  split.
  - intros Hc oid' h' [[= -> ->]|Hin]%elem_of_cons.
    + destruct (present !! oid) as [got|]; [|done]. destruct (hex_decode _) as [want|]; [|done].
      destruct (bytesEqual got want) eqn:E; [|done]. apply bytesEqual_eq in E as ->. eauto.
    + destruct (present !! oid) as [got|]; [|done]. destruct (hex_decode (TrimPrefix h "0x")) as [want|]; [|done].
      destruct (bytesEqual got want); [|done]. by apply IH.
  - intros Hall. destruct (Hall oid h) as (v & -> & ->); [by left|].
    rewrite (proj2 (bytesEqual_eq v v)) by done. simpl. apply IH. intros ???. apply Hall. by right.
Qed.

(** The extension of [exts] with identifier [oid]: the last one listed. *)
Lemma indexExtensions_lookup exts oid v :
  indexExtensions exts !! oid = Some v ↔
  ∃ l1 arcs l2, exts = l1 ++ (arcs, v) :: l2 ∧ oid_string arcs = oid ∧
    Forall (fun e => oid_string e.1 ≠ oid) l2.
Proof.
  unfold indexExtensions. induction exts as [|[arcs w] exts IH] using rev_ind.
  { cbn [fold_left]. rewrite lookup_empty. split; [done|]. by intros ([] & ? & ? & ? & _). }
  rewrite fold_left_app. cbn [fold_left fst snd]. destruct (decide (oid_string arcs = oid)) as [E|E].
  - rewrite E, lookup_insert_eq. split.
    + intros [= ->]. by exists exts, arcs, [].
    + intros (l1 & a2 & l2 & He & Ho & Hf). destruct l2 as [|e l2] using rev_ind.
      * apply app_inj_tail in He as [_ [= _ ->]]. done.
      * rewrite app_comm_cons, app_assoc in He. apply app_inj_tail in He as [_ <-].
        apply Forall_app in Hf as [_ [Hn _]%Forall_cons]. done.
  - rewrite lookup_insert_ne by done. rewrite IH. split.
    + intros (l1 & a2 & l2 & -> & Ho & Hf). exists l1, a2, (l2 ++ [(arcs, w)]).
      rewrite <- app_assoc. split_and!; [done|done|]. apply Forall_app. by repeat constructor.
    + intros (l1 & a2 & l2 & He & Ho & Hf). destruct l2 as [|e l2] using rev_ind.
      * apply app_inj_tail in He as [_ [= -> _]]. done.
      * rewrite app_comm_cons, app_assoc in He. apply app_inj_tail in He as [-> _].
        exists l1, a2, l2. split_and!; [done|done|]. by apply Forall_app in Hf as [? _].
Qed.

Context `{!GoRangeLaws}.

(** The RA-TLS verifier accepts a connection exactly when the enclave
    presented a certificate that parses, whose chain is valid when a CA pool is
    configured and not skipped, and which carries, for every identifier of the
    route's policy, an extension with exactly the expected value; whatever the
    order in which the policy is visited. *)
Theorem verifier_accepts caPool skip policy certs :
  makeRATLSVerifier caPool skip (Some policy) certs = Accepted ↔
  ∃ raw chain leaf, certs = raw :: chain ∧ ParseCertificate raw = Some leaf ∧
    (∀ pool, caPool = Some pool → skip = false → chain_ok pool (omap ParseCertificate chain) leaf = true) ∧
    (∀ oid h, ExpectedOIDs policy !! oid = Some h →
       ∃ l1 arcs v l2, Extensions leaf = l1 ++ (arcs, v) :: l2 ∧ oid_string arcs = oid ∧
         Forall (fun e => oid_string e.1 ≠ oid) l2 ∧ hex_decode (TrimPrefix h "0x") = Some v).
Proof.
  unfold makeRATLSVerifier. destruct certs as [|raw chain]; [naive_solver|].
  destruct (ParseCertificate raw) as [leaf|] eqn:Ep; [|naive_solver].
  set (cf := match caPool with Some pool => _ | None => false end).
  assert (Hcf : cf = false ↔ ∀ pool, caPool = Some pool → skip = false →
    chain_ok pool (omap ParseCertificate chain) leaf = true).
  { unfold cf. destruct caPool as [pool|]; [|naive_solver].
    destruct skip, (chain_ok pool (omap ParseCertificate chain) leaf) eqn:E; naive_solver. }
  assert (Ho : (if 0 <? Z.of_nat (size (ExpectedOIDs policy))
      then check_oids (indexExtensions (Extensions leaf)) (range_map (ExpectedOIDs policy)) else Accepted) = Accepted ↔
    check_oids (indexExtensions (Extensions leaf)) (range_map (ExpectedOIDs policy)) = Accepted).
  { zcase; [done|]. assert (range_map (ExpectedOIDs policy) = []) as ->; [|done].
    apply nil_length_inv. rewrite length_range_map. lia. }
  rewrite check_oids_accepted in Ho. setoid_rewrite range_map_elem in Ho. setoid_rewrite indexExtensions_lookup in Ho.
  destruct cf; split; try done.
  - intros (? & ? & ? & [= <- <-] & Hleaf & Hc & _). rewrite Ep in Hleaf. injection Hleaf as <-.
    apply Hcf in Hc. done.
  - intros Ha. exists raw, chain, leaf. split_and!; [done|done|by apply Hcf|].
    intros oid h Hl. apply Ho in Hl as (v & (l1 & arcs & l2 & ?) & ?); [|done]. naive_solver.
  - intros (? & ? & ? & [= <- <-] & Hleaf & _ & Hall). rewrite Ep in Hleaf. injection Hleaf as <-. apply Ho.
    intros oid h Hl. destruct (Hall oid h Hl) as (l1 & arcs & v & l2 & ? & ? & ? & ?). naive_solver.
Qed.

End verifier.

(** * Concrete inputs *)

Section witnesses.
#[local] Existing Instances map_range map_range_laws.

(** A certificate is its single extension 1.3.6.1 whose value are the raw bytes. *)
Definition ex_x509 : GoX509 := {|
  certificate := bytes; ParseCertificate := Some; Extensions := fun c => [([1; 3; 6; 1], c)];
  CertPool := unit; chain_ok := fun _ _ _ => true;
|}.
#[local] Existing Instance ex_x509.

Definition ex_policy : PolicyDoc := {| ExpectedOIDs := {[ "1.3.6.1"%string := "0x0aFf"%string ]} |}.

Lemma verifier_accepts_witness :
  makeRATLSVerifier None false (Some ex_policy) [[x0a; xff]] = Accepted ∧
  makeRATLSVerifier None false (Some ex_policy) [[x0a; xfe]] = OidMismatch "1.3.6.1".
Proof.
  split; [|vm_compute; reflexivity].
  apply (verifier_accepts None false ex_policy [[x0a; xff]]).
  exists [x0a; xff], [], [x0a; xff]. split; [reflexivity|split; [reflexivity|split]].
  - intros pool Hpool. discriminate Hpool.
  - intros oid h Hoid. cbn [ex_policy ExpectedOIDs] in Hoid. apply lookup_singleton_Some in Hoid as [<- <-].
    exists [], [1; 3; 6; 1], [x0a; xff], []. split; [reflexivity|split; [vm_compute; reflexivity|split]].
    + constructor.
    + vm_compute. reflexivity.
Defined.

End witnesses.
