(* ===== verification/ProxyCache.v ===== *)
(** internal/terminate: the caches of a Handler, one reverse proxy and one mux
    pool per app and policy (terminate.go proxyFor, Forget; wsmux.go muxPoolFor).

    A reverse proxy is the data its closures captured: where its transport
    dials, the name it presents and rewrites to, the policy its verifier
    enforces.  A mux pool is the same with the numbers of its connections; killing
    connections is reported as the list of their numbers. *)
From Stdlib Require Import Strings.Ascii Strings.String.
From S2P Require Import Prelude GoBytes GoStrings GoRuntime Sha256 RouteTable Policy.
Local Open Scope Z_scope.

(** url.Parse: what it returns of a URL that is used here, [None] an error. *)
Record target_url := {
  tu_Scheme : string;
  tu_Host : string;
  tu_Path : string;
  tu_EscapedPath : string;
  tu_RawQuery : string;
}.
Class GoURL := { url_parse : string → option target_url }.

Record upstreamProxy := {
  policyHash : string;
  rp_target : target_url; (* the URL given to NewSingleHostReverseProxy *)
  rp_dial : string;       (* DialContext: h.dialUpstream(ctx, route.Upstream) *)
  rp_name : string;       (* ServerName and the Host of the Director *)
  rp_policy : PolicyDoc;  (* enforced by VerifyPeerCertificate *)
}.

Record gwMuxPool := {
  mp_upstream : string;
  mp_sni : string;
  mp_policy : PolicyDoc;
  mp_conns : list nat;
}.

Record Handler := {
  proxies : gmap string upstreamProxy;
  muxPools : gmap string gwMuxPool;
}.

Inductive proxy_error : Type := ErrParsePolicy | ErrParseURL.

Definition set_proxies (h : Handler) (m : gmap string upstreamProxy) : Handler :=
  {| proxies := m; muxPools := muxPools h |}.
Definition set_pools (h : Handler) (m : gmap string gwMuxPool) : Handler :=
  {| proxies := proxies h; muxPools := m |}.

Section caches.
Context `{GoJSON} `{GoURL} `{GoRange}.

(** Deleting, in a loop over the map, the keys with a prefix. *)
Definition drop_prefix {A} (p : string) (m : gmap string A) : gmap string A :=
  filter (fun kv => HasPrefix kv.1 p = false) m.

Definition proxyFor (h : Handler) (route : Route) : Handler * (upstreamProxy + proxy_error) :=
  let hash := hashPolicy (AttestationPolicy route) in
  let upstreamName := UpstreamName route in
  let app := (Upstream route ++ "|" ++ upstreamName ++ "|")%string in
  let key := (app ++ hash)%string in
  match proxies h !! key with
  | Some existing => (h, inl existing)
  | None =>
      let h := set_proxies h (drop_prefix app (proxies h)) in
      match parsePolicy (AttestationPolicy route) with
      | None => (h, inr ErrParsePolicy)
      | Some policy =>
          let targetHost := if HasPrefix (Upstream route) "tunnel:" then upstreamName else Upstream route in
          match url_parse ("https://" ++ targetHost) with
          | None => (h, inr ErrParseURL)
          | Some target =>
              let p := {| policyHash := hash; rp_target := target; rp_dial := Upstream route;
                          rp_name := upstreamName; rp_policy := policy |} in
              (set_proxies h (<[key := p]> (proxies h)), inl p)
          end
      end
  end.

(** closeAll: the pool without connections, and the connections to kill. *)
Definition closeAll (p : gwMuxPool) : list nat := mp_conns p.

(** The connections of the pools under a prefix, in map order. *)
Definition close_prefix (p : string) (m : gmap string gwMuxPool) : list nat :=
  flat_map (fun kv => if HasPrefix kv.1 p then closeAll kv.2 else []) (range_map m).

Definition muxPoolFor (h : Handler) (route : Route) : Handler * gwMuxPool * list nat :=
  let hash := hashPolicy (AttestationPolicy route) in
  let app := (Upstream route ++ "|" ++ SNI route ++ "|")%string in
  let key := (app ++ hash)%string in
  match muxPools h !! key with
  | Some p => (h, p, [])
  | None =>
      let killed := close_prefix app (muxPools h) in
      let policy := match parsePolicy (AttestationPolicy route) with
                    | Some policy => policy
                    | None => {| ExpectedOIDs := ∅ |}
                    end in
      let p := {| mp_upstream := Upstream route; mp_sni := SNI route; mp_policy := policy; mp_conns := [] |} in
      (set_pools h (<[key := p]> (drop_prefix app (muxPools h))), p, killed)
  end.

Definition Forget (h : Handler) (route : Route) : Handler * list nat :=
  let proxyPrefix := (Upstream route ++ "|" ++ UpstreamName route ++ "|")%string in
  let h := set_proxies h (drop_prefix proxyPrefix (proxies h)) in
  let muxPrefix := (Upstream route ++ "|" ++ SNI route ++ "|")%string in
  let killed := close_prefix muxPrefix (muxPools h) in
  (set_pools h (drop_prefix muxPrefix (muxPools h)), killed).

(** * Keys *)

(** The separator does not occur in the parts of a key. *)
Definition pipe_free (s : string) : Prop := sin "|" s = false.

Definition cache_key (upstream name hash : string) : string :=
  (upstream ++ "|" ++ name ++ "|" ++ hash)%string.

Lemma hex_digit_no_pipe n : (n < 16)%nat → hex_digit n ≠ "|"%char.
Proof.
  intros Hn. assert (forallb (fun n => negb (Ascii.eqb (hex_digit n) "|"%char)) (seq 0 16) = true) as Hf by done.
  rewrite forallb_forall in Hf. specialize (Hf n ltac:(apply in_seq; lia)). intros E. by rewrite E in Hf.
Qed.

Lemma hex_encode_pipe_free b : pipe_free (hex_encode b).
Proof.
  unfold pipe_free, hex_encode. induction b as [|x b IH]; [done|]. cbn [map].
  rewrite SJoin_cons_empty, sin_app, IH, orb_false_r. unfold hex_byte. cbn [sin].
  pose proof (byte_val_range x).
  pose proof (hex_digit_no_pipe (Z.to_nat (byte_val x / 16))) as E1.
  pose proof (hex_digit_no_pipe (Z.to_nat (byte_val x mod 16))) as E2.
  rewrite (proj2 (Ascii.eqb_neq _ _)) by (apply E1; assert (byte_val x / 16 < 16) by (apply Z.div_lt_upper_bound; lia); lia).
  rewrite (proj2 (Ascii.eqb_neq _ _)) by (apply E2; pose proof (Z.mod_pos_bound (byte_val x) 16); lia).
  done.
Qed.

Lemma hashPolicy_pipe_free raw : pipe_free (hashPolicy raw).
Proof. unfold hashPolicy. destruct (slen raw =? 0); [done|]. apply hex_encode_pipe_free. Qed.

(** The prefix test on keys is the comparison of the app. *)
Lemma cache_key_prefix u n hash u' n' :
  pipe_free u → pipe_free n → pipe_free u' → pipe_free n' →
  HasPrefix (cache_key u n hash) (u' ++ "|" ++ n' ++ "|")%string = true ↔ u = u' ∧ n = n'.
Proof.
  unfold pipe_free, cache_key. intros Hu Hn Hu' Hn'. rewrite HasPrefix_spec. split.
  - intros [r Hr]. rewrite !sapp_assoc in Hr.
    apply (split_unique "|"%char u (n ++ "|" ++ hash) u' (n' ++ "|" ++ r)) in Hr as [-> Hr]; [|done..].
    by apply (split_unique "|"%char n hash n' r) in Hr as [-> _].
  - intros [-> ->]. exists hash. by rewrite !sapp_assoc.
Qed.

Lemma cache_key_inj u n hash u' n' hash' :
  pipe_free u → pipe_free n → pipe_free u' → pipe_free n' →
  cache_key u n hash = cache_key u' n' hash' → u = u' ∧ n = n' ∧ hash = hash'.
Proof.
  unfold pipe_free, cache_key. intros Hu Hn Hu' Hn' Hk.
  apply (split_unique "|"%char u (n ++ "|" ++ hash) u' (n' ++ "|" ++ hash')) in Hk as [-> Hk]; [|done..].
  by apply (split_unique "|"%char n hash n' hash') in Hk as [-> ->].
Qed.

Lemma drop_prefix_lookup {A} p (m : gmap string A) k :
  drop_prefix p m !! k = if HasPrefix k p then None else m !! k.
Proof.
  unfold drop_prefix. destruct (HasPrefix k p) eqn:E.
  - apply map_lookup_filter_None. right. intros x _. simpl. by rewrite E.
  - destruct (m !! k) as [x|] eqn:Em.
    + by apply map_lookup_filter_Some.
    + apply map_lookup_filter_None. by left.
Qed.

(** * The invariant of the caches *)

(** An entry dials, names and verifies what its key says: its policy is the
    parse of a document with the hash in the key. *)
Definition proxy_entry_ok (k : string) (p : upstreamProxy) : Prop :=
  pipe_free (rp_dial p) ∧ pipe_free (rp_name p) ∧ k = cache_key (rp_dial p) (rp_name p) (policyHash p) ∧
  ∃ raw, parsePolicy raw = Some (rp_policy p) ∧ hashPolicy raw = policyHash p.

Definition caches_ok (h : Handler) : Prop :=
  (∀ k p, proxies h !! k = Some p → proxy_entry_ok k p) ∧
  (* one entry per app: an app's entry under an earlier policy is gone *)
  (∀ k1 k2 p1 p2, proxies h !! k1 = Some p1 → proxies h !! k2 = Some p2 →
     rp_dial p1 = rp_dial p2 → rp_name p1 = rp_name p2 → k1 = k2).

Definition route_ok (r : Route) : Prop :=
  pipe_free (Upstream r) ∧ pipe_free (SNI r) ∧ pipe_free (UpstreamName r).

Lemma caches_ok_drop h p : caches_ok h → caches_ok (set_proxies h (drop_prefix p (proxies h))).
Proof.
  intros [He Hu]. unfold set_proxies. split; cbn [proxies].
  - intros k q. rewrite drop_prefix_lookup. destruct (HasPrefix k p); [done|]. apply He.
  - intros k1 k2 p1 p2. rewrite !drop_prefix_lookup. destruct (HasPrefix k1 p), (HasPrefix k2 p); try done. apply Hu.
Qed.

Lemma caches_ok_insert h q :
  caches_ok h → proxy_entry_ok (cache_key (rp_dial q) (rp_name q) (policyHash q)) q →
  (∀ k p, proxies h !! k = Some p → ¬ (rp_dial p = rp_dial q ∧ rp_name p = rp_name q)) →
  caches_ok (set_proxies h (<[cache_key (rp_dial q) (rp_name q) (policyHash q) := q]> (proxies h))).
Proof.
  intros [He Hu] Hq Hnone. unfold set_proxies. split; cbn [proxies].
  - intros k p [[<- <-]|[_ Hp]]%lookup_insert_Some; [done|]. by apply He.
  - intros k1 k2 p1 p2 [[<- <-]|[_ Hp1]]%lookup_insert_Some [[<- <-]|[_ Hp2]]%lookup_insert_Some Hd Hn; try done.
    + exfalso. apply (Hnone _ _ Hp2). done.
    + exfalso. apply (Hnone _ _ Hp1). done.
    + by eapply Hu.
Qed.

(** After the stale entries of an app are dropped, none of the app is left. *)
Lemma dropped_app h route k p :
  caches_ok h → route_ok route →
  drop_prefix (Upstream route ++ "|" ++ UpstreamName route ++ "|")%string (proxies h) !! k = Some p →
  ¬ (rp_dial p = Upstream route ∧ rp_name p = UpstreamName route).
Proof.
  intros [He _] (Hu & _ & Hn) Hk [Hd Hm]. rewrite drop_prefix_lookup in Hk.
  destruct (HasPrefix k _) eqn:E; [done|]. destruct (He k p Hk) as (Hpd & Hpn & -> & _).
  apply not_true_iff_false in E. apply E. by apply cache_key_prefix.
Qed.

Lemma proxyFor_ok h route :
  caches_ok h → route_ok route →
  let '(h', res) := proxyFor h route in
  caches_ok h' ∧
  (∀ k p, proxies h !! k = Some p → ¬ (rp_dial p = Upstream route ∧ rp_name p = UpstreamName route) →
     proxies h' !! k = Some p) ∧
  match res with
  | inl p => rp_dial p = Upstream route ∧ rp_name p = UpstreamName route ∧
      ∃ raw, parsePolicy raw = Some (rp_policy p) ∧ hashPolicy raw = hashPolicy (AttestationPolicy route)
  | inr ErrParsePolicy => parsePolicy (AttestationPolicy route) = None
  | inr ErrParseURL => parsePolicy (AttestationPolicy route) ≠ None
  end.
Proof.
  intros Hok Hr. pose proof Hr as (Hu & _ & Hn). unfold proxyFor.
  set (app := (Upstream route ++ "|" ++ UpstreamName route ++ "|")%string).
  assert (Ekey : (app ++ hashPolicy (AttestationPolicy route))%string =
    cache_key (Upstream route) (UpstreamName route) (hashPolicy (AttestationPolicy route))).
  { unfold app, cache_key. by rewrite !sapp_assoc. }
  rewrite Ekey.
  assert (Hkeep : ∀ k p, proxies h !! k = Some p → ¬ (rp_dial p = Upstream route ∧ rp_name p = UpstreamName route) →
    drop_prefix app (proxies h) !! k = Some p).
  { intros k p Hk Hne. rewrite drop_prefix_lookup. destruct (HasPrefix k app) eqn:E; [|done]. exfalso. apply Hne.
    destruct (proj1 Hok k p Hk) as (Hpd & Hpn & -> & _). by apply cache_key_prefix in E. }
  destruct (proxies h !! _) as [existing|] eqn:Ex.
  { split; [done|split; [done|]]. destruct (proj1 Hok _ _ Ex) as (Hpd & Hpn & Hk & raw & Hp & Hh).
    apply cache_key_inj in Hk as (-> & -> & ->); eauto. }
  destruct (parsePolicy (AttestationPolicy route)) as [policy|] eqn:Ep; cycle 1.
  { split; [by apply caches_ok_drop|by split]. }
  destruct (url_parse _) as [target|]; [|split; [by apply caches_ok_drop|by split]].
  set (q := Build_upstreamProxy _ _ _ _ _).
  assert (Hq : proxy_entry_ok (cache_key (rp_dial q) (rp_name q) (policyHash q)) q).
  { split; [done|split; [done|split; [done|]]]. by exists (AttestationPolicy route). }
  split; [|split].
  - apply (caches_ok_insert (set_proxies h (drop_prefix app (proxies h))) q); [by apply caches_ok_drop|done|].
    intros k p. apply (dropped_app h route k p Hok Hr).
  - intros k p Hk Hne. cbn [set_proxies proxies]. rewrite lookup_insert_ne; [by apply Hkeep|].
    intros Ekk. subst k. by rewrite Ex in Hk.
  - split_and!; [done|done|]. by exists (AttestationPolicy route).
Qed.

(** The reverse proxy of a route is the route's.  The proxy proxyFor
    returns, cached or new, dials the route's upstream, presents the route's
    upstream name and enforces a policy with the hash of the route's policy; the
    cache keeps one entry per app and the entries of other apps; a policy that
    does not parse yields no proxy. *)
Theorem proxyFor_pinned h route :
  caches_ok h → route_ok route →
  let '(h', res) := proxyFor h route in
  caches_ok h' ∧
  (∀ k p, proxies h !! k = Some p → ¬ (rp_dial p = Upstream route ∧ rp_name p = UpstreamName route) →
     proxies h' !! k = Some p) ∧
  match res with
  | inl p => rp_dial p = Upstream route ∧ rp_name p = UpstreamName route ∧
      ∃ raw, parsePolicy raw = Some (rp_policy p) ∧ hashPolicy raw = hashPolicy (AttestationPolicy route)
  | inr ErrParsePolicy => parsePolicy (AttestationPolicy route) = None
  | inr ErrParseURL => parsePolicy (AttestationPolicy route) ≠ None
  end.
Proof. apply proxyFor_ok. Qed.

(** * The mux pools *)

Definition pool_entry_ok (k : string) (p : gwMuxPool) : Prop :=
  pipe_free (mp_upstream p) ∧ pipe_free (mp_sni p) ∧
  ∃ raw, k = cache_key (mp_upstream p) (mp_sni p) (hashPolicy raw) ∧
    mp_policy p = match parsePolicy raw with Some policy => policy | None => {| ExpectedOIDs := ∅ |} end.

Definition pools_ok (h : Handler) : Prop := ∀ k p, muxPools h !! k = Some p → pool_entry_ok k p.

(** A pool belongs to the app of a route. *)
Definition pool_of (route : Route) (p : gwMuxPool) : Prop :=
  mp_upstream p = Upstream route ∧ mp_sni p = SNI route.

Lemma pool_prefix h route k p :
  pools_ok h → route_ok route → muxPools h !! k = Some p →
  HasPrefix k (Upstream route ++ "|" ++ SNI route ++ "|")%string = true ↔ pool_of route p.
Proof.
  intros Hok (Hu & Hs & _) Hk. destruct (Hok k p Hk) as (Hpu & Hps & raw & -> & _). by apply cache_key_prefix.
Qed.

Lemma drop_pools_lookup h route k :
  pools_ok h → route_ok route →
  ∀ p, drop_prefix (Upstream route ++ "|" ++ SNI route ++ "|")%string (muxPools h) !! k = Some p ↔
    muxPools h !! k = Some p ∧ ¬ pool_of route p.
Proof.
  intros Hok Hr p. rewrite drop_prefix_lookup. destruct (HasPrefix k _) eqn:E.
  - split; [done|]. intros [Hk Hn]. apply (pool_prefix h route k p) in E; done.
  - split; [|by intros []]. intros Hk. split; [done|]. intros Hp. apply (pool_prefix h route k p) in Hp; try done.
    congruence.
Qed.

Context `{!GoRangeLaws}.

Lemma elem_of_close_prefix h route c :
  pools_ok h → route_ok route →
  c ∈ close_prefix (Upstream route ++ "|" ++ SNI route ++ "|")%string (muxPools h) ↔
  ∃ k p, muxPools h !! k = Some p ∧ pool_of route p ∧ c ∈ mp_conns p.
Proof.
  intros Hok Hr. unfold close_prefix, closeAll. rewrite list_elem_of_In, in_flat_map. split.
  - intros ([k p] & Hin & Hc). apply list_elem_of_In, range_map_elem in Hin. exists k, p.
    destruct (HasPrefix (k, p).1 _) eqn:E; [|done]. apply (pool_prefix h route k p) in E; [|done..].
    by apply list_elem_of_In in Hc.
  - intros (k & p & Hk & Hp & Hc). exists (k, p). split; [by apply list_elem_of_In, range_map_elem|].
    cbn [fst snd]. rewrite (proj2 (pool_prefix h route k p Hok Hr Hk) Hp). by apply list_elem_of_In.
Qed.

(** Forget drops a retired route and nothing else: no cached proxy dials
    its upstream under its name, no mux pool of it is left and exactly the
    connections of its pools are killed; every entry of another app stays. *)
Theorem Forget_spec h route :
  caches_ok h → pools_ok h → route_ok route →
  let '(h', killed) := Forget h route in
  caches_ok h' ∧ pools_ok h' ∧
  (∀ k p, proxies h' !! k = Some p ↔
     proxies h !! k = Some p ∧ ¬ (rp_dial p = Upstream route ∧ rp_name p = UpstreamName route)) ∧
  (∀ k p, muxPools h' !! k = Some p ↔ muxPools h !! k = Some p ∧ ¬ pool_of route p) ∧
  (∀ c, c ∈ killed ↔ ∃ k p, muxPools h !! k = Some p ∧ pool_of route p ∧ c ∈ mp_conns p).
Proof.
  intros Hc Hp Hr. unfold Forget. cbn [set_proxies set_pools muxPools proxies].
  split; [apply (caches_ok_drop h _ Hc)|]. split.
  { intros k p Hk. cbn [muxPools] in Hk. apply (drop_pools_lookup h route k) in Hk as [Hk _]; [|done..]. by apply Hp. }
  split; [|split; [by intros k; apply drop_pools_lookup|by intros c; apply elem_of_close_prefix]].
  intros k p. rewrite drop_prefix_lookup. destruct (HasPrefix k _) eqn:E.
  - split; [done|]. intros [Hk Hn]. destruct (proj1 Hc k p Hk) as (Hpd & Hpn & -> & _). destruct Hr as (Hu & _ & Hnm).
    apply cache_key_prefix in E; naive_solver.
  - split; [|by intros []]. intros Hk. split; [done|]. apply (dropped_app h route k p Hc Hr).
    by rewrite drop_prefix_lookup, E.
Qed.

(** The mux pool of a route leads to the route's upstream under its
    hostname, with a policy of the route's policy hash; building it kills exactly
    the connections of the app's stale pools, and leaves the pools of other apps. *)
Theorem muxPoolFor_pinned h route :
  pools_ok h → route_ok route →
  let '(h', p, killed) := muxPoolFor h route in
  pools_ok h' ∧ proxies h' = proxies h ∧ pool_of route p ∧
  (∃ raw, hashPolicy raw = hashPolicy (AttestationPolicy route) ∧
     mp_policy p = match parsePolicy raw with Some policy => policy | None => {| ExpectedOIDs := ∅ |} end) ∧
  (∀ k q, muxPools h !! k = Some q → ¬ pool_of route q → muxPools h' !! k = Some q) ∧
  (∀ c, c ∈ killed → ∃ k q, muxPools h !! k = Some q ∧ pool_of route q ∧ c ∈ mp_conns q).
Proof.
  intros Hok Hr. pose proof Hr as (Hu & Hs & _). unfold muxPoolFor.
  set (app := (Upstream route ++ "|" ++ SNI route ++ "|")%string).
  assert (Ekey : (app ++ hashPolicy (AttestationPolicy route))%string =
    cache_key (Upstream route) (SNI route) (hashPolicy (AttestationPolicy route))).
  { unfold app, cache_key. by rewrite !sapp_assoc. }
  rewrite Ekey. destruct (muxPools h !! _) as [p|] eqn:Ex.
  - destruct (Hok _ _ Ex) as (Hpu & Hps & raw & Hk & Hpol). apply cache_key_inj in Hk as (Eu & Es & Eh); [|done..].
    split; [done|split; [done|split; [by split|split; [by exists raw|split; [done|]]]]].
    by intros ? ?%not_elem_of_nil.
  - split; [|split; [done|split; [done|split; [by exists (AttestationPolicy route)|split]]]].
    + intros k q Hk. cbn [set_pools muxPools] in Hk. apply lookup_insert_Some in Hk as [[<- <-]|[_ Hk]].
      * split; [done|split; [done|]]. by exists (AttestationPolicy route).
      * apply (drop_pools_lookup h route k) in Hk as [Hk _]; [|done..]. by apply Hok.
    + intros k q Hk Hn. cbn [set_pools muxPools]. rewrite lookup_insert_ne by congruence.
      by apply (drop_pools_lookup h route k).
    + intros c Hc. by apply (elem_of_close_prefix h route c).
Qed.

End caches.

(** * Concrete inputs *)

Section witnesses.
#[local] Existing Instances map_range map_range_laws.

Definition ex_json : GoJSON := {| unmarshal_policy := fun _ => Some {| ExpectedOIDs := ∅ |} |}.
Definition ex_url : GoURL := {| url_parse := fun s => Some {|
  tu_Scheme := "https"; tu_Host := TrimPrefix s "https://"; tu_Path := ""; tu_EscapedPath := ""; tu_RawQuery := "" |} |}.
#[local] Existing Instances ex_json ex_url.

Definition ex_app (name up pol : string) : Route := {|
  SNI := name; Upstream := up; AttestationPolicy := pol; State := ""; Canonical := ""; Mode := "";
  ProxyProtocol := false |}.
Definition ex_shop : Route := ex_app "shop.apps.example.org" "10.0.0.1:443" "{}".

Definition ex_handler : Handler :=
  {| proxies := ∅; muxPools := {[ "10.0.0.1:443|shop.apps.example.org|empty"%string :=
      {| mp_upstream := "10.0.0.1:443"; mp_sni := "shop.apps.example.org"; mp_policy := {| ExpectedOIDs := ∅ |};
         mp_conns := [4%nat; 9%nat] |} ]} |}.

Lemma ex_handler_caches : caches_ok ex_handler.
Proof. split; intros *; cbn [ex_handler proxies]; rewrite lookup_empty; discriminate. Qed.

Lemma ex_handler_pools : pools_ok ex_handler.
Proof.
  intros k p Hk. cbn [ex_handler muxPools] in Hk. apply lookup_singleton_Some in Hk as [<- <-].
  split; [reflexivity|split; [reflexivity|]]. exists ""%string. split; reflexivity.
Qed.

Lemma ex_shop_ok : route_ok ex_shop.
Proof. repeat split; vm_compute; reflexivity. Qed.

Lemma proxyFor_pinned_witness :
  match (proxyFor ex_handler ex_shop).2 with
  | inl p => rp_dial p = "10.0.0.1:443"%string ∧ rp_name p = "shop.apps.example.org"%string
  | inr _ => False
  end.
Proof.
  pose proof (proxyFor_pinned ex_handler ex_shop ex_handler_caches ex_shop_ok) as Hp.
  destruct (proxyFor ex_handler ex_shop) as [h' [p|[]]] eqn:E.
  - destruct Hp as (_ & _ & Hd & Hn & _). split; [exact Hd|exact Hn].
  - vm_compute in E. discriminate E.
  - vm_compute in E. discriminate E.
Defined.

Lemma Forget_spec_witness : 9%nat ∈ (Forget ex_handler ex_shop).2.
Proof.
  pose proof (Forget_spec ex_handler ex_shop ex_handler_caches ex_handler_pools ex_shop_ok) as Hf.
  destruct (Forget ex_handler ex_shop) as [h' killed]. destruct Hf as (_ & _ & _ & _ & Hk). apply Hk.
  eexists _, _. split; [apply lookup_insert_eq|]. split; [split; reflexivity|]. right. left.
Defined.

Lemma muxPoolFor_pinned_witness :
  mp_upstream (muxPoolFor ex_handler ex_shop).1.2 = "10.0.0.1:443"%string ∧
  (muxPoolFor ex_handler ex_shop).2 = [4%nat; 9%nat].
Proof.
  split; [|vm_compute; reflexivity].
  pose proof (muxPoolFor_pinned ex_handler ex_shop ex_handler_pools ex_shop_ok) as Hm.
  destruct (muxPoolFor ex_handler ex_shop) as [[h' p] killed]. destruct Hm as (_ & _ & [Hu _] & _). exact Hu.
Defined.

End witnesses.
