(* ===== verification/WsQueue.v ===== *)
(** internal/terminate/wsmux.go: the queue between the read loop and the pump of
    one stream, as the interleaving of the two goroutines, and the choice of a
    connection from a pool. *)
From S2P Require Import Prelude GoBytes GoRuntime WsFrame WsMux ProxyCache.
Local Open Scope Z_scope.

(** * The queue *)

(** Where the read loop stands with a DATA frame: idle, the byte limit checked,
    the frame on the channel but not counted yet. *)
Inductive producer : Type := PIdle | PChecked (p : bytes) | PSent (p : bytes).
(** Where the pump stands: idle, or a frame taken off the channel but still counted. *)
Inductive consumer : Type := CIdle | CGot (p : bytes).

Record queue := {
  q_chan : list bytes;       (* st.outbound *)
  q_count : Z;               (* st.queued *)
  q_prod : producer;
  q_cons : consumer;
  q_closed : bool;           (* the stream was closed for overflow *)
  q_accepted : list bytes;   (* history: frames put on the channel *)
  q_taken : list bytes;      (* history: frames the pump took *)
}.

Definition q_new : queue := {|
  q_chan := []; q_count := 0; q_prod := PIdle; q_cons := CIdle; q_closed := false; q_accepted := []; q_taken := [] |}.

Inductive qstep : queue → queue → Prop :=
(* overflow := st.queued.Load()+len > limit *)
| q_check ch n co ac ta p :
    n + blen p <= gwMuxStreamQueueBytes →
    qstep (Build_queue ch n PIdle co false ac ta) (Build_queue ch n (PChecked p) co false ac ta)
| q_overflow ch n co ac ta p :
    gwMuxStreamQueueBytes < n + blen p →
    qstep (Build_queue ch n PIdle co false ac ta) (Build_queue ch n PIdle co true ac ta)
(* case st.outbound <- payload, and its default *)
| q_send ch n co ac ta p :
    (length ch < gwMuxStreamQueue)%nat →
    qstep (Build_queue ch n (PChecked p) co false ac ta) (Build_queue (ch ++ [p]) n (PSent p) co false (ac ++ [p]) ta)
| q_full ch n co ac ta p :
    (gwMuxStreamQueue <= length ch)%nat →
    qstep (Build_queue ch n (PChecked p) co false ac ta) (Build_queue ch n PIdle co true ac ta)
(* st.queued.Add(len) *)
| q_add ch n co cl ac ta p :
    qstep (Build_queue ch n (PSent p) co cl ac ta) (Build_queue ch (n + blen p) PIdle co cl ac ta)
(* payload = <-st.outbound *)
| q_take ch n pr cl ac ta p :
    qstep (Build_queue (p :: ch) n pr CIdle cl ac ta) (Build_queue ch n pr (CGot p) cl ac (ta ++ [p]))
(* st.queued.Add(-len) *)
| q_sub ch n pr cl ac ta p :
    qstep (Build_queue ch n pr (CGot p) cl ac ta) (Build_queue ch (n - blen p) pr CIdle cl ac ta).

Inductive q_reachable : queue → Prop :=
| q_reachable_new : q_reachable q_new
| q_reachable_step q q' : q_reachable q → qstep q q' → q_reachable q'.

Definition chan_bytes (ch : list bytes) : Z := blen (concat ch).
Definition uncounted (pr : producer) : Z := match pr with PSent p => blen p | _ => 0 end.
Definition overcounted (co : consumer) : Z := match co with CGot p => blen p | CIdle => 0 end.

(** The counter is off by exactly what the two goroutines have in hand. *)
Record q_inv (q : queue) : Prop := {
  qi_count : q_count q = chan_bytes (q_chan q) + overcounted (q_cons q) - uncounted (q_prod q);
  qi_bytes : chan_bytes (q_chan q) <= gwMuxStreamQueueBytes;
  qi_room : ∀ p, q_prod q = PChecked p → chan_bytes (q_chan q) + blen p <= gwMuxStreamQueueBytes;
  qi_sent : uncounted (q_prod q) <= gwMuxStreamQueueBytes;
  qi_got : overcounted (q_cons q) <= gwMuxStreamQueueBytes;
  qi_frames : (length (q_chan q) <= gwMuxStreamQueue)%nat;
  qi_order : q_accepted q = q_taken q ++ q_chan q;
}.

Lemma chan_bytes_app a b : chan_bytes (a ++ b) = chan_bytes a + chan_bytes b.
Proof. unfold chan_bytes. by rewrite concat_app, blen_app. Qed.

Lemma chan_bytes_cons p ch : chan_bytes (p :: ch) = blen p + chan_bytes ch.
Proof. unfold chan_bytes. simpl. by rewrite blen_app. Qed.

Lemma chan_bytes_pos ch : 0 <= chan_bytes ch.
Proof. apply blen_nonneg. Qed.

Lemma overcounted_pos co : 0 <= overcounted co.
Proof. destruct co; [done|apply blen_nonneg]. Qed.

Lemma limit_pos : 0 < gwMuxStreamQueueBytes.
Proof. done. Qed.

Lemma q_inv_step q q' : q_inv q → qstep q q' → q_inv q'.
Proof.
  pose proof limit_pos. intros [I1 I2 I3 I4 I5 I6 I7] Hs.
  destruct Hs as [ch n co ac ta p Hc|ch n co ac ta p Hc|ch n co ac ta p Hc|ch n co ac ta p Hc
    |ch n co cl ac ta p|ch n pr cl ac ta p|ch n pr cl ac ta p];
    cbn [q_chan q_count q_prod q_cons q_accepted q_taken uncounted overcounted] in *;
    try (pose proof (overcounted_pos co)); pose proof (blen_nonneg p); pose proof (chan_bytes_pos ch);
    split; cbn [q_chan q_count q_prod q_cons q_accepted q_taken uncounted overcounted];
    rewrite ?chan_bytes_app, ?chan_bytes_cons, ?length_app in *; unfold chan_bytes in *; cbn [concat length] in *;
    rewrite ?app_nil_r in *; try lia; try done.
  - intros p0 [= <-]. lia.
  - change (blen []) with 0. lia.
  - specialize (I3 p eq_refl). change (blen []) with 0. lia.
  - specialize (I3 p eq_refl). lia.
  - rewrite I7. by rewrite <- app_assoc.
  - intros p0 Hp. specialize (I3 p0 Hp). lia.
  - rewrite I7. by rewrite <- app_assoc.
Qed.

(** C27: The buffer of a slow browser is bounded.  Under every interleaving of
    the read loop and the pump, although the counter is updated after the channel
    on both sides, the frames waiting for a browser never exceed 8 MiB nor 4096
    frames, the counter stays within twice the limit, and the browser gets the
    accepted frames in order, each once. *)
Theorem queue_bounded q :
  q_reachable q →
  chan_bytes (q_chan q) <= gwMuxStreamQueueBytes ∧ (length (q_chan q) <= gwMuxStreamQueue)%nat ∧
  - gwMuxStreamQueueBytes <= q_count q <= 2 * gwMuxStreamQueueBytes ∧
  q_accepted q = q_taken q ++ q_chan q.
Proof.
  intros Hr. assert (q_inv q) as [I1 I2 _ I4 I5 I6 I7].
  { induction Hr as [|q q' _ IH Hs]; [|by eapply q_inv_step].
    split; cbn [q_new q_chan q_count q_prod q_cons uncounted overcounted q_accepted q_taken]; try done.
    unfold gwMuxStreamQueue. simpl. lia. }
  pose proof (chan_bytes_pos (q_chan q)). pose proof (overcounted_pos (q_cons q)).
  assert (0 <= uncounted (q_prod q)) by (destruct (q_prod q); simpl; try lia; apply blen_nonneg).
  split_and!; [done|done|lia|lia|done].
Qed.

(** * The pool *)

Section pool.
(** The connections at the time of the call: whether one is dead, how many
    streams it carries, and what p.dial() would return. *)
Variable isDead : nat → bool.
Variable count_of : nat → Z.

Definition best_step (best : option nat) (c : nat) : option nat :=
  match best with
  | None => Some c
  | Some b => if count_of c <? count_of b then Some c else best
  end.
Definition pick_best (conns : list nat) : option nat := fold_left best_step conns None.

(** get: the pool's connections afterwards, and the connection or an error. *)
Definition get (conns : list nat) (dial : option nat) : list nat * option nat :=
  let live := filter (fun c => isDead c = false) conns in
  let best := pick_best live in
  if (Z.of_nat (length live) <? gwMuxPoolSize) &&
     match best with None => true | Some b => 0 <? count_of b end
  then
    match dial with
    | None => (live, best)
    | Some c => (live ++ [c], Some c)
    end
  else (live, best).

Lemma pick_best_fold l best :
  (∀ b, fold_left best_step l best = Some b → (best = Some b ∨ b ∈ l) ∧
     (∀ c, best = Some c ∨ c ∈ l → count_of b <= count_of c)) ∧
  (fold_left best_step l best = None ↔ best = None ∧ l = []).
Proof.
  revert best. induction l as [|c l IH]; intros best; cbn [fold_left].
  { split; [|naive_solver]. intros b ->. split; [by left|]. intros c [[= ->]|?%not_elem_of_nil]; [lia|done]. }
  destruct (IH (best_step best c)) as [I1 I2]. split.
  - intros b Hb. destruct (I1 b Hb) as [Hin Hmin]. unfold best_step in *. split.
    + destruct best as [b0|]; [destruct (count_of c <? count_of b0)|]; set_solver.
    + intros d Hd. destruct best as [b0|].
      * destruct (Z.ltb_spec (count_of c) (count_of b0)).
        -- destruct Hd as [[= ->]|[->|Hd]%elem_of_cons]; [|apply Hmin; by left|apply Hmin; by right].
           transitivity (count_of c); [apply Hmin; by left|lia].
        -- destruct Hd as [[= ->]|[->|Hd]%elem_of_cons]; [apply Hmin; by left| |apply Hmin; by right].
           transitivity (count_of b0); [apply Hmin; by left|lia].
      * destruct Hd as [?|[->|Hd]%elem_of_cons]; [done|apply Hmin; by left|apply Hmin; by right].
  - rewrite I2. unfold best_step. destruct best as [b0|]; [destruct (_ <? _)|]; naive_solver.
Qed.

Lemma get_live conns dial :
  Z.of_nat (length conns) <= gwMuxPoolSize →
  let '(conns', res) := get conns dial in
  Z.of_nat (length conns') <= gwMuxPoolSize ∧
  (∀ c, c ∈ conns' → (c ∈ conns ∧ isDead c = false) ∨ dial = Some c) ∧
  match res with
  | None => dial = None ∧ ∀ c, c ∈ conns → isDead c = true
  | Some c => c ∈ conns' ∧
      (dial = Some c ∨ (isDead c = false ∧ ∀ d, d ∈ conns → isDead d = false → count_of c <= count_of d))
  end.
Proof.
  intros Hlen. unfold get. set (live := filter (fun c => isDead c = false) conns).
  assert (Hlive : ∀ c, c ∈ live ↔ isDead c = false ∧ c ∈ conns) by (intros c; unfold live; by rewrite list_elem_of_filter).
  assert (Hll : (length live <= length conns)%nat) by apply length_filter.
  destruct (pick_best_fold live None) as [Hb Hn]. fold (pick_best live) in Hb, Hn.
  assert (Hres : match pick_best live with
    | None => ∀ c, c ∈ conns → isDead c = true
    | Some c => c ∈ live ∧ isDead c = false ∧ ∀ d, d ∈ conns → isDead d = false → count_of c <= count_of d end).
  { destruct (pick_best live) as [b|] eqn:Eb.
    - destruct (Hb b eq_refl) as [[?|Hin] Hmin]; [done|]. split_and!; [done|by apply Hlive|].
      intros d Hd Hdd. apply Hmin. right. by apply Hlive.
    - intros c Hc. destruct (isDead c) eqn:Ed; [done|]. destruct (proj1 Hn eq_refl) as [_ El].
      assert (c ∈ live) as Hc' by (by apply Hlive). rewrite El in Hc'. by apply not_elem_of_nil in Hc'. }
  assert (Hkeep : ∀ c, c ∈ live → (c ∈ conns ∧ isDead c = false) ∨ dial = Some c) by (intros c Hc%Hlive; naive_solver).
  destruct (_ && _) eqn:Ec.
  - apply andb_true_iff in Ec as [Ec _]. apply Z.ltb_lt in Ec. destruct dial as [d|].
    + rewrite length_app. split_and!; [simpl; lia| | |by left].
      * intros c [Hc|Hc]%elem_of_app; [by apply Hkeep|]. apply list_elem_of_singleton in Hc as ->. by right.
      * apply elem_of_app. right. by left.
    + split_and!; [lia|done|]. destruct (pick_best live); [|done]. naive_solver.
  - split_and!; [lia|done|]. destruct (pick_best live) as [b|] eqn:Eb; [naive_solver|].
    exfalso. apply andb_false_iff in Ec as [Ec|Ec]; [|done]. apply Z.ltb_ge in Ec.
    destruct (proj1 Hn eq_refl) as [_ El]. rewrite El in Ec. done.
Qed.

(** The pool stays small and gives a live connection.  get never grows the
    pool beyond two connections, drops the dead ones, returns a connection of the
    pool that is live or freshly dialed, the least loaded one when it does not
    dial, and fails only when no connection is live and the dial fails. *)
Theorem get_spec conns dial :
  Z.of_nat (length conns) <= gwMuxPoolSize →
  let '(conns', res) := get conns dial in
  Z.of_nat (length conns') <= gwMuxPoolSize ∧
  (∀ c, c ∈ conns' → (c ∈ conns ∧ isDead c = false) ∨ dial = Some c) ∧
  match res with
  | None => dial = None ∧ ∀ c, c ∈ conns → isDead c = true
  | Some c => c ∈ conns' ∧
      (dial = Some c ∨ (isDead c = false ∧ ∀ d, d ∈ conns → isDead d = false → count_of c <= count_of d))
  end.
Proof. apply get_live. Qed.

End pool.

(** * Concrete inputs *)

(** The pump takes a frame before the read loop has counted it. *)
Definition ex_queue : queue := {|
  q_chan := []; q_count := 0; q_prod := PSent [x01; x02]; q_cons := CGot [x01; x02]; q_closed := false;
  q_accepted := [[x01; x02]]; q_taken := [[x01; x02]] |}.

Lemma queue_bounded_witness : - gwMuxStreamQueueBytes <= q_count ex_queue ∧ q_accepted ex_queue = q_taken ex_queue ++ q_chan ex_queue.
Proof.
  destruct (queue_bounded ex_queue) as (_ & _ & [Hc _] & Ho).
  - eapply q_reachable_step; [eapply q_reachable_step; [eapply q_reachable_step; [apply q_reachable_new|]|]|].
    + apply (q_check [] 0 CIdle [] [] [x01; x02]). vm_compute. discriminate.
    + apply q_send. unfold gwMuxStreamQueue. simpl. lia.
    + apply (q_take [] 0 (PSent [x01; x02]) false [[x01; x02]] [] [x01; x02]).
  - split; [exact Hc|exact Ho].
Defined.

Lemma get_spec_witness : (get (fun c => (c =? 3)%nat) (fun c => Z.of_nat c) [3%nat; 5%nat] (Some 9%nat)) = ([5%nat; 9%nat], Some 9%nat) ∧
  Z.of_nat (length (get (fun c => (c =? 3)%nat) (fun c => Z.of_nat c) [3%nat; 5%nat] (Some 9%nat)).1) <= gwMuxPoolSize.
Proof.
  split; [vm_compute; reflexivity|].
  pose proof (get_spec (fun c => (c =? 3)%nat) (fun c => Z.of_nat c) [3%nat; 5%nat] (Some 9%nat)) as Hg.
  destruct (get _ _ _ _) as [conns' res]. destruct Hg as (Hl & _); [vm_compute; discriminate|exact Hl].
Defined.
