(* ===== verification/Forward.v ===== *)
(** The request a terminated connection sends to the enclave
    (internal/terminate/terminate.go: serveHTTP's rewrite and rp.Director), and
    what net/http/httputil's ReverseProxy does to its headers after the Director
    returned: hop-by-hop headers, including those the client names in its
    Connection header, are removed, and an upgrade is put back. *)
From Stdlib Require Import Strings.Ascii Strings.String.
From S2P Require Import Prelude GoBytes GoStrings GoRuntime Http RouteTable Policy ProxyCache.
Local Open Scope string_scope.

(** serveHTTP: the Host a request without one gets.  The URL's host and scheme it
    sets as well are overwritten by the Director. *)
Definition with_host (req : Request) (route : Route) : Request :=
  {| Method := Method req; ReqHost := if String.eqb (ReqHost req) "" then SNI route else ReqHost req;
     Path := Path req; RequestURI := RequestURI req; ReqHeader := ReqHeader req |}.

(** ** The Director of NewSingleHostReverseProxy *)

(** A request on its way out: the URL with the request target it is written with
    ([out_uri], req.URL.RequestURI()), the Host and the headers. *)
Record OutRequest := {
  out_Method : string;
  out_Scheme : string;
  out_URLHost : string;
  out_Path : string;
  out_uri : string;
  out_Host : string;
  out_Header : Header;
}.

Definition singleJoiningSlash (a b : string) : string :=
  if HasSuffix a "/" && HasPrefix b "/" then a ++ sdrop 1 b
  else if negb (HasSuffix a "/") && negb (HasPrefix b "/") then a ++ "/" ++ b
  else a ++ b.

(** The two parts of a request target: its escaped path, and the query with its
    question mark. *)
Definition uri_path (uri : string) : string :=
  match Index uri "?" with Some i => stake i uri | None => uri end.
Definition uri_query (uri : string) : string :=
  match Index uri "?" with Some i => sdrop i uri | None => "" end.

(** rewriteRequestURL on the query. *)
Definition join_query (target q : string) : string :=
  if String.eqb target "" then q
  else if String.eqb (TrimPrefix q "?") "" then "?" ++ target
  else "?" ++ target ++ "&" ++ TrimPrefix q "?".

(** rewriteRequestURL: the target's scheme and host, its path joined with the
    request's (joinURLPath joins the escaped paths the same way), its query put
    first.  [RequestURI] is that of the request's URL, escaped already; the one
    that does not start with a slash (an asterisk, an opaque URL) is written by
    package url in a way [out_uri] does not follow. *)
Definition originalDirector (target : target_url) (req : Request) : OutRequest := {|
  out_Method := Method req;
  out_Scheme := tu_Scheme target;
  out_URLHost := tu_Host target;
  out_Path := singleJoiningSlash (tu_Path target) (Path req);
  out_uri := singleJoiningSlash (tu_EscapedPath target) (uri_path (RequestURI req)) ++
             join_query (tu_RawQuery target) (uri_query (RequestURI req));
  out_Host := ReqHost req;
  out_Header := ReqHeader req;
|}.

(** ** rp.Director *)

Definition director_header (h : Header) : Header :=
  let h := HDel h "X-Forwarded-Proto" in
  let h := HSet h "X-Forwarded-Proto" "https" in
  let h := HDel h "X-Privasys-Edge" in
  HSet h "X-Privasys-Edge" "terminate".
Definition Director (rp : upstreamProxy) (req : Request) : OutRequest :=
  let r := originalDirector (rp_target rp) req in
  {| out_Method := out_Method r; out_Scheme := out_Scheme r; out_URLHost := out_URLHost r;
     out_Path := out_Path r; out_uri := out_uri r; out_Host := rp_name rp;
     out_Header := director_header (out_Header r) |}.

(** ** ReverseProxy after the Director *)

(** textproto.TrimString *)
Definition TrimString (s : string) : string :=
  let blanks := map chars [[32]; [9]; [10]; [13]]%nat in
  let s := trim_left (String.length s) blanks s in
  srev (trim_left (String.length s) (map srev blanks) (srev s)).

(** The elements of a header that lists tokens. *)
Definition header_tokens (h : Header) (k : string) : list string :=
  flat_map (fun f => filter (fun t => String.eqb t "" = false) (map TrimString (SplitChar "," f)))
    (match h !! k with Some vs => vs | None => [] end).

(** The header names listed in Connection. *)
Definition connection_tokens (h : Header) : list string := header_tokens h "Connection".

Definition hopHeaders : list string :=
  ["Connection"; "Proxy-Connection"; "Keep-Alive"; "Proxy-Authenticate"; "Proxy-Authorization";
   "Te"; "Trailer"; "Transfer-Encoding"; "Upgrade"].

Definition removeHopByHopHeaders (h : Header) : Header :=
  fold_left HDel hopHeaders (fold_left HDel (connection_tokens h) h).

(** upgradeType: the Upgrade header of a request whose Connection asks for it. *)
Definition upgradeType (h : Header) : string :=
  if existsb (fun t => String.eqb (smap lower_char t) "upgrade") (connection_tokens h)
  then HGet h "Upgrade" else "".

(** What ServeHTTP does to the headers after the Director: hop-by-hop headers go,
    a request for trailers and an upgrade come back, and a request without a
    User-Agent gets an empty one.  (X-Forwarded-For is not added: a request of
    http.ReadRequest has no remote address.) *)
Definition outgoing_header (te : bool) (h : Header) : Header :=
  let up := upgradeType h in
  let h := removeHopByHopHeaders h in
  let h := if te then HSet h "Te" "trailers" else h in
  let h := if String.eqb up "" then h else HSet (HSet h "Connection" "Upgrade") "Upgrade" up in
  match h !! "User-Agent" with Some _ => h | None => HSet h "User-Agent" "" end.

(** Whether the client takes trailers. *)
Definition wants_trailers (h : Header) : bool :=
  existsb (fun t => String.eqb (smap lower_char t) "trailers") (header_tokens h "Te").

(** The headers that leave for the enclave. *)
Definition forwarded_header (h : Header) : Header := outgoing_header (wants_trailers h) (director_header h).

(** * The request target *)

(** A proxy whose target is a host, without path and query. *)
Definition plain_target (t : target_url) : Prop := tu_Path t = "" ∧ tu_EscapedPath t = "" ∧ tu_RawQuery t = "".

Lemma Index_length s sub i : Index s sub = Some i → stake i s ++ sdrop i s = s.
Proof.
  intros (a & b & -> & <- & _)%Index_first. rewrite stake_app. f_equal.
  rewrite <- (Nat.add_0_r (String.length a)). by rewrite sdrop_app.
Qed.

Lemma uri_parts uri : uri_path uri ++ uri_query uri = uri.
Proof.
  unfold uri_path, uri_query. destruct (Index uri "?") eqn:E; [by eapply Index_length|apply sapp_nil_r].
Qed.

Lemma joining_slash_root p : HasPrefix p "/" = true → singleJoiningSlash "" p = p.
Proof. intros Hp. unfold singleJoiningSlash. by rewrite Hp. Qed.

(** A request target that starts with a slash goes out as it came. *)
Lemma plain_uri target req :
  plain_target target → HasPrefix (RequestURI req) "/" = true →
  out_uri (originalDirector target req) = RequestURI req.
Proof.
  intros (_ & Hp & Hq) Hs. cbn [originalDirector out_uri]. rewrite Hp, Hq.
  rewrite joining_slash_root; [apply uri_parts|]. apply HasPrefix_spec in Hs as [r Hr]. rewrite Hr.
  unfold uri_path. destruct (Index ("/" ++ r) "?") as [[|i]|] eqn:E; apply HasPrefix_spec; [|by eexists..].
  apply Index_first in E as (a & b & Hab & Ha & _). by destruct a.
Qed.

(** * The terminate marker *)

Lemma director_tokens h k :
  k ≠ "X-Privasys-Edge" → k ≠ "X-Forwarded-Proto" → header_tokens (director_header h) k = header_tokens h k.
Proof.
  intros H1 H2. unfold header_tokens, director_header, HSet, HDel.
  rewrite lookup_insert_ne, lookup_delete_ne, lookup_insert_ne, lookup_delete_ne by (symmetry; done). done.
Qed.

(** Setting another header leaves the values of one. *)
Lemma HValues_other h k k' v : CanonicalHeaderKey k' ≠ CanonicalHeaderKey k → HValues (HSet h k v) k' = HValues h k'.
Proof. intros Hne. rewrite HValues_set. by rewrite decide_False. Qed.

Lemma marker_outgoing te h :
  HValues (outgoing_header te (director_header h)) "X-Privasys-Edge" =
  if decide ("X-Privasys-Edge" ∈ map CanonicalHeaderKey (connection_tokens h)) then [] else ["terminate"].
Proof.
  assert (Hv : HValues (removeHopByHopHeaders (director_header h)) "X-Privasys-Edge" =
    if decide ("X-Privasys-Edge" ∈ map CanonicalHeaderKey (connection_tokens h)) then [] else ["terminate"]).
  { unfold removeHopByHopHeaders, connection_tokens. rewrite !HValues_del_all, director_tokens by done.
    change (CanonicalHeaderKey "X-Privasys-Edge") with "X-Privasys-Edge".
    rewrite (decide_False (P := _ ∈ map CanonicalHeaderKey hopHeaders)) by (apply (bool_decide_unpack _); vm_compute; exact I).
    case_decide; [done|]. unfold director_header. rewrite HValues_set. by rewrite decide_True. }
  rewrite <- Hv. unfold outgoing_header. cbv zeta. generalize (removeHopByHopHeaders (director_header h)). intros h0.
  assert (Hua : ∀ h1, HValues (match h1 !! "User-Agent" with Some _ => h1 | None => HSet h1 "User-Agent" "" end)
    "X-Privasys-Edge" = HValues h1 "X-Privasys-Edge").
  { intros h1. destruct (h1 !! "User-Agent"); [done|]. by apply HValues_other. }
  rewrite Hua. destruct (String.eqb _ ""), te; rewrite ?HValues_other by done; done.
Qed.

Lemma marker_values h :
  HValues (forwarded_header h) "X-Privasys-Edge" =
  if decide ("X-Privasys-Edge" ∈ map CanonicalHeaderKey (connection_tokens h)) then [] else ["terminate"].
Proof. apply marker_outgoing. Qed.

(** The Director sets two headers and leaves the others. *)
Lemma director_header_values h k :
  HValues (director_header h) k =
  if decide (CanonicalHeaderKey k = "X-Privasys-Edge") then ["terminate"]
  else if decide (CanonicalHeaderKey k = "X-Forwarded-Proto") then ["https"] else HValues h k.
Proof.
  unfold director_header. rewrite HValues_set, HValues_del, HValues_set, HValues_del.
  repeat case_decide; try done; congruence.
Qed.

(** The terminate marker replaces whatever the client sent in its place:
    unless the client names the header in Connection, the enclave gets exactly one
    X-Privasys-Edge, with the value terminate. *)
Theorem edge_marker_set h :
  "X-Privasys-Edge" ∉ map CanonicalHeaderKey (connection_tokens h) →
  HValues (forwarded_header h) "X-Privasys-Edge" = ["terminate"].
Proof. intros Hn. by rewrite marker_values, decide_False. Qed.

(** A client can unset the terminate marker.  When its Connection header
    names X-Privasys-Edge, in any letter case and among any other tokens, the
    marker the Director set is removed as hop-by-hop and the enclave gets a
    terminated request without it. *)
Theorem edge_marker_strippable h tok :
  tok ∈ connection_tokens h → CanonicalHeaderKey tok = "X-Privasys-Edge" →
  HValues (forwarded_header h) "X-Privasys-Edge" = [].
Proof.
  intros Hin Hk. rewrite marker_values, decide_True; [done|]. rewrite <- Hk.
  apply list_elem_of_In, in_map, list_elem_of_In, Hin.
Qed.

(** * Concrete inputs *)

Definition ex_strip : Header := HSet (HSet ∅ "Connection" "keep-alive, x-privasys-edge") "Accept" "*/*".

Lemma edge_marker_set_witness :
  HValues (forwarded_header (HSet (HSet ∅ "Connection" "keep-alive") "X-Privasys-Edge" "none")) "X-Privasys-Edge"
  = ["terminate"].
Proof. apply edge_marker_set. apply (bool_decide_unpack _). vm_compute. exact I. Defined.

Lemma edge_marker_strippable_witness : HValues (forwarded_header ex_strip) "X-Privasys-Edge" = [].
Proof.
  apply (edge_marker_strippable ex_strip "x-privasys-edge").
  - apply (bool_decide_unpack _). vm_compute. exact I.
  - vm_compute. reflexivity.
Defined.
