(* ===== verification/Terminate.v ===== *)
(** internal/terminate/terminate.go: Handle and the request loop serveHTTP.

    The requests the client sends on the connection, as http.ReadRequest yields
    them until it fails, are a list; everything else the handler touches is an
    operation.  Read and write deadlines and log lines are left out. *)
From Stdlib Require Import Strings.Ascii Strings.String.
From S2P Require Import Prelude GoBytes GoStrings GoRuntime Effects RouteTable Tracker Http Quarantine Proxy.
From S2P Require Import Cors WsFrame Policy ProxyCache Forward.
Local Open Scope string_scope.

Definition acmeALPNProto : string := "acme-tls/1".

(** What of a Handler's configuration the request loop reads. *)
Record handler_conf := {
  h_cors : Cors;
  h_lookup : bool;  (* h.lookup != nil *)
}.

Inductive op : Type :=
| OTerminated
| OError (reason : string)
| OHandshake (clientHello : bytes)
| ONegotiated
| OProxyFor (route : Route)
| OConnWrite (s : string)
| OLookup (sni : string)
| ORefuse (labels : string * string)
| OTrack (host kind_ : string) | ORelease | OCancel
| OServe (rp : upstreamProxy) (w : Header) (req : OutRequest)
| OFlushClose
| OSealedWS (req : Request) (p : sealedWSParams)
| OClose.

Definition ans (o : op) : Type :=
  match o with
  | OHandshake _ => bool
  | ONegotiated => string
  | OProxyFor _ => option upstreamProxy
  | OLookup _ => option Route
  | OServe _ _ _ => bool * bool  (* w.hijacked, w.closeRequested *)
  | _ => unit
  end.

Abbreviation call := (@pdo op ans).

Section handler.
Context `{GoUnicode} `{GoSort} `{GoRange}.
Variable h : handler_conf.
Local Open Scope prog_scope.

Definition writeStatus (code : Z) (msg : string) : string :=
  let body := itoa code ++ " " ++ msg ++ newline in
  "HTTP/1.1 " ++ itoa code ++ " " ++ StatusText code ++ crlf ++
  "Content-Type: text/plain; charset=utf-8" ++ crlf ++
  "Content-Length: " ++ itoa (slen body) ++ crlf ++
  "Connection: close" ++ crlf ++ crlf ++ body.

Definition quarantined (route : Route) : prog ans bool :=
  if Quarantined route then PRet true else
  if negb (h_lookup h) then PRet false else
  do live <- call (OLookup (SNI route));
  PRet (is_quarantined live).

Definition refuseQuarantined (req : Request) (route : Route) : prog ans unit :=
  call (ORefuse (Refused (SNI route) ModeTerminate)) ;;
  call (OConnWrite (WriteHTTP (Some req) (refusal_cors (h_cors h) req))).

(** One proxied request, from Track on; [true] continues the loop. *)
Definition proxy_request (rp : upstreamProxy) (req : Request) (route : Route) : prog ans bool :=
  let kind := if EqualFold (HGet (ReqHeader req) "Upgrade") "websocket" then KindWebSocket else KindHTTP in
  call (OTrack (SNI route) kind) ;;
  do q <- quarantined route;
  if q then
    call ORelease ;; call OCancel ;; refuseQuarantined req route ;; PRet false
  else
  do r <- call (OServe rp (inject_cors (h_cors h) req) (Director rp (with_host req route)));
  call ORelease ;;
  call OCancel ;;
  if r.1 then PRet false else
  call OFlushClose ;;
  PRet (negb (EqualFold (HGet (ReqHeader req) "Connection") "close" || r.2)).

Fixpoint serveHTTP (reqs : list Request) (route : Route) (rp : option upstreamProxy) : prog ans unit :=
  match reqs with
  | [] => PRet tt
  | req :: reqs =>
      if String.eqb (Method req) "OPTIONS" && isAllowedOrigin (h_cors h) (HGet (ReqHeader req) "Origin") then
        call (OConnWrite (writeCORSPreflight req)) ;;
        serveHTTP reqs route rp
      else
      match rp with
      | None => refuseQuarantined req route
      | Some rp' =>
          do q <- quarantined route;
          if q then refuseQuarantined req route else
          match parseSealedWS req with
          | Some p => call (OSealedWS req p) ;; PRet tt
          | None =>
              do next <- proxy_request rp' req route;
              if next then serveHTTP reqs route rp else PRet tt
          end
      end
  end.

(** Handle, on a client that sends [reqs] after the handshake. *)
Definition Handle (clientHello : bytes) (route : Route) (reqs : list Request) : prog ans unit :=
  call OTerminated ;;
  do ok <- call (OHandshake clientHello);
  (if negb ok then call (OError "tls_handshake") : prog ans unit else
   do proto <- call ONegotiated;
   if String.eqb proto acmeALPNProto then PRet tt else
   if Quarantined route then serveHTTP reqs route None else
   do rp <- call (OProxyFor route);
   match rp with
   | None =>
       call (OError "upstream_setup") ;;
       call (OConnWrite (writeStatus 502 "upstream RA-TLS setup failed"))
   | Some p => serveHTTP reqs route (Some p)
   end) ;;
  call OClose.

End handler.

(** * Observing a trace *)

(** A request reaches the enclave: proxied, or over the mux. *)
Definition reaches (e : event ans) : bool :=
  match e with existT (OServe _ _ _) _ => true | existT (OSealedWS _ _) _ => true | _ => false end.
Definition sets_up (e : event ans) : bool :=
  match e with existT (OProxyFor _) _ => true | _ => false end.
Definition finds_quarantine (e : event ans) : bool :=
  match e with existT (OLookup _) a => is_quarantined a | _ => false end.
Definition written (e : event ans) : list string :=
  match e with existT (OConnWrite s) _ => [s] | _ => [] end.
Definition writes (tr : list (event ans)) : list string := flat_map written tr.
(** The outcome of the handshake, and the protocol negotiated. *)
Definition handshake (e : event ans) : list bool :=
  match e with existT (OHandshake _) ok => [ok] | _ => [] end.
Definition handshakes (tr : list (event ans)) : list bool := flat_map handshake tr.
Definition negotiated (e : event ans) : list string :=
  match e with existT ONegotiated p => [p] | _ => [] end.
Definition protocols (tr : list (event ans)) : list string := flat_map negotiated tr.

(** The discipline of a request: looked up, registered, looked up again, and
    only then proxied; released before the next one. *)
Inductive stage : Type := Idle | Checked | Registered | Live | Refusing | Ended.

Definition stage_step (s : stage) (e : event ans) : option stage :=
  match e, s with
  | existT (OLookup _) a, Idle => Some (if is_quarantined a then Refusing else Checked)
  | existT (OLookup _) a, Registered => Some (if is_quarantined a then Refusing else Live)
  | existT (OLookup _) _, _ => None
  | existT (OTrack _ _) _, Checked => Some Registered
  | existT (OTrack _ _) _, _ => None
  | existT (OServe _ _ _) _, Live => Some Live
  | existT (OServe _ _ _) _, _ => None
  | existT (OSealedWS _ _) _, Checked => Some Ended
  | existT (OSealedWS _ _) _, _ => None
  | existT ORelease _, Live => Some Idle
  | existT ORelease _, Refusing => Some Refusing
  | existT ORelease _, _ => None
  | _, _ => Some s
  end.

Abbreviation stages := (automaton stage_step).

(** Nothing is served while refusing. *)
Lemma refusing_serves_nothing tr s : stages Refusing tr = Some s → existsb reaches tr = false.
Proof.
  induction tr as [|[o a] tr IH]; [done|]. cbn [automaton]. destruct o; cbn; try done; apply IH.
Qed.

Lemma after_quarantine s tr s' tr1 e tr2 :
  stages s tr = Some s' → tr = (tr1 ++ e :: tr2)%list → finds_quarantine e = true → existsb reaches tr2 = false.
Proof.
  intros Hs -> He. rewrite automaton_app in Hs. destruct (stages s tr1) as [s1|]; [|done]. cbn [automaton] in Hs.
  destruct (stage_step s1 e) as [s2|] eqn:E2; [|done].
  assert (s2 = Refusing) as ->; [|by eapply refusing_serves_nothing].
  destruct e as [[] a]; try done. cbn in He, E2. rewrite He in E2. destruct s1; naive_solver.
Qed.

Ltac hwalk H :=
  repeat
   (cbv beta zeta delta [refuseQuarantined proxy_request quarantined] in H;
    cbn [pbind trace pdo negb andb orb fst snd] in H;
    match type of H with
    | ∃ _, _ => let x := fresh "x" in destruct H as [x H]; cbn [ans] in x;
        match type of x with unit => destruct x | _ => idtac end
    | _ = _ ∧ _ => let E := fresh "E" in destruct H as [E H]; subst
    | trace (match ?b with _ => _ end) _ _ => destruct b eqn:?
    | trace (pbind (match ?b with _ => _ end) _) _ _ => destruct b eqn:?
    | trace (pbind (pbind (match ?b with _ => _ end) _) _) _ _ => destruct b eqn:?
    end).

Section traces.
Context `{GoUnicode} `{GoSort} `{GoRange}.
Variable h : handler_conf.

Lemma proxy_request_stages rp req route tr b :
  h_lookup h = true → Quarantined route = false →
  trace (proxy_request h rp req route) tr b →
  stages Checked tr = Some Idle ∨ (stages Checked tr = Some Refusing ∧ b = false).
Proof.
  intros Hl Hq Ht. cbv beta zeta delta [proxy_request quarantined] in Ht. rewrite Hq, Hl in Ht.
  hwalk Ht; cbn;
    repeat match goal with E : is_quarantined _ = _ |- _ => rewrite E end; cbn; auto.
Qed.

Lemma serve_stages rp route reqs tr :
  h_lookup h = true → Quarantined route = false →
  trace (serveHTTP h reqs route (Some rp)) tr tt →
  stages Idle tr = Some Idle ∨ stages Idle tr = Some Refusing ∨ stages Idle tr = Some Ended.
Proof.
  intros Hl Hq. revert tr. induction reqs as [|req reqs IH]; intros tr Ht; cbn [serveHTTP] in Ht.
  { hwalk Ht. auto. }
  destruct (String.eqb (Method req) "OPTIONS" && _).
  { cbn [pbind trace pdo] in Ht. destruct Ht as ([] & tr' & -> & Ht). exact (IH _ Ht). }
  apply trace_bind in Ht as (tr1 & q & tr2 & -> & Hc & Ht).
  cbv beta delta [quarantined] in Hc. rewrite Hq, Hl in Hc. cbn [negb] in Hc. hwalk Hc.
  destruct (is_quarantined x) eqn:Ex.
  { hwalk Ht. cbn. rewrite Ex. auto. }
  destruct (parseSealedWS req) as [p|].
  { hwalk Ht. cbn. rewrite Ex. auto. }
  apply trace_bind in Ht as (tr3 & next & tr4 & -> & Hp & Ht).
  cbn [app automaton stage_step]. change (stage_step Idle (ev (OLookup (SNI route)) x)) with
    (Some (if is_quarantined x then Refusing else Checked)). rewrite Ex, automaton_app.
  apply (proxy_request_stages rp req route) in Hp as [->|[-> ->]]; [|by hwalk Ht; auto|done|done].
  destruct next; [by apply IH|]. hwalk Ht. auto.
Qed.

Lemma refuse_reaches req route tr : trace (refuseQuarantined h req route) tr tt → existsb reaches tr = false.
Proof. intros Ht. by hwalk Ht. Qed.

(** The trace of Handle around its request loop. *)
Lemma Handle_cases hello route reqs tr :
  trace (Handle h hello route reqs) tr tt →
  ∃ pre mid, tr = (pre ++ mid ++ [ev OClose tt])%list ∧
    existsb reaches pre = false ∧ (∀ s, stages s pre = Some s) ∧ existsb finds_quarantine pre = false ∧
    ((Quarantined route = true ∧ existsb sets_up pre = false ∧ writes pre = [] ∧
        trace (serveHTTP h reqs route None) mid tt) ∨
     (Quarantined route = false ∧ ∃ rp, trace (serveHTTP h reqs route (Some rp)) mid tt ∧
        ev (OProxyFor route) (Some rp) ∈ pre) ∨
     (mid = [] ∧ (writes pre = [] ∨ writes pre = [writeStatus 502 "upstream RA-TLS setup failed"]) ∧
        (Quarantined route = true → existsb sets_up pre = false ∧ writes pre = []))).
Proof.
  intros Ht. unfold Handle in Ht. cbn [pbind trace pdo] in Ht. destruct Ht as ([] & t1 & -> & ok & t2 & -> & Ht).
  apply trace_bind in Ht as (t3 & [] & t4 & -> & Ht & Hc). hwalk Hc. clear Hc.
  destruct ok; cbn [negb] in Ht; cycle 1.
  { hwalk Ht. eexists [_; _; _], []. split; [reflexivity|]. split_and!; try done. right; right. auto. }
  cbn [pbind trace pdo] in Ht. destruct Ht as (proto & t5 & -> & Ht).
  destruct (String.eqb proto acmeALPNProto).
  { hwalk Ht. eexists [_; _; _], []. split; [reflexivity|]. split_and!; try done. right; right. auto. }
  destruct (Quarantined route) eqn:Eq.
  { eexists [_; _; _], t5. split; [reflexivity|]. split_and!; try done. left. auto. }
  cbn [pbind trace pdo] in Ht. destruct Ht as ([rp|] & t6 & -> & Ht).
  - eexists [_; _; _; _], t6. split; [reflexivity|]. split_and!; try done. right; left. split; [done|].
    exists rp. split; [done|]. right. right. right. left.
  - hwalk Ht. eexists [_; _; _; _; _; _], []. split; [reflexivity|]. split_and!; try done. right; right.
    split; [done|]. split; [by right|done].
Qed.

Lemma writes_app tr1 tr2 : writes (tr1 ++ tr2)%list = (writes tr1 ++ writes tr2)%list.
Proof. apply flat_map_app. Qed.

(** A preflight the gateway answers itself. *)
Definition allowed_preflight (r : Request) : Prop :=
  Method r = "OPTIONS" ∧ isAllowedOrigin (h_cors h) (HGet (ReqHeader r) "Origin") = true.

#[local] Instance allowed_preflight_dec r : Decision (allowed_preflight r).
Proof. unfold allowed_preflight. apply _. Defined.

(** What a client of a quarantined route is sent: a 204 for each preflight of an
    allowed origin it starts with, a 503 for the first other request, and nothing
    for what follows. *)
Fixpoint refusals (reqs : list Request) : list string :=
  match reqs with
  | [] => []
  | r :: reqs =>
      if decide (allowed_preflight r) then writeCORSPreflight r :: refusals reqs
      else [WriteHTTP (Some r) (refusal_cors (h_cors h) r)]
  end.

Lemma serve_refused route reqs tr :
  trace (serveHTTP h reqs route None) tr tt →
  existsb reaches tr = false ∧ existsb sets_up tr = false ∧ stages Idle tr = Some Idle ∧ writes tr = refusals reqs ∧
  handshakes tr = [] ∧ protocols tr = [].
Proof.
  revert tr. induction reqs as [|req reqs IH]; intros tr Ht; cbn [serveHTTP refusals] in *.
  { by hwalk Ht. }
  destruct (String.eqb (Method req) "OPTIONS" && _) eqn:Eo.
  - cbn [pbind trace pdo] in Ht. destruct Ht as ([] & tr' & -> & Ht).
    apply andb_true_iff in Eo as [Em Ea]. apply String.eqb_eq in Em. rewrite decide_True by done.
    destruct (IH tr' Ht) as (I1 & I2 & I3 & Hw & I4 & I5). split_and!; try done. cbn. by rewrite <- Hw.
  - rewrite decide_False; [by hwalk Ht|]. intros [Hm Ha]. rewrite Hm, Ha in Eo. done.
Qed.

(** C8: Quarantine on terminated connections.  In every run of Handle a request
    reaches the enclave, proxied or over the mux, only between a lookup that found
    the route not quarantined and the release of its registration; a proxied one
    is registered first and looked up again.  From the first lookup that finds the
    route quarantined on, nothing reaches the enclave on this connection. *)
Theorem Handle_discipline hello route reqs tr :
  h_lookup h = true → trace (Handle h hello route reqs) tr tt →
  (stages Idle tr = Some Idle ∨ stages Idle tr = Some Refusing ∨ stages Idle tr = Some Ended) ∧
  (∀ tr1 e tr2, tr = (tr1 ++ e :: tr2)%list → finds_quarantine e = true → existsb reaches tr2 = false).
Proof.
  intros Hl Ht. assert (Hs : stages Idle tr = Some Idle ∨ stages Idle tr = Some Refusing ∨ stages Idle tr = Some Ended).
  { apply Handle_cases in Ht as (pre & mid & -> & _ & Hpre & _ & Hm).
    rewrite automaton_app, Hpre. cbv iota. rewrite automaton_app.
    destruct Hm as [(_ & _ & _ & Hm)|[(Hq & rp & Hm & _)|(-> & _)]].
    - apply serve_refused in Hm as (_ & _ & -> & _). auto.
    - apply serve_stages in Hm as [->|[->| ->]]; cbn; auto.
    - cbn. auto. }
  split; [exact Hs|]. intros tr1 e tr2 Etr He.
  destruct Hs as [Hs|[Hs|Hs]]; exact (after_quarantine _ _ _ _ _ _ Hs Etr He).
Qed.

(** The trace of Handle on a quarantined route, up to its request loop. *)
Lemma Handle_quarantined_cases hello route reqs tr :
  Quarantined route = true → trace (Handle h hello route reqs) tr tt →
  (tr = [ev OTerminated tt; ev (OHandshake hello) false; ev (OError "tls_handshake") tt; ev OClose tt]) ∨
  (tr = [ev OTerminated tt; ev (OHandshake hello) true; ev ONegotiated acmeALPNProto; ev OClose tt]) ∨
  ∃ proto mid, proto ≠ acmeALPNProto ∧
    tr = ([ev OTerminated tt; ev (OHandshake hello) true; ev ONegotiated proto] ++ mid ++ [ev OClose tt])%list ∧
    trace (serveHTTP h reqs route None) mid tt.
Proof.
  intros Hq Ht. unfold Handle in Ht. cbn [pbind trace pdo] in Ht. destruct Ht as ([] & t1 & -> & ok & t2 & -> & Ht).
  apply trace_bind in Ht as (t3 & [] & t4 & -> & Ht & Hc). hwalk Hc. clear Hc.
  destruct ok; cbn [negb] in Ht; [|left; by hwalk Ht].
  right. cbn [pbind trace pdo] in Ht. destruct Ht as (proto & t5 & -> & Ht).
  destruct (String.eqb_spec proto acmeALPNProto) as [->|Hne]; [left; by hwalk Ht|].
  right. rewrite Hq in Ht. by exists proto, t5.
Qed.

(** C10: A connection opened on a quarantined route never touches the enclave: no
    upstream is set up and nothing is proxied.  When its handshake succeeds (and
    is not an ACME challenge) the client is sent exactly a 204 for each preflight
    of an allowed origin it starts with, then one 503 refusal for its first other
    request, then nothing, and the connection closes; when the handshake fails,
    or is an ACME challenge, nothing is sent. *)
Theorem Handle_quarantined_route hello route reqs tr :
  Quarantined route = true → trace (Handle h hello route reqs) tr tt →
  existsb reaches tr = false ∧ existsb sets_up tr = false ∧
  (∃ tr0, tr = (tr0 ++ [ev OClose tt])%list) ∧
  ((handshakes tr = [false] ∧ writes tr = []) ∨
   (handshakes tr = [true] ∧ protocols tr = [acmeALPNProto] ∧ writes tr = []) ∨
   (∃ proto, handshakes tr = [true] ∧ protocols tr = [proto] ∧ proto ≠ acmeALPNProto ∧
      writes tr = refusals reqs)).
Proof.
  intros Hq [->|[->|(proto & mid & Hp & -> & Hm)]]%Handle_quarantined_cases; [| |  |done].
  - split_and!; [done..|by eexists [_; _; _]|]. by left.
  - split_and!; [done..|by eexists [_; _; _]|]. right. by left.
  - apply serve_refused in Hm as (Hr & Hs & _ & Hw & Hh & Hpr).
    rewrite !existsb_app, !writes_app, Hr, Hs, Hw. unfold handshakes, protocols in *.
    rewrite !flat_map_app, Hh, Hpr. split_and!; [done|done| |].
    + eexists. by rewrite app_assoc.
    + right. right. exists proto. split_and!; try done. cbn. by rewrite app_nil_r.
Qed.

(** What is handed to the reverse proxy. *)
Definition served (e : event ans) : list (upstreamProxy * Header * OutRequest) :=
  match e with existT (OServe rp w req) _ => [(rp, w, req)] | _ => [] end.

Lemma proxy_request_served rp req route tr b x :
  trace (proxy_request h rp req route) tr b → x ∈ flat_map served tr →
  x = (rp, inject_cors (h_cors h) req, Director rp (with_host req route)).
Proof.
  intros Ht. hwalk Ht; cbn; rewrite ?app_nil_r; intros Hx; try by apply not_elem_of_nil in Hx.
  all: by apply list_elem_of_singleton in Hx as ->.
Qed.

Lemma serve_served rp route reqs tr x :
  trace (serveHTTP h reqs route (Some rp)) tr tt → x ∈ flat_map served tr →
  ∃ req, req ∈ reqs ∧ x = (rp, inject_cors (h_cors h) req, Director rp (with_host req route)).
Proof.
  revert tr. induction reqs as [|req reqs IH]; intros tr Ht Hx; cbn [serveHTTP] in Ht.
  { hwalk Ht. by apply not_elem_of_nil in Hx. }
  assert (Hnext : ∀ tr', trace (serveHTTP h reqs route (Some rp)) tr' tt → x ∈ flat_map served tr' →
    ∃ req0, req0 ∈ req :: reqs ∧ x = (rp, inject_cors (h_cors h) req0, Director rp (with_host req0 route))).
  { intros tr' Ht' Hx'. destruct (IH tr' Ht' Hx') as (r & ? & ?). exists r. split; [by right|done]. }
  destruct (String.eqb (Method req) "OPTIONS" && _).
  { cbn [pbind trace pdo] in Ht. destruct Ht as ([] & tr' & -> & Ht). exact (Hnext _ Ht Hx). }
  apply trace_bind in Ht as (tr1 & q & tr2 & -> & Hc & Ht). rewrite flat_map_app in Hx.
  assert (flat_map served tr1 = []) as E1 by (hwalk Hc; done). rewrite E1 in Hx. cbn [app] in Hx.
  destruct q; [hwalk Ht; by apply not_elem_of_nil in Hx|].
  destruct (parseSealedWS req) as [p|]; [hwalk Ht; by apply not_elem_of_nil in Hx|].
  apply trace_bind in Ht as (tr3 & next & tr4 & -> & Hp & Ht). rewrite flat_map_app in Hx.
  apply elem_of_app in Hx as [Hx|Hx].
  - exists req. split; [by left|]. by eapply proxy_request_served.
  - destruct next; [exact (Hnext _ Ht Hx)|]. hwalk Ht. by apply not_elem_of_nil in Hx.
Qed.

(** The CORS headers a response starts from: for a cross-origin request of an
    allowed origin these four and no other, and none for any other request. *)
Definition cors_start (c : Cors) (req : Request) (w : Header) : Prop :=
  let origin := HGet (ReqHeader req) "Origin" in
  (origin ≠ "" ∧ isAllowedOrigin c origin = true ∧
     ∀ k, HValues w k =
       if decide (CanonicalHeaderKey k = "Access-Control-Allow-Origin") then [origin]
       else if decide (CanonicalHeaderKey k = "Vary") then ["Origin"]
       else if decide (CanonicalHeaderKey k = "Access-Control-Allow-Credentials") then ["true"]
       else if decide (CanonicalHeaderKey k = "Access-Control-Expose-Headers") then
         ["X-Privasys-Reason, X-Privasys-EncAuth-Reject, X-Privasys-Inner-Status, X-Privasys-Edge"]
       else []) ∨
  ((origin = "" ∨ isAllowedOrigin c origin = false) ∧ ∀ k, HValues w k = []).

Lemma inject_cors_start c req : cors_start c req (inject_cors c req).
Proof.
  unfold cors_start, inject_cors. set (origin := HGet (ReqHeader req) "Origin").
  destruct (String.eqb_spec origin "") as [Ho|Ho]; cbn [negb andb]; [right; auto|].
  destruct (isAllowedOrigin c origin); [|right; auto]. left. split_and!; [done..|]. intros k.
  rewrite !HValues_set. change (HValues ∅ k) with (@nil string).
  repeat case_decide; try done; exfalso;
    repeat match goal with E : CanonicalHeaderKey k = _ |- _ => rewrite E in *; clear E end;
    match goal with E : _ = CanonicalHeaderKey _ |- _ => vm_compute in E; discriminate E | _ => done end.
Qed.


End traces.

(** * Concrete inputs *)

Section witnesses.
Import RouteTableExamples.

Definition ex_conf : handler_conf := {| h_cors := cors_of ex_specs; h_lookup := true |}.

Definition ex_rp : upstreamProxy := {|
  policyHash := "empty"; 
  rp_target := {| tu_Scheme := "https"; tu_Host := "10.0.0.1:443"; tu_Path := ""; tu_EscapedPath := ""; tu_RawQuery := "" |};
  rp_dial := "10.0.0.1:443"; rp_name := "app.example.org";
  rp_policy := {| ExpectedOIDs := ∅ |} |}.

(** Surroundings where every call succeeds and the lookups answer in turn. *)
Definition ex_env (o : op) (s : list (option Route)) : ans o * list (option Route) :=
  match o with
  | OLookup _ => match s with a :: s => (a, s) | [] => (None, []) end
  | OHandshake _ => (true, s)
  | ONegotiated => ("http/1.1", s)
  | OProxyFor _ => (Some ex_rp, s)
  | OServe _ _ _ => ((false, false), s)
  | _ => (tt, s)
  end.

Definition ex_app_live : Route := ex_route "app.example.org" "10.0.0.1:443" "".
Definition ex_app_held : Route := ex_route "app.example.org" "10.0.0.1:443" "quarantined".
Definition ex_http (route : Route) (s : list (option Route)) : list (event ans) :=
  (prun ex_env (Handle ex_conf [x16] route [ex_cors_req; ex_browser]) s).1.1.

Lemma ex_http_trace route s : trace (Handle ex_conf [x16] route [ex_cors_req; ex_browser]) (ex_http route s) tt.
Proof. apply prun_trace_unit. Qed.

Lemma Handle_discipline_witness :
  stages Idle (ex_http ex_app_live [Some ex_app_live; Some ex_app_live; Some ex_app_held]) = Some Refusing.
Proof.
  destruct (Handle_discipline ex_conf [x16] ex_app_live [ex_cors_req; ex_browser]
    (ex_http ex_app_live [Some ex_app_live; Some ex_app_live; Some ex_app_held])) as [[E|[E|E]] _].
  - reflexivity.
  - apply ex_http_trace.
  - vm_compute in E. discriminate E.
  - exact E.
  - vm_compute in E. discriminate E.
Defined.

Lemma Handle_quarantined_route_witness :
  existsb reaches (ex_http ex_app_held []) = false ∧
  writes (ex_http ex_app_held []) = [WriteHTTP (Some ex_cors_req) (refusal_cors (h_cors ex_conf) ex_cors_req)].
Proof.
  destruct (Handle_quarantined_route ex_conf [x16] ex_app_held [ex_cors_req; ex_browser] (ex_http ex_app_held []))
    as (Hr & _ & _ & Hw).
  - reflexivity.
  - apply ex_http_trace.
  - split; [exact Hr|]. destruct Hw as [[Hf _]|[(_ & Hf & _)|(proto & _ & _ & _ & Hw)]].
    + vm_compute in Hf. discriminate.
    + vm_compute in Hf. discriminate.
    + rewrite Hw. vm_compute. reflexivity.
Defined.


End witnesses.
