(* ===== verification/WsPool.v ===== *)
(** internal/terminate/wsmux.go: the life of the mux connections to an enclave.

    [dial] opens one: TCP or tunnel, RA-TLS, the upgrade request; [keepalive] pings
    it.  The pools are shared objects: a request takes a pool from the handler's map
    (muxPoolFor) and then a connection from the pool (get), and in between the pool
    may leave the map and be closed (a policy change or Forget).  Each of these calls
    runs under a lock and is one step; they interleave freely. *)
From Stdlib Require Import Strings.String.
From S2P Require Import Prelude GoBytes GoStrings GoRuntime Effects Sha256 RouteTable Http Policy ProxyCache WsFrame.
From S2P Require WsMux WsQueue.
Local Open Scope Z_scope.

(** * Opening a connection *)

Inductive op : Type :=
| ODial (upstream : string)           (* p.dialFn *)
| OHandshake (serverName : string)    (* with the RA-TLS verifier of the pool *)
| OWrite (s : string)
| OReadResponse
| OCloseRaw | OCloseBody | OCloseTLS
| OStart.                             (* muxConnsActive.Inc, go readLoop, go keepalive *)

Definition ans (o : op) : Type :=
  match o with
  | ODial _ | OHandshake _ => bool
  | OReadResponse => option Z         (* the status code, or an error *)
  | _ => unit
  end.

Abbreviation call := (@pdo op ans).

Inductive dial_result : Type := Dialed | ErrDial | ErrHandshake | ErrUpgradeRead | ErrUpgradeStatus (code : Z).

Definition muxPath : string := "/__privasys/ws-mux".
Definition muxProtocol : string := "privasys-mux/1".

Definition upgrade_request (sni : string) : string :=
  ("GET " ++ muxPath ++ " HTTP/1.1" ++ crlf ++ "Host: " ++ sni ++ crlf ++ "Upgrade: " ++ muxProtocol ++ crlf ++
   "Connection: Upgrade" ++ crlf ++ crlf)%string.

Section dial.
Local Open Scope prog_scope.

Definition dial (p : gwMuxPool) : prog ans dial_result :=
  do ok <- call (ODial (mp_upstream p));
  if negb ok then PRet ErrDial else
  do ok <- call (OHandshake (mp_sni p));
  if negb ok then call OCloseRaw ;; PRet ErrHandshake else
  call (OWrite (upgrade_request (mp_sni p))) ;;
  do resp <- call OReadResponse;
  match resp with
  | None => call OCloseTLS ;; PRet ErrUpgradeRead
  | Some code =>
      if negb (code =? 101) then call OCloseBody ;; call OCloseTLS ;; PRet (ErrUpgradeStatus code)
      else call OStart ;; PRet Dialed
  end.
End dial.

(** The dial of a trace succeeded. *)
Definition opens (e : event ans) : bool :=
  match e with existT (ODial _) a => a | _ => false end.
(** Closing the connection, over TLS or under it. *)
Definition closes (e : event ans) : bool :=
  match e with existT OCloseRaw _ | existT OCloseTLS _ => true | _ => false end.
Definition starts (e : event ans) : bool := match e with existT OStart _ => true | _ => false end.
Definition writes (e : event ans) : bool := match e with existT (OWrite _) _ => true | _ => false end.

(** A mux connection is opened whole or not at all.  The dial of a pool
    goes to the pool's upstream under the pool's name; it returns a connection
    exactly when the dial, the attested handshake and the upgrade succeed, and then
    it is left open with its goroutines started; on every error what was opened is
    closed once and nothing is started; nothing is written before the enclave was
    verified. *)
Theorem dial_all_or_nothing p tr r :
  trace (dial p) tr r →
  (r = Dialed ↔ existsb starts tr = true) ∧
  (r = Dialed → tr = [ev (ODial (mp_upstream p)) true; ev (OHandshake (mp_sni p)) true;
     ev (OWrite (upgrade_request (mp_sni p))) tt; ev OReadResponse (Some 101); ev OStart tt]) ∧
  (length (filter (fun e => closes e = true) tr) =
     if existsb opens tr && negb (existsb starts tr) then 1 else 0)%nat ∧
  (existsb writes tr = true → ev (OHandshake (mp_sni p)) true ∈ tr).
Proof.
  unfold dial. cbn [pbind pdo trace]. intros (ok & tr1 & -> & Ht). destruct ok; cbn [negb] in Ht; [|by destruct Ht as [-> ->]].
  cbn [pbind pdo trace] in Ht. destruct Ht as (ok & tr2 & -> & Ht).
  destruct ok; cbn [negb pbind pdo trace] in Ht; [|by destruct Ht as ([] & tr3 & -> & -> & ->)].
  destruct Ht as ([] & tr3 & -> & resp & tr4 & -> & Ht). destruct resp as [code|]; cbn [pbind pdo trace] in Ht.
  - destruct (Z.eqb_spec code 101) as [->|Hc]; cbn [negb pbind pdo trace] in Ht.
    + destruct Ht as ([] & tr5 & -> & -> & ->). repeat split; try done. intros _. right. left.
    + destruct Ht as ([] & tr5 & -> & [] & tr6 & -> & -> & ->). repeat split; try done. intros _. right. left.
  - destruct Ht as ([] & tr5 & -> & -> & ->). repeat split; try done. intros _. right. left.
Qed.

(** * Keeping it alive *)

(** One turn of the select: the connection is dead, or a ping and whether it
    was written. *)
Inductive turn : Type := TDead | TPing (written : bool).

(** keepalive: the pings it tried, and whether it killed the connection; [None] when
    it goes on. *)
Fixpoint keepalive (turns : list turn) : nat * option bool :=
  match turns with
  | [] => (0%nat, None)
  | TDead :: _ => (0%nat, Some false)
  | TPing false :: _ => (1%nat, Some true)
  | TPing true :: turns => let '(n, r) := keepalive turns in (S n, r)
  end.

(** The loop goes on while the pings are written; a ping that fails kills the
    connection, a dead connection ends it without. *)
Lemma keepalive_spec turns :
  let '(n, r) := keepalive turns in
  ∃ rest, turns = replicate (match r with Some true => pred n | _ => n end) (TPing true) ++ rest ∧
    match r with
    | None => rest = []
    | Some true => (0 < n)%nat ∧ ∃ more, rest = TPing false :: more
    | Some false => ∃ more, rest = TDead :: more
    end.
Proof.
  induction turns as [|[|[]] turns IH]; cbn [keepalive].
  - by exists [].
  - exists (TDead :: turns). eauto.
  - destruct (keepalive turns) as [n r]. destruct IH as (rest & -> & Hr).
    destruct r as [[]|]; [|by exists rest..]. exists rest. simpl. destruct Hr as [Hn Hr]. destruct n as [|n]; [lia|].
    split; [done|]. split; [lia|done].
  - exists (TPing false :: turns). split; [done|]. split; [lia|eauto].
Qed.

(** * The pools *)

(** The handler's map of pools, the pool objects, the connections that are live, and
    the pool each request holds between muxPoolFor and get. *)
Record store := {
  s_index : gmap string nat;
  s_pools : gmap nat gwMuxPool;
  s_alive : gset nat;
  s_held : gmap nat nat;
}.

Definition empty_store : store := {| s_index := ∅; s_pools := ∅; s_alive := ∅; s_held := ∅ |}.

Definition set_conns (p : gwMuxPool) (l : list nat) : gwMuxPool := {|
  mp_upstream := mp_upstream p; mp_sni := mp_sni p; mp_policy := mp_policy p; mp_conns := l |}.

(** closeAll of the pool object [id]: its list is emptied, its connections killed. *)
Definition close_pool (s : store) (id : nat) : store :=
  match s_pools s !! id with
  | Some p => {| s_index := s_index s; s_pools := <[id := set_conns p []]> (s_pools s);
                 s_alive := s_alive s ∖ list_to_set (closeAll p); s_held := s_held s |}
  | None => s
  end.

Section pools.
Context `{GoJSON} `{GoRange}.

(** The loops of muxPoolFor and Forget over the map: close and delete the pools
    under a prefix. *)
Definition close_app (s : store) (app : string) : store :=
  let s' := fold_left close_pool (flat_map (fun kv => if HasPrefix kv.1 app then [kv.2] else []) (range_map (s_index s))) s in
  {| s_index := drop_prefix app (s_index s'); s_pools := s_pools s'; s_alive := s_alive s'; s_held := s_held s' |}.

Definition app_of (route : Route) : string := (Upstream route ++ "|" ++ SNI route ++ "|")%string.

(** A new pool object of a route. *)
Definition new_pool (route : Route) : gwMuxPool := {|
  mp_upstream := Upstream route; mp_sni := SNI route;
  mp_policy := match parsePolicy (AttestationPolicy route) with Some policy => policy | None => {| ExpectedOIDs := ∅ |} end;
  mp_conns := [] |}.

(** muxPoolFor, with [new] the pool it would allocate. *)
Definition pool_for (s : store) (route : Route) (new : nat) : store * nat :=
  let key := (app_of route ++ hashPolicy (AttestationPolicy route))%string in
  match s_index s !! key with
  | Some id => (s, id)
  | None =>
      let s := close_app s (app_of route) in
      ({| s_index := <[key := new]> (s_index s); s_pools := <[new := new_pool route]> (s_pools s);
          s_alive := s_alive s; s_held := s_held s |}, new)
  end.

(** get of the pool object [id]; [streams] counts the streams of a connection, [dialed]
    is what dial would return. *)
Definition pool_get (s : store) (id : nat) (streams : nat → Z) (dialed : option nat) : option (store * option nat) :=
  match s_pools s !! id with
  | Some p =>
      let '(conns, res) := WsQueue.get (fun c => negb (bool_decide (c ∈ s_alive s))) streams (mp_conns p) dialed in
      Some ({| s_index := s_index s; s_pools := <[id := set_conns p conns]> (s_pools s);
               s_alive := s_alive s ∪ list_to_set conns; s_held := s_held s |}, res)
  | None => None
  end.

Inductive event : Type :=
| EvPoolFor (t : nat) (route : Route) (new : nat)
| EvGet (t : nat) (streams : nat → Z) (dialed : option nat)
| EvForget (route : Route)
| EvDie (c : nat).                     (* kill by the read loop or keepalive *)

(** The pool object [id] is in the handler's map. *)
Definition indexed (s : store) (id : nat) : Prop := ∃ k, s_index s !! k = Some id.

(** A connection number no pool has used. *)
Definition fresh_conn (s : store) (c : nat) : Prop :=
  (c ∉ s_alive s) ∧ (∀ id p, s_pools s !! id = Some p → c ∉ mp_conns p).

(** Steps.  With [orderly], get is only called while the pool is still in the map. *)
Inductive step (orderly : bool) (s : store) : event → store → Prop :=
| step_pool_for t route new s' id :
    route_ok route → s_pools s !! new = None → pool_for s route new = (s', id) →
    step orderly s (EvPoolFor t route new)
      {| s_index := s_index s'; s_pools := s_pools s'; s_alive := s_alive s'; s_held := <[t := id]> (s_held s') |}
| step_get t id streams dialed s' res :
    s_held s !! t = Some id → (orderly = true → indexed s id) →
    (∀ c, dialed = Some c → fresh_conn s c) →
    pool_get s id streams dialed = Some (s', res) →
    step orderly s (EvGet t streams dialed)
      {| s_index := s_index s'; s_pools := s_pools s'; s_alive := s_alive s'; s_held := delete t (s_held s') |}
| step_forget route : route_ok route → step orderly s (EvForget route) (close_app s (app_of route))
| step_die c :
    step orderly s (EvDie c)
      {| s_index := s_index s; s_pools := s_pools s; s_alive := s_alive s ∖ {[c]}; s_held := s_held s |}.

Inductive reachable (orderly : bool) : store → Prop :=
| reachable_empty : reachable orderly empty_store
| reachable_step s e s' : reachable orderly s → step orderly s e s' → reachable orderly s'.

(** ** Closing pools *)

Lemma close_pools_spec ids s :
  let s' := fold_left close_pool ids s in
  s_index s' = s_index s ∧ s_held s' = s_held s ∧
  (∀ id, s_pools s' !! id = (fun p => if decide (id ∈ ids) then set_conns p [] else p) <$> s_pools s !! id) ∧
  (∀ c, c ∈ s_alive s' ↔ c ∈ s_alive s ∧ ∀ id p, id ∈ ids → s_pools s !! id = Some p → c ∉ mp_conns p).
Proof.
  revert s. induction ids as [|id ids IH]; intros s; cbn [fold_left].
  { split_and!; try done.
    - intros id. by destruct (s_pools s !! id).
    - intros c. split; [|by intros []]. intros Hc. split; [done|]. by intros ? ? ?%not_elem_of_nil. }
  specialize (IH (close_pool s id)). cbv zeta in IH. destruct IH as (I1 & I2 & I3 & I4). unfold close_pool in *.
  destruct (s_pools s !! id) as [p|] eqn:Ep; cbn [s_index s_held s_pools s_alive] in *.
  - split_and!; [done|done| |].
    + intros id'. rewrite I3, lookup_insert. destruct (decide (id = id')) as [<-|Hd].
      * rewrite Ep. simpl.
        destruct (decide (id ∈ ids)), (decide (id ∈ id :: ids)) as [|Hn]; try done; exfalso; apply Hn; left.
      * destruct (s_pools s !! id') as [q|]; [|done]. simpl. f_equal.
        destruct (decide (id' ∈ ids)) as [Hi|Hi]; [rewrite decide_True by (by right)|rewrite decide_False]; try done.
        intros [?|?]%elem_of_cons; congruence.
    + intros c. rewrite I4. unfold closeAll. rewrite elem_of_difference, elem_of_list_to_set. split.
      * intros [[Hc Hn] Hall]. split; [done|]. intros id' q [->|Hi]%elem_of_cons Hq; [congruence|].
        destruct (decide (id' = id)) as [->|Hne]; [congruence|]. apply (Hall id' q Hi). by rewrite lookup_insert_ne.
      * intros [Hc Hall]. split; [split; [done|]; apply (Hall id p); [left|done]|].
        intros id' q Hi. rewrite lookup_insert. case_decide; [intros [= <-]; apply not_elem_of_nil|].
        intros Hq. apply (Hall id' q); [by right|done].
  - split_and!; [done|done| |].
    + intros id'. rewrite I3. destruct (s_pools s !! id') as [q|] eqn:Eq; [|done]. simpl. f_equal.
      destruct (decide (id' ∈ ids)) as [Hi|Hi]; [rewrite decide_True by (by right)|rewrite decide_False]; try done.
      intros [?|?]%elem_of_cons; congruence.
    + intros c. rewrite I4. split; intros [Hc Hall]; (split; [done|]).
      * intros id' q [->|Hi]%elem_of_cons Hq; [congruence|]. by apply (Hall id').
      * intros id' q Hi. apply Hall. by right.
Qed.

Context `{!GoRangeLaws}.

(** The pools under a prefix, as the loop over the map finds them. *)
Lemma stale_spec s app id :
  id ∈ flat_map (fun kv => if HasPrefix kv.1 app then [kv.2] else []) (range_map (s_index s)) ↔
  ∃ k, s_index s !! k = Some id ∧ HasPrefix k app = true.
Proof.
  rewrite list_elem_of_In, in_flat_map. split.
  - intros ([k i] & Hin & Hi). apply list_elem_of_In, range_map_elem in Hin. exists k. simpl in Hi.
    destruct (HasPrefix k app) eqn:E; [|done]. destruct Hi as [->|[]]. done.
  - intros (k & Hk & Hp). exists (k, id). split; [by apply list_elem_of_In, range_map_elem|]. simpl. rewrite Hp. by left.
Qed.

(** * The invariant of the pools *)

Record inv (orderly : bool) (s : store) : Prop := {
  (* the map leads to pool objects that are what their key says, one per key *)
  inv_index : ∀ k id, s_index s !! k = Some id → ∃ p, s_pools s !! id = Some p ∧ pool_entry_ok k p;
  inv_inj : ∀ k k' id, s_index s !! k = Some id → s_index s !! k' = Some id → k = k';
  inv_size : ∀ id p, s_pools s !! id = Some p → Z.of_nat (length (mp_conns p)) <= WsMux.gwMuxPoolSize;
  (* a live connection is in one pool *)
  inv_owned : ∀ c, c ∈ s_alive s → ∃ id p, s_pools s !! id = Some p ∧ c ∈ mp_conns p;
  inv_unique : ∀ c id id' p p', s_pools s !! id = Some p → s_pools s !! id' = Some p' →
    c ∈ mp_conns p → c ∈ mp_conns p' → id = id';
  inv_orderly : orderly = true → ∀ id p, s_pools s !! id = Some p → mp_conns p ≠ [] → indexed s id;
}.

Lemma close_app_index s app : s_index (close_app s app) = drop_prefix app (s_index s).
Proof. unfold close_app. cbn [s_index]. by rewrite (proj1 (close_pools_spec _ s)). Qed.

Lemma inv_close_app orderly s app :
  inv orderly s → inv orderly (close_app s app) ∧
  (∀ c, c ∈ s_alive (close_app s app) → c ∈ s_alive s ∧
     ∀ k id p, s_index s !! k = Some id → HasPrefix k app = true → s_pools s !! id = Some p → c ∉ mp_conns p) ∧
  (∀ id, s_pools s !! id = None → s_pools (close_app s app) !! id = None).
Proof.
  intros [I1 I2 I3 I4 I5 I6]. unfold close_app.
  set (ids := flat_map _ (range_map (s_index s))).
  assert (Hids : ∀ id, id ∈ ids ↔ ∃ k, s_index s !! k = Some id ∧ HasPrefix k app = true) by (intros; apply stale_spec).
  destruct (close_pools_spec ids s) as (C1 & C2 & C3 & C4).
  assert (Hp : ∀ id p, s_pools (fold_left close_pool ids s) !! id = Some p →
    ∃ q, s_pools s !! id = Some q ∧ ((id ∈ ids ∧ p = set_conns q []) ∨ ((id ∉ ids) ∧ p = q))).
  { intros id p. rewrite C3. intros (q & Hq & ->)%fmap_Some. exists q. split; [done|]. case_decide; auto. }
  split; [split; cbn [s_index s_pools s_alive s_held]|split].
  - intros k id. rewrite C1, drop_prefix_lookup. destruct (HasPrefix k app) eqn:Ek; [done|]. intros Hk.
    destruct (I1 k id Hk) as (p & Hp' & Hok). exists p. split; [|done]. rewrite C3, Hp'. simpl.
    rewrite decide_False; [done|]. rewrite Hids. intros (k' & Hk' & Ep). rewrite (I2 _ _ _ Hk Hk') in Ek. congruence.
  - intros k k' id. rewrite C1, !drop_prefix_lookup. destruct (HasPrefix k app), (HasPrefix k' app); try done. apply I2.
  - intros id p (q & Hq & [[_ ->]|[_ ->]])%Hp; [unfold WsMux.gwMuxPoolSize; simpl; lia|by eapply I3].
  - intros c [Hc Hn]%C4. destruct (I4 c Hc) as (id & p & Hpp & Hin). exists id, p. split; [|done].
    rewrite C3, Hpp. simpl. rewrite decide_False; [done|]. intros Hi. by apply (Hn id p).
  - intros c id id' p p' (q & Hq & Hor)%Hp (q' & Hq' & Hor')%Hp Hc Hc'.
    destruct Hor as [[_ ->]|[_ ->]]; [by apply not_elem_of_nil in Hc|].
    destruct Hor' as [[_ ->]|[_ ->]]; [by apply not_elem_of_nil in Hc'|]. by eapply I5.
  - intros Ho id p (q & Hq & [[_ ->]|[Hn ->]])%Hp Hne; [done|]. destruct (I6 Ho id q Hq Hne) as [k Hk].
    exists k. cbn [s_index]. rewrite C1, drop_prefix_lookup. destruct (HasPrefix k app) eqn:Ek; [|done].
    destruct Hn. apply Hids. eauto.
  - intros c [Hc Hn]%C4. split; [done|]. intros k id p Hk Ek Hpp. apply (Hn id p); [|done]. apply Hids. eauto.
  - intros id Hid. cbn [s_pools]. by rewrite C3, Hid.
Qed.

Lemma inv_pool_for orderly s route new s' id :
  inv orderly s → route_ok route → s_pools s !! new = None → pool_for s route new = (s', id) → inv orderly s'.
Proof.
  intros Hinv Hr Hnew. unfold pool_for. set (key := (app_of route ++ hashPolicy (AttestationPolicy route))%string).
  destruct (s_index s !! key) as [id0|] eqn:Ekey; [by intros [= <- <-]|]. intros [= <- <-].
  destruct (inv_close_app orderly s (app_of route) Hinv) as ([I1 I2 I3 I4 I5 I6] & _ & Hnone).
  specialize (Hnone new Hnew). set (s1 := close_app s (app_of route)) in *.
  assert (Hne : ∀ k i, s_index s1 !! k = Some i → i ≠ new).
  { intros k i Hk ->. destruct (I1 k new Hk) as (p & Hp & _). congruence. }
  split; cbn [s_index s_pools s_alive s_held].
  - intros k i [[<- <-]|[_ Hk]]%lookup_insert_Some.
    + exists (new_pool route). rewrite lookup_insert_eq. split; [done|]. destruct Hr as (Hu & Hs & _).
      split; [done|split; [done|]]. exists (AttestationPolicy route). split; [|done].
      unfold key, app_of, cache_key. simpl. by rewrite !sapp_assoc.
    + destruct (I1 k i Hk) as (p & Hp & Hok). exists p. rewrite lookup_insert_ne; [done|]. by apply not_eq_sym, (Hne k).
  - intros k k' i [[<- <-]|[Hk1 Hk]]%lookup_insert_Some [[<- Hi]|[_ Hk']]%lookup_insert_Some; try done.
    + by destruct (Hne _ _ Hk').
    + subst i. by destruct (Hne _ _ Hk).
    + by eapply I2.
  - intros i p [[<- <-]|[_ Hp]]%lookup_insert_Some; [unfold WsMux.gwMuxPoolSize; simpl; lia|by eapply I3].
  - intros c Hc. destruct (I4 c Hc) as (i & p & Hp & Hin). exists i, p. split; [|done].
    rewrite lookup_insert_ne; [done|]. congruence.
  - intros c i i' p p' [[<- <-]|[_ Hp]]%lookup_insert_Some [[<- <-]|[_ Hp']]%lookup_insert_Some Hc Hc'; try done;
      [by apply not_elem_of_nil in Hc|by apply not_elem_of_nil in Hc'|by eapply I5].
  - intros Ho i p [[<- <-]|[Hi Hp]]%lookup_insert_Some Hnn; [done|]. destruct (I6 Ho i p Hp Hnn) as [k Hk].
    exists k. cbn [s_index]. rewrite lookup_insert_ne; [done|]. intros <-.
    unfold s1 in Hk. rewrite close_app_index, drop_prefix_lookup, Ekey in Hk. by destruct (HasPrefix key _).
Qed.

(** The connections of a pool after get: those that were live, and the new one. *)
Lemma get_conns isDead streams conns dialed :
  Z.of_nat (length conns) <= WsMux.gwMuxPoolSize →
  let '(conns', _) := WsQueue.get isDead streams conns dialed in
  Z.of_nat (length conns') <= WsMux.gwMuxPoolSize ∧
  (∀ c, c ∈ conns' → (c ∈ conns ∧ isDead c = false) ∨ dialed = Some c) ∧
  (∀ c, c ∈ conns → isDead c = false → c ∈ conns').
Proof.
  intros Hlen. pose proof (WsQueue.get_live isDead streams conns dialed Hlen) as Hg.
  unfold WsQueue.get in *. set (live := filter _ conns) in *.
  assert (Hkeep : ∀ c, c ∈ conns → isDead c = false → c ∈ live) by (intros c Hc Hd; by apply list_elem_of_filter).
  destruct (_ && _); [destruct dialed|]; destruct Hg as (Hl1 & Hl2 & _); split_and!; try done; set_solver.
Qed.

Lemma inv_pool_get orderly s id streams dialed s' res :
  inv orderly s → (orderly = true → indexed s id) → (∀ c, dialed = Some c → fresh_conn s c) →
  pool_get s id streams dialed = Some (s', res) → inv orderly s'.
Proof.
  intros [I1 I2 I3 I4 I5 I6] Ho Hf. unfold pool_get. destruct (s_pools s !! id) as [p|] eqn:Ep; [|done].
  pose proof (get_conns (fun c => negb (bool_decide (c ∈ s_alive s))) streams (mp_conns p) dialed (I3 id p Ep)) as Hg.
  destruct (WsQueue.get _ _ _ _) as [conns res'] eqn:Eg. destruct Hg as (G1 & G2 & G3). intros [= <- <-].
  assert (Hlive : ∀ c, negb (bool_decide (c ∈ s_alive s)) = false ↔ c ∈ s_alive s).
  { intros c. by rewrite negb_false_iff, bool_decide_eq_true. }
  split; cbn [s_index s_pools s_alive s_held].
  - intros k i Hk. destruct (I1 k i Hk) as (q & Hq & Hok). destruct (decide (i = id)) as [->|].
    + exists (set_conns p conns). rewrite lookup_insert_eq. split; [done|]. rewrite Ep in Hq. by injection Hq as <-.
    + exists q. by rewrite lookup_insert_ne.
  - done.
  - intros i q [[<- <-]|[_ Hq]]%lookup_insert_Some; [done|by eapply I3].
  - intros c Hc. destruct (decide (c ∈ conns)) as [Hin|Hin].
    { exists id, (set_conns p conns). by rewrite lookup_insert_eq. }
    assert (c ∈ s_alive s) as Ha by set_solver. destruct (I4 c Ha) as (i & q & Hq & Hi).
    destruct (decide (i = id)) as [->|]; [|by exists i, q; rewrite lookup_insert_ne].
    rewrite Ep in Hq. injection Hq as <-. destruct Hin. apply G3; [done|by apply Hlive].
  - assert (Hc : ∀ c i q, i ≠ id → s_pools s !! i = Some q → c ∈ mp_conns q → c ∈ conns → False).
    { intros c i q Hi Hq Hin Hc. destruct (G2 c Hc) as [[Hcp _]|Hd]; [by eapply Hi, I5|].
      by destruct (Hf c Hd) as [_ []%(λ f, f i q Hq)]. }
    intros c i i' q q' [[<- <-]|[? Hq]]%lookup_insert_Some [[<- <-]|[? Hq']]%lookup_insert_Some Hc1 Hc2;
      [done|by destruct (Hc c i' q')|by destruct (Hc c i q)|by eapply I5].
  - intros Hoo i q [[<- <-]|[_ Hq]]%lookup_insert_Some Hne; [by apply Ho|by eapply I6].
Qed.

Lemma pools_inv_step orderly s e s' : inv orderly s → step orderly s e s' → inv orderly s'.
Proof.
  intros Hinv [t route new s1 id Hr Hn Hp|t id streams dialed s1 res Hh Ho Hf Hg|route Hr|c].
  - pose proof (inv_pool_for orderly s route new s1 id Hinv Hr Hn Hp) as [I1 I2 I3 I4 I5 I6]. by split.
  - pose proof (inv_pool_get orderly s id streams dialed s1 res Hinv Ho Hf Hg) as [I1 I2 I3 I4 I5 I6]. by split.
  - apply (inv_close_app orderly s (app_of route) Hinv).
  - destruct Hinv as [I1 I2 I3 I4 I5 I6]. split; try done. cbn [s_alive s_pools]. intros c' Hc. apply I4. set_solver.
Qed.

Lemma pools_inv orderly s : reachable orderly s → inv orderly s.
Proof. induction 1 as [|s e s' _ IH Hs]; [by split|by eapply pools_inv_step]. Qed.

(** The pools in every interleaving of requests, policy changes, retirements and
    lost connections: a pool never holds more than two connections, and
    every live connection is in exactly one pool object, from where closeAll can
    kill it. *)
Theorem pools_hold_connections s :
  reachable false s →
  (∀ id p, s_pools s !! id = Some p → Z.of_nat (length (mp_conns p)) <= WsMux.gwMuxPoolSize) ∧
  (∀ c, c ∈ s_alive s → ∃ id p, s_pools s !! id = Some p ∧ c ∈ mp_conns p ∧
     ∀ id' p', s_pools s !! id' = Some p' → c ∈ mp_conns p' → id' = id).
Proof.
  intros Hr. destruct (pools_inv false s Hr) as [I1 I2 I3 I4 I5 I6]. split; [done|].
  intros c Hc. destruct (I4 c Hc) as (id & p & Hp & Hin). exists id, p. split_and!; [done..|].
  intros id' p' Hp' Hin'. by eapply I5.
Qed.

(** C37: Forget takes the sockets of a retired route with it: as long as no
    request is caught between muxPoolFor and get by a closing pool, after Forget
    every live connection is in a pool of the handler's map that belongs to another
    app. *)
Theorem forget_kills_connections s route c :
  reachable true s → route_ok route → c ∈ s_alive (close_app s (app_of route)) →
  ∃ k id p, s_index (close_app s (app_of route)) !! k = Some id ∧ s_pools (close_app s (app_of route)) !! id = Some p ∧
    c ∈ mp_conns p ∧ ¬ pool_of route p.
Proof.
  intros Hr Hro Hc. pose proof (pools_inv true s Hr) as Hinv.
  destruct (inv_close_app true s (app_of route) Hinv) as ([I1 I2 I3 I4 I5 I6] & _ & _).
  destruct (I4 c Hc) as (id & p & Hp & Hin). destruct (I6 eq_refl id p Hp) as [k Hk]; [by intros E; rewrite E in Hin; apply not_elem_of_nil in Hin|].
  exists k, id, p. split_and!; [done..|]. intros [Hu Hs]. destruct (I1 k id Hk) as (q & Hq & Hpu & Hps & raw & -> & _).
  rewrite Hp in Hq. injection Hq as <-. rewrite close_app_index, drop_prefix_lookup in Hk.
  destruct Hro as (Hru & Hrs & _). unfold app_of in Hk.
  rewrite (proj2 (cache_key_prefix _ _ (hashPolicy raw) (Upstream route) (SNI route) Hpu Hps Hru Hrs)) in Hk; done.
Qed.

End pools.

(** * Concrete executions *)

Section witnesses.
Import RouteTableExamples.
Definition ex_pool_json : GoJSON := {| unmarshal_policy _ := None |}.
#[local] Existing Instance ex_pool_json.

Definition ex_shop : Route := ex_route "shop" "10.0.0.1:443" "".
Definition ex_blog : Route := ex_route "blog" "10.0.0.1:443" "".

Lemma ex_routes_ok : route_ok ex_shop ∧ route_ok ex_blog.
Proof. repeat split. Qed.

(** An enclave that is verified and then refuses the upgrade. *)
Definition ex_refusing (o : op) (_ : unit) : ans o * unit :=
  match o with
  | ODial _ | OHandshake _ => (true, tt)
  | OReadResponse => (Some 503, tt)
  | _ => (tt, tt)
  end.

Lemma dial_all_or_nothing_witness :
  let '(tr, r, _) := prun ex_refusing (dial (new_pool ex_shop)) tt in
  r = ErrUpgradeStatus 503 ∧ length (filter (fun e => closes e = true) tr) = 1%nat.
Proof.
  pose proof (dial_all_or_nothing (new_pool ex_shop) _ _ (prun_trace ex_refusing (dial (new_pool ex_shop)) tt)) as (_ & _ & Hc & _).
  split; [reflexivity|exact Hc].
Defined.

(** One call after the other. *)
Definition take_pool (s : store) (t : nat) (route : Route) (new : nat) : store :=
  let '(s', id) := pool_for s route new in
  {| s_index := s_index s'; s_pools := s_pools s'; s_alive := s_alive s'; s_held := <[t := id]> (s_held s') |}.
Definition take_conn (s : store) (t id c : nat) : store :=
  match pool_get s id (fun _ => 1) (Some c) with
  | Some (s', _) => {| s_index := s_index s'; s_pools := s_pools s'; s_alive := s_alive s'; s_held := delete t (s_held s') |}
  | None => s
  end.

Lemma take_pool_reachable orderly s t route new :
  reachable orderly s → route_ok route → s_pools s !! new = None → reachable orderly (take_pool s t route new).
Proof.
  intros Hr Hro Hn. eapply reachable_step; [exact Hr|]. unfold take_pool.
  destruct (pool_for s route new) as [s' id] eqn:E. by eapply step_pool_for.
Qed.

Lemma take_conn_reachable orderly s t id c :
  reachable orderly s → s_held s !! t = Some id → (orderly = true → indexed s id) → fresh_conn s c →
  is_Some (s_pools s !! id) → reachable orderly (take_conn s t id c).
Proof.
  intros Hr Hh Ho Hf [p Hp]. eapply reachable_step; [exact Hr|]. unfold take_conn.
  destruct (pool_get s id (fun _ => 1) (Some c)) as [[s' res]|] eqn:E.
  - eapply (step_get orderly s t id (fun _ => 1) (Some c)); try done. by intros ? [= <-].
  - unfold pool_get in E. rewrite Hp in E. by destruct (WsQueue.get _ _ _ _).
Qed.

(** A connection for the shop and one for the blog. *)
Definition ex_s1 : store := take_pool empty_store 1 ex_shop 1.
Definition ex_s2 : store := take_conn ex_s1 1 1 10.
Definition ex_s3 : store := take_pool ex_s2 2 ex_blog 2.
Definition ex_s4 : store := take_conn ex_s3 2 2 20.

Lemma fresh_conn_check s c :
  bool_decide (c ∉ s_alive s) && forallb (fun kv => negb (bool_decide (c ∈ mp_conns kv.2))) (map_to_list (s_pools s)) = true →
  fresh_conn s c.
Proof.
  intros [Ha%bool_decide_eq_true Hp]%andb_true_iff. split; [done|]. intros id p Hip Hin. rewrite forallb_forall in Hp.
  specialize (Hp (id, p)). rewrite negb_true_iff, bool_decide_eq_false in Hp. apply Hp; [|done].
  by apply list_elem_of_In, elem_of_map_to_list.
Qed.

Lemma ex_s4_reachable : reachable true ex_s4.
Proof.
  assert (reachable true ex_s2) as H2.
  { apply take_conn_reachable; [apply take_pool_reachable; [constructor|apply ex_routes_ok|done]|done| |
      apply fresh_conn_check; vm_compute; reflexivity|eexists; vm_compute; reflexivity].
    intros _. exists (app_of ex_shop ++ "empty")%string. vm_compute. reflexivity. }
  apply take_conn_reachable; [apply take_pool_reachable; [done|apply ex_routes_ok|vm_compute; reflexivity]|vm_compute; reflexivity| |
    apply fresh_conn_check; vm_compute; reflexivity|eexists; vm_compute; reflexivity].
  intros _. exists (app_of ex_blog ++ "empty")%string. vm_compute. reflexivity.
Qed.

Lemma forget_kills_connections_witness :
  s_alive ex_s4 = {[10%nat; 20%nat]} ∧ s_alive (close_app ex_s4 (app_of ex_shop)) = {[20%nat]} ∧
  ∃ p, 20%nat ∈ mp_conns p ∧ ¬ pool_of ex_shop p.
Proof.
  split; [vm_compute; reflexivity|]. split; [vm_compute; reflexivity|].
  destruct (forget_kills_connections ex_s4 ex_shop 20) as (k & id & p & _ & _ & Hin & Hn).
  - exact ex_s4_reachable.
  - apply ex_routes_ok.
  - apply (bool_decide_unpack _). vm_compute. exact I.
  - exists p. split; [exact Hin|exact Hn].
Defined.

(** The shop is retired after the request took its pool and before it took a connection. *)
Definition ex_late : store := take_conn (close_app ex_s1 (app_of ex_shop)) 1 1 10.

Lemma ex_late_reachable : reachable false ex_late.
Proof.
  apply take_conn_reachable; [|vm_compute; reflexivity|done|apply fresh_conn_check; vm_compute; reflexivity|
    eexists; vm_compute; reflexivity].
  apply (reachable_step false ex_s1 (EvForget ex_shop)); [|apply step_forget, ex_routes_ok].
  apply take_pool_reachable; [constructor|apply ex_routes_ok|done].
Qed.

Lemma pools_hold_connections_witness :
  ∃ id p, s_pools ex_late !! id = Some p ∧ 10%nat ∈ mp_conns p.
Proof.
  destruct (pools_hold_connections ex_late ex_late_reachable) as [_ Ho].
  destruct (Ho 10%nat) as (id & p & Hp & Hin & _); [apply (bool_decide_unpack _); vm_compute; exact I|].
  exists id, p. split; [exact Hp|exact Hin].
Defined.

(** The proviso is needed: a request that holds a pool while it is closed
    dials a connection into it that no later Forget or policy change reaches. *)
Theorem late_get_orphans :
  ∃ s c, reachable false s ∧ c ∈ s_alive s ∧ ∀ app, c ∈ s_alive (close_app s app).
Proof.
  exists ex_late, 10%nat. split; [exact ex_late_reachable|].
  split; [apply (bool_decide_unpack _); vm_compute; exact I|]. intros app. unfold close_app.
  replace (range_map (s_index ex_late)) with (@nil (string * nat)) by (vm_compute; reflexivity).
  cbn [flat_map fold_left s_alive]. apply (bool_decide_unpack _). vm_compute. exact I.
Qed.

End witnesses.
