(* ===== verification/WsServe.v ===== *)
(** internal/terminate/wsmux.go: serveSealedWSMux, one sealed WebSocket from its
    upgrade to its end.

    What the browser sends after the sealed open is a list of messages, ended by
    the error of its last Read.  The goroutine that carries frames to the browser
    is started by [OPump]; its queue is WsQueue.v. *)
From Stdlib Require Import Strings.String.
From S2P Require Import Prelude GoBytes GoStrings GoRuntime Effects RouteTable Tracker Http Quarantine Proxy.
From S2P Require Import Cors WsFrame Policy ProxyCache Forward Terminate.
Local Open Scope Z_scope.

Inductive op : Type :=
| OGet (route : Route)
| OConnWrite (s : string)
| OStreams (result : string)
| OAccept
| OReadOpen
| OBrowserClose (code : Z) (reason : string)
| ORegister (sid : string) (stream : Z)
| OTrack (host kind_ : string)
| OLookup (sni : string)
| ORefuse (labels : string * string)
| OFinish (code : Z) (reason : string)
| OWriteFrame (typ : Z) (sid : string) (stream : Z) (payload : bytes)
| OPump
| OIsDone
| ORelease | OUnregister | OCloseNow.

Definition ans (o : op) : Type :=
  match o with
  | OGet _ | OAccept | ORegister _ _ | OWriteFrame _ _ _ _ | OIsDone => bool
  | OReadOpen => option (bool * bytes)  (* whether the message is binary *)
  | OLookup _ => option Route
  | _ => unit
  end.

Abbreviation call := (@pdo op ans).

(** A Read of the browser connection: a message, binary or text, or an error
    with its close status, -1 when it carries none. *)
Inductive browser_read : Type :=
| BMessage (binary : bool) (data : bytes)
| BError (status : Z).

Section serve.
Context `{GoUnicode}.
Variable h : handler_conf.
Local Open Scope prog_scope.

Definition quarantined (route : Route) : prog ans bool :=
  if Quarantined route then PRet true else
  if negb (h_lookup h) then PRet false else
  do live <- call (OLookup (SNI route));
  PRet (is_quarantined live).

(** The browser -> enclave pump. *)
Fixpoint pump (p : sealedWSParams) (reads : list browser_read) : prog ans unit :=
  let lost (status : Z) : prog ans unit :=
    let code := if status =? -1 then StatusGoingAway else status in
    do done <- call OIsDone;
    if done then PRet tt
    else call (OWriteFrame muxTypeClose (sessionID p) (streamID p) (encodeMuxClose code "")) ;; PRet tt in
  match reads with
  | [] => lost (-1)
  | BError status :: _ => lost status
  | BMessage binary data :: reads =>
      if negb binary then
        call (OBrowserClose StatusUnsupportedData "binary sealed frames only") ;;
        call (OWriteFrame muxTypeClose (sessionID p) (streamID p) (encodeMuxClose StatusUnsupportedData "")) ;;
        PRet tt
      else
      do ok <- call (OWriteFrame muxTypeData (sessionID p) (streamID p) data);
      if negb ok then call (OBrowserClose StatusBadGateway "enclave mux lost")
      else pump p reads
  end.

(** The body between Track and the deferred release. *)
Definition tracked_stream (route : Route) (p : sealedWSParams) (host uri : string) (openEnv : bytes)
    (reads : list browser_read) : prog ans unit :=
  do q <- quarantined route;
  if q then
    call (ORefuse (Refused (SNI route) ModeTerminate)) ;;
    call (OFinish StatusTryAgainLater "enclave quarantined") ;;
    call (OStreams "quarantined")
  else
  do ok <- call (OWriteFrame muxTypeOpen (sessionID p) (streamID p) (encodeMuxOpen host uri openEnv));
  if negb ok then
    call (OBrowserClose StatusBadGateway "enclave mux unavailable") ;;
    call (OStreams "open_write_error")
  else
  call (OStreams "opened") ;;
  call OPump ;;
  pump p reads.

(** From the accepted browser socket to the deferred CloseNow. *)
Definition accepted (req : Request) (route : Route) (p : sealedWSParams) (host : string) (reads : list browser_read)
    : prog ans unit :=
  do first <- call OReadOpen;
  match first with
  | Some (true, openEnv) =>
      do ok <- call (ORegister (sessionID p) (streamID p));
      if negb ok then
        call (OBrowserClose StatusProtocolError "duplicate stream id") ;;
        call (OStreams "duplicate")
      else
      call (OTrack (SNI route) KindSealedWS) ;;
      tracked_stream route p host (RequestURI req) openEnv reads ;;
      call ORelease ;;
      call OUnregister
  | _ =>
      call (OBrowserClose StatusProtocolError "sealed stream open expected") ;;
      call (OStreams "no_open")
  end.

Definition serveSealedWSMux (req : Request) (route : Route) (p : sealedWSParams) (reads : list browser_read)
    : prog ans unit :=
  do ok <- call (OGet route);
  if negb ok then
    call (OConnWrite (writeStatus 502 "enclave mux unavailable")) ;;
    call (OStreams "mux_unavailable")
  else
  let origin := HGet (ReqHeader req) "Origin" in
  if negb (String.eqb origin "") && negb (isAllowedOrigin (h_cors h) origin) then
    call (OConnWrite (writeStatus 403 "origin not allowed"))
  else
  let host := if String.eqb (ReqHost req) "" then SNI route else ReqHost req in
  do ok <- call OAccept;
  if negb ok then call (OStreams "accept_error") else
  accepted req route p host reads ;;
  call OCloseNow.

End serve.

(** * Observing a trace *)

Definition frame_of (e : event ans) : list (Z * string * Z * bytes) :=
  match e with existT (OWriteFrame typ sid stream payload) _ => [(typ, sid, stream, payload)] | _ => [] end.
Definition frames (tr : list (event ans)) : list (Z * string * Z * bytes) := flat_map frame_of tr.
Definition write_failed (e : event ans) : bool :=
  match e with existT (OWriteFrame _ _ _ _) ok => negb ok | _ => false end.

(** The sealed open as it was read, and whether the stream was done when the browser
    was lost. *)
Definition open_read (e : event ans) : list (option (bool * bytes)) :=
  match e with existT OReadOpen a => [a] | _ => [] end.
Definition done_read (e : event ans) : list bool :=
  match e with existT OIsDone a => [a] | _ => [] end.

(** The answers that turn a browser away before its stream opens: no mux
    connection, a failed upgrade, no binary first message, a stream id in use, a
    quarantined route. *)
Definition turned_away (e : event ans) : bool :=
  match e with
  | existT (OGet _) ok => negb ok
  | existT OAccept ok => negb ok
  | existT OReadOpen a => match a with Some (true, _) => false | _ => true end
  | existT (ORegister _ _) ok => negb ok
  | existT (OLookup _) a => is_quarantined a
  | _ => false
  end.

(** Registered, tracked, checked, and only then frames to the enclave; then
    released and unregistered. *)
Inductive stage : Type := Fresh | InMap | Tracked | Live | Refusing | Released | Gone.

Definition stage_step (s : stage) (e : event ans) : option stage :=
  match e, s with
  | existT (ORegister _ _) ok, Fresh => Some (if ok : bool then InMap else Fresh)
  | existT (ORegister _ _) _, _ => None
  | existT (OTrack _ _) _, InMap => Some Tracked
  | existT (OTrack _ _) _, _ => None
  | existT (OLookup _) a, Tracked => Some (if is_quarantined a then Refusing else Live)
  | existT (OLookup _) _, _ => None
  | existT (OWriteFrame _ _ _ _) _, Live => Some Live
  | existT (OWriteFrame _ _ _ _) _, _ => None
  | existT ORelease _, (Live | Refusing) => Some Released
  | existT ORelease _, _ => None
  | existT OUnregister _, Released => Some Gone
  | existT OUnregister _, _ => None
  | _, _ => Some s
  end.

Abbreviation stages := (automaton stage_step).

Ltac mwalk H :=
  repeat
   (cbv beta zeta delta [quarantined accepted serveSealedWSMux] in H;
    cbn [pbind trace pdo negb andb orb fst snd] in H;
    match type of H with
    | ∃ _, _ => let x := fresh "x" in destruct H as [x H]; cbn [ans] in x;
        match type of x with unit => destruct x | _ => idtac end
    | _ = _ ∧ _ => let E := fresh "E" in destruct H as [E H]; subst
    | trace (match ?b with _ => _ end) _ _ => destruct b eqn:?
    | trace (pbind (match ?b with _ => _ end) _) _ _ => destruct b eqn:?
    | trace (pbind (pbind (match ?b with _ => _ end) _) _) _ _ => destruct b eqn:?
    end).

Section traces.
Context `{GoUnicode}.
Variable h : handler_conf.

Lemma pump_live p reads tr : trace (pump p reads) tr tt → stages Live tr = Some Live.
Proof.
  revert tr. induction reads as [|[binary data|status] reads IH]; intros tr Ht; cbn [pump] in Ht; try by mwalk Ht.
  destruct binary; cbn [negb] in Ht; [|by mwalk Ht]. cbn [pbind trace pdo] in Ht.
  destruct Ht as (ok & tr' & -> & Ht). destruct ok; cbn [negb] in Ht; [exact (IH _ Ht)|by mwalk Ht].
Qed.

Lemma tracked_stages route p host uri env reads tr :
  h_lookup h = true → Quarantined route = false →
  trace (tracked_stream h route p host uri env reads) tr tt →
  stages Tracked tr = Some Live ∨ stages Tracked tr = Some Refusing.
Proof.
  intros Hl Hq Ht. cbv beta delta [tracked_stream quarantined] in Ht. rewrite Hq, Hl in Ht.
  cbn [pbind trace pdo negb] in Ht. destruct Ht as (a & tr1 & -> & Ht).
  destruct (is_quarantined a) eqn:Ea; cbn [pbind] in Ht; [mwalk Ht; cbn; rewrite Ea; auto|].
  destruct Ht as (ok & tr2 & -> & Ht). destruct ok; cbn [negb pbind trace pdo] in Ht.
  - destruct Ht as ([] & tr3 & -> & [] & tr4 & -> & Ht). apply pump_live in Ht. cbn. rewrite Ea. left. exact Ht.
  - mwalk Ht. cbn. rewrite Ea. auto.
Qed.

(** C9: The discipline of a sealed WebSocket: frames go to the enclave only
    after the stream was registered, tracked and looked up again on a route that is
    not quarantined; a stream found quarantined sends nothing; and every registered
    stream is released and unregistered at the end. *)
Theorem serveSealedWSMux_discipline req route p reads tr :
  h_lookup h = true → Quarantined route = false →
  trace (serveSealedWSMux h req route p reads) tr tt →
  stages Fresh tr = Some Fresh ∨ stages Fresh tr = Some Gone.
Proof.
  intros Hl Hq Ht. cbv beta zeta delta [serveSealedWSMux] in Ht. cbn [pbind trace pdo] in Ht.
  destruct Ht as (ok & tr1 & -> & Ht). destruct ok; cbn [negb] in Ht; [|mwalk Ht; auto].
  destruct (_ && _); [mwalk Ht; auto|]. cbn [pbind trace pdo] in Ht.
  destruct Ht as (ok & tr2 & -> & Ht). destruct ok; cbn [negb] in Ht; [|mwalk Ht; auto].
  apply trace_bind in Ht as (tr3 & [] & tr4 & -> & Ha & Hc). mwalk Hc. clear Hc.
  cbn. rewrite (automaton_app stage_step Fresh tr3).
  cbv beta delta [accepted] in Ha. cbn [pbind trace pdo] in Ha. destruct Ha as (first & tr5 & -> & Ha).
  destruct first as [[[] env]|]; [|mwalk Ha; auto|mwalk Ha; auto].
  cbn [pbind trace pdo] in Ha. destruct Ha as (ok & tr6 & -> & Ha). destruct ok; cbn [negb] in Ha; [|mwalk Ha; auto].
  cbn [pbind trace pdo] in Ha. destruct Ha as ([] & tr7 & -> & Ha).
  apply trace_bind in Ha as (tr8 & [] & tr9 & -> & Hs & Hr). mwalk Hr. clear Hr.
  cbn. rewrite automaton_app.
  apply tracked_stages in Hs as [->| ->]; cbn; auto.
Qed.

(** What the browser's messages become. *)
Definition data_frames (p : sealedWSParams) (reads : list browser_read) : list (Z * string * Z * bytes) :=
  flat_map (fun r => match r with BMessage _ data => [(muxTypeData, sessionID p, streamID p, data)] | _ => [] end) reads.

Definition is_binary (r : browser_read) : bool := match r with BMessage b _ => b | _ => false end.

(** How a stream ends once its browser sent [rest]: a CLOSE for a message that is
    not binary, or for the close or the loss of the browser unless the enclave had
    ended the stream before. *)
Definition closing (p : sealedWSParams) (rest : list browser_read) (done : bool) : list (Z * string * Z * bytes) :=
  let close code := [(muxTypeClose, sessionID p, streamID p, encodeMuxClose code "")] in
  match rest with
  | BMessage _ _ :: _ => close StatusUnsupportedData
  | BError status :: _ => if done then [] else close (if status =? -1 then StatusGoingAway else status)
  | [] => if done then [] else close StatusGoingAway
  end.

Lemma pump_frames p reads tr :
  trace (pump p reads) tr tt → existsb write_failed tr = false →
  existsb turned_away tr = false ∧ flat_map open_read tr = [] ∧
  ∃ pre rest, reads = pre ++ rest ∧ Forall (fun r => is_binary r = true) pre ∧
    match rest with r :: _ => is_binary r = false | [] => True end ∧
    frames tr = data_frames p pre ++ closing p rest (hd false (flat_map done_read tr)).
Proof.
  revert tr. induction reads as [|[binary data|status] reads IH]; intros tr Ht; cbn [pump] in Ht.
  - intros _. split; [by mwalk Ht|]. split; [by mwalk Ht|]. exists [], []. split_and!; [done..|]. by mwalk Ht.
  - destruct binary; cbn [negb] in Ht; cycle 1.
    { intros _. split; [by mwalk Ht|]. split; [by mwalk Ht|]. exists [], (BMessage false data :: reads). split_and!; [done..|]. by mwalk Ht. }
    cbn [pbind trace pdo] in Ht. destruct Ht as (ok & tr' & -> & Ht). destruct ok; cbn [negb] in Ht.
    + intros Hok. cbn in Hok. destruct (IH tr' Ht Hok) as (Ha & Ho & pre & rest & -> & Hf & Hr & Hfr).
      split; [done|]. split; [done|]. exists (BMessage true data :: pre), rest. split; [done|]. split; [by constructor|]. split; [done|].
      unfold frames in *. cbn. by rewrite Hfr.
    + by mwalk Ht.
  - intros _. split; [by mwalk Ht|]. split; [by mwalk Ht|]. exists [], (BError status :: reads). split_and!; [done..|]. by mwalk Ht.
Qed.

(** The stream from its registration with the tracker to its release. *)
Lemma tracked_relays route p host uri env reads tr :
  trace (tracked_stream h route p host uri env reads) tr tt → existsb write_failed tr = false →
  flat_map open_read tr = [] ∧
  ((frames tr = [] ∧ (Quarantined route = true ∨ existsb turned_away tr = true)) ∨
   (Quarantined route = false ∧ existsb turned_away tr = false ∧
    ∃ pre rest, reads = pre ++ rest ∧ Forall (fun r => is_binary r = true) pre ∧
      match rest with r :: _ => is_binary r = false | [] => True end ∧
      frames tr = (muxTypeOpen, sessionID p, streamID p, encodeMuxOpen host uri env) ::
        data_frames p pre ++ closing p rest (hd false (flat_map done_read tr)))).
Proof.
  intros Hs. cbv beta delta [tracked_stream] in Hs. apply trace_bind in Hs as (tr1 & q & tr2 & -> & Hq & Hs).
  assert (frames tr1 = [] ∧ existsb write_failed tr1 = false ∧ flat_map open_read tr1 = [] ∧
    flat_map done_read tr1 = [] ∧
    (if q then Quarantined route = true ∨ existsb turned_away tr1 = true
     else Quarantined route = false ∧ existsb turned_away tr1 = false)) as (E1 & E2 & E3 & E4 & Eq).
  { mwalk Hq; split_and!; try done; cbn.
    - by left.
    - destruct (is_quarantined x); [by right|by rewrite orb_false_r]. }
  unfold frames. rewrite !flat_map_app, !existsb_app. fold (frames tr1) (frames tr2). rewrite E1, E2, E3, E4.
  cbn [app orb]. intros Hok. destruct q; cbn [pbind] in Hs.
  { split; [by mwalk Hs|]. left. split; [by mwalk Hs|]. destruct Eq as [?| ->]; [by left|by right]. }
  destruct Eq as [Eq ->]. cbn [pbind trace pdo] in Hs.
  destruct Hs as (ok & tr3 & -> & Hs). destruct ok; cbn [negb] in Hs; [|done].
  cbn [pbind trace pdo] in Hs. destruct Hs as ([] & tr4 & -> & [] & tr5 & -> & Hs).
  destruct (pump_frames p reads tr5 Hs Hok) as (Ha & Ho & pre & rest & -> & Hf & Hr & Hfr).
  split; [done|]. right. split; [done|]. split; [done|]. exists pre, rest. split_and!; [done..|].
  unfold frames in *. cbn. by rewrite Hfr.
Qed.

(** C20: A sealed WebSocket is relayed faithfully.  When no frame write fails and
    the browser is not turned away (by its origin, a quarantine, or one of the
    failures of [turned_away]), what the enclave receives from the handler is
    exactly the OPEN with the host, the path and the very message the browser sent
    first, then every binary message up to the first that is not one, in order and
    unchanged, and then the CLOSE that fits how the browser side ended, or none
    when the enclave had ended the stream before.  A browser that is turned away
    has nothing sent. *)
Theorem serveSealedWSMux_relays req route p reads tr :
  trace (serveSealedWSMux h req route p reads) tr tt → existsb write_failed tr = false →
  let origin := HGet (ReqHeader req) "Origin" in
  let refused := Quarantined route = true ∨ (origin ≠ "" ∧ isAllowedOrigin (h_cors h) origin = false) in
  (frames tr = [] ∧ (refused ∨ existsb turned_away tr = true)) ∨
  (¬ refused ∧ existsb turned_away tr = false ∧
   ∃ env pre rest, flat_map open_read tr = [Some (true, env)] ∧
    reads = pre ++ rest ∧ Forall (fun r => is_binary r = true) pre ∧
    match rest with r :: _ => is_binary r = false | [] => True end ∧
    let host := if String.eqb (ReqHost req) "" then SNI route else ReqHost req in
    frames tr = (muxTypeOpen, sessionID p, streamID p, encodeMuxOpen host (RequestURI req) env) ::
      data_frames p pre ++ closing p rest (hd false (flat_map done_read tr))).
Proof.
  intros Ht. cbv beta zeta delta [serveSealedWSMux] in Ht. cbn [pbind trace pdo] in Ht.
  destruct Ht as (ok & tr1 & -> & Ht). destruct ok; cbn [negb] in Ht; [|mwalk Ht; auto].
  set (origin := HGet (ReqHeader req) "Origin") in *.
  destruct (negb (String.eqb origin "") && negb (isAllowedOrigin (h_cors h) origin)) eqn:Eo.
  { intros _ refused. left. split; [by mwalk Ht|]. left. right.
    apply andb_true_iff in Eo as [Eo%negb_true_iff%String.eqb_neq Ea%negb_true_iff]. done. }
  assert (Horig : ¬ (origin ≠ "" ∧ isAllowedOrigin (h_cors h) origin = false)).
  { intros [Hne Ha]. rewrite Ha in Eo. by rewrite (proj2 (String.eqb_neq _ _) Hne) in Eo. }
  cbn [pbind trace pdo] in Ht.
  destruct Ht as (ok & tr2 & -> & Ht). destruct ok; cbn [negb] in Ht; [|mwalk Ht; auto].
  apply trace_bind in Ht as (tr3 & [] & tr4 & -> & Ha & Hc). mwalk Hc. clear Hc.
  cbv beta delta [accepted] in Ha. cbn [pbind trace pdo] in Ha. destruct Ha as (first & tr5 & -> & Ha).
  destruct first as [[[] env]|]; [|mwalk Ha; auto|mwalk Ha; auto].
  cbn [pbind trace pdo] in Ha. destruct Ha as (ok & tr6 & -> & Ha). destruct ok; cbn [negb] in Ha; [|mwalk Ha; auto].
  cbn [pbind trace pdo] in Ha. destruct Ha as ([] & tr7 & -> & Ha).
  apply trace_bind in Ha as (tr8 & [] & tr9 & -> & Hs & Hr). mwalk Hr. clear Hr.
  unfold frames. cbn [flat_map frame_of open_read done_read existsb write_failed turned_away negb orb app].
  rewrite !flat_map_app, !existsb_app.
  cbn [flat_map frame_of open_read done_read existsb write_failed turned_away orb app].
  rewrite !app_nil_r, !orb_false_r. fold (frames tr8). intros Hok.
  destruct (tracked_relays route p _ _ env reads tr8 Hs Hok) as (Ho & [[Hf Hw]|(Hq & Hw & pre & rest & Hrel)]).
  - left. split; [done|]. destruct Hw; [by left; left|by right].
  - right. split; [|split; [done|]].
    + intros [Hq'|Hno]; [congruence|by apply Horig].
    + exists env, pre, rest. rewrite Ho. by split.
Qed.

End traces.

(** * Concrete inputs *)

Section witnesses.
#[local] Existing Instance ascii_unicode.

Definition ex_ws_env (o : op) (s : list (option Route)) : ans o * list (option Route) :=
  match o with
  | OLookup _ => match s with a :: s => (a, s) | [] => (None, []) end
  | OGet _ | OAccept | ORegister _ _ | OWriteFrame _ _ _ _ => (true, s)
  | OIsDone => (false, s)
  | OReadOpen => (Some (true, [x0a]), s)
  | _ => (tt, s)
  end.

Definition ex_params : sealedWSParams := {| sessionID := "sess-1"; streamID := 255; streamHex := "00000000000000ff" |}.
Definition ex_reads : list browser_read := [BMessage true [x01]; BMessage true [x02]; BError 1000].
Definition ex_ws (s : list (option Route)) : list (event ans) :=
  (prun ex_ws_env (serveSealedWSMux ex_conf ex_upgrade ex_app_live ex_params ex_reads) s).1.1.

Lemma ex_ws_trace s : trace (serveSealedWSMux ex_conf ex_upgrade ex_app_live ex_params ex_reads) (ex_ws s) tt.
Proof. apply prun_trace_unit. Qed.

Lemma serveSealedWSMux_discipline_witness : stages Fresh (ex_ws [Some ex_app_held]) = Some Gone ∧ frames (ex_ws [Some ex_app_held]) = [].
Proof.
  split; [|vm_compute; reflexivity].
  destruct (serveSealedWSMux_discipline ex_conf ex_upgrade ex_app_live ex_params ex_reads (ex_ws [Some ex_app_held]))
    as [E|E].
  - reflexivity.
  - reflexivity.
  - apply ex_ws_trace.
  - vm_compute in E. discriminate E.
  - exact E.
Defined.

Lemma serveSealedWSMux_relays_witness :
  ∃ pre rest, ex_reads = pre ++ rest ∧ frames (ex_ws [Some ex_app_live]) =
    (muxTypeOpen, "sess-1"%string, 255, encodeMuxOpen "app.privasys.org" "/ws" [x0a]) :: data_frames ex_params pre ++
    closing ex_params rest false.
Proof.
  destruct (serveSealedWSMux_relays ex_conf ex_upgrade ex_app_live ex_params ex_reads (ex_ws [Some ex_app_live]))
    as [[E _]|(_ & _ & env & pre & rest & Eo & Er & _ & _ & Ef)].
  - apply ex_ws_trace.
  - vm_compute. reflexivity.
  - vm_compute in E. discriminate E.
  - exists pre, rest. split; [exact Er|]. cbv zeta in Ef.
    assert (flat_map open_read (ex_ws [Some ex_app_live]) = [Some (true, [x0a])]) as E by (vm_compute; reflexivity).
    rewrite E in Eo. injection Eo as <-. exact Ef.
Defined.

End witnesses.
