(* ===== verification/Sync.v ===== *)
(** internal/sync: polling the management service for routes
    (src/internal/sync/sync.go).

    One poll is a function of the syncer and of its surroundings: whether the
    request can be built, what the management service answers to the headers it
    carries, and the clock.  A [time.Time] is [None] when it is zero.  Log lines
    are part of the result, since logStateChanges computes them. *)
From Stdlib Require Import Strings.Ascii Strings.String.
From S2P Require Import Prelude GoBytes GoStrings GoRuntime Http RouteTable.
Local Open Scope Z_scope.

(** An int64 after an increment. *)
Definition int64 (z : Z) : Z := wrap 64 (z + 2 ^ 63) - 2 ^ 63.

Record RoutesResponse := { Routes : list Route; RespVersion : string }.

(** json.NewDecoder(body).Decode into a RoutesResponse: the value or the text
    of the error. *)
Class GoRoutesJSON := { decode_routes : string → RoutesResponse + string }.

Record Response := { StatusCode : Z; Body : string }.

(** What surrounds one poll. *)
Record surroundings := {
  NewRequestErr : option string;          (* http.NewRequestWithContext *)
  Do : Header → Response + string;        (* s.client.Do *)
  Now : Z;                                (* time.Now *)
}.

Record Syncer := {
  table : Table;
  token : string;
  lastSync : option Z;
  lastErr : option string;
  syncCount : Z;
  errorCount : Z;
}.

Definition NewSyncer (t : Table) (authToken : string) : Syncer := {|
  table := t; token := authToken; lastSync := None; lastErr := None; syncCount := 0; errorCount := 0;
|}.

Inductive log_line : Type :=
| LogError (msg : string)
| LogUpdated (routes quarantined : Z) (version : string)
| LogQuarantined (sni upstream : string)
| LogReleased (sni upstream : string).

Definition recordError (s : Syncer) (msg : string) : Syncer := {|
  table := table s; token := token s; lastSync := lastSync s; lastErr := Some msg;
  syncCount := syncCount s; errorCount := int64 (errorCount s + 1);
|}.

(** A sync that succeeded at time [now] with the table [t]. *)
Definition recordSuccess (s : Syncer) (t : Table) (now : Z) : Syncer := {|
  table := t; token := token s; lastSync := Some now; lastErr := None;
  syncCount := syncCount s; errorCount := errorCount s;
|}.

Definition countSync (s : Syncer) : Syncer := {|
  table := table s; token := token s; lastSync := lastSync s; lastErr := lastErr s;
  syncCount := int64 (syncCount s + 1); errorCount := errorCount s;
|}.

(** The headers of the request. *)
Definition fetch_headers (s : Syncer) : Header :=
  let h := if String.eqb (token s) "" then ∅ else HSet ∅ "Authorization" ("Bearer " ++ token s) in
  let v := Version (table s) in
  if String.eqb v "" then h else HSet h "If-None-Match" (dquote ++ v ++ dquote).

Section sync.
Context `{GoUnicode} `{GoRange} `{GoSort} `{GoRoutesJSON}.

(** The map [was] of logStateChanges. *)
Definition was_map (before : list Route) : gmap string bool :=
  fold_left (fun m r => <[ToLower (SNI r) := Quarantined r]> m) before ∅.

Definition logStateChanges (before after : list Route) : list log_line :=
  let was := was_map before in
  flat_map (fun r =>
    let '(prev, known) :=
      match was !! ToLower (SNI r) with Some q => (q, true) | None => (false, false) end in
    if Quarantined r && negb prev then [LogQuarantined (SNI r) (Upstream r)]
    else if negb (Quarantined r) && prev && known then [LogReleased (SNI r) (Upstream r)]
    else []) after.

Definition fail (s : Syncer) (msg : string) : Syncer * list hook_call * list log_line :=
  (recordError s msg, [], [LogError msg]).

(** The version a decoded feed is stored under. *)
Definition feed_version (r : RoutesResponse) : string :=
  if String.eqb (RespVersion r) "" then ComputeVersion (Routes r) else RespVersion r.

(** The new syncer, the hook calls its table update made, the log lines. *)
Definition fetchOnce (s : Syncer) (w : surroundings) : Syncer * list hook_call * list log_line :=
  let s := countSync s in
  match NewRequestErr w with
  | Some err => fail s err
  | None =>
      match Do w (fetch_headers s) with
      | inr err => fail s ("fetch routes: " ++ err)
      | inl resp =>
          if StatusCode resp =? 304 then (recordSuccess s (table s) (Now w), [], [])
          else if negb (StatusCode resp =? 200) then
            fail s ("fetch routes: HTTP " ++ itoa (StatusCode resp) ++ ": " ++ stake 1024 (Body resp))
          else
            match decode_routes (Body resp) with
            | inr err => fail s ("decode routes: " ++ err)
            | inl result =>
                let v := feed_version result in
                let previous := Snapshot (table s) in
                let '(t, changed, calls) := Update (table s) (Routes result) v in
                (recordSuccess s t (Now w), calls,
                 if changed then
                   LogUpdated (Z.of_nat (length (Routes result))) (QuarantinedCount t) v
                     :: logStateChanges previous (Snapshot t)
                 else [])
            end
      end
  end.

(** Run: the polls one after the other. *)
Definition Run (s : Syncer) (ws : list surroundings) : Syncer :=
  fold_left (fun s w => (fetchOnce s w).1.1) ws s.

(** What the health endpoints read. *)
Definition LastSync (s : Syncer) : option Z := lastSync s.
Definition LastError (s : Syncer) : option string := lastErr s.
Definition SyncCount (s : Syncer) : Z := syncCount s.
Definition ErrorCount (s : Syncer) : Z := errorCount s.

End sync.

(** * Reference: the outcome of each poll *)

Inductive outcome : Type :=
| Delivered (r : RoutesResponse)
| NotModified
| Failed.

Definition delivered (o : outcome) : option RoutesResponse :=
  match o with Delivered r => Some r | _ => None end.
Definition failed (o : outcome) : bool := match o with Failed => true | _ => false end.

Section sync_theorems.
Context `{GoUnicode} `{GoRange} `{GoSort} `{GoRoutesJSON}.

Definition outcome_of (s : Syncer) (w : surroundings) : outcome :=
  match NewRequestErr w, Do w (fetch_headers s) with
  | None, inl resp =>
      if StatusCode resp =? 304 then NotModified
      else if StatusCode resp =? 200 then
        match decode_routes (Body resp) with inl r => Delivered r | inr _ => Failed end
      else Failed
  | _, _ => Failed
  end.

Fixpoint history (s : Syncer) (ws : list surroundings) : list outcome :=
  match ws with
  | [] => []
  | w :: ws => outcome_of s w :: history (fetchOnce s w).1.1 ws
  end.

Lemma Run_app s ws ws' : Run s (ws ++ ws') = Run (Run s ws) ws'.
Proof. unfold Run. by rewrite fold_left_app. Qed.

Lemma history_snoc s ws w : history s (ws ++ [w]) = history s ws ++ [outcome_of (Run s ws) w].
Proof. revert s. induction ws as [|w' ws IH]; intros s; simpl; [done|]. by rewrite IH. Qed.

Lemma length_history s ws : length (history s ws) = length ws.
Proof. revert s. induction ws as [|w ws IH]; intros s; simpl; [done|]. by rewrite IH. Qed.

(** A poll, by its outcome. *)
Lemma fetchOnce_outcome s w :
  let s' := (fetchOnce s w).1.1 in
  match outcome_of s w with
  | Delivered r =>
      s' = recordSuccess (countSync s) (Update (table s) (Routes r) (feed_version r)).1.1 (Now w) ∧
      (fetchOnce s w).1.2 = (Update (table s) (Routes r) (feed_version r)).2
  | NotModified => s' = recordSuccess (countSync s) (table s) (Now w) ∧ (fetchOnce s w).1.2 = []
  | Failed => (∃ msg, s' = recordError (countSync s) msg) ∧ (fetchOnce s w).1.2 = []
  end.
Proof.
  unfold fetchOnce, outcome_of. change (fetch_headers (countSync s)) with (fetch_headers s).
  destruct (NewRequestErr w); simpl; [eauto|].
  destruct (Do w (fetch_headers s)) as [resp|]; simpl; [|eauto].
  destruct (StatusCode resp =? 304); [done|]. destruct (StatusCode resp =? 200); simpl; [|eauto].
  destruct (decode_routes (Body resp)); simpl; [|eauto].
  by destruct (Update _ _ _) as [[t changed] calls].
Qed.

(** The table stays the table of one feed. *)
Lemma polls_feed rs0 t0 tok ws :
  table_of_feed rs0 t0 → ∃ rs, table_of_feed rs (table (Run (NewSyncer t0 tok) ws)).
Proof.
  intros Hfeed. induction ws as [|w ws [rs IH]] using rev_ind; [eauto|].
  rewrite Run_app. set (s := Run (NewSyncer t0 tok) ws) in *. cbn [Run fold_left].
  pose proof (fetchOnce_outcome s w) as Ho. cbv zeta in Ho. destruct (outcome_of s w) as [r| |].
  - destruct Ho as [-> _]. cbn [table recordSuccess].
    destruct (Update_table_of_feed (table s) (Routes r) (feed_version r)) as [->|]; eauto.
  - destruct Ho as [-> _]. eauto.
  - destruct Ho as [[? ->] _]. eauto.
Qed.

Lemma feed_version_nonempty r : feed_version r ≠ "".
Proof. unfold feed_version. destruct (String.eqb_spec (RespVersion r) ""); [|done]. unfold ComputeVersion. done. Qed.

(** What the table shows after the feeds [fs] were delivered to [t0]. *)
Definition shows (t0 t : Table) (fs : list RoutesResponse) : Prop :=
  match last fs with
  | None => t = t0
  | Some f => Version t = feed_version f ∧
      ∃ f0, f0 ∈ fs ∧ feed_version f0 = feed_version f ∧
        ∀ sni, Lookup t sni = last_for (Routes f0) (ToLower sni)
  end.

Lemma shows_Update t0 t fs f :
  Version t0 = "" → shows t0 t fs → shows t0 (Update t (Routes f) (feed_version f)).1.1 (fs ++ [f]).
Proof.
  unfold shows. rewrite last_snoc. intros Hv0 Hs.
  destruct (same_version t (feed_version f)) eqn:E.
  - rewrite Update_same by done. simpl. unfold same_version in E.
    apply andb_true_iff in E as [Ev%String.eqb_eq _]. split; [done|]. unfold Version in *.
    destruct (last fs) as [f1|] eqn:El.
    + destruct Hs as (Hv & f0 & Hin & Hf0 & Hl). exists f0. split_and!; [set_solver|congruence|done].
    + subst t. exfalso. by apply (feed_version_nonempty f); congruence.
  - rewrite Update_fresh by done. simpl. split; [done|]. exists f.
    split_and!; [set_solver|done|]. intros sni. unfold Lookup. simpl. apply build_map_lookup.
Qed.

(** C19: Whatever the management service answers and however often polls fail,
    the table holds exactly one delivered feed, in full: a failed or not-modified
    poll changes nothing, and after each delivered feed the table carries that
    feed's version and answers every hostname from a feed delivered under that
    version. *)
Theorem polls_serve_last_feed t0 tok ws :
  Version t0 = "" →
  shows t0 (table (Run (NewSyncer t0 tok) ws)) (omap delivered (history (NewSyncer t0 tok) ws)).
Proof.
  intros Hv0. induction ws as [|w ws IH] using rev_ind; [done|].
  rewrite Run_app, history_snoc, omap_app. set (s := Run (NewSyncer t0 tok) ws) in *. simpl.
  pose proof (fetchOnce_outcome s w) as Ho. destruct (outcome_of s w) as [r| |]; simpl in *.
  - destruct Ho as [-> _]. simpl. by apply shows_Update.
  - destruct Ho as [-> _]. by rewrite app_nil_r.
  - destruct Ho as [[msg ->] _]. by rewrite app_nil_r.
Qed.

Lemma int64_small z : 0 <= z < 2 ^ 63 → int64 z = z.
Proof. intros Hz. unfold int64, wrap. rewrite Z.mod_small; lia. Qed.

(** The time of the last poll that did not fail. *)
Definition last_success (s : Syncer) (ws : list surroundings) : option Z :=
  last (omap (fun ow => if failed ow.1 then None else Some (Now ow.2)) (zip (history s ws) ws)).

Lemma last_success_snoc s ws w :
  last_success s (ws ++ [w]) =
  if failed (outcome_of (Run s ws) w) then last_success s ws else Some (Now w).
Proof.
  unfold last_success. rewrite history_snoc, zip_with_app, omap_app by apply length_history. cbn.
  destruct (failed _); [by rewrite app_nil_r|]. apply last_snoc.
Qed.

(** The figures of the syncer after a sequence of polls: the counters count the
    polls and their failures, the last error is that of the last poll, the last
    sync is that of the last poll that did not fail. *)
Lemma polls_figures t0 tok ws :
  Z.of_nat (length ws) < 2 ^ 63 →
  let s := Run (NewSyncer t0 tok) ws in
  let os := history (NewSyncer t0 tok) ws in
  SyncCount s = Z.of_nat (length ws) ∧
  ErrorCount s = Z.of_nat (length (filter (fun o => failed o = true) os)) ∧
  (is_Some (LastError s) ↔ last os = Some Failed) ∧
  LastSync s = last_success (NewSyncer t0 tok) ws.
Proof.
  unfold SyncCount, ErrorCount, LastError, LastSync.
  induction ws as [|w ws IH] using rev_ind; intros Hlen; cbv zeta in *.
  { split_and!; [done..|split; [intros [? [=]]|done]|done]. }
  rewrite length_app in *. simpl in Hlen. destruct IH as (Hs & He & Hl & Hr); [lia|].
  rewrite Run_app, history_snoc, filter_app, length_app, last_snoc, last_success_snoc.
  set (s := Run (NewSyncer t0 tok) ws) in *. set (os := history (NewSyncer t0 tok) ws) in *.
  assert (length (filter (fun o => failed o = true) os) ≤ length ws)%nat as Hle.
  { rewrite length_filter. unfold os. by rewrite length_history. }
  simpl. pose proof (fetchOnce_outcome s w) as Ho.
  destruct (outcome_of s w) as [r| |]; simpl in Ho.
  - destruct Ho as [-> _]. simpl. rewrite Hs, int64_small by lia.
    split_and!; [lia|lia|split; [by intros [? [=]]|done]|done].
  - destruct Ho as [-> _]. simpl. rewrite Hs, int64_small by lia.
    split_and!; [lia|lia|split; [by intros [? [=]]|done]|done].
  - destruct Ho as [[msg ->] _]. simpl. rewrite Hs, He, !int64_small by lia.
    split_and!; [lia|lia|by eauto|done].
Qed.

(** * The log of state changes *)

Context `{!GoRangeLaws} `{!GoSortLaws}.

Lemma was_map_lookup before key :
  was_map before !! key = Quarantined <$> last_for before key.
Proof.
  unfold last_for, was_map. induction before as [|r rs IH] using rev_ind; [done|].
  rewrite fold_left_app, filter_app. simpl.
  destruct (decide (ToLower (SNI r) = key)) as [<-|Hne].
  - by rewrite lookup_insert_eq, filter_cons_True, filter_nil, last_snoc by done.
  - by rewrite lookup_insert_ne, filter_cons_False, filter_nil, app_nil_r by done.
Qed.

(** The snapshot of a well-formed table finds the routes of the table again. *)
Lemma last_for_Snapshot t key : table_wf t → last_for (Snapshot t) key = routes t !! key.
Proof.
  intros (Hk & _ & _). destruct (Snapshot_spec t) as (Hin & _ & _).
  destruct (last_for (Snapshot t) key) as [r|] eqn:El.
  - apply last_for_elem in El as [[host Hr]%Hin <-]. by rewrite <- (Hk _ _ Hr).
  - destruct (routes t !! key) as [r|] eqn:Er; [|done]. exfalso.
    assert (r ∈ Snapshot t) as Hr by (apply Hin; eauto). apply Hk in Er. unfold last_for in El.
    apply last_None in El. assert (r ∈ filter (λ r0, ToLower (SNI r0) = key) (Snapshot t)) as Hf.
    { by apply list_elem_of_filter. }
    rewrite El in Hf. by apply not_elem_of_nil in Hf.
Qed.

Lemma logStateChanges_in t t' l :
  table_wf t → table_wf t' →
  l ∈ logStateChanges (Snapshot t) (Snapshot t') ↔
  ∃ host r, routes t' !! host = Some r ∧
    ((l = LogQuarantined (SNI r) (Upstream r) ∧ Quarantined r = true ∧
      ∀ old, routes t !! host = Some old → Quarantined old = false) ∨
     (l = LogReleased (SNI r) (Upstream r) ∧ Quarantined r = false ∧
      ∃ old, routes t !! host = Some old ∧ Quarantined old = true)).
Proof.
  intros Hwf Hwf'. unfold logStateChanges. rewrite list_elem_of_In, in_flat_map.
  destruct (Snapshot_spec t') as (Hin & _ & _). destruct Hwf' as (Hk & _).
  split.
  - intros (r & [host Hr]%list_elem_of_In%Hin & Hl). exists host, r. split; [done|].
    rewrite was_map_lookup, last_for_Snapshot, <- (Hk _ _ Hr) in Hl by done.
    destruct (routes t !! host) as [old|] eqn:Eo; simpl in Hl;
      [destruct (Quarantined old) eqn:?|]; destruct (Quarantined r) eqn:?; simpl in Hl; naive_solver.
  - intros (host & r & Hr & Hc). exists r. split; [apply list_elem_of_In, Hin; eauto|].
    rewrite was_map_lookup, last_for_Snapshot, <- (Hk _ _ Hr) by done.
    destruct Hc as [(-> & Hq & Hold)|(-> & Hq & old & -> & Hold)]; rewrite Hq; simpl.
    + destruct (routes t !! host) as [old|]; simpl; [rewrite (Hold old) by done|]; by left.
    + rewrite Hold. by left.
Qed.

(** A poll logs exactly the hosts whose state it changed: a host is logged
    as quarantined when the new table quarantines it and the old one did not
    (a host new to the table included), as released when the old table
    quarantined it and the new one does not; a host that left is not logged. *)
Theorem fetchOnce_logs_changes s w r sni up :
  table_wf (table s) → outcome_of s w = Delivered r →
  same_version (table s) (feed_version r) = false →
  let '(s', _, logs) := fetchOnce s w in
  (LogQuarantined sni up ∈ logs ↔
   ∃ host new, routes (table s') !! host = Some new ∧ SNI new = sni ∧ Upstream new = up ∧
     Quarantined new = true ∧ ∀ old, routes (table s) !! host = Some old → Quarantined old = false) ∧
  (LogReleased sni up ∈ logs ↔
   ∃ host new old, routes (table s') !! host = Some new ∧ SNI new = sni ∧ Upstream new = up ∧
     Quarantined new = false ∧ routes (table s) !! host = Some old ∧ Quarantined old = true).
Proof.
  intros Hwf Ho Hv. pose proof (Update_wf (table s) (Routes r) (feed_version r) Hwf) as Hwf'.
  assert (∃ s' calls, fetchOnce s w = (s', calls,
      LogUpdated (Z.of_nat (length (Routes r))) (QuarantinedCount (table s')) (feed_version r)
      :: logStateChanges (Snapshot (table s)) (Snapshot (table s'))) ∧
    table s' = (Update (table s) (Routes r) (feed_version r)).1.1) as (s' & calls & -> & Ht).
  { unfold outcome_of in Ho. unfold fetchOnce. change (fetch_headers (countSync s)) with (fetch_headers s).
    destruct (NewRequestErr w); [done|]. destruct (Do w _) as [resp|]; [|done].
    destruct (StatusCode resp =? 304); [done|]. destruct (StatusCode resp =? 200); [|done].
    destruct (decode_routes (Body resp)); [|done]. injection Ho as ->. simpl.
    exists (recordSuccess (countSync s) (Update (table s) (Routes r) (feed_version r)).1.1 (Now w)).
    rewrite Update_fresh by done. eexists. split; reflexivity. }
  rewrite <- Ht in Hwf'. rewrite !elem_of_cons, !logStateChanges_in by done. split; naive_solver.
Qed.

(** * A feed without a version *)

(** A feed that comes without a version is compared by its computed one,
    which leaves out canonical name, mode and PROXY protocol: after a feed [rs]
    is in place, a version-less feed that changes only those is reported as a
    successful sync and not applied. *)
Theorem versionless_mode_change_dropped s w rs r :
  Version (table s) = ComputeVersion rs → outcome_of s w = Delivered r → RespVersion r = "" →
  NoDup (map SNI rs) → Forall2 same_version_fields rs (Routes r) →
  let '(s', calls, logs) := fetchOnce s w in
  table s' = table s ∧ calls = [] ∧ lastErr s' = None ∧ lastSync s' = Some (Now w).
Proof.
  intros Hv Ho Hr Hnd HF. pose proof (fetchOnce_outcome s w) as Hf. rewrite Ho in Hf.
  assert (same_version (table s) (feed_version r) = true) as Hs.
  { unfold same_version, feed_version. rewrite Hr. simpl. unfold Version in Hv. rewrite Hv.
    rewrite (ComputeVersion_same rs (Routes r) (Routes r)) by done. by rewrite String.eqb_refl. }
  destruct (fetchOnce s w) as [[s' calls] logs]. simpl in Hf. rewrite Update_same in Hf by done.
  by destruct Hf as [-> ->].
Qed.

End sync_theorems.

(** * Concrete polls *)

Section witnesses.
Import RouteTableExamples.

(** A decoder that knows four documents. *)
Definition ex_direct : Route := {|
  SNI := "a"; Upstream := "1"; AttestationPolicy := ""; State := ""; Canonical := ""; Mode := "direct";
  ProxyProtocol := true |}.
Definition ex_decoder : GoRoutesJSON := {|
  decode_routes b :=
    if String.eqb b "v1" then inl {| Routes := [ex_route "a" "1" ""]; RespVersion := "v1" |}
    else if String.eqb b "v2" then inl {| Routes := [ex_route "a" "1" "quarantined"]; RespVersion := "v2" |}
    else if String.eqb b "plain" then inl {| Routes := [ex_route "a" "1" ""]; RespVersion := "" |}
    else if String.eqb b "direct" then inl {| Routes := [ex_direct]; RespVersion := "" |}
    else inr "unexpected EOF"%string
|}.
#[local] Existing Instance ex_decoder.

Definition ex_poll (status : Z) (body : string) : surroundings := {|
  NewRequestErr := None; Do := fun _ => inl {| StatusCode := status; Body := body |}; Now := 1700000000;
|}.
Definition ex_polls : list surroundings :=
  [ex_poll 500 "down"; ex_poll 200 "v1"; ex_poll 304 ""; ex_poll 200 "{"; ex_poll 200 "v2"; ex_poll 503 ""].
Definition ex_syncer : Syncer := NewSyncer (OnQuarantine New) "token".

Lemma polls_serve_last_feed_witness :
  Lookup (table (Run ex_syncer ex_polls)) "A" = Some (ex_route "a" "1" "quarantined").
Proof.
  destruct (polls_serve_last_feed (OnQuarantine New) "token" ex_polls eq_refl) as (_ & f0 & Hin & Hv & Hl).
  unfold ex_syncer. rewrite Hl. clear Hl.
  apply elem_of_cons in Hin as [->|Hin]; [vm_compute in Hv; discriminate|].
  apply elem_of_cons in Hin as [->|[]%not_elem_of_nil]. vm_compute. reflexivity.
Defined.

Lemma fetchOnce_logs_changes_witness :
  LogQuarantined "a" "1" ∈ (fetchOnce (Run ex_syncer [ex_poll 200 "v1"]) (ex_poll 200 "v2")).2.
Proof.
  assert (table_wf (table (Run ex_syncer [ex_poll 200 "v1"]))) as Hwf.
  { apply (Update_wf (OnQuarantine New) [ex_route "a" "1" ""] "v1"), New_wf. }
  pose proof (fetchOnce_logs_changes _ (ex_poll 200 "v2")
    {| Routes := [ex_route "a" "1" "quarantined"]; RespVersion := "v2" |} "a" "1" Hwf eq_refl eq_refl) as Hl.
  destruct (fetchOnce (Run ex_syncer [ex_poll 200 "v1"]) (ex_poll 200 "v2")) as [[s' calls] logs] eqn:E.
  apply Hl. assert (s' = (fetchOnce (Run ex_syncer [ex_poll 200 "v1"]) (ex_poll 200 "v2")).1.1) as -> by (by rewrite E).
  exists "a"%string, (ex_route "a" "1" "quarantined"). split_and!; [reflexivity..|].
  intros old [= <-]. reflexivity.
Defined.

Lemma versionless_mode_change_dropped_witness :
  Lookup (table (Run ex_syncer [ex_poll 200 "plain"; ex_poll 200 "direct"])) "a" = Some (ex_route "a" "1" "").
Proof.
  pose proof (versionless_mode_change_dropped (Run ex_syncer [ex_poll 200 "plain"]) (ex_poll 200 "direct")
    [ex_route "a" "1" ""] {| Routes := [ex_direct]; RespVersion := "" |} eq_refl eq_refl eq_refl) as Hd.
  destruct (fetchOnce (Run ex_syncer [ex_poll 200 "plain"]) (ex_poll 200 "direct")) as [[s' calls] logs] eqn:E.
  destruct Hd as (Ht & _); [apply (bool_decide_unpack _); vm_compute; exact I|repeat constructor|].
  change (Run ex_syncer [ex_poll 200 "plain"; ex_poll 200 "direct"])
    with (fetchOnce (Run ex_syncer [ex_poll 200 "plain"]) (ex_poll 200 "direct")).1.1.
  rewrite E. simpl. rewrite Ht. vm_compute. reflexivity.
Defined.

End witnesses.
