(* ===== verification/Tunnel.v ===== *)
(** internal/tunnel: enclaves that dial out to the gateway
    (src/internal/tunnel/tunnel.go, accept.go, authz.go).

    A yamux session is a number; whether it is closed at the time of a call, and
    what opening a stream on it gives, are parameters of the call, since yamux is
    a third-party package.  The registry's lock makes each of its methods one
    step; an entry is identified by its address.  Deadlines and log lines are left
    out; yamuxConfig only fills in settings of yamux.  Authz has the authorizer's
    JSON, TunnelSystem many of these handlers and dials at once. *)
From Stdlib Require Import Strings.Ascii Strings.String.
From S2P Require Import Prelude GoBytes GoStrings GoRuntime Effects Http.
From S2P Require Proxy.
Local Open Scope Z_scope.

(** * Upstream names *)

Definition UpstreamPrefix : string := "tunnel:".
Definition TunnelPath : string := "/__privasys/tunnel".
Definition UpgradeProtocol : string := "privasys-tunnel/1".

Definition EnclaveID (upstream : string) : string * bool :=
  if negb (HasPrefix upstream UpstreamPrefix) then (""%string, false) else
  let id := TrimPrefix upstream UpstreamPrefix in (id, negb (String.eqb id "")).

(** * The registry *)

Record entry := { e_ptr : nat; sess : nat; at_ : Z }.

Record Registry := {
  sessions : gmap string (list entry);
  allocated : nat;       (* addresses given out to entries *)
  sessionsActive : Z;    (* the gauge *)
}.

Definition NewRegistry : Registry := {| sessions := ∅; allocated := O; sessionsActive := 0 |}.

(** r.sessions[enclaveID]: nil when absent. *)
Definition session_list (r : Registry) (enclaveID : string) : list entry :=
  default [] (sessions r !! enclaveID).

(** The registry and what the returned closure captured. *)
Definition Register (r : Registry) (enclaveID : string) (s : nat) (now : Z) : Registry * (string * nat) :=
  let e := {| e_ptr := allocated r; sess := s; at_ := now |} in
  ({| sessions := <[enclaveID := session_list r enclaveID ++ [e]]> (sessions r);
      allocated := S (allocated r); sessionsActive := sessionsActive r + 1 |}, (enclaveID, allocated r)).

(** list[:i] and list[i+1:] joined at the first entry with the address. *)
Fixpoint remove_entry (ptr : nat) (l : list entry) : list entry :=
  match l with
  | [] => []
  | x :: l' => if (e_ptr x =? ptr)%nat then l' else x :: remove_entry ptr l'
  end.

(** The closure Register returns. *)
Definition unregister (r : Registry) (key : string * nat) : Registry :=
  let l := remove_entry key.2 (session_list r key.1) in
  {| sessions := match l with [] => delete key.1 (sessions r) | _ => <[key.1 := l]> (sessions r) end;
     allocated := allocated r; sessionsActive := sessionsActive r - 1 |}.

Definition Connected (r : Registry) : Z := Z.of_nat (size (sessions r)).

Definition pick_step (isClosed : nat → bool) (best : option entry) (e : entry) : option entry :=
  if isClosed (sess e) then best else
  match best with
  | None => Some e
  | Some b => if at_ b <? at_ e then Some e else best
  end.

Definition pick (r : Registry) (isClosed : nat → bool) (enclaveID : string) : option nat :=
  sess <$> fold_left (pick_step isClosed) (session_list r enclaveID) None.

(** * Dialing *)

Definition maxPreambleField : Z := 256.
Definition preambleVersion : Z := 1.

(** The bytes writePreamble sends. *)
Definition writePreamble (clientAddr : string) : bytes :=
  let clientAddr := if maxPreambleField <? slen clientAddr then stake 256 clientAddr else clientAddr in
  byte_of_Z preambleVersion :: be_put 2 (wrap 16 (slen clientAddr)) ++ of_string clientAddr.

Inductive dial_error : Type := ErrNoTunnel | ErrOpenStream | ErrContext | ErrPreamble | ErrTCP.

(** What sess.OpenStream gives before ctx is done. *)
Inductive open_result : Type := Opened (stream : nat) | OpenFailed | OpenTimeout.

(** A connection DialUpstream returned: a stream with the bytes already
    written to it, or TCP. *)
Inductive dialed_conn : Type :=
| TunnelConn (session stream : nat) (sent : bytes)
| TCPConn (addr : string).

(** What surrounds one dial. *)
Record dial_env := {
  IsClosed : nat → bool;
  OpenStream : nat → open_result;
  StreamWrite : bytes → bool;   (* true: no error *)
  DialTCP : string → bool;
}.

(** Open: the connection or the error, and the label of the counter. *)
Definition Open (r : Registry) (w : dial_env) (enclaveID clientAddr : string)
    : (dialed_conn + dial_error) * string :=
  match pick r (IsClosed w) enclaveID with
  | None => (inr ErrNoTunnel, "no_tunnel"%string)
  | Some s =>
      match OpenStream w s with
      | OpenFailed => (inr ErrOpenStream, "open_error"%string)
      | OpenTimeout => (inr ErrContext, "open_timeout"%string)
      | Opened st =>
          if StreamWrite w (writePreamble clientAddr)
          then (inl (TunnelConn s st (writePreamble clientAddr)), "ok"%string)
          else (inr ErrPreamble, "preamble_error"%string)
      end
  end.

(** DialUpstream of a dialer whose Registry may be nil. *)
Definition DialUpstream (r : option Registry) (w : dial_env) (upstream clientAddr : string)
    : dialed_conn + dial_error :=
  let '(id, ok) := EnclaveID upstream in
  if ok then
    match r with
    | None => inr ErrNoTunnel
    | Some r => (Open r w id clientAddr).1
    end
  else if DialTCP w upstream then inl (TCPConn upstream) else inr ErrTCP.

(** * Accepting a tunnel *)

Record AuthRequest := {
  ar_Method : string; ar_Path : string; ar_Headers : gmap string string; ar_Body : string; ar_RemoteAddr : string;
}.

Definition maxRequestBody : Z := 16 * 1024.

Section accept.
Context `{GoRange}.

(** One iteration of the loop of authHeaders. *)
Definition auth_step (out : gmap string string) (kv : string * list string) : gmap string string :=
  match kv.2 with
  | [] => out
  | v0 :: _ =>
      let ck := CanonicalHeaderKey kv.1 in
      if HasPrefix ck "X-Enclave-" then <[ck := v0]> out else out
  end.
Definition authHeaders (h : Header) : gmap string string := fold_left auth_step (range_map h) ∅.

Definition writeStatus (code : Z) (msg : string) : string :=
  ("HTTP/1.1 " ++ itoa code ++ " " ++ StatusText code ++ crlf ++
   "Content-Type: text/plain" ++ crlf ++ "Content-Length: " ++ itoa (slen msg) ++ crlf ++
   "Connection: close" ++ crlf ++ crlf ++ msg)%string.

Definition switching : string :=
  ("HTTP/1.1 101 Switching Protocols" ++ crlf ++
   "Upgrade: " ++ UpgradeProtocol ++ crlf ++ "Connection: Upgrade" ++ crlf ++ crlf)%string.

Inductive op : Type :=
| OHandshake (clientHello : bytes)
| ONegotiated
| OReadRequest
| OReadBody (limit : Z)          (* io.ReadAll(io.LimitReader(req.Body, limit)) *)
| OAuthorize (req : AuthRequest)
| OWrite (s : string)
| OBuffered                      (* br.Peek(br.Buffered()) *)
| OYamuxClient (replay : bytes)
| OCount (result : string)       (* sessionsTotal *)
| ORegister (enclaveID : string) (s : nat)
| OWaitClosed (s : nat)
| OUnregister (enclaveID : string) (s : nat).

Definition ans (o : op) : Type :=
  match o with
  | OHandshake _ | OWrite _ => bool
  | ONegotiated => string
  | OReadRequest => option Request
  | OReadBody _ => option string
  | OAuthorize _ => option string
  | OBuffered => bytes
  | OYamuxClient _ => option nat
  | _ => unit
  end.

Abbreviation call := (@pdo op ans).
Local Open Scope prog_scope.

Definition valid_upgrade (req : Request) : bool :=
  String.eqb (Method req) "POST" && String.eqb (Path req) TunnelPath &&
  EqualFold (HGet (ReqHeader req) "Upgrade") UpgradeProtocol.

Definition refuse (result : string) (code : Z) (msg : string) : prog ans unit :=
  call (OCount result) ;; call (OWrite (writeStatus code msg)) ;; PRet tt.

(** From the 101 on. *)
Definition serve_tunnel (enclaveID : string) : prog ans unit :=
  do ok <- call (OWrite switching);
  if negb ok then call (OCount "write_error") else
  do pending <- call OBuffered;
  do s <- call (OYamuxClient pending);
  match s with
  | None => call (OCount "yamux_error")
  | Some s =>
      call (OCount "ok") ;;
      call (ORegister enclaveID s) ;;
      call (OWaitClosed s) ;;
      call (OUnregister enclaveID s)
  end.

Definition Handle (remote : string) (clientHello : bytes) : prog ans unit :=
  do ok <- call (OHandshake clientHello);
  if negb ok then call (OCount "tls_error") else
  do proto <- call ONegotiated;
  if negb (String.eqb proto Proxy.ALPN) then call (OCount "alpn_mismatch") else
  do r <- call OReadRequest;
  match r with
  | None => call (OCount "bad_request")
  | Some req =>
      if negb (valid_upgrade req) then
        refuse "bad_request" 400 ("expected POST " ++ TunnelPath ++ " with Upgrade: " ++ UpgradeProtocol)%string
      else
      do b <- call (OReadBody (maxRequestBody + 1));
      match b with
      | None => refuse "bad_request" 400 "unreadable or oversized body"
      | Some body =>
          if maxRequestBody <? slen body then refuse "bad_request" 400 "unreadable or oversized body" else
          do id <- call (OAuthorize {| ar_Method := Method req; ar_Path := Path req;
                                      ar_Headers := authHeaders (ReqHeader req); ar_Body := body;
                                      ar_RemoteAddr := remote |});
          match id with
          | None => refuse "unauthorized" 403 "tunnel not authorized"
          | Some id =>
              if String.eqb id "" then refuse "unauthorized" 403 "tunnel not authorized"
              else serve_tunnel id
          end
      end
  end.

(** * The management service's authorizer *)

Record auth_env := {
  Marshal : AuthRequest → option string;           (* json.Marshal *)
  NewRequest : bool;                                (* http.NewRequestWithContext: no error *)
  Do : Header → string → option (Z * string);       (* m.client.Do: status and the first 64 KiB of the body *)
  Unmarshal : string → option string;              (* the enclave_id of the document *)
}.

Definition authorize_headers (token : string) : Header :=
  let h := HSet ∅ "Content-Type" "application/json" in
  if String.eqb token "" then h else HSet h "Authorization" ("Bearer " ++ token).

Definition Authorize (token : string) (w : auth_env) (ar : AuthRequest) : option string :=
  match Marshal w ar with
  | None => None
  | Some body =>
      if negb (NewRequest w) then None else
      match Do w (authorize_headers token) body with
      | None => None
      | Some (code, raw) =>
          if negb (code =? 200) then None else
          match Unmarshal w raw with
          | None => None
          | Some id => if String.eqb id "" then None else Some id
          end
      end
  end.

End accept.

(** * The registry implements the list of live registrations *)

(** Registrations that were made and not taken back, oldest first.  A closure
    is called once, for a registration that is live. *)
Inductive registry_reachable : Registry → list (string * entry) → Prop :=
| rr_new : registry_reachable NewRegistry []
| rr_register r live id s now :
    registry_reachable r live →
    registry_reachable (Register r id s now).1
      (live ++ [(id, {| e_ptr := allocated r; sess := s; at_ := now |})])
| rr_unregister r live id e :
    registry_reachable r live → (id, e) ∈ live →
    registry_reachable (unregister r (id, e_ptr e)) (filter (fun x => e_ptr x.2 ≠ e_ptr e) live).

(** The live registrations of one enclave. *)
Definition live_of (live : list (string * entry)) (id : string) : list entry :=
  (filter (fun x => x.1 = id) live).*2.

Record registry_inv (r : Registry) (live : list (string * entry)) : Prop := {
  ri_list : ∀ id, session_list r id = live_of live id;
  ri_nonempty : ∀ id, sessions r !! id ≠ Some [];
  ri_fresh : ∀ x, x ∈ live → (e_ptr x.2 < allocated r)%nat;
  ri_unique : NoDup ((fun x => e_ptr x.2) <$> live);
  ri_gauge : sessionsActive r = Z.of_nat (length live);
}.

Lemma live_of_elem live id e : e ∈ live_of live id ↔ (id, e) ∈ live.
Proof.
  unfold live_of. rewrite list_elem_of_fmap. split.
  - intros ([i e'] & -> & Hin). apply list_elem_of_filter in Hin. naive_solver.
  - intros Hin. exists (id, e). split; [done|]. by apply list_elem_of_filter.
Qed.

Lemma live_of_app live live' id : live_of (live ++ live') id = live_of live id ++ live_of live' id.
Proof. unfold live_of. by rewrite filter_app, fmap_app. Qed.

Lemma remove_entry_filter ptr l :
  NoDup (e_ptr <$> l) → remove_entry ptr l = filter (fun e => e_ptr e ≠ ptr) l.
Proof.
  induction l as [|x l IH]; [done|]. cbn [fmap list_fmap remove_entry]. intros [Hx Hl]%NoDup_cons.
  destruct (Nat.eqb_spec (e_ptr x) ptr) as [<-|Hne].
  - rewrite filter_cons_False by naive_solver. symmetry. apply filter_all. intros y Hy Heq.
    apply Hx. rewrite <- Heq. by apply list_elem_of_fmap_2.
  - rewrite filter_cons_True by done. by rewrite IH.
Qed.

Lemma live_of_filter live id ptr :
  live_of (filter (fun x => e_ptr x.2 ≠ ptr) live) id = filter (fun e => e_ptr e ≠ ptr) (live_of live id).
Proof.
  unfold live_of. induction live as [|[i e] live IH]; [done|].
  destruct (decide (i = id)) as [<-|], (decide (e_ptr e = ptr)) as [<-|].
  - rewrite filter_cons_False, (filter_cons_True _ (i, e)) by naive_solver.
    rewrite fmap_cons, filter_cons_False by naive_solver. exact IH.
  - rewrite (filter_cons_True _ (i, e)), !(filter_cons_True _ (i, e)) by naive_solver.
    rewrite !fmap_cons, filter_cons_True by done. by rewrite IH.
  - rewrite filter_cons_False, (filter_cons_False _ (i, e)) by naive_solver. exact IH.
  - rewrite (filter_cons_True _ (i, e)), !(filter_cons_False _ (i, e)) by naive_solver. exact IH.
Qed.

Lemma live_of_unique live id : NoDup ((fun x : string * entry => e_ptr x.2) <$> live) → NoDup (e_ptr <$> live_of live id).
Proof.
  intros Hnd. eapply sublist_NoDup; [exact Hnd|]. unfold live_of. rewrite <- list_fmap_compose.
  apply fmap_sublist, sublist_filter.
Qed.

(** Unregistering takes one registration away. *)
Lemma length_filter_ptr live id e :
  NoDup ((fun x : string * entry => e_ptr x.2) <$> live) → (id, e) ∈ live →
  length live = S (length (filter (fun x => e_ptr x.2 ≠ e_ptr e) live)).
Proof.
  intros Hnd (l1 & l2 & ->)%list_elem_of_split. rewrite fmap_app in Hnd. simpl in Hnd.
  apply NoDup_app in Hnd as (_ & H1 & [H2 _]%NoDup_cons).
  rewrite filter_app, filter_cons_False, !length_app by naive_solver. simpl.
  rewrite !filter_all; [lia| |]; intros [i x] Hx; simpl; intros Heq.
  - apply H2. rewrite <- Heq. by apply (list_elem_of_fmap_2 (fun x => e_ptr x.2) _ (i, x)).
  - apply (H1 (e_ptr e)); [|by left]. rewrite <- Heq. by apply (list_elem_of_fmap_2 (fun x => e_ptr x.2) _ (i, x)).
Qed.

Lemma session_list_insert r id id' l a g :
  session_list {| sessions := <[id := l]> (sessions r); allocated := a; sessionsActive := g |} id' =
  if decide (id' = id) then l else session_list r id'.
Proof.
  unfold session_list. simpl. case_decide as Hd; [by rewrite Hd, lookup_insert_eq|].
  by rewrite lookup_insert_ne by congruence.
Qed.

Lemma registry_inv_register r live id s now :
  registry_inv r live →
  registry_inv (Register r id s now).1 (live ++ [(id, {| e_ptr := allocated r; sess := s; at_ := now |})]).
Proof.
  intros [Hl Hn Hf Hu Hg]. unfold Register. split; simpl.
  - intros id'. rewrite session_list_insert, live_of_app, !Hl. case_decide as Hd.
    + subst id'. unfold live_of at 3. by rewrite filter_cons_True.
    + unfold live_of at 3. by rewrite filter_cons_False, app_nil_r by naive_solver.
  - intros id'. destruct (decide (id' = id)) as [->|]; [|by rewrite lookup_insert_ne].
    rewrite lookup_insert_eq. intros [= E]. by destruct (session_list r id).
  - intros x [Hx%Hf| ->%list_elem_of_singleton]%elem_of_app; simpl; lia.
  - rewrite fmap_app. apply NoDup_app. split_and!; [done| |apply NoDup_singleton].
    intros p (x & -> & Hx%Hf)%list_elem_of_fmap Heq%list_elem_of_singleton. simpl in Heq. lia.
  - rewrite length_app, Hg. simpl. lia.
Qed.

Lemma registry_inv_unregister r live id e :
  registry_inv r live → (id, e) ∈ live →
  registry_inv (unregister r (id, e_ptr e)) (filter (fun x => e_ptr x.2 ≠ e_ptr e) live).
Proof.
  intros [Hl Hn Hf Hu Hg] Hin. unfold unregister. cbn [fst snd].
  assert (∀ id', id' ≠ id → live_of live id' = filter (fun e' => e_ptr e' ≠ e_ptr e) (live_of live id')) as Hother.
  { intros id' Hne. symmetry. apply filter_all. intros e' He'%live_of_elem Heq.
    apply list_elem_of_lookup in Hin as [i Hi], He' as [j Hj].
    assert (i = j) as ->; [|naive_solver].
    eapply (NoDup_lookup _ _ _ (e_ptr e) Hu); rewrite list_lookup_fmap; [by rewrite Hi|by rewrite Hj, <- Heq]. }
  rewrite Hl, (remove_entry_filter _ (live_of live id)) by (by apply live_of_unique).
  set (l := filter (fun e0 => e_ptr e0 ≠ e_ptr e) (live_of live id)). split; simpl.
  - intros id'. rewrite live_of_filter. unfold session_list. simpl.
    destruct (decide (id' = id)) as [->|Hne].
    + fold l. destruct l; [by rewrite lookup_delete_eq|by rewrite lookup_insert_eq].
    + rewrite <- Hother, <- Hl by done. unfold session_list.
      destruct l; [by rewrite lookup_delete_ne|by rewrite lookup_insert_ne].
  - intros id'. destruct (decide (id' = id)) as [->|Hne].
    + destruct l; [by rewrite lookup_delete_eq|by rewrite lookup_insert_eq].
    + destruct l; [by rewrite lookup_delete_ne|by rewrite lookup_insert_ne].
  - intros x [_ Hx]%list_elem_of_filter. by apply Hf.
  - eapply sublist_NoDup; [exact Hu|]. apply fmap_sublist, sublist_filter.
  - rewrite Hg, (length_filter_ptr live id e) by done. lia.
Qed.

Lemma registry_reachable_inv r live : registry_reachable r live → registry_inv r live.
Proof.
  induction 1 as [|r live id s now _ IH|r live id e _ IH Hin];
    [|by apply registry_inv_register|by apply registry_inv_unregister].
  split; simpl; try done; [by intros ? ?%not_elem_of_nil|constructor].
Qed.

(** The fold of pick: the newest open entry seen so far. *)
Definition newest (isClosed : nat → bool) (l : list entry) (best : option entry) : Prop :=
  match best with
  | Some b => b ∈ l ∧ isClosed (sess b) = false ∧
      ∀ e, e ∈ l → isClosed (sess e) = false → at_ e <= at_ b
  | None => ∀ e, e ∈ l → isClosed (sess e) = true
  end.

Lemma pick_newest isClosed l : newest isClosed l (fold_left (pick_step isClosed) l None).
Proof.
  induction l as [|e l IH] using rev_ind; [by intros ? ?%not_elem_of_nil|].
  rewrite fold_left_app. simpl. set (best := fold_left _ l None) in *. unfold pick_step, newest in *.
  destruct (isClosed (sess e)) eqn:Ec; destruct best as [b|].
  - destruct IH as (Hb & Hc & Hm). split_and!; [set_solver|done|].
    intros e' [He'| ->%list_elem_of_singleton]%elem_of_app; [by apply Hm|congruence].
  - intros e' [He'| ->%list_elem_of_singleton]%elem_of_app; [by apply IH|done].
  - destruct IH as (Hb & Hc & Hm). zcase.
    + split_and!; [set_solver|done|]. intros e' [He'| ->%list_elem_of_singleton]%elem_of_app Ho; [|lia].
      specialize (Hm e' He' Ho). lia.
    + split_and!; [set_solver|done|].
      intros e' [He'| ->%list_elem_of_singleton]%elem_of_app Ho; [by apply Hm|lia].
  - split_and!; [set_solver|done|].
    intros e' [He'| ->%list_elem_of_singleton]%elem_of_app Ho; [|lia]. apply IH in He'. congruence.
Qed.

(** What pick answers, in terms of the live registrations. *)
Definition picked (live : list (string * entry)) (isClosed : nat → bool) (id : string) (o : option nat) : Prop :=
  match o with
  | Some s => ∃ e, (id, e) ∈ live ∧ sess e = s ∧ isClosed s = false ∧
      ∀ e', (id, e') ∈ live → isClosed (sess e') = false → at_ e' <= at_ e
  | None => ∀ e, (id, e) ∈ live → isClosed (sess e) = true
  end.

Lemma pick_live r live isClosed id : registry_inv r live → picked live isClosed id (pick r isClosed id).
Proof.
  intros Hinv. pose proof (ri_list r live Hinv id) as Hl.
  assert (∀ e, (id, e) ∈ live ↔ e ∈ session_list r id) as Hin by (intros e; by rewrite Hl, live_of_elem).
  unfold picked, pick. pose proof (pick_newest isClosed (session_list r id)) as Hp.
  destruct (fold_left _ _ None) as [b|]; simpl in *; [|by intros e He%Hin; apply Hp].
  destruct Hp as (Hb & Hc & Hm). exists b. split_and!; [by apply Hin|done|done|].
  intros e' He'%Hin. by apply Hm.
Qed.

(** The registry keeps exactly the registrations that were not taken back:
    the gauge counts them, an enclave has an entry in the map while it has one,
    and pick answers a session of that very enclave that is still open, the
    newest of them, or nothing when all of them are closed. *)
Theorem registry_spec r live isClosed id :
  registry_reachable r live →
  sessionsActive r = Z.of_nat (length live) ∧
  (is_Some (sessions r !! id) ↔ ∃ e, (id, e) ∈ live) ∧
  picked live isClosed id (pick r isClosed id).
Proof.
  intros Hinv%registry_reachable_inv. split_and!; [apply Hinv| |by apply pick_live].
  pose proof (ri_nonempty r live Hinv id) as Hn. setoid_rewrite <- live_of_elem.
  rewrite <- (ri_list r live Hinv id). unfold session_list. destruct (sessions r !! id) as [l|]; simpl.
  - split; [|by eauto]. intros _. destruct l as [|e l]; [done|]. exists e. by left.
  - split; [by intros [? [=]]|]. by intros [? []%not_elem_of_nil].
Qed.

(** * Dialing *)

(** How an enclave reads the preamble of a stream. *)
Definition read_preamble (b : bytes) : option (string * bytes) :=
  match b with
  | v :: hi :: lo :: rest =>
      if byte_val v =? preambleVersion then
        let n := Z.to_nat (be_get [hi; lo]) in
        if (length rest <? n)%nat then None else Some (to_string (take n rest), drop n rest)
      else None
  | _ => None
  end.

Lemma slen_stake n s : (n ≤ String.length s)%nat → slen (stake n s) = Z.of_nat n.
Proof.
  unfold slen. revert s. induction n as [|n IH]; intros [|c s] Hn; simpl in *; try lia.
  specialize (IH s). lia.
Qed.

Lemma stake_all n s : (String.length s ≤ n)%nat → stake n s = s.
Proof. revert s. induction n as [|n IH]; intros [|c s] Hn; simpl in *; [done|lia|done|]. by rewrite IH by lia. Qed.

Lemma read_preamble_app addr rest :
  slen addr <= maxPreambleField →
  read_preamble (byte_of_Z preambleVersion :: be_put 2 (wrap 16 (slen addr)) ++ of_string addr ++ rest) = Some (addr, rest).
Proof.
  intros Hlen. unfold maxPreambleField in Hlen. assert (0 <= slen addr) by (unfold slen; lia).
  pose proof (be_get_put_id 2 (wrap 16 (slen addr))) as Hg.
  unfold wrap in *. rewrite Z.mod_small in * by lia. specialize (Hg ltac:(change (256 ^ Z.of_nat 2) with 65536; lia)).
  pose proof (length_be_put 2 (slen addr)) as Hl. destruct (be_put 2 (slen addr)) as [|hi [|lo [|]]]; try done.
  cbn [app read_preamble]. rewrite byte_val_of_Z. simpl (_ =? _). cbv iota. rewrite Hg.
  assert (Z.to_nat (slen addr) = length (of_string addr)) as ->.
  { pose proof (blen_of_string addr) as Hb. unfold blen in Hb. lia. }
  rewrite length_app. destruct (Nat.ltb_spec (length (of_string addr) + length rest) (length (of_string addr))); [lia|].
  by rewrite take_app_length, drop_app_length, to_of_string.
Qed.

(** The preamble announces the client's address, cut to 256 bytes. *)
Lemma writePreamble_read clientAddr rest :
  read_preamble (writePreamble clientAddr ++ rest) = Some (stake 256 clientAddr, rest).
Proof.
  unfold writePreamble. zcase; cbn [app]; rewrite <- app_assoc.
  - apply read_preamble_app. rewrite slen_stake; [done|]. unfold slen, maxPreambleField in *. lia.
  - rewrite stake_all by (unfold slen, maxPreambleField in *; lia). by apply read_preamble_app.
Qed.

Lemma EnclaveID_spec upstream id :
  EnclaveID upstream = (id, true) ↔ upstream = (UpstreamPrefix ++ id)%string ∧ id ≠ "".
Proof.
  unfold EnclaveID. destruct (HasPrefix upstream UpstreamPrefix) eqn:E; simpl negb; cbv iota.
  - apply HasPrefix_spec in E as [r ->]. rewrite TrimPrefix_app. split.
    + intros [= -> Hne]. by destruct (String.eqb_spec id "").
    + intros [Heq Hne]. assert (r = id) as ->.
      { apply (f_equal (fun u => TrimPrefix u UpstreamPrefix)) in Heq. by rewrite !TrimPrefix_app in Heq. }
      by destruct (String.eqb_spec id "").
  - split; [done|]. intros [-> _]. exfalso.
    assert (HasPrefix (UpstreamPrefix ++ id) UpstreamPrefix = true) by (apply HasPrefix_spec; eauto). congruence.
Qed.

(** A tunnel upstream is served by the enclave it names and by no other: a
    stream DialUpstream returns was opened on the newest open session that enclave
    has registered, and carries first a preamble from which the enclave reads the
    client's address (its first 256 bytes) and nothing of the client's bytes; a
    TCP connection goes to the upstream's own address and only when it names no
    enclave.  Without an open session the dial fails with ErrNoTunnel. *)
Theorem DialUpstream_spec r live w upstream clientAddr :
  registry_reachable r live →
  match DialUpstream (Some r) w upstream clientAddr with
  | inl (TunnelConn s st sent) =>
      ∃ id, upstream = (UpstreamPrefix ++ id)%string ∧ id ≠ "" ∧ picked live (IsClosed w) id (Some s) ∧
        OpenStream w s = Opened st ∧ ∀ rest, read_preamble (sent ++ rest) = Some (stake 256 clientAddr, rest)
  | inl (TCPConn addr) => addr = upstream ∧ ∀ id, id ≠ "" → upstream ≠ (UpstreamPrefix ++ id)%string
  | inr ErrNoTunnel => ∃ id, upstream = (UpstreamPrefix ++ id)%string ∧ picked live (IsClosed w) id None
  | inr ErrTCP => DialTCP w upstream = false
  | inr _ => ∃ id s, upstream = (UpstreamPrefix ++ id)%string ∧ picked live (IsClosed w) id (Some s) ∧
      ((∀ st, OpenStream w s ≠ Opened st) ∨ StreamWrite w (writePreamble clientAddr) = false)
  end.
Proof.
  intros Hinv%registry_reachable_inv. unfold DialUpstream.
  destruct (EnclaveID upstream) as [id ok] eqn:E. destruct ok.
  - apply EnclaveID_spec in E as [-> Hne]. unfold Open.
    pose proof (pick_live r live (IsClosed w) id Hinv) as Hp.
    destruct (pick r (IsClosed w) id) as [s|]; cbn [fst]; [|by exists id].
    destruct (OpenStream w s) as [st| |] eqn:Eo; cbn [fst].
    + destruct (StreamWrite w _) eqn:Ew; cbn [fst]; [|exists id, s; auto].
      exists id. split_and!; [done..|]. intros rest. apply writePreamble_read.
    + exists id, s. split_and!; [done..|]. left. by rewrite Eo.
    + exists id, s. split_and!; [done..|]. left. by rewrite Eo.
  - destruct (DialTCP w upstream) eqn:Et; [|done]. split; [done|]. intros id' Hne ->.
    rewrite (proj2 (EnclaveID_spec _ id')) in E by done. done.
Qed.

(** * Admission *)

Section admission.
Context `{GoRange} `{!GoRangeLaws}.

Lemma auth_step_lookup out k' v k :
  CanonicalHeaderKey k' = k' →
  auth_step out (k', v) !! k =
  if decide (k = k') then
    match v with v0 :: _ => if HasPrefix k "X-Enclave-" then Some v0 else out !! k | [] => out !! k end
  else out !! k.
Proof.
  intros Hck. unfold auth_step. cbn [fst snd]. rewrite Hck. case_decide as Hd; [subst k|];
    destruct v as [|v0 v]; try done; destruct (HasPrefix k' _); try done.
  - by rewrite lookup_insert_eq.
  - by rewrite lookup_insert_ne.
Qed.

Lemma auth_fold_lookup (l : list (string * list string)) (out : gmap string string) k :
  NoDup l.*1 → (∀ x, x ∈ l → CanonicalHeaderKey x.1 = x.1) →
  fold_left auth_step l out !! k =
  match (list_to_map l : Header) !! k with
  | Some (v0 :: _) => if HasPrefix k "X-Enclave-" then Some v0 else out !! k
  | _ => out !! k
  end.
Proof.
  revert out. induction l as [|[k' v] l IH]; intros out Hnd Hc; [done|].
  cbn [fmap list_fmap] in Hnd. apply NoDup_cons in Hnd as [Hk' Hnd]. cbn [fold_left].
  rewrite IH by (done || (intros x Hx; apply Hc; by right)). rewrite list_to_map_cons.
  rewrite auth_step_lookup by (apply (Hc (k', v)); by left). case_decide as Hd.
  - subst k. by rewrite (not_elem_of_list_to_map_1 l k'), lookup_insert_eq.
  - by rewrite lookup_insert_ne.
Qed.

Lemma authHeaders_lookup (h : Header) k :
  (∀ k vs, h !! k = Some vs → CanonicalHeaderKey k = k) →
  authHeaders h !! k =
  match h !! k with Some (v :: _) => if HasPrefix k "X-Enclave-" then Some v else None | _ => None end.
Proof.
  intros Hc. unfold authHeaders. rewrite auth_fold_lookup; [|apply range_map_NoDup|].
  - replace (list_to_map (range_map h) : Header) with h; [by rewrite lookup_empty|].
    rewrite <- (list_to_map_to_list h) at 1. apply list_to_map_proper; [apply NoDup_fst_map_to_list|].
    symmetry. apply range_map_perm.
  - intros [k' v] Hin%range_map_elem. by eapply Hc.
Qed.

(** What the authorizer is asked about carries the enclave's own headers and
    nothing else: the first value of every X-Enclave- header of the request, and
    no other header (no Authorization, no Cookie). *)
Theorem authHeaders_spec (h : Header) k v :
  (∀ k vs, h !! k = Some vs → CanonicalHeaderKey k = k) →
  authHeaders h !! k = Some v ↔
  (∃ rest, k = ("X-Enclave-" ++ rest)%string) ∧ ∃ vs, h !! k = Some (v :: vs).
Proof.
  intros Hc. rewrite authHeaders_lookup by done. rewrite <- HasPrefix_spec.
  destruct (h !! k) as [[|v0 vs]|]; [naive_solver| |naive_solver].
  destruct (HasPrefix k _); naive_solver.
Qed.

(** * The admission handler *)

(** A registration, or a session that was opened. *)
Definition registers (e : event ans) : bool :=
  match e with
  | existT o a =>
      match o return ans o → bool with
      | ORegister _ _ => fun _ => true
      | OYamuxClient _ => fun r => match r with Some _ => true | None => false end
      | _ => fun _ => false
      end a
  end.

(** A run that ends here, without a registration. *)
Ltac quiet H := repeat tstep H; try (destruct H as [-> _]); left; reflexivity.

(** A tunnel is registered only for an enclave the authorizer vouched for:
    every run either opens no session and registers nothing, or is the one successful run: handshake
    with the tunnel protocol, a POST of the tunnel path with the upgrade, a body
    of at most 16 KiB, the authorizer's answer [id], not empty, to exactly that
    method, path, body and the enclave's headers, the 101, a session that gets the
    bytes already buffered, and then the registration of that session under [id],
    taken back when the session closes. *)
Theorem Handle_admits remote hello tr :
  trace (Handle remote hello) tr tt →
  forallb (fun e => negb (registers e)) tr = true ∨
  ∃ req body id pending s,
    valid_upgrade req = true ∧ slen body <= maxRequestBody ∧ id ≠ "" ∧
    tr = [ev (OHandshake hello) true; ev ONegotiated Proxy.ALPN; ev OReadRequest (Some req);
          ev (OReadBody (maxRequestBody + 1)) (Some body);
          ev (OAuthorize {| ar_Method := "POST"; ar_Path := TunnelPath;
                            ar_Headers := authHeaders (ReqHeader req); ar_Body := body;
                            ar_RemoteAddr := remote |}) (Some id);
          ev (OWrite switching) true; ev OBuffered pending; ev (OYamuxClient pending) (Some s);
          ev (OCount "ok") tt; ev (ORegister id s) tt; ev (OWaitClosed s) tt; ev (OUnregister id s) tt].
Proof.
  unfold Handle, refuse, serve_tunnel. simpl. intros Ht.
  tstep Ht. destruct a; simpl in Ht; [|quiet Ht].
  tstep Ht. destruct (String.eqb_spec a Proxy.ALPN) as [->|]; simpl in Ht; [|quiet Ht].
  tstep Ht. destruct a as [req|]; [|quiet Ht].
  destruct (valid_upgrade req) eqn:Ev; simpl in Ht; [|quiet Ht].
  tstep Ht. destruct a as [body|]; [|quiet Ht].
  destruct (Z.ltb_spec maxRequestBody (slen body)); simpl in Ht; [quiet Ht|].
  tstep Ht. destruct a as [id|]; [|quiet Ht].
  destruct (String.eqb_spec id ""); simpl in Ht; [quiet Ht|].
  tstep Ht. destruct a; simpl in Ht; [|quiet Ht].
  tstep Ht. tstep Ht. destruct a0 as [s|]; simpl in Ht; [|quiet Ht].
  right. exists req, body, id, a, s. split_and!; [done..|].
  assert (Method req = "POST" ∧ Path req = TunnelPath) as [-> ->].
  { unfold valid_upgrade in Ev. by apply andb_true_iff in Ev as [[E1%String.eqb_eq E2%String.eqb_eq]%andb_true_iff _]. }
  repeat match type of Ht with
  | ∃ _, _ => let u := fresh "u" in destruct Ht as (u & ? & -> & Ht); destruct u
  end.
  by destruct Ht as [-> _].
Qed.

End admission.

(** * Concrete runs *)

Section witnesses.
#[local] Existing Instances map_range map_range_laws.

(** Enclave [e1] reconnects (sessions 4 and 5), enclave [e2] holds session 6. *)
Definition ex_registry : Registry :=
  (Register (Register (Register NewRegistry "e1" 4 100).1 "e1" 5 200).1 "e2" 6 150).1.
Definition ex_live : list (string * entry) :=
  [("e1", {| e_ptr := 0; sess := 4; at_ := 100 |}); ("e1", {| e_ptr := 1; sess := 5; at_ := 200 |});
   ("e2", {| e_ptr := 2; sess := 6; at_ := 150 |})]%string.

Lemma ex_registry_reachable : registry_reachable ex_registry ex_live.
Proof.
  pose proof (rr_register _ _ "e1" 4 100 rr_new) as H1.
  pose proof (rr_register _ _ "e1" 5 200 H1) as H2. exact (rr_register _ _ "e2" 6 150 H2).
Qed.

Lemma registry_spec_witness : sessionsActive ex_registry = 3 ∧ pick ex_registry (fun s => (s =? 5)%nat) "e1" = Some 4%nat.
Proof.
  destruct (registry_spec ex_registry ex_live (fun s => (s =? 5)%nat) "e1" ex_registry_reachable) as (Hg & _ & Hp).
  split; [exact Hg|]. destruct (pick ex_registry _ "e1") as [s|] eqn:E; [|].
  - rewrite <- E. vm_compute. reflexivity.
  - exfalso. specialize (Hp {| e_ptr := 0; sess := 4; at_ := 100 |} ltac:(left)). discriminate Hp.
Defined.

Definition ex_env : dial_env := {|
  IsClosed s := (s =? 4)%nat; OpenStream s := Opened (10 * s); StreamWrite _ := true; DialTCP _ := true;
|}.

Lemma DialUpstream_spec_witness :
  ∃ sent, DialUpstream (Some ex_registry) ex_env "tunnel:e1" "203.0.113.7:4242" = inl (TunnelConn 5 50 sent) ∧
    read_preamble (sent ++ of_string "hello") = Some ("203.0.113.7:4242"%string, of_string "hello").
Proof.
  pose proof (DialUpstream_spec ex_registry ex_live ex_env "tunnel:e1" "203.0.113.7:4242" ex_registry_reachable) as Hd.
  exists (writePreamble "203.0.113.7:4242"). split; [vm_compute; reflexivity|].
  destruct Hd as (id & _ & _ & _ & _ & Hr). apply Hr.
Defined.

Definition ex_headers : Header :=
  list_to_map [("Authorization", ["Bearer secret"]); ("X-Enclave-Id", ["e1"; "e9"]); ("Upgrade", ["Privasys-Tunnel/1"])]%string.

Lemma authHeaders_spec_witness :
  authHeaders ex_headers !! "X-Enclave-Id"%string = Some "e1"%string ∧
  authHeaders ex_headers !! "Authorization"%string ≠ Some "Bearer secret"%string.
Proof.
  assert (∀ k vs, ex_headers !! k = Some vs → CanonicalHeaderKey k = k) as Hc.
  { intros k vs Hk. apply elem_of_list_to_map_2 in Hk.
    repeat (apply elem_of_cons in Hk as [[= -> ->]|Hk]; [vm_compute; reflexivity|]). by apply not_elem_of_nil in Hk. }
  split.
  - apply (authHeaders_spec ex_headers "X-Enclave-Id" "e1" Hc).
    split; [exists "Id"%string; reflexivity|]. exists ["e9"%string]. vm_compute. reflexivity.
  - intros Ha. apply (authHeaders_spec ex_headers "Authorization" "Bearer secret" Hc) in Ha as [[rest Hr] _]. discriminate Hr.
Defined.

Definition ex_upgrade : Request := {|
  Method := "POST"; ReqHost := "gw"; Path := TunnelPath; RequestURI := TunnelPath; ReqHeader := ex_headers |}.

(** An authorizer that knows enclave [e1]. *)
Definition ex_answer (o : op) (_ : unit) : ans o * unit :=
  (match o return ans o with
   | OHandshake _ | OWrite _ => true
   | ONegotiated => Proxy.ALPN
   | OReadRequest => Some ex_upgrade
   | OReadBody _ => Some "{}"%string
   | OAuthorize _ => Some "e1"%string
   | OBuffered => []
   | OYamuxClient _ => Some 4%nat
   | _ => tt
   end, tt).

Lemma Handle_admits_witness :
  ∃ id s, id ≠ "" ∧
    (prun ex_answer (Handle "198.51.100.1:5000" []) tt).1.1 !! 9%nat = Some (ev (ORegister id s) tt).
Proof.
  destruct (Handle_admits "198.51.100.1:5000" [] _ (prun_trace_unit ex_answer (Handle "198.51.100.1:5000" []) tt))
    as [Hn|(req & body & id & pending & s & Hv & _ & Hid & Htr)].
  - exfalso. revert Hn. vm_compute. discriminate.
  - exists id, s. rewrite Htr. split; [exact Hid|reflexivity].
Defined.

End witnesses.
