(* ===== verification/Connection.v ===== *)
(** One client connection, end to end: handleConn with the terminator, the sealed
    WebSocket relay and the tunnel acceptor it calls, composed into one program
    over the sum of their operations (src/internal/proxy/proxy.go,
    src/internal/terminate/terminate.go, wsmux.go, src/internal/tunnel/accept.go).

    The discipline of a connection towards the quarantine and towards its route is
    a monitor that reads the operations; every connection is shown to be safe
    against it, for all answers of its surroundings. *)
From Stdlib Require Import Strings.String.
From S2P Require Import Prelude GoBytes GoStrings GoRuntime Effects RouteTable Http Policy ProxyCache WsFrame.
From S2P Require Sni Proxy Cors Terminate WsServe Tunnel.
Local Open Scope Z_scope.

(** * The composed program *)

Inductive gop : Type :=
| GP (o : Proxy.op)
| GT (o : Terminate.op)
| GW (o : WsServe.op)
| GU (o : Tunnel.op).

Definition gans (o : gop) : Type :=
  match o with
  | GP o => Proxy.ans o
  | GT o => Terminate.ans o
  | GW o => WsServe.ans o
  | GU o => Tunnel.ans o
  end.

(** What the client of a connection sends, seen at each layer: the segments of
    its byte stream, the HTTP requests inside TLS, the messages of its WebSocket. *)
Record client_input := {
  ci_client : Proxy.client;
  ci_segments : list bytes;
  ci_requests : list Request;
  ci_reads : list WsServe.browser_read;
}.

Section connection.
Context `{GoUnicode} `{GoRange} `{GoSort}.
Variable g : Proxy.Gateway.
Variable h : Terminate.handler_conf.

(** h.serveSealedWSMux(w, req, route, p) *)
Definition sealed_ws (ci : client_input) (route : Route) (req : Request) (p : sealedWSParams) : prog gans unit :=
  interp (fun o => pdo (GW o)) (WsServe.serveSealedWSMux h req route p (ci_reads ci)).

Definition term_op (ci : client_input) (route : Route) (o : Terminate.op) : prog gans (Terminate.ans o) :=
  match o return prog gans (Terminate.ans o) with
  | Terminate.OSealedWS req p => sealed_ws ci route req p
  | o => pdo (GT o)
  end.

(** g.terminator.Handle(clientConn, buf[:n], route) *)
Definition terminated (ci : client_input) (hello : bytes) (route : Route) : prog gans unit :=
  interp (term_op ci route) (Terminate.Handle h hello route (ci_requests ci)).

(** g.tunnels.Handle(clientConn, buf[:n]) *)
Definition tunnelled (ci : client_input) (hello : bytes) : prog gans unit :=
  interp (fun o => pdo (GU o)) (Tunnel.Handle (Proxy.RemoteAddrString (ci_client ci)) hello).

Definition conn_op (ci : client_input) (o : Proxy.op) : prog gans (Proxy.ans o) :=
  match o return prog gans (Proxy.ans o) with
  | Proxy.OTerminatorHandle hello route => terminated ci hello route
  | Proxy.OTunnelHandle hello => tunnelled ci hello
  | o => pdo (GP o)
  end.

Definition connection (ci : client_input) : go (prog gans unit) :=
  (let! p := Proxy.handleConn g (ci_client ci) (ci_segments ci) in
   Ret (interp (conn_op ci) p))%go.

(** The server name the client asks for, empty when there is none. *)
Definition server_name (ci : client_input) : string :=
  match Proxy.read_hello (Proxy.bufferSize g) (ci_segments ci) with
  | Ret (Proxy.Hello _ hostname _ _) => hostname
  | _ => ""
  end.

End connection.

(** * The monitor *)

#[export] Instance PolicyDoc_eq_dec : EqDecision PolicyDoc.
Proof. solve_decision. Defined.
#[export] Instance target_url_eq_dec : EqDecision target_url.
Proof. solve_decision. Defined.
#[export] Instance upstreamProxy_eq_dec : EqDecision upstreamProxy.
Proof. solve_decision. Defined.

(** What an operation means for the shared state. *)
Inductive act : Type :=
| ALookup (host : string) (answer : option Route)
| AProxyFor (route : Route) (answer : option upstreamProxy)
| AGet (route : Route)
| ATrack (host kind_ : string)
| ARelease
| ATouch (rp : option upstreamProxy)  (* bytes go to the enclave, through this proxy *)
| AClose
| ANone.

Definition pact (e : event Proxy.ans) : act :=
  match e with
  | existT (Proxy.OLookup host) a => ALookup host a
  | existT (Proxy.OTrack host k) _ => ATrack host k
  | existT Proxy.ORelease _ => ARelease
  | existT (Proxy.OBackendWrite _) _ | existT Proxy.OSplice _ => ATouch None
  | _ => ANone
  end.

Definition tact (e : event Terminate.ans) : act :=
  match e with
  | existT (Terminate.OLookup host) a => ALookup host a
  | existT (Terminate.OProxyFor route) a => AProxyFor route a
  | existT (Terminate.OTrack host k) _ => ATrack host k
  | existT Terminate.ORelease _ => ARelease
  | existT (Terminate.OServe rp _ _) _ => ATouch (Some rp)
  | existT Terminate.OClose _ => AClose
  | _ => ANone
  end.

Definition wact (e : event WsServe.ans) : act :=
  match e with
  | existT (WsServe.OLookup host) a => ALookup host a
  | existT (WsServe.OGet route) _ => AGet route
  | existT (WsServe.OTrack host k) _ => ATrack host k
  | existT WsServe.ORelease _ => ARelease
  | existT (WsServe.OWriteFrame _ _ _ _) _ | existT WsServe.OPump _ => ATouch None
  | _ => ANone
  end.

Definition gact (e : event gans) : act :=
  match e with
  | existT (GP o) a => pact (existT o a)
  | existT (GT o) a => tact (existT o a)
  | existT (GW o) a => wact (existT o a)
  | existT (GU _) _ => ANone
  end.

(** The registration of a connection: none, made under a host, looked up again
    and served, or looked up again and found quarantined. *)
Inductive reg : Type := RNone | RReg (host : string) | RLive (host : string) | RRefused (host : string).

Record mstate := {
  m_route : option Route;           (* the route found for the server name *)
  m_proxy : option upstreamProxy;   (* the reverse proxy set up for it *)
  m_reg : reg;
}.

Definition mstart : mstate := {| m_route := None; m_proxy := None; m_reg := RNone |}.
Definition set_reg (s : mstate) (r : reg) : mstate :=
  {| m_route := m_route s; m_proxy := m_proxy s; m_reg := r |}.
Definition set_proxy (s : mstate) (rp : option upstreamProxy) : mstate :=
  {| m_route := m_route s; m_proxy := rp; m_reg := m_reg s |}.

(** One action of a connection to the server name [hn]; [None] breaks the rules:
    register only the host of the route that was found, send bytes only while the
    registration was checked again, through the route's own proxy. *)
Definition mstep (hn : string) (s : mstate) (a : act) : option mstate :=
  match a with
  | ANone => Some s
  | ALookup host answer =>
      match m_reg s with
      | RReg th =>
          if String.eqb host th
          then Some (set_reg s (if Proxy.is_quarantined answer then RRefused th else RLive th))
          else None
      | RNone =>
          match m_route s with
          | None => if String.eqb host hn
                    then Some {| m_route := answer; m_proxy := m_proxy s; m_reg := RNone |} else None
          | Some _ => Some s
          end
      | _ => Some s
      end
  | AProxyFor route answer =>
      if decide (m_route s = Some route) then Some (set_proxy s answer) else None
  | AGet route => if decide (m_route s = Some route) then Some s else None
  | ATrack th _ =>
      match m_reg s, m_route s with
      | RNone, Some r =>
          if String.eqb th hn || String.eqb th (SNI r) then Some (set_reg s (RReg th)) else None
      | _, _ => None
      end
  | ARelease => match m_reg s with RNone => None | _ => Some (set_reg s RNone) end
  | ATouch rp =>
      match m_reg s, rp with
      | RLive _, None => Some s
      | RLive _, Some p => if decide (m_proxy s = Some p) then Some s else None
      | _, _ => None
      end
  | AClose => Some (set_proxy s None)
  end.

Definition gstep (hn : string) (s : mstate) (e : event gans) : option mstate := mstep hn s (gact e).

(** The operations that stand for whole handlers: they need a route and no
    registration, and leave the monitor as it was. *)
Definition rests (s : mstate) (route : Route) : bool :=
  bool_decide (m_route s = Some route) && bool_decide (m_proxy s = None) &&
  match m_reg s with RNone => true | _ => false end.

Definition pstep (hn : string) (s : mstate) (e : event Proxy.ans) : option mstate :=
  match e with
  | existT (Proxy.OTerminatorHandle _ route) _ => if rests s route then Some s else None
  | e => mstep hn s (pact e)
  end.

Definition tstep (hn : string) (route : Route) (s : mstate) (e : event Terminate.ans) : option mstate :=
  match e with
  | existT (Terminate.OSealedWS _ _) _ =>
      if bool_decide (m_route s = Some route) && match m_reg s with RNone => true | _ => false end
      then Some s else None
  | e => mstep hn s (tact e)
  end.

(** * Every connection is safe *)

(** One operation of a concrete program: the monitor's step computes. *)
Ltac mon_step :=
  let a := fresh "a" in
  intros a; eexists; split;
  [cbn; rewrite ?String.eqb_refl, ?orb_true_r; repeat rewrite decide_True by done; reflexivity|].
Ltac mon := repeat (cbn [pbind pdo safe]; first [mon_step | progress case_match]).

Section safety.
Context `{GoUnicode} `{GoRange} `{GoSort}.
Variable g : Proxy.Gateway.
Variable h : Terminate.handler_conf.
Hypothesis h_live : Terminate.h_lookup h = true.
Variable hn : string.

Abbreviation wstep := (fun s (e : event WsServe.ans) => mstep hn s (wact e)).

Lemma safe_pump p reads s th :
  m_reg s = RLive th → safe wstep (WsServe.pump p reads) s (fun _ s' => s' = s).
Proof.
  intros Hr. assert (Ht : mstep hn s (ATouch None) = Some s) by (simpl; by rewrite Hr).
  induction reads as [|[binary data|status] reads IH]; cbn [WsServe.pump pbind pdo safe].
  - intros a. exists s. split; [done|]. destruct a; cbn [pbind pdo safe]; [done|].
    intros b. exists s. by split.
  - destruct binary; cbn [negb pbind pdo safe].
    + intros a. exists s. split; [exact Ht|]. destruct a; cbn [negb]; [exact IH|]. intros b. exists s. by split.
    + intros a. exists s. split; [done|]. intros b. exists s. by split.
  - intros a. exists s. split; [done|]. destruct a; cbn [pbind pdo safe]; [done|].
    intros b. exists s. by split.
Qed.

Lemma safe_tracked_stream route p host uri env reads mr mp :
  safe wstep (WsServe.tracked_stream h route p host uri env reads)
    {| m_route := mr; m_proxy := mp; m_reg := RReg (SNI route) |}
    (fun _ s' => ∃ r, r ≠ RNone ∧ s' = {| m_route := mr; m_proxy := mp; m_reg := r |}).
Proof.
  unfold WsServe.tracked_stream, WsServe.quarantined. rewrite h_live.
  destruct (Quarantined route); cbn [negb pbind pdo safe].
  { do 3 mon_step. (eexists; split; [|reflexivity]; done). }
  intros live. eexists. split; [cbn; rewrite String.eqb_refl; reflexivity|].
  destruct (Proxy.is_quarantined live); cbn [set_reg m_route m_proxy m_reg].
  { do 3 mon_step. (eexists; split; [|reflexivity]; done). }
  mon_step. destruct a; cbn [negb pbind pdo safe]; [|do 2 mon_step; eexists; split; [|reflexivity]; done].
  do 2 mon_step. eapply safe_mono; [|by eapply safe_pump]. simpl. intros _ s' ->. eexists; split; [|reflexivity]; done.
Qed.

Lemma safe_ws req route p reads s :
  m_route s = Some route → m_reg s = RNone →
  safe wstep (WsServe.serveSealedWSMux h req route p reads) s (fun _ s' => s' = s).
Proof.
  destruct s as [mr mp mg]. cbn [m_route m_reg]. intros -> ->.
  unfold WsServe.serveSealedWSMux, WsServe.accepted. cbn [pbind pdo safe].
  mon_step. destruct a; cbn [negb pbind pdo safe]; [|do 2 mon_step; done].
  destruct (_ && _); [mon_step; done|].
  mon_step. destruct a; cbn [negb pbind pdo safe]; [|mon_step; done].
  mon_step. destruct a as [[[] env]|]; cbn [pbind pdo safe]; [|do 3 mon_step; done..].
  mon_step. destruct a; cbn [negb pbind pdo safe]; [|do 3 mon_step; done].
  mon_step. cbn [set_reg m_route m_proxy m_reg]. apply safe_bind, safe_bind.
  eapply safe_mono; [|apply safe_tracked_stream]. intros _ s' (r & Hr & ->).
  intros u. eexists. split; [cbn; destruct r; done|]. do 2 mon_step. done.
Qed.

(** * Terminated connections *)

Section term.
Variable route : Route.
Abbreviation ts := (tstep hn route).

(** The states of a terminated connection between two requests. *)
Definition at_rest (mp : option upstreamProxy) : mstate :=
  {| m_route := Some route; m_proxy := mp; m_reg := RNone |}.

Lemma safe_refuse req s : safe ts (Terminate.refuseQuarantined h req route) s (fun _ s' => s' = s).
Proof. unfold Terminate.refuseQuarantined. cbn [pbind pdo safe]. do 2 mon_step. done. Qed.

Lemma safe_quarantined mp : safe ts (Terminate.quarantined h route) (at_rest mp) (fun _ s' => s' = at_rest mp).
Proof.
  unfold Terminate.quarantined. destruct (Quarantined route); [done|]. rewrite h_live. cbn [negb pbind pdo safe].
  mon_step. done.
Qed.

Lemma safe_proxy_request rp req :
  safe ts (Terminate.proxy_request h rp req route) (at_rest (Some rp)) (fun _ s' => s' = at_rest (Some rp)).
Proof.
  unfold Terminate.proxy_request, Terminate.quarantined. cbn [pbind pdo safe].
  mon_step. cbn [set_reg m_route m_proxy m_reg at_rest].
  assert (Href : ∀ r, r ≠ RNone → safe ts
    (Terminate.call Terminate.ORelease;; Terminate.call Terminate.OCancel;; Terminate.refuseQuarantined h req route;; PRet false)%prog
    {| m_route := Some route; m_proxy := Some rp; m_reg := r |} (fun _ s' => s' = at_rest (Some rp))).
  { intros r Hr. cbn [pbind pdo safe]. intros u. eexists. split; [cbn; destruct r; done|]. mon_step.
    apply safe_bind. eapply safe_mono; [|apply safe_refuse]. by intros _ s' ->. }
  destruct (Quarantined route); [by apply Href|]. rewrite h_live. cbn [negb pbind pdo safe].
  intros live. eexists. split; [cbn; rewrite String.eqb_refl; reflexivity|].
  destruct (Proxy.is_quarantined live); cbn [set_reg m_route m_proxy m_reg]; [by apply Href|].
  cbn [pbind pdo safe]. do 3 mon_step. destruct (fst _); [done|]. cbn [pbind pdo safe]. mon_step. done.
Qed.

Lemma safe_serveHTTP reqs rp :
  safe ts (Terminate.serveHTTP h reqs route rp) (at_rest rp) (fun _ s' => s' = at_rest rp).
Proof.
  induction reqs as [|req reqs IH]; [done|]. cbn [Terminate.serveHTTP].
  destruct (_ && _); [cbn [pbind pdo safe]; mon_step; exact IH|].
  destruct rp as [rp|]; [|apply safe_refuse].
  apply safe_bind. eapply safe_mono; [|apply safe_quarantined]. intros q s' ->.
  destruct q; [apply safe_refuse|]. destruct (parseSealedWS req) as [p|].
  - cbn [pbind pdo safe]. intros u. eexists. split; [|reflexivity].
    cbn. by rewrite bool_decide_eq_true_2.
  - apply safe_bind. eapply safe_mono; [|apply safe_proxy_request]. intros next s' ->.
    by destruct next.
Qed.

Lemma safe_Handle hello reqs :
  safe ts (Terminate.Handle h hello route reqs) (at_rest None) (fun _ s' => s' = at_rest None).
Proof.
  unfold Terminate.Handle. cbn [pbind pdo safe]. mon_step. intros ok. eexists. split; [reflexivity|].
  apply safe_bind. eapply (safe_mono _ _ _ (fun _ s' => ∃ mp, s' = at_rest mp)).
  { intros _ s' [mp ->]. mon_step. done. }
  destruct ok; cbn [negb pbind pdo safe]; [|mon_step; by exists None].
  mon_step. destruct (String.eqb _ _); [by exists None|]. destruct (Quarantined route).
  { eapply safe_mono; [|apply safe_serveHTTP]. intros _ s' ->. by exists None. }
  cbn [pbind pdo safe]. intros rp. eexists. split; [cbn; by rewrite decide_True|]. cbn [set_proxy].
  destruct rp as [rp|].
  - eapply safe_mono; [|apply safe_serveHTTP]. intros _ s' ->. by exists (Some rp).
  - cbn [pbind pdo safe]. do 2 mon_step. by exists None.
Qed.
End term.

Lemma safe_terminated ci hello route s :
  rests s route = true → safe (gstep hn) (terminated h ci hello route) s (fun _ s' => s' = s).
Proof.
  unfold rests. rewrite !andb_true_iff, !bool_decide_eq_true. intros [[Hr Hp] Hg].
  assert (s = at_rest route None) as ->.
  { destruct s as [mr mp mg]. simpl in *. subst. by destruct mg. }
  unfold terminated. eapply (safe_interp (tstep hn route)); [|apply safe_Handle].
  intros o s Hs. destruct o; try (intros a; destruct (Hs a) as [s' Es]; exists s'; split; exact Es).
  (* the sealed WebSocket relay in place of its operation *)
  destruct (Hs tt) as [s' Es]. cbn [tstep ev] in Es.
  destruct (bool_decide (m_route s = Some route)) eqn:Hm; [|done]. apply bool_decide_eq_true in Hm.
  destruct (m_reg s) eqn:Hreg; try done. cbn [term_op]. unfold sealed_ws.
  eapply (safe_interp (fun s e => mstep hn s (wact e))); [|eapply safe_mono; [|by apply safe_ws]].
  - intros o s0 Hs0. intros a. destruct (Hs0 a) as [s1 E1]. exists s1. split; exact E1.
  - intros [] s0 ->. cbn [tstep ev]. rewrite Hm, Hreg. by rewrite bool_decide_eq_true_2.
Qed.

(** * Connections *)

Lemma safe_tunnelled ci hello s : safe (gstep hn) (tunnelled ci hello) s (fun _ s' => s' = s).
Proof.
  unfold tunnelled. eapply (safe_interp (fun s e => Some s)).
  - intros o s0 _ a. exists s0. by split.
  - generalize (Tunnel.Handle (Proxy.RemoteAddrString (ci_client ci)) hello). intros p.
    induction p as [a|o k IH]; [by destruct a|]. simpl. eauto.
Qed.

Lemma safe_send404 buf s : safe (pstep hn) (Proxy.send404 g buf) s (fun _ s' => s' = s).
Proof.
  unfold Proxy.send404. destruct (negb _); [done|]. cbn [pbind pdo safe]. mon_step.
  destruct (negb _); [done|]. cbn [pbind pdo safe]. do 2 mon_step. done.
Qed.

Lemma safe_alert hostname s : safe (pstep hn) (Proxy.write_alert hostname) s (fun _ s' => s' = s).
Proof. unfold Proxy.write_alert. cbn [pbind pdo safe]. do 3 mon_step. done. Qed.

Lemma safe_dialed direct route cl buf mr mp :
  safe (pstep hn) (Proxy.dialed direct route cl buf hn) {| m_route := mr; m_proxy := mp; m_reg := RReg hn |}
    (fun _ s' => m_reg s' ≠ RNone).
Proof.
  unfold Proxy.dialed. cbn [pbind pdo safe]. intros live. eexists.
  split; [cbn; rewrite String.eqb_refl; reflexivity|]. cbn [set_reg m_route m_proxy m_reg].
  destruct (Proxy.is_quarantined live).
  { eapply safe_mono; [|apply safe_alert]. by intros _ s' ->. }
  assert (Hrest : ∀ ok : bool, safe (pstep hn)
    (if negb ok then Proxy.call (Proxy.OConnError "write_upstream") else
     do ok <- Proxy.call (Proxy.OBackendWrite buf);
     if negb ok then Proxy.call (Proxy.OConnError "write_upstream") else Proxy.call Proxy.OSplice)%prog
    {| m_route := mr; m_proxy := mp; m_reg := RLive hn |} (fun _ s' => m_reg s' ≠ RNone)).
  { intros []; cbn [negb pbind pdo safe]; [|by mon_step]. mon_step. destruct a; cbn [negb pbind pdo safe]; by mon_step. }
  apply safe_bind. destruct (_ && _); [|apply (Hrest true)].
  destruct (ProxyProto.proxyV2Header _ _); [|apply (Hrest true)]. mon_step. apply Hrest.
Qed.

Lemma safe_splice_conn direct route cl buf s :
  m_route s = Some route → m_reg s = RNone →
  safe (pstep hn) (Proxy.splice_conn direct route cl buf hn) s (fun _ s' => m_reg s' = RNone).
Proof.
  destruct s as [mr mp mg]. cbn [m_route m_reg]. intros -> ->. unfold Proxy.splice_conn. cbn [pbind pdo safe].
  mon_step. destruct a; cbn [negb pbind pdo safe]; [|by mon_step]. mon_step. cbn [set_reg m_route m_proxy m_reg].
  apply safe_bind. eapply safe_mono; [|apply safe_dialed]. intros [] s' Hr. intros u.
  eexists. split; [cbn; by destruct (m_reg s')|]. by mon_step.
Qed.

Lemma safe_hello_conn cl hi :
  match hi with Proxy.Hello _ hostname _ _ => hostname = hn | _ => True end →
  safe (pstep hn) (Proxy.hello_conn g cl hi) mstart (fun _ s' => m_reg s' = RNone).
Proof.
  intros Hhn. destruct hi as [|e|buf hostname alpns rest]; cbn [Proxy.hello_conn pbind pdo safe]; [by mon_step..|].
  subst hostname. mon_step. unfold Proxy.route_conn.
  destruct (_ && _); [cbn [pbind pdo safe]; by mon_step|].
  cbn [pbind pdo safe]. intros found. eexists. split; [cbn; rewrite String.eqb_refl; reflexivity|].
  assert (H404 : ∀ r reason, safe (pstep hn) (Proxy.call (Proxy.OConnError reason);; Proxy.send404 g buf)%prog
    {| m_route := r; m_proxy := None; m_reg := RNone |} (fun _ s' => m_reg s' = RNone)).
  { intros r reason. cbn [pbind pdo safe]. mon_step. eapply safe_mono; [|apply safe_send404]. by intros _ s' ->. }
  destruct found as [route|]; [|apply H404]. cbv zeta.
  destruct (_ && IsAlias route); [apply H404|].
  destruct (_ && Proxy.terminator g).
  { cbn [pbind pdo safe]. intros u. eexists.
    split; [cbn; unfold rests; cbn; rewrite !bool_decide_eq_true_2 by done; reflexivity|done]. }
  destruct (Quarantined route); [|by apply safe_splice_conn].
  eapply safe_mono; [|apply safe_alert]. by intros _ s' ->.
Qed.

Lemma safe_frame cl hi :
  match hi with Proxy.Hello _ hostname _ _ => hostname = hn | _ => True end →
  safe (pstep hn)
    (Proxy.call Proxy.OActiveInc ;; Proxy.call (Proxy.OSetReadDeadline (Some 5)) ;; Proxy.hello_conn g cl hi ;;
     Proxy.call Proxy.OActiveDec ;; Proxy.call Proxy.OClientClose ;; Proxy.call Proxy.OWgDone)%prog mstart
    (fun _ s' => m_reg s' = RNone).
Proof.
  intros Hhn. cbn [pbind pdo safe]. do 2 mon_step. apply safe_bind.
  eapply safe_mono; [|by apply safe_hello_conn]. intros [] s' Hr. do 3 mon_step. done.
Qed.

End safety.

(** Every connection, on every input and whatever its surroundings answer,
    follows the rules of the monitor and ends without a registration. *)
Lemma connection_safe `{GoUnicode} `{GoRange} `{GoSort} g h ci p :
  Terminate.h_lookup h = true → connection g h ci = Ret p →
  safe (gstep (server_name g ci)) p mstart (fun _ s' => m_reg s' = RNone).
Proof.
  intros Hl. unfold connection, Proxy.handleConn. intros (q & Hq & [= <-])%go_bind_ret.
  apply go_bind_ret in Hq as (hi & Hhi & [= <-]).
  eapply (safe_interp (pstep (server_name g ci))); [|apply safe_frame].
  - intros o s Hs. destruct o; try (intros a; destruct (Hs a) as [s' Es]; exists s'; split; exact Es).
    + eapply safe_mono; [|apply safe_tunnelled]. intros [] s' ->. destruct (Hs tt) as [s' Es]. done.
    + destruct (Hs tt) as [s' Es]. cbn [pstep ev] in Es. destruct (rests s route) eqn:Er; [|done].
      eapply safe_mono; [|by apply safe_terminated]. intros [] s0 ->. cbn [pstep ev]. by rewrite Er.
  - unfold server_name. rewrite Hhi. by destruct hi.
Qed.
