(* ===== verification/System.v ===== *)
(** The running gateway: any number of client connections (Connection.v), each a
    goroutine in the middle of its program, the route syncer, and what they share:
    the route table, the tracker and the caches of the terminator.

    Each operation of a connection, each poll and each hook call is one step; the
    steps interleave freely.  Lookups are answered by the table, proxyFor by the
    cache, Track and its release act on the tracker; every other operation
    (network, clock, TLS) gets an arbitrary answer.  A poll runs Table.Update and
    leaves its hook calls to be made, as cmd/gateway/main.go wires them: a quarantine
    cuts through the tracker, a retired route is forgotten by the terminator.

    A connection is in [s_closed] once the tracker has started its close function.
    All three of them (for a splice, a proxied request and a sealed WebSocket) close
    the client's socket, so this is for good.  The terminator has a live lookup and
    the tracker's 64-bit id counter has not wrapped around ([ht_room]); Main.v shows
    the first of every gateway main starts. *)
From Stdlib Require Import Strings.String.
From stdpp Require Import relations.
From S2P Require Import Prelude GoBytes GoStrings GoRuntime Effects RouteTable Tracker CutProtocol.
From S2P Require Import Http Policy ProxyCache WsFrame Sync Connection.
From S2P Require Sni Proxy Terminate WsServe Tunnel.
Local Open Scope Z_scope.

Record thread := {
  t_name : string;                 (* the server name the client asked for *)
  t_prog : prog gans unit;         (* what is left to run *)
  t_key : option (string * Z);     (* the registration its release closure captured *)
}.

Record system (T : Type) := {
  s_sync : Syncer;
  s_handler : Handler;
  s_tracker : T;
  s_pending : list hook_call;      (* calls the running Update still has to make *)
  s_threads : gmap nat thread;
  s_closed : gset nat;             (* connections whose close function was started *)
  s_gone : gset string;            (* history: hosts that have left the table *)
  s_seen : list Route;             (* history: routes the table has held *)
}.
Arguments s_sync {T} s.
Arguments s_handler {T} s.
Arguments s_tracker {T} s.
Arguments s_pending {T} s.
Arguments s_threads {T} s.
Arguments s_closed {T} s.
Arguments s_gone {T} s.
Arguments s_seen {T} s.

Definition s_table {T} (s : system T) : Table := table (s_sync s).

Section system.
Context `{GoUnicode} `{GoRange} `{GoSort} `{GoRoutesJSON} `{GoJSON} `{GoURL} {T : Type} `{HostTracker T}.
Variable g : Proxy.Gateway.
Variable h : Terminate.handler_conf.

(** * Steps *)

(** The answers the shared state allows. *)
Definition allowed (s : system T) (a : act) : Prop :=
  match a with
  | ALookup host answer => answer = Lookup (s_table s) host
  | AProxyFor route answer =>
      answer = match (proxyFor (s_handler s) route).2 with inl p => Some p | inr _ => None end
  | ATrack _ _ => ht_room (s_tracker s) = true
  | _ => True
  end.

Definition tracker_after (s : system T) (c : nat) (t : thread) (a : act) : T * option (string * Z) :=
  match a with
  | ATrack host k => let '(tr, key) := ht_track (s_tracker s) host k c in (tr, Some key)
  | ARelease =>
      match t_key t with
      | Some key => (ht_release (s_tracker s) key, None)
      | None => (s_tracker s, None)
      end
  | _ => (s_tracker s, t_key t)
  end.

Definition handler_after (hd : Handler) (a : act) : Handler :=
  match a with
  | AProxyFor route _ => (proxyFor hd route).1
  | AGet route => (muxPoolFor hd route).1.1
  | _ => hd
  end.

(** Connection [c] runs one operation with the meaning [a] and goes on with [p]. *)
Definition run_act (s : system T) (c : nat) (t : thread) (a : act) (p : prog gans unit) : system T := {|
  s_sync := s_sync s; s_handler := handler_after (s_handler s) a; s_tracker := (tracker_after s c t a).1;
  s_pending := s_pending s;
  s_threads := <[c := {| t_name := t_name t; t_prog := p; t_key := (tracker_after s c t a).2 |}]> (s_threads s);
  s_closed := s_closed s; s_gone := s_gone s; s_seen := s_seen s;
|}.

Definition spawn (s : system T) (c : nat) (name : string) (p : prog gans unit) : system T := {|
  s_sync := s_sync s; s_handler := s_handler s; s_tracker := s_tracker s; s_pending := s_pending s;
  s_threads := <[c := {| t_name := name; t_prog := p; t_key := None |}]> (s_threads s);
  s_closed := s_closed s; s_gone := s_gone s; s_seen := s_seen s;
|}.

Definition polled (s : system T) (sy : Syncer) (calls : list hook_call) : system T := {|
  s_sync := sy; s_handler := s_handler s; s_tracker := s_tracker s; s_pending := calls;
  s_threads := s_threads s; s_closed := s_closed s;
  s_gone := s_gone s ∪ (dom (routes (s_table s)) ∖ dom (routes (table sy)));
  s_seen := s_seen s ++ (map_to_list (routes (table sy))).*2;
|}.

(** One hook call: tracker.CutHost or th.Forget. *)
Definition run_hook (s : system T) (call : hook_call) (rest : list hook_call) : system T :=
  match call with
  | CallQuarantine host =>
      let '(tr, cut) := ht_cut (s_tracker s) host in
      {| s_sync := s_sync s; s_handler := s_handler s; s_tracker := tr; s_pending := rest;
         s_threads := s_threads s; s_closed := s_closed s ∪ list_to_set cut; s_gone := s_gone s; s_seen := s_seen s |}
  | CallRetired route =>
      {| s_sync := s_sync s; s_handler := (Forget (s_handler s) route).1; s_tracker := s_tracker s;
         s_pending := rest; s_threads := s_threads s; s_closed := s_closed s; s_gone := s_gone s; s_seen := s_seen s |}
  end.

Definition hook_step (s s' : system T) : Prop :=
  ∃ call rest, s_pending s = call :: rest ∧ s' = run_hook s call rest.

Inductive sys_step (s : system T) : system T → Prop :=
(* ln.Accept, go g.handleConn(conn) *)
| sys_spawn c ci p :
    s_threads s !! c = None → connection g h ci = Ret p →
    sys_step s (spawn s c (server_name g ci) p)
(* one operation of a connection *)
| sys_run c t o k a :
    s_threads s !! c = Some t → t_prog t = PDo o k → allowed s (gact (ev o a)) →
    sys_step s (run_act s c t (gact (ev o a)) (k a))
(* syncer.fetchOnce, up to the hook loop of its Table.Update *)
| sys_poll w sy calls logs :
    s_pending s = [] → fetchOnce (s_sync s) w = (sy, calls, logs) →
    sys_step s (polled s sy calls)
| sys_hook s' : hook_step s s' → sys_step s s'.

Definition sys_initial (terminates : bool) (tok : string) (tr : T) : system T := {|
  s_sync := NewSyncer (wired_table terminates) tok; s_handler := {| proxies := ∅; muxPools := ∅ |};
  s_tracker := tr; s_pending := []; s_threads := ∅; s_closed := ∅; s_gone := ∅; s_seen := [];
|}.

Inductive sys_reachable (tr0 : T) : system T → Prop :=
| sys_reachable_initial terminates tok : sys_reachable tr0 (sys_initial terminates tok tr0)
| sys_reachable_step s s' : sys_reachable tr0 s → sys_step s s' → sys_reachable tr0 s'.

(** Bytes of the client's traffic go to or come from the enclave. *)
Definition touches (o : gop) : bool :=
  match o with
  | GP (Proxy.OBackendWrite _) | GP Proxy.OSplice => true
  | GT (Terminate.OServe _ _ _) => true
  | GW (WsServe.OWriteFrame _ _ _ _) | GW WsServe.OPump => true
  | _ => false
  end.

(** * The same steps as a function of a schedule *)

Inductive sys_event : Type :=
| SysSpawn (c : nat) (ci : client_input)
| SysRun (c : nat) (net : ∀ o : gop, gans o)   (* answers of network, clock and TLS *)
| SysPoll (w : surroundings)
| SysHook.

(** The answer of an operation: by the shared state where it is one of its
    operations, otherwise by [net]. *)
Definition sys_answer (s : system T) (net : ∀ o : gop, gans o) (o : gop) : gans o :=
  match o return gans o → gans o with
  | GP (Proxy.OLookup host) | GT (Terminate.OLookup host) | GW (WsServe.OLookup host) =>
      fun _ => Lookup (s_table s) host
  | GT (Terminate.OProxyFor route) =>
      fun _ => match (proxyFor (s_handler s) route).2 with inl p => Some p | inr _ => None end
  | _ => fun a => a
  end (net o).

Definition has_room (s : system T) (a : act) : bool :=
  match a with ATrack _ _ => ht_room (s_tracker s) | _ => true end.

Definition sys_exec (s : system T) (e : sys_event) : option (system T) :=
  match e with
  | SysSpawn c ci =>
      match s_threads s !! c, connection g h ci with
      | None, Ret p => Some (spawn s c (server_name g ci) p)
      | _, _ => None
      end
  | SysRun c net =>
      match s_threads s !! c with
      | Some t =>
          match t_prog t with
          | PRet _ => None
          | PDo o k =>
              let a := sys_answer s net o in
              if has_room s (gact (ev o a))
              then Some (run_act s c t (gact (ev o a)) (k a)) else None
          end
      | None => None
      end
  | SysPoll w =>
      match s_pending s with
      | [] => let '(sy, calls, _) := fetchOnce (s_sync s) w in Some (polled s sy calls)
      | _ => None
      end
  | SysHook =>
      match s_pending s with
      | call :: rest => Some (run_hook s call rest)
      | [] => None
      end
  end.

Fixpoint sys_exec_all (s : system T) (es : list sys_event) : option (system T) :=
  match es with
  | [] => Some s
  | e :: es => match sys_exec s e with Some s' => sys_exec_all s' es | None => None end
  end.

Lemma sys_answer_allowed s net o :
  has_room s (gact (ev o (sys_answer s net o))) = true →
  allowed s (gact (ev o (sys_answer s net o))).
Proof. destruct o as [[]|[]|[]|[]]; simpl; done. Qed.

Lemma sys_exec_step s e s' : sys_exec s e = Some s' → sys_step s s'.
Proof.
  destruct e as [c ci|c net|w|]; simpl; intros He.
  - destruct (s_threads s !! c) eqn:Ec; [done|]. destruct (connection g h ci) eqn:Ep; simplify_eq.
    by constructor.
  - destruct (s_threads s !! c) as [t|] eqn:Ec; [|done]. destruct (t_prog t) as [|o k] eqn:Et; [done|].
    destruct (has_room s _) eqn:Ea; [|done]. simplify_eq.
    apply sys_run with (o := o); [done|done|]. by apply sys_answer_allowed.
  - destruct (s_pending s) eqn:Ep; [|done]. destruct (fetchOnce (s_sync s) w) as [[sy calls] logs] eqn:Ef.
    simplify_eq. by apply sys_poll with (w := w) (logs := logs).
  - destruct (s_pending s) as [|call rest] eqn:Ep; [done|]. simplify_eq. apply sys_hook. by exists call, rest.
Qed.

Lemma sys_exec_reachable tr0 s es s' :
  sys_reachable tr0 s → sys_exec_all s es = Some s' → sys_reachable tr0 s'.
Proof.
  revert s. induction es as [|e es IH]; simpl; intros s Hs He; [by simplify_eq|].
  destruct (sys_exec s e) as [s1|] eqn:E; [|done]. eapply IH; [|done].
  eapply sys_reachable_step; [done|]. by eapply sys_exec_step.
Qed.

(** * The system takes the steps of the cut protocol *)

(** How a connection, in the monitor state [ms], appears in the protocol. *)
Definition conn_rel (t : thread) (ms : mstate) (oc : option conn) : Prop :=
  match m_route ms with
  | None => m_reg ms = RNone ∧ t_key t = None ∧ oc = None
  | Some r => ∃ cn, oc = Some cn ∧ ToLower (c_host cn) = ToLower (t_name t) ∧ ToLower (SNI r) = ToLower (t_name t) ∧
      match m_reg ms with
      | RNone => t_key t = None ∧ c_phase cn = Checked
      | RReg th | RRefused th =>
          ToLower th = ToLower (t_name t) ∧ ∃ key, t_key t = Some key ∧ c_phase cn = Registered key
      | RLive th => ToLower th = ToLower (t_name t) ∧ ∃ key, t_key t = Some key ∧ c_phase cn = Serving key
      end
  end.

Record sim (s : system T) (gw : gateway T) : Prop := {
  sim_table : g_table gw = s_table s;
  sim_tracker : g_tracker gw = s_tracker s;
  sim_pending : g_pending gw = hook_hosts (s_pending s);
  sim_closed : g_closed gw = s_closed s;
  sim_gone : g_gone gw = s_gone s;
  sim_threads : ∀ c, match s_threads s !! c with
    | None => g_conns gw !! c = None
    | Some t => ∃ ms, safe (gstep (t_name t)) (t_prog t) ms (fun _ _ => True) ∧ conn_rel t ms (g_conns gw !! c)
    end;
}.

Context `{!GoUnicodeLaws} `{!GoRangeLaws} `{!HostTrackerLaws T}.
Hypothesis h_live : Terminate.h_lookup h = true.

(** What a step of the protocol by connection [c] leaves alone. *)
Record local_step (s : system T) (c : nat) (t : thread) (a : act) (gw gw' : gateway T) : Prop := {
  ls_step : gw' = gw ∨ step gw gw';
  ls_table : g_table gw' = g_table gw;
  ls_tracker : g_tracker gw' = (tracker_after s c t a).1;
  ls_pending : g_pending gw' = g_pending gw;
  ls_closed : g_closed gw' = g_closed gw;
  ls_gone : g_gone gw' = g_gone gw;
  ls_others : ∀ c', c' ≠ c → g_conns gw' !! c' = g_conns gw !! c';
}.

Lemma local_stutter s c t a gw :
  g_tracker gw = (tracker_after s c t a).1 → local_step s c t a gw gw.
Proof. by split; auto. Qed.

Lemma local_set_conn s c t a gw tr cn :
  step gw (set_conn gw tr c cn) → tr = (tracker_after s c t a).1 → local_step s c t a gw (set_conn gw tr c cn).
Proof. intros Hs Ht. split; simpl; auto. intros c' Hc. by rewrite lookup_insert_ne. Qed.

Lemma Lookup_lower t host host' : ToLower host = ToLower host' → Lookup t host = Lookup t host'.
Proof. unfold Lookup. by intros ->. Qed.

Lemma Lookup_name t host r : table_wf t → Lookup t host = Some r → ToLower (SNI r) = ToLower host.
Proof. intros (Hk & _) Hl. by rewrite (Hk _ _ Hl). Qed.

(** A lookup: the route is found, or the registration is checked again. *)
Lemma sim_lookup s c t ms host answer ms' gw p :
  sim s gw → inv gw → conn_rel t ms (g_conns gw !! c) →
  mstep (t_name t) ms (ALookup host answer) = Some ms' → answer = Lookup (s_table s) host →
  ∃ gw', local_step s c t (ALookup host answer) gw gw' ∧
    conn_rel {| t_name := t_name t; t_prog := p; t_key := t_key t |} ms' (g_conns gw' !! c).
Proof.
  intros Hsim Hinv Hrel Hm Ha. pose proof (sim_tracker s gw Hsim) as Htr. pose proof (sim_table s gw Hsim) as Htb.
  destruct ms as [mr mp mg]. cbn [mstep m_route m_reg m_proxy set_reg] in Hm.
  unfold conn_rel in Hrel. cbn [m_route m_reg] in Hrel. destruct mr as [r|].
  - destruct Hrel as (cn & Hc & Hh & Hs & Hrel). destruct mg as [|th|th|th].
    + injection Hm as <-. exists gw. split; [by apply local_stutter|]. exists cn. by rewrite Hc.
    + destruct (String.eqb_spec host th) as [->|]; [|done]. injection Hm as <-.
      destruct Hrel as (Hth & key & Hk & Hph). destruct (Proxy.is_quarantined answer) eqn:Eq.
      * exists gw. split; [by apply local_stutter|]. exists cn. rewrite Hc. simpl. naive_solver.
      * exists (set_conn gw (g_tracker gw) c (with_phase cn (Serving key))). split.
        { apply local_set_conn; [|done]. apply step_serve; [done|done|].
          unfold quarantined_now. rewrite Htb, (Lookup_lower _ _ th) by congruence. rewrite <- Ha. exact Eq. }
        exists (with_phase cn (Serving key)). simpl. rewrite lookup_insert_eq. naive_solver.
    + injection Hm as <-. exists gw. split; [by apply local_stutter|]. exists cn. by rewrite Hc.
    + injection Hm as <-. exists gw. split; [by apply local_stutter|]. exists cn. by rewrite Hc.
  - destruct Hrel as (-> & Hk & Hc). destruct (String.eqb_spec host (t_name t)) as [->|]; [|done].
    injection Hm as <-. destruct answer as [r|].
    + exists (set_conn gw (g_tracker gw) c {| c_host := t_name t; c_phase := Checked |}). split.
      { apply local_set_conn; [|done]. apply (step_accept gw c (t_name t) r); [done|]. by rewrite Htb. }
      exists {| c_host := t_name t; c_phase := Checked |}. simpl. rewrite lookup_insert_eq. split_and!; try done.
      apply (Lookup_name (s_table s)); [|done]. rewrite <- Htb. apply Hinv.
    + exists gw. split; [by apply local_stutter|]. by rewrite Hc.
Qed.

Lemma sim_track s c t ms host k ms' gw p :
  sim s gw → conn_rel t ms (g_conns gw !! c) →
  mstep (t_name t) ms (ATrack host k) = Some ms' → ht_room (s_tracker s) = true →
  ∃ gw', local_step s c t (ATrack host k) gw gw' ∧
    conn_rel {| t_name := t_name t; t_prog := p; t_key := (tracker_after s c t (ATrack host k)).2 |} ms'
      (g_conns gw' !! c).
Proof.
  intros Hsim Hrel Hm Hroom. pose proof (sim_tracker s gw Hsim) as Htr.
  destruct ms as [[r|] mp []]; cbn [mstep m_route m_reg m_proxy set_reg] in Hm; try done.
  destruct Hrel as (cn & Hc & Hh & Hs & Hk & Hph).
  assert (ToLower host = ToLower (t_name t)) as Hlow.
  { destruct (_ || _) eqn:E in Hm; [|done]. apply orb_true_iff in E as [->%String.eqb_eq| ->%String.eqb_eq]; done. }
  destruct (_ || _) in Hm; [|done]. injection Hm as <-.
  cbn [tracker_after]. destruct (ht_track (s_tracker s) host k c) as [tr key] eqn:Et.
  exists (set_conn gw tr c (with_phase cn (Registered key))). split.
  { apply local_set_conn; [|simpl; by rewrite Et].
    apply (step_register gw c cn host k); [done|done|by rewrite Htr|congruence|by rewrite Htr]. }
  exists (with_phase cn (Registered key)). simpl. rewrite lookup_insert_eq. naive_solver.
Qed.

Lemma sim_release s c t ms ms' gw p :
  sim s gw → conn_rel t ms (g_conns gw !! c) → mstep (t_name t) ms ARelease = Some ms' →
  ∃ gw', local_step s c t ARelease gw gw' ∧
    conn_rel {| t_name := t_name t; t_prog := p; t_key := (tracker_after s c t ARelease).2 |} ms'
      (g_conns gw' !! c).
Proof.
  intros Hsim Hrel Hm. pose proof (sim_tracker s gw Hsim) as Htr.
  destruct ms as [mr mp mg]. cbn [mstep m_route m_reg m_proxy set_reg] in Hm.
  unfold conn_rel in Hrel. cbn [m_route m_reg] in Hrel. destruct mr as [r|]; [|destruct Hrel as (-> & _); done].
  destruct Hrel as (cn & Hc & Hh & Hs & Hrel).
  assert (∃ key, t_key t = Some key ∧ phase_key (c_phase cn) = Some key ∧
    ms' = {| m_route := Some r; m_proxy := mp; m_reg := RNone |}) as (key & Hk & Hph & ->).
  { destruct mg; [done|..]; injection Hm as <-; destruct Hrel as (_ & key & Hk & Hp); exists key; by rewrite Hp. }
  exists (set_conn gw (ht_release (g_tracker gw) key) c (with_phase cn Checked)).
  cbn [tracker_after]. rewrite Hk. split.
  { apply local_set_conn; [|simpl; by rewrite Hk, Htr]. apply step_done; [done|done|by left]. }
  exists (with_phase cn Checked). simpl. by rewrite lookup_insert_eq.
Qed.

(** Every action of a connection is a step of the protocol or invisible to it. *)
Lemma sim_act s c t ms a ms' gw p :
  sim s gw → inv gw → conn_rel t ms (g_conns gw !! c) →
  mstep (t_name t) ms a = Some ms' → allowed s a →
  ∃ gw', local_step s c t a gw gw' ∧
    conn_rel {| t_name := t_name t; t_prog := p; t_key := (tracker_after s c t a).2 |} ms' (g_conns gw' !! c).
Proof.
  intros Hsim Hinv Hrel Hm Hok. pose proof (sim_tracker s gw Hsim) as Htr.
  assert (Hstutter : ∀ rp, ms' = set_proxy ms rp → tracker_after s c t a = (s_tracker s, t_key t) →
    ∃ gw', local_step s c t a gw gw' ∧
      conn_rel {| t_name := t_name t; t_prog := p; t_key := (tracker_after s c t a).2 |} ms' (g_conns gw' !! c)).
  { intros rp -> Hta. exists gw. split; [apply local_stutter; by rewrite Hta|]. by rewrite Hta. }
  assert (Hsame : set_proxy ms (m_proxy ms) = ms) by (by destruct ms).
  destruct a as [host answer|route answer|route|host k| |rp| |]; cbn [allowed] in Hok.
  - by apply (sim_lookup s c t ms).
  - cbn [mstep] in Hm. case_decide; [|done]. injection Hm as <-. by apply (Hstutter answer).
  - cbn [mstep] in Hm. case_decide; [|done]. injection Hm as <-. by apply (Hstutter (m_proxy ms)).
  - by apply (sim_track s c t ms).
  - by apply (sim_release s c t ms).
  - apply (Hstutter (m_proxy ms)); [|done]. rewrite Hsame. cbn [mstep] in Hm.
    destruct (m_reg ms); try done. destruct rp; [case_decide; [|done]|]; by injection Hm.
  - injection Hm as <-. by apply (Hstutter None).
  - injection Hm as <-. by apply (Hstutter (m_proxy ms)).
Qed.

(** * Simulation *)

Lemma sim_run s gw c t o k a :
  sim s gw → inv gw → s_threads s !! c = Some t → t_prog t = PDo o k → allowed s (gact (ev o a)) →
  ∃ gw', (gw' = gw ∨ step gw gw') ∧ sim (run_act s c t (gact (ev o a)) (k a)) gw'.
Proof.
  intros Hsim Hinv Hc Hp Hok. pose proof (sim_threads s gw Hsim c) as Ht. rewrite Hc, Hp in Ht.
  destruct Ht as (ms & Hsafe & Hrel). destruct (Hsafe a) as (ms' & Hm & Hk).
  destruct (sim_act s c t ms _ ms' gw (k a) Hsim Hinv Hrel Hm Hok) as (gw' & Hl & Hrel').
  exists gw'. split; [apply Hl|]. destruct Hsim as [S1 S2 S3 S4 S5 S6], Hl as [L1 L2 L3 L4 L5 L6 L7].
  split; simpl; [by rewrite L2|done|by rewrite L4|by rewrite L5|by rewrite L6|].
  intros c'. rewrite lookup_insert. case_decide as Hcc; [subst c'; by exists ms'|].
  rewrite L7 by done. apply S6.
Qed.

Lemma sim_spawn s gw c ci p :
  sim s gw → s_threads s !! c = None → connection g h ci = Ret p → sim (spawn s c (server_name g ci) p) gw.
Proof.
  intros [S1 S2 S3 S4 S5 S6] Hc Hp. split; simpl; try done.
  intros c'. rewrite lookup_insert. case_decide as Hcc; [subst c'|apply S6].
  exists mstart. split; [|by specialize (S6 c); rewrite Hc in S6].
  eapply safe_mono; [|by eapply connection_safe]. done.
Qed.

Lemma sim_poll s gw w sy calls logs :
  sim s gw → s_pending s = [] → fetchOnce (s_sync s) w = (sy, calls, logs) →
  ∃ gw', (gw' = gw ∨ step gw gw') ∧ sim (polled s sy calls) gw'.
Proof.
  intros Hsim Hpend Hf. pose proof (fetchOnce_outcome (s_sync s) w) as Ho. rewrite Hf in Ho. simpl in Ho.
  destruct Hsim as [S1 S2 S3 S4 S5 S6].
  assert (Hsame : table sy = s_table s → calls = [] → sim (polled s sy calls) gw).
  { intros Ht ->. split; simpl; try done; unfold s_table in *; simpl.
    - by rewrite Ht.
    - by rewrite S3, Hpend.
    - by rewrite Ht, difference_diag_L, union_empty_r_L. }
  destruct (outcome_of (s_sync s) w) as [r| |].
  - destruct Ho as [-> ->]. destruct (Update _ _ _) as [[t' changed] calls'] eqn:EU.
    eexists. split.
    { right. eapply step_update; [by rewrite S3, Hpend|]. rewrite S1. exact EU. }
    split; simpl; try done. unfold s_table. simpl. by rewrite S1, S5.
  - destruct Ho as [-> ->]. exists gw. split; [by left|]. by apply Hsame.
  - destruct Ho as [[msg ->] ->]. exists gw. split; [by left|]. by apply Hsame.
Qed.

Lemma sim_hook s gw s' : sim s gw → hook_step s s' → ∃ gw', (gw' = gw ∨ step gw gw') ∧ sim s' gw'.
Proof.
  intros [S1 S2 S3 S4 S5 S6] (call & rest & Hpend & ->). rewrite Hpend in S3.
  destruct call as [host|route]; cbn [run_hook].
  - destruct (ht_cut (s_tracker s) host) as [tr cut] eqn:Ec. eexists. split.
    { right. eapply step_hook; [exact S3|]. by rewrite S2, Ec. }
    split; simpl; try done. by rewrite S4.
  - exists gw. split; [by left|]. by split.
Qed.

Lemma sim_step s gw s' :
  sim s gw → inv gw → sys_step s s' → ∃ gw', (gw' = gw ∨ step gw gw') ∧ sim s' gw'.
Proof.
  intros Hsim Hinv [c ci p Hc Hp|c t o k a Hc Hp Hok|w sy calls logs Hpend Hf|s'' Hh].
  - exists gw. split; [by left|]. by apply sim_spawn.
  - by apply sim_run.
  - by apply (sim_poll s gw w sy calls logs).
  - by apply (sim_hook s).
Qed.

Lemma sim_initial terminates tok tr : sim (sys_initial terminates tok tr) (initial terminates tr).
Proof. by split. Qed.

Lemma sys_simulated tr0 s :
  ht_wf tr0 → sys_reachable tr0 s → ∃ gw, reachable tr0 gw ∧ sim s gw.
Proof.
  intros Hwf. induction 1 as [terminates tok|s s' _ (gw & Hr & Hsim) Hstep].
  { exists (initial terminates tr0). split; [constructor|apply sim_initial]. }
  destruct (sim_step s gw s' Hsim (inv_reachable tr0 gw Hwf Hr) Hstep) as (gw' & [->|Hs] & Hsim');
    [by eauto|]. exists gw'. split; [by eapply reachable_step|done].
Qed.

(** A connection about to send bytes to or from an enclave is being served in the
    protocol, under the server name its client asked for. *)
Lemma touching_is_serving s gw c t o k :
  sim s gw → s_threads s !! c = Some t → t_prog t = PDo o k → touches o = true → inhabited (gans o) →
  ∃ cn key, g_conns gw !! c = Some cn ∧ c_phase cn = Serving key ∧ ToLower (c_host cn) = ToLower (t_name t).
Proof.
  intros Hsim Hc Hp Ho [a]. pose proof (sim_threads s gw Hsim c) as Ht. rewrite Hc, Hp in Ht.
  destruct Ht as (ms & Hsafe & Hrel). destruct (Hsafe a) as (ms' & Hm & _).
  assert (∃ th, m_reg ms = RLive th) as [th Hth].
  { destruct o as [[]|[]|[]|[]]; simpl in Ho; try done; cbn in Hm; destruct (m_reg ms); try done; eauto. }
  unfold conn_rel in Hrel. rewrite Hth in Hrel. destruct (m_route ms); [|by destruct Hrel].
  destruct Hrel as (cn & Hcn & Hh & _ & _ & key & _ & Hph). eauto.
Qed.

Lemma touches_inhabited o : touches o = true → inhabited (gans o).
Proof. destruct o as [[]|[]|[]|[]]; simpl; try done; intros _; repeat constructor. Qed.

(** * What the running gateway guarantees *)

(** C7: The running gateway refines the cut protocol: whatever the clients send and
    the network answers, and however connections, polls and hook calls
    interleave, the table, the tracker, the outstanding cuts and the closed
    connections go through states of the protocol, in which every connection
    stands where its program stands. *)
Theorem system_refines tr0 s :
  ht_wf tr0 → sys_reachable tr0 s → ∃ gw, reachable tr0 gw ∧ sim s gw.
Proof. apply sys_simulated. Qed.

Lemma quarantined_is_cut tr0 s c t o k :
  ht_wf tr0 → sys_reachable tr0 s → hook_hosts (s_pending s) = [] →
  s_threads s !! c = Some t → t_prog t = PDo o k → touches o = true →
  quarantined_now (s_table s) (t_name t) = true →
  c ∈ s_closed s ∨ ToLower (t_name t) ∈ s_gone s.
Proof.
  intros Hwf Hr Hpend Hc Hp Ho Hq. destruct (sys_simulated tr0 s Hwf Hr) as (gw & Hgw & Hsim).
  destruct (touching_is_serving s gw c t o k Hsim Hc Hp Ho (touches_inhabited o Ho)) as (cn & key & Hcn & Hph & Hh).
  pose proof (served_is_cut tr0 gw c cn key Hwf Hgw) as Hcut.
  rewrite (sim_pending s gw Hsim), (sim_table s gw Hsim), (sim_closed s gw Hsim), (sim_gone s gw Hsim), Hh in Hcut.
  apply Hcut; [done..|]. unfold quarantined_now in *. by rewrite (Lookup_lower _ _ (t_name t)).
Qed.

(** C1: Traffic with a quarantined enclave is cut.  Whenever the cuts of the last
    update are made, a connection whose next operation sends bytes to or from the
    enclave (a splice, a proxied request, a frame of a sealed WebSocket), and whose
    server name the table says is quarantined, has had its close function started;
    the exception is a host that left the table at an earlier update. *)
Theorem no_quarantined_traffic tr0 s c t o k :
  ht_wf tr0 → sys_reachable tr0 s → hook_hosts (s_pending s) = [] →
  s_threads s !! c = Some t → t_prog t = PDo o k → touches o = true →
  quarantined_now (s_table s) (t_name t) = true →
  c ∈ s_closed s ∨ ToLower (t_name t) ∈ s_gone s.
Proof. apply quarantined_is_cut. Qed.

(** ** The cuts are made *)

(** A run of the system with the number of hook calls in it. *)
Inductive sys_path : nat → system T → system T → Prop :=
| path_refl s : sys_path 0 s s
| path_hook n s s1 s2 : hook_step s s1 → sys_path n s1 s2 → sys_path (S n) s s2
| path_other n s s1 s2 : sys_step s s1 → sys_path n s1 s2 → sys_path n s s2.

Lemma sys_path_reachable tr0 n s s' : sys_reachable tr0 s → sys_path n s s' → sys_reachable tr0 s'.
Proof.
  intros Hr Hp. induction Hp as [|n s s1 s2 Hh _ IH|n s s1 s2 Hs _ IH]; [done|..]; apply IH;
    eapply sys_reachable_step; try done. by apply sys_hook.
Qed.

Lemma run_hook_frame s call rest :
  s_pending (run_hook s call rest) = rest ∧ s_table (run_hook s call rest) = s_table s ∧
  s_threads (run_hook s call rest) = s_threads s.
Proof. destruct call; [|done]. cbn [run_hook]. by destruct (ht_cut _ _). Qed.

(** While hook calls are outstanding, every step leaves the table alone and makes
    at most one of them: no poll comes in between. *)
Lemma pending_step s s' :
  s_pending s ≠ [] → sys_step s s' →
  s_table s' = s_table s ∧ (s_pending s' = s_pending s ∨ hook_step s s').
Proof.
  intros Hne [c ci p Hc Hp|c t o k a Hc Hp Hok|w sy calls logs Hpend Hf|s'' Hh]; [by auto..|done|].
  destruct Hh as (call & rest & Hpend & ->). destruct (run_hook_frame s call rest) as (_ & -> & _).
  split; [done|]. right. by exists call, rest.
Qed.

Lemma hooks_drain n s s' :
  sys_path n s s' → (length (s_pending s) ≤ n)%nat →
  ∃ m m' s1, sys_path m s s1 ∧ sys_path m' s1 s' ∧ s_pending s1 = [] ∧ s_table s1 = s_table s.
Proof.
  intros Hp. induction Hp as [s|n s s1 s2 Hh Hp IH|n s s1 s2 Hs Hp IH]; intros Hlen.
  - exists 0%nat, 0%nat, s. split_and!; [constructor..| |done]. by destruct (s_pending s); [|simpl in Hlen; lia].
  - pose proof Hh as (call & rest & Hpend & ->). destruct (run_hook_frame s call rest) as (Ep & Et & _).
    rewrite Ep, Et, Hpend in *. simpl in *. destruct IH as (m & m' & s1 & Hp1 & Hp2 & E1 & E2); [lia|].
    exists (S m), m', s1. split_and!; [by eapply path_hook|done..].
  - destruct (decide (s_pending s = [])) as [E|Hne]; [exists 0%nat, n, s; split_and!; [constructor|by eapply path_other|done..]|].
    destruct (pending_step s s1 Hne Hs) as [Et Hor].
    destruct IH as (m & m' & s3 & Hp1 & Hp2 & E1 & E2).
    { destruct Hor as [->|(call & rest & Hpend & ->)]; [done|].
      destruct (run_hook_frame s call rest) as (-> & _). rewrite Hpend in Hlen. simpl in Hlen. lia. }
    exists m, m', s3. split_and!; [by eapply path_other|done|done|congruence].
Qed.

(** C2: A quarantine takes effect.  While an update has calls left to make,
    one can be made, and a run with as many hook calls as were outstanding passes
    through a state with the same table where all are made and every connection
    exchanging bytes with a quarantined enclave is closed (or its host had left the
    table before): no other step of the system, a poll included, gets in the way. *)
Theorem quarantine_takes_effect tr0 s :
  ht_wf tr0 → sys_reachable tr0 s →
  (s_pending s ≠ [] → ∃ s', hook_step s s') ∧
  ∀ n s', sys_path n s s' → (length (s_pending s) ≤ n)%nat →
    ∃ m m' s1, sys_path m s s1 ∧ sys_path m' s1 s' ∧ s_pending s1 = [] ∧ s_table s1 = s_table s ∧
      ∀ c t o k, s_threads s1 !! c = Some t → t_prog t = PDo o k → touches o = true →
        quarantined_now (s_table s1) (t_name t) = true →
        c ∈ s_closed s1 ∨ ToLower (t_name t) ∈ s_gone s1.
Proof.
  intros Hwf Hr. split.
  - destruct (s_pending s) as [|call rest] eqn:E; [done|]. intros _. exists (run_hook s call rest). by exists call, rest.
  - intros n s' Hp Hlen. destruct (hooks_drain n s s' Hp Hlen) as (m & m' & s1 & Hp1 & Hp2 & E1 & E2).
    exists m, m', s1. split_and!; [done..|]. intros c t o k Hc Hpr Ho Hq.
    apply (quarantined_is_cut tr0 s1 c t o k); try done; [by eapply sys_path_reachable|by rewrite E1].
Qed.

(** ** Requests go to the app the client named *)

(** The proxy dials, names and verifies the route's app. *)
Definition proxy_of (r : Route) (p : upstreamProxy) : Prop :=
  rp_dial p = Upstream r ∧ rp_name p = UpstreamName r ∧
  ∃ raw, parsePolicy raw = Some (rp_policy p) ∧ hashPolicy raw = hashPolicy (AttestationPolicy r).

(** The route of a connection is one the table held for its server name, and its
    proxy is the route's. *)
Definition pinned (seen : list Route) (name : string) (ms : mstate) : Prop :=
  match m_route ms with
  | None => m_proxy ms = None
  | Some r => r ∈ seen ∧ ToLower (SNI r) = ToLower name ∧ ∀ p, m_proxy ms = Some p → proxy_of r p
  end.

Record pinned_inv (s : system T) : Prop := {
  pi_caches : caches_ok (s_handler s);
  pi_wf : table_wf (s_table s);
  pi_seen : ∀ k r, routes (s_table s) !! k = Some r → r ∈ s_seen s;
  pi_ok : ∀ r, r ∈ s_seen s → route_ok r;
  pi_threads : ∀ c t, s_threads s !! c = Some t →
    ∃ ms, safe (gstep (t_name t)) (t_prog t) ms (fun _ _ => True) ∧ pinned (s_seen s) (t_name t) ms;
}.

Lemma handler_after_ok hd a :
  caches_ok hd → (∀ route answer, a = AProxyFor route answer → route_ok route) →
  caches_ok (handler_after hd a).
Proof.
  intros Hok Hr. destruct a; try done; cbn [handler_after].
  - pose proof (proxyFor_ok hd route Hok ltac:(by eapply Hr)) as Hp.
    destruct (proxyFor hd route). apply Hp.
  - unfold muxPoolFor. by destruct (muxPools hd !! _).
Qed.

Lemma Forget_ok hd route : caches_ok hd → caches_ok (Forget hd route).1.
Proof. intros Hok. unfold Forget. cbn [fst]. apply (caches_ok_drop hd _ Hok). Qed.

(** The action of a connection keeps its route and proxy pinned. *)
Lemma pinned_act s t ms a ms' :
  pinned_inv s → pinned (s_seen s) (t_name t) ms →
  mstep (t_name t) ms a = Some ms' → allowed s a →
  pinned (s_seen s) (t_name t) ms' ∧ (∀ route answer, a = AProxyFor route answer → route_ok route).
Proof.
  intros Hinv Hpin Hm Hok. destruct ms as [mr mp mg]. unfold pinned in *. cbn [m_route m_proxy] in Hpin.
  destruct a as [host answer|route answer|route|host k| |rp| |]; cbn [mstep m_reg m_route m_proxy] in Hm; cbn [allowed] in Hok.
  - split; [|done]. subst answer. destruct mg; try (by injection Hm as <-); cbn [set_reg m_route m_proxy] in Hm.
    + destruct mr as [r|]; [by injection Hm as <-|]. destruct (String.eqb_spec host (t_name t)) as [->|]; [|done].
      injection Hm as <-. simpl. destruct (Lookup (s_table s) (t_name t)) as [r|] eqn:El; [|done].
      split_and!; [by eapply pi_seen|by eapply Lookup_name; [apply Hinv|]|by subst].
    + destruct (String.eqb host host0); [|done]. by injection Hm as <-.
  - case_decide as E; [|done]. injection Hm as <-. subst mr. destruct Hpin as (Hin & Hn & _).
    pose proof (pi_ok s Hinv route Hin) as Hro. split; [|by intros ? ? [= <- _]]. simpl. split_and!; [done..|].
    pose proof (proxyFor_ok (s_handler s) route (pi_caches s Hinv) Hro) as Hp. subst answer.
    destruct (proxyFor (s_handler s) route) as [h' res]. simpl. destruct Hp as (_ & _ & Hp).
    intros p Ep. destruct res; [|done]. by injection Ep as ->.
  - case_decide; [|done]. injection Hm as <-. by split.
  - split; [|done]. destruct mg, mr; try done. destruct (_ || _); [|done]. by injection Hm as <-.
  - split; [|done]. destruct mg; try done; by injection Hm as <-.
  - split; [|done]. destruct mg; try done. destruct rp; [case_decide; [|done]|]; by injection Hm as <-.
  - split; [|done]. injection Hm as <-. simpl. by destruct mr; [naive_solver|].
  - split; [|done]. by injection Hm as <-.
Qed.

Lemma pinned_more seen seen' name ms : pinned seen name ms → pinned (seen ++ seen') name ms.
Proof. unfold pinned. destruct (m_route ms); [|done]. intros (Hin & ?). split; [set_solver|done]. Qed.

Lemma fetchOnce_wf s w sy calls logs :
  table_wf (table s) → fetchOnce s w = (sy, calls, logs) → table_wf (table sy).
Proof.
  intros Hwf Hf. pose proof (fetchOnce_outcome s w) as Ho. rewrite Hf in Ho. simpl in Ho.
  destruct (outcome_of s w) as [r| |].
  - destruct Ho as [-> _]. apply (Update_wf (table s) (Routes r) (feed_version r) Hwf).
  - by destruct Ho as [-> _].
  - by destruct Ho as [[? ->] _].
Qed.

(** The history only grows. *)
Lemma seen_grows s s' : sys_step s s' → ∀ r, r ∈ s_seen s → r ∈ s_seen s'.
Proof.
  intros [c ci p Hc Hp|c t o k a Hc Hp Hok|w sy calls logs Hpend Hf|s'' (call & rest & Hpend & ->)] r Hr; simpl; try done.
  - apply elem_of_app. by left.
  - destruct call as [host|route]; cbn [run_hook]; [|done]. by destruct (ht_cut (s_tracker s) host).
Qed.

Lemma pinned_step s s' : pinned_inv s → sys_step s s' → (∀ r, r ∈ s_seen s' → route_ok r) → pinned_inv s'.
Proof.
  intros Hinv [c ci p Hc Hp|c t o k a Hc Hp Hok|w sy calls logs Hpend Hf|s'' (call & rest & Hpend & ->)] Hsok.
  - destruct Hinv as [P1 P2 P3 P4 P5]. split; simpl; try done. intros c' t' [[<- <-]|[_ Ht]]%lookup_insert_Some; [|by eauto].
    exists mstart. split; [|done]. eapply safe_mono; [|by eapply connection_safe]. done.
  - destruct (pi_threads s Hinv c t Hc) as (ms & Hsafe & Hpin). rewrite Hp in Hsafe.
    destruct (Hsafe a) as (ms' & Hm & Hk). destruct (pinned_act s t ms _ ms' Hinv Hpin Hm Hok) as [Hpin' Hro].
    destruct Hinv as [P1 P2 P3 P4 P5]. split; simpl; try done; [by apply handler_after_ok|].
    intros c' t' [[<- <-]|[_ Ht]]%lookup_insert_Some; [|by eauto]. by exists ms'.
  - assert (Hnew : ∀ r, r ∈ (map_to_list (routes (table sy))).*2 ↔ ∃ k, routes (table sy) !! k = Some r).
    { intros r. rewrite list_elem_of_fmap. split.
      - intros ([k r'] & -> & Hin%elem_of_map_to_list). by exists k.
      - intros [k Hk]. exists (k, r). split; [done|]. by apply elem_of_map_to_list. }
    destruct Hinv as [P1 P2 P3 P4 P5]. split; simpl; try done.
    + unfold s_table. simpl. by eapply fetchOnce_wf.
    + intros k r Hr. apply elem_of_app. right. apply Hnew. by exists k.
    + intros c t Ht. destruct (P5 c t Ht) as (ms & Hs & Hpin). exists ms. split; [done|]. by apply pinned_more.
  - destruct Hinv as [P1 P2 P3 P4 P5]. destruct call as [host|route]; cbn [run_hook].
    + destruct (ht_cut (s_tracker s) host). by split.
    + split; simpl; try done. by apply Forget_ok.
Qed.

Lemma pinned_reachable tr0 s : sys_reachable tr0 s → (∀ r, r ∈ s_seen s → route_ok r) → pinned_inv s.
Proof.
  induction 1 as [terminates tok|s s' _ IH Hs]; intros Hok.
  2: { eapply pinned_step; [apply IH|done|done]. intros r Hr. by eapply Hok, seen_grows. }
  split; simpl; try done; unfold s_table; simpl.
  - by destruct terminates.
  - intros k r. by destruct terminates.
Qed.

(** C3: A request goes to the app the client named.  In an execution in which no
    route the table has held has the separator of the cache keys in its names, when
    a connection is about to hand a request to a reverse proxy, that proxy dials the
    upstream, presents the name and enforces a policy with the hash of the policy of
    a route the table has held for the server name of this very connection: no
    caching, policy change, retirement or interleaving crosses two apps. *)
Theorem requests_stay_in_app tr0 s c t rp w req k :
  sys_reachable tr0 s → (∀ r, r ∈ s_seen s → route_ok r) →
  s_threads s !! c = Some t → t_prog t = PDo (GT (Terminate.OServe rp w req)) k →
  ∃ r, r ∈ s_seen s ∧ ToLower (SNI r) = ToLower (t_name t) ∧ proxy_of r rp.
Proof.
  intros Hr Hok Hc Hp. pose proof (pinned_reachable tr0 s Hr Hok) as Hinv.
  destruct (pi_threads s Hinv c t Hc) as (ms & Hsafe & Hpin). rewrite Hp in Hsafe.
  destruct (Hsafe (false, false)) as (ms' & Hm & _). cbn in Hm. destruct (m_reg ms); try done.
  case_decide as E; [|done]. unfold pinned in Hpin. destruct (m_route ms) as [r|]; [|by rewrite E in Hpin].
  destruct Hpin as (Hin & Hn & Hpr). exists r. eauto.
Qed.

End system.

(** * A concrete run *)

(** The server name of a connection and its next operation. *)
Definition next_op {T} (s : system T) (c : nat) : option (string * gop) :=
  match s_threads s !! c with
  | Some t => match t_prog t with PDo o _ => Some (t_name t, o) | PRet _ => None end
  | None => None
  end.

Lemma next_op_Some {T} (s : system T) c name o :
  next_op s c = Some (name, o) → ∃ t k, s_threads s !! c = Some t ∧ t_prog t = PDo o k ∧ t_name t = name.
Proof.
  unfold next_op. destruct (s_threads s !! c) as [t|]; [|done]. destruct (t_prog t) as [|o' k] eqn:E; [done|].
  intros [= <- <-]. eauto.
Qed.

Section witnesses.
Import RouteTableExamples.

Definition ex_sys_decoder : GoRoutesJSON := {|
  decode_routes b :=
    if String.eqb b "live" then
      inl {| Routes := [ex_route "A.apps.privasys.org" "10.0.0.1:443" ""; ex_route "b" "tunnel:e1" ""]; RespVersion := "v1" |}
    else if String.eqb b "held" then
      inl {| Routes := [ex_route "a.apps.privasys.org" "10.0.0.1:443" "quarantined"]; RespVersion := "v2" |}
    else inr "unexpected EOF"%string
|}.
Definition ex_sys_json : GoJSON := {| unmarshal_policy _ := None |}.
Definition ex_sys_url : GoURL := ex_url.
#[local] Existing Instances ex_sys_decoder ex_sys_json ex_sys_url.

(** A network where everything succeeds. *)
Definition ex_net (o : gop) : gans o :=
  match o return gans o with
  | GP o => match o return Proxy.ans o with
      | Proxy.OLookup _ => None
      | Proxy.OClientWrite _ | Proxy.OTLSHandshake _ | Proxy.OTLSWrite _ | Proxy.ODial _ _ | Proxy.OBackendWrite _ => true
      | _ => tt
      end
  | GT o => match o return Terminate.ans o with
      | Terminate.OHandshake _ => true
      | Terminate.ONegotiated => "http/1.1"
      | Terminate.OProxyFor _ | Terminate.OLookup _ => None
      | Terminate.OServe _ _ _ => (false, false)
      | _ => tt
      end
  | GW o => match o return WsServe.ans o with
      | WsServe.OGet _ | WsServe.OAccept | WsServe.ORegister _ _ | WsServe.OWriteFrame _ _ _ _ => true
      | WsServe.OIsDone => false
      | WsServe.OReadOpen | WsServe.OLookup _ => None
      | _ => tt
      end
  | GU o => match o return Tunnel.ans o with
      | Tunnel.OHandshake _ | Tunnel.OWrite _ => true
      | Tunnel.ONegotiated => ""
      | Tunnel.OReadRequest | Tunnel.OReadBody _ | Tunnel.OAuthorize _ | Tunnel.OYamuxClient _ => None
      | Tunnel.OBuffered => []
      | _ => tt
      end
  end.

(** A browser: its hello offers only h2, and it sends one request. *)
Definition ex_browser_hello : Sni.client_hello := {|
  Sni.ch_version := [x03; x03]; Sni.ch_random := replicate 32 x07; Sni.ch_session_id := [];
  Sni.ch_cipher_suites := [x13; x01]; Sni.ch_compression := [x00];
  Sni.ch_extensions :=
    [(0, Sni.encode_sni_ext [(0, "a.Apps.privasys.org"%string)]); (16, Sni.encode_alpn_ext ["http/1.1"%string])];
|}.
Definition ex_spliced : client_input := {|
  ci_client := Proxy.ex_client; ci_segments := Proxy.ex_segments; ci_requests := []; ci_reads := [] |}.
Definition ex_browsing : client_input := {|
  ci_client := Proxy.ex_client; ci_segments := [Sni.encode_record ex_browser_hello];
  ci_requests := [Cors.ex_cors_req]; ci_reads := [] |}.

Definition ex_run (es : list sys_event) : system Tracker :=
  let s0 := sys_initial true "token" NewTracker in
  match sys_exec_all Proxy.ex_gateway Terminate.ex_conf s0 es with Some s => s | None => s0 end.

Lemma ex_run_reachable es : sys_reachable Proxy.ex_gateway Terminate.ex_conf NewTracker (ex_run es).
Proof.
  unfold ex_run. destruct (sys_exec_all _ _ _ es) eqn:E; [|constructor].
  eapply sys_exec_reachable; [constructor|done].
Qed.

(** Connection 7 is spliced and connection 8 terminated, up to where each is about
    to exchange bytes with the enclave; then the route is quarantined. *)
Definition ex_serving : list sys_event :=
  [SysPoll (ex_poll 200 "live"); SysSpawn 7 ex_spliced; SysSpawn 8 ex_browsing] ++
  replicate 8 (SysRun 7 ex_net) ++ replicate 11 (SysRun 8 ex_net).
Definition ex_held : list sys_event := ex_serving ++ [SysPoll (ex_poll 200 "held")].

Lemma ex_tracker_wf : ht_wf NewTracker.
Proof. apply NewTracker_wf. Qed.

Lemma no_quarantined_traffic_witness :
  let s := ex_run (ex_held ++ replicate 3 SysHook) in
  next_op s 7 = Some ("a.apps.privasys.org"%string, GP Proxy.OSplice) ∧ 7%nat ∈ s_closed s.
Proof.
  intros s. assert (E : next_op s 7 = Some ("a.apps.privasys.org"%string, GP Proxy.OSplice)) by (vm_compute; reflexivity).
  split; [exact E|]. destruct (next_op_Some s 7 _ _ E) as (t & k & Hc & Hp & Hn).
  destruct (no_quarantined_traffic Proxy.ex_gateway Terminate.ex_conf eq_refl NewTracker s 7 t _ k ex_tracker_wf
    (ex_run_reachable _) ltac:(vm_compute; reflexivity) Hc Hp eq_refl) as [?|Hg].
  - rewrite Hn. vm_compute. reflexivity.
  - done.
  - exfalso. rewrite Hn in Hg. revert Hg. apply (bool_decide_unpack _). vm_compute. exact I.
Defined.

(** Before the hook calls are made both connections are open, and the calls close both. *)
Lemma quarantine_takes_effect_witness :
  s_closed (ex_run ex_held) = ∅ ∧
  ∃ s1 : system Tracker, s_pending s1 = [] ∧ s_table s1 = s_table (ex_run ex_held) ∧
    ∀ c t o k, s_threads s1 !! c = Some t → t_prog t = PDo o k → touches o = true →
      quarantined_now (s_table s1) (t_name t) = true → c ∈ s_closed s1 ∨ ToLower (t_name t) ∈ s_gone s1.
Proof.
  split; [vm_compute; reflexivity|].
  assert (Hdrain : ∀ n (s : system Tracker), length (s_pending s) = n →
    ∃ s', sys_path Proxy.ex_gateway Terminate.ex_conf n s s').
  { induction n as [|n IH]; intros s Hn; [exists s; constructor|].
    destruct (s_pending s) as [|call rest] eqn:E; [done|]. destruct (run_hook_frame s call rest) as (Ep & _).
    destruct (IH (run_hook s call rest)) as [s' Hs']; [rewrite Ep; simpl in Hn; lia|].
    exists s'. eapply path_hook; [|exact Hs']. by exists call, rest. }
  destruct (Hdrain (length (s_pending (ex_run ex_held))) (ex_run ex_held) eq_refl) as [s' Hs'].
  destruct (quarantine_takes_effect Proxy.ex_gateway Terminate.ex_conf eq_refl NewTracker (ex_run ex_held)
    ex_tracker_wf (ex_run_reachable _)) as [_ Heff].
  destruct (Heff _ s' Hs' (le_n _)) as (m & m' & s1 & _ & _ & H1 & H2 & H3). exists s1. exact (conj H1 (conj H2 H3)).
Defined.

Lemma system_refines_witness :
  ∃ gw, reachable NewTracker gw ∧ sim (ex_run ex_held) gw ∧ g_closed gw = ∅.
Proof.
  destruct (system_refines Proxy.ex_gateway Terminate.ex_conf eq_refl NewTracker (ex_run ex_held) ex_tracker_wf
    (ex_run_reachable _)) as (gw & Hr & Hs).
  exists gw. split; [exact Hr|]. split; [exact Hs|]. rewrite (sim_closed _ _ Hs). vm_compute. reflexivity.
Defined.

Lemma ex_seen_ok : ∀ r, r ∈ s_seen (ex_run ex_serving) → route_ok r.
Proof. apply Forall_forall. vm_compute. repeat constructor. Qed.

(** The server name and the proxy of a connection about to hand a request over. *)
Definition next_serve {T} (s : system T) (c : nat) : option (string * upstreamProxy) :=
  match next_op s c with Some (name, GT (Terminate.OServe rp _ _)) => Some (name, rp) | _ => None end.

Lemma requests_stay_in_app_witness :
  ∃ name rp r, next_serve (ex_run ex_serving) 8 = Some (name, rp) ∧ r ∈ s_seen (ex_run ex_serving) ∧
    ToLower (SNI r) = "a.apps.privasys.org"%string ∧ rp_dial rp = Upstream r.
Proof.
  assert (E : option_map fst (next_serve (ex_run ex_serving) 8) = Some "a.Apps.privasys.org"%string)
    by (vm_compute; reflexivity).
  unfold next_serve in *. destruct (next_op (ex_run ex_serving) 8) as [[name o]|] eqn:En; [|discriminate E].
  destruct o as [|[]| |]; try discriminate E. injection E as ->.
  destruct (next_op_Some _ 8 _ _ En) as (t & k & Hc & Hp & Hn).
  destruct (requests_stay_in_app Proxy.ex_gateway Terminate.ex_conf eq_refl NewTracker _ 8 t _ _ _ k
    (ex_run_reachable _) ex_seen_ok Hc Hp) as (r & Hin & Hl & Hd & _).
  rewrite Hn in Hl. exists "a.Apps.privasys.org"%string, rp, r.
  split; [reflexivity|]. split; [exact Hin|]. split; [exact Hl|exact Hd].
Defined.

End witnesses.
