(* ===== verification/Accept.v ===== *)
(** The accept loop and the shutdown: Run and Drain of src/internal/proxy/proxy.go
    with the signal handler of src/cmd/gateway/main.go.

    Four kinds of goroutine meet here: the accept loop of Run, the goroutine Run
    starts to wait for the end of the context, the signal handler of main, which
    cancels the context and calls Drain, and one handler per accepted connection.
    Each call to a shared object (listener, WaitGroup, the closed flag, context) is
    one step; an execution is any list of steps. *)
From stdpp Require Import fin_sets.
From S2P Require Import Prelude.

(** What ln.Accept fails with: the listener was closed, a temporary net.Error, or
    anything else. *)
Inductive accept_error : Type := ErrNetClosed | ErrTemporary | ErrOther.
#[export] Instance accept_error_eq_dec : EqDecision accept_error.
Proof. solve_decision. Defined.

Inductive run_error : Type := ErrListen | ErrAccept (e : accept_error).

(** Where Run stands. *)
Inductive run_pc : Type :=
| Listening                      (* before lc.Listen *)
| Accepting                      (* in ln.Accept *)
| Failed (e : accept_error)      (* Accept failed; g.closed.Load is next *)
| Sleeping                       (* time.Sleep(5ms) after a temporary error *)
| Accepted (c : nat)             (* connTotal.Inc, g.wg.Add(1) are next *)
| Added (c : nat)                (* go g.handleConn(conn) is next *)
| Waiting                        (* g.wg.Wait() *)
| Returned (err : option run_error).

(** The goroutine of Run: waits for ctx.Done, then stores, then closes. *)
Inductive closer_pc : Type := CNone | CWait | CStored | CDone.

(** The signal handler: cancel(), httpSrv.Shutdown, gw.Drain. *)
Inductive signal_pc : Type := SWait | SCancelled | SShutdown | SDraining | SDone.

Record gateway := {
  run_at : run_pc;
  closer_at : closer_pc;
  signal_at : signal_pc;
  ctx_done : bool;
  closed : bool;                 (* g.closed *)
  listening : bool;              (* the listener accepts connections *)
  wg : nat;                      (* the counter of g.wg *)
  live : gset nat;               (* handlers that run *)
  accepted : gset nat;           (* history: connections Accept returned *)
  finished : gset nat;           (* history: connections whose handler returned *)
}.

Definition start : gateway := {|
  run_at := Listening; closer_at := CNone; signal_at := SWait; ctx_done := false; closed := false;
  listening := false; wg := 0; live := ∅; accepted := ∅; finished := ∅;
|}.

Definition at_run (g : gateway) (pc : run_pc) : gateway := {|
  run_at := pc; closer_at := closer_at g; signal_at := signal_at g; ctx_done := ctx_done g; closed := closed g;
  listening := listening g; wg := wg g; live := live g; accepted := accepted g; finished := finished g |}.

(** The steps.  [RunStep] is the step of the accept loop that depends on nothing
    but the state. *)
Inductive event : Type :=
| Listen (ok : bool)
| AcceptConn (c : nat)
| AcceptErr (e : accept_error)
| RunStep
| CloserStep
| SignalStep
| HandlerDone (c : nat).

(** The accept loop between two calls of Accept. *)
Definition run_step (g : gateway) : option gateway :=
  match run_at g with
  | Failed e =>
      if closed g then Some (at_run g Waiting)
      else match e with
           | ErrTemporary => Some (at_run g Sleeping)
           | _ => Some (at_run g (Returned (Some (ErrAccept e))))
           end
  | Sleeping => Some (at_run g Accepting)
  | Accepted c => Some {|
      run_at := Added c; closer_at := closer_at g; signal_at := signal_at g; ctx_done := ctx_done g; closed := closed g;
      listening := listening g; wg := S (wg g); live := live g; accepted := accepted g; finished := finished g |}
  | Added c => Some {|
      run_at := Accepting; closer_at := closer_at g; signal_at := signal_at g; ctx_done := ctx_done g; closed := closed g;
      listening := listening g; wg := wg g; live := {[c]} ∪ live g; accepted := accepted g; finished := finished g |}
  | Waiting => match wg g with 0%nat => Some (at_run g (Returned None)) | _ => None end
  | _ => None
  end.

(** <-ctx.Done(); g.closed.Store(true); ln.Close() *)
Definition closer_step (g : gateway) : option gateway :=
  match closer_at g with
  | CWait =>
      if ctx_done g then Some {|
        run_at := run_at g; closer_at := CStored; signal_at := signal_at g; ctx_done := ctx_done g; closed := true;
        listening := listening g; wg := wg g; live := live g; accepted := accepted g; finished := finished g |}
      else None
  | CStored => Some {|
      run_at := run_at g; closer_at := CDone; signal_at := signal_at g; ctx_done := ctx_done g; closed := closed g;
      listening := false; wg := wg g; live := live g; accepted := accepted g; finished := finished g |}
  | _ => None
  end.

(** g.listener != nil: Run stored its listener. *)
Definition has_listener (g : gateway) : bool := match closer_at g with CNone => false | _ => true end.

(** Drain: it closes the listener, then it waits. *)
Definition drain_close (g : gateway) : gateway := {|
  run_at := run_at g; closer_at := closer_at g; signal_at := SDraining; ctx_done := ctx_done g; closed := closed g;
  listening := if has_listener g then false else listening g;
  wg := wg g; live := live g; accepted := accepted g; finished := finished g |}.
Definition drain_wait (g : gateway) : option gateway :=
  match wg g with
  | 0%nat => Some {|
      run_at := run_at g; closer_at := closer_at g; signal_at := SDone; ctx_done := ctx_done g; closed := closed g;
      listening := listening g; wg := wg g; live := live g; accepted := accepted g; finished := finished g |}
  | _ => None
  end.

(** The signal handler of main: cancel, the shutdown of the health server, Drain. *)
Definition signal_step (g : gateway) : option gateway :=
  match signal_at g with
  | SWait => Some {|
      run_at := run_at g; closer_at := closer_at g; signal_at := SCancelled; ctx_done := true; closed := closed g;
      listening := listening g; wg := wg g; live := live g; accepted := accepted g; finished := finished g |}
  | SCancelled => Some {|
      run_at := run_at g; closer_at := closer_at g; signal_at := SShutdown; ctx_done := ctx_done g; closed := closed g;
      listening := listening g; wg := wg g; live := live g; accepted := accepted g; finished := finished g |}
  | SShutdown => Some (drain_close g)
  | SDraining => drain_wait g
  | SDone => None
  end.

Definition exec (g : gateway) (ev : event) : option gateway :=
  match ev with
  | Listen ok =>
      match run_at g with
      | Listening =>
          if ok then Some {|
            run_at := Accepting; closer_at := CWait; signal_at := signal_at g; ctx_done := ctx_done g; closed := closed g;
            listening := true; wg := wg g; live := live g; accepted := accepted g; finished := finished g |}
          else Some (at_run g (Returned (Some ErrListen)))
      | _ => None
      end
  | AcceptConn c =>
      match run_at g with
      | Accepting =>
          if listening g && negb (bool_decide (c ∈ accepted g)) then Some {|
            run_at := Accepted c; closer_at := closer_at g; signal_at := signal_at g; ctx_done := ctx_done g;
            closed := closed g; listening := listening g; wg := wg g; live := live g;
            accepted := {[c]} ∪ accepted g; finished := finished g |}
          else None
      | _ => None
      end
  | AcceptErr e =>
      match run_at g with
      | Accepting =>
          if Bool.eqb (listening g) (bool_decide (e ≠ ErrNetClosed)) then Some (at_run g (Failed e)) else None
      | _ => None
      end
  | RunStep => run_step g
  | CloserStep => closer_step g
  | SignalStep => signal_step g
  | HandlerDone c =>
      if bool_decide (c ∈ live g) then Some {|
        run_at := run_at g; closer_at := closer_at g; signal_at := signal_at g; ctx_done := ctx_done g; closed := closed g;
        listening := listening g; wg := pred (wg g); live := live g ∖ {[c]}; accepted := accepted g;
        finished := {[c]} ∪ finished g |}
      else None
  end.

Fixpoint run (g : gateway) (evs : list event) : option gateway :=
  match evs with
  | [] => Some g
  | ev :: evs => match exec g ev with Some g' => run g' evs | None => None end
  end.

(** * The invariant *)

(** The connection in the hands of Run. *)
Definition in_hand (pc : run_pc) : gset nat :=
  match pc with Accepted c | Added c => {[c]} | _ => ∅ end.

Definition run_listens (pc : run_pc) : bool :=
  match pc with Listening | Returned (Some ErrListen) => false | _ => true end.

(** What lies behind an error Run returned. *)
Definition error_cause (g : gateway) : Prop :=
  match run_at g with
  | Listening | Returned (Some ErrListen) => accepted g = ∅
  | Returned (Some (ErrAccept ErrTemporary)) => False
  | Returned (Some (ErrAccept ErrNetClosed)) => signal_at g = SDraining ∨ signal_at g = SDone
  | _ => True
  end.

Record inv (g : gateway) : Prop := {
  (* the WaitGroup counts the handlers, and the one about to be started *)
  inv_wg : wg g = (size (live g) + match run_at g with Added _ => 1 | _ => 0 end)%nat;
  (* every accepted connection is in Run's hands, runs or is finished *)
  inv_accepted : accepted g = in_hand (run_at g) ∪ live g ∪ finished g;
  inv_fresh : in_hand (run_at g) ## live g ∪ finished g ∧ live g ## finished g;
  inv_closed : closed g = true ↔ closer_at g = CStored ∨ closer_at g = CDone;
  inv_closer : has_listener g = run_listens (run_at g);
  inv_ctx : closed g = true → ctx_done g = true;
  inv_signal : signal_at g ≠ SWait → ctx_done g = true;
  inv_listening : has_listener g = true → listening g = false →
    closed g = true ∨ signal_at g = SDraining ∨ signal_at g = SDone;
  inv_done : closer_at g = CDone → listening g = false;
  (* an error of a closed listener is seen as one only when Drain was first *)
  inv_errclosed : run_at g = Failed ErrNetClosed ∨ run_at g = Returned (Some (ErrAccept ErrNetClosed)) →
    listening g = false;
  inv_waiting : run_at g = Waiting ∨ run_at g = Returned None → closed g = true;
  inv_returned : run_at g = Returned None → live g = ∅;
  inv_error : error_cause g;
}.

(** A member makes a set non-empty. *)
Lemma size_elem (c : nat) (X : gset nat) : c ∈ X → (0 < size X)%nat.
Proof. intros Hc. assert (size X ≠ 0%nat); [|lia]. apply size_non_empty_iff. set_solver. Qed.

Lemma inv_start : inv start.
Proof. split; simpl; try done; try set_solver; naive_solver. Qed.

Lemma inv_exec g ev g' : inv g → exec g ev = Some g' → inv g'.
Proof.
  intros [W A F C K X S L D E Q R U] He. destruct g as [pc cl sg ctx cld ls w lv acc fin]. unfold has_listener, error_cause in *. simpl in *.
  destruct ev as [ok|c|e| | | |c]; simpl in He.
  - destruct pc; try done. destruct cl; try done. simpl in *.
    destruct ok; simplify_eq; (split; simpl; try done; try set_solver; naive_solver).
  - destruct pc; try done. destruct ls; [|done]. simpl in He. case_bool_decide; [done|]. simplify_eq.
    split; simpl; try done; set_solver.
  - destruct pc; try done. destruct (Bool.eqb _ _) eqn:Ee; [|done]. simplify_eq. apply Bool.eqb_prop in Ee.
    split; simpl; try done; set_solver.
  - unfold run_step in He. simpl in He. destruct pc as [| |e| |c|c| |]; try done.
    + destruct cld; [simplify_eq; split; simpl; try done; set_solver|].
      destruct e; simplify_eq; (split; simpl; try done; set_solver).
    + simplify_eq. split; simpl; try done; set_solver.
    + simplify_eq. split; simpl; try done; set_solver.
    + simplify_eq. split; simpl; [|set_solver..].
      rewrite size_union, size_singleton by set_solver. lia.
    + destruct w; simplify_eq. split; simpl; try done; [naive_solver..|].
      intros _. apply leibniz_equiv, size_empty_inv. lia.
  - unfold closer_step in He. simpl in He. destruct cl; try done; [destruct ctx; [|done]|]; simplify_eq;
      (split; simpl; try done; clear F R U; naive_solver).
  - unfold signal_step, drain_wait, drain_close in He. simpl in He. destruct sg; try done; [..|destruct w; [|done]]; simplify_eq;
      (split; simpl; try done; unfold has_listener, error_cause; simpl;
       [clear F R U; destruct cl; naive_solver..|destruct pc as [| | | | | | |[[|[]]|]]; naive_solver]).
  - case_bool_decide as Hc; [|done]. simplify_eq. split; simpl; try done.
    + rewrite size_difference, size_singleton by set_solver. pose proof (size_elem c lv Hc).
      destruct pc; lia.
    + rewrite (union_difference_singleton_L c lv Hc) at 1. set_solver.
    + set_solver.
    + intros Hp. rewrite (R Hp) in Hc. by apply not_elem_of_empty in Hc.
Qed.

Lemma inv_run evs g g' : inv g → run g evs = Some g' → inv g'.
Proof.
  revert g. induction evs as [|ev evs IH]; simpl; intros g Hi Hr; [by simplify_eq|].
  destruct (exec g ev) as [g1|] eqn:E; [|done]. eapply IH; [|done]. by eapply inv_exec.
Qed.

(** * Shutdown *)

(** A graceful exit: Run returns nil only after the context was
    cancelled, and then the handler of every connection it accepted has returned;
    nothing is cut off by the end of the process. *)
Theorem run_returns_drained evs g :
  run start evs = Some g → run_at g = Returned None →
  ctx_done g = true ∧ live g = ∅ ∧ accepted g = finished g.
Proof.
  intros Hr Hp. pose proof (inv_run evs start g inv_start Hr) as Hi.
  pose proof (inv_returned g Hi Hp) as Hl. split_and!; [|done|].
  - apply (inv_ctx g Hi), (inv_waiting g Hi). by right.
  - rewrite (inv_accepted g Hi), Hp, Hl. set_solver.
Qed.

(** When Run fails: Run returns an error only when it could not listen,
    when Accept failed with an error that is not temporary while the gateway was not
    shutting down, or when Drain closed the listener before the goroutine of Run
    had recorded the shutdown. *)
Theorem run_error_cause evs g e :
  run start evs = Some g → run_at g = Returned (Some e) →
  match e with
  | ErrListen => accepted g = ∅
  | ErrAccept ErrOther => True
  | ErrAccept ErrTemporary => False
  | ErrAccept ErrNetClosed => ctx_done g = true ∧ (signal_at g = SDraining ∨ signal_at g = SDone)
  end.
Proof.
  intros Hr Hp. pose proof (inv_run evs start g inv_start Hr) as Hi. pose proof (inv_error g Hi) as He.
  unfold error_cause in He. rewrite Hp in He. destruct e as [|[]]; try done.
  split; [|done]. apply (inv_signal g Hi). by destruct He as [-> | ->].
Qed.

(** ** Every shutdown ends *)

Definition pc_weight (pc : run_pc) : nat :=
  match pc with
  | Listening => 0 | Accepted _ => 7 | Added _ => 6 | Sleeping => 5 | Accepting => 4 | Failed _ => 3
  | Waiting => 2 | Returned _ => 0
  end.
Definition signal_weight (pc : signal_pc) : nat :=
  match pc with SWait => 4 | SCancelled => 3 | SShutdown => 2 | SDraining => 1 | SDone => 0 end.

(** An upper bound on the steps left once the listener is closed. *)
Definition steps_left (g : gateway) : nat := pc_weight (run_at g) + size (live g) + signal_weight (signal_at g).

Lemma closed_exec g ev g' :
  inv g → closer_at g = CDone → exec g ev = Some g' → closer_at g' = CDone ∧ (steps_left g' < steps_left g)%nat.
Proof.
  intros Hi Hc He. pose proof (inv_done g Hi Hc) as Hls. pose proof (inv_closer g Hi) as Hk.
  assert (closed g = true) as Hcl by (apply (inv_closed g Hi); by right).
  unfold has_listener in Hk. rewrite Hc in Hk. unfold steps_left.
  destruct ev as [ok|c|e| | | |c]; simpl in He.
  - by destruct (run_at g).
  - rewrite Hls in He. by destruct (run_at g).
  - destruct (run_at g) eqn:Ep; try done. destruct (Bool.eqb _ _); [|done]. simplify_eq. simpl. split; [done|lia].
  - unfold run_step in He. rewrite Hcl in He. pose proof (proj1 (inv_fresh g Hi)) as Hf.
    destruct (run_at g) eqn:Ep; [..|destruct (wg g)|]; simplify_eq; simpl; (split; [done|]); try lia.
    simpl in Hf. rewrite size_union, size_singleton by set_solver. lia.
  - unfold closer_step in He. by rewrite Hc in He.
  - unfold signal_step, drain_wait, drain_close in He. destruct (signal_at g) eqn:Es; [| | |destruct (wg g)|];
      simplify_eq; simpl; rewrite ?Es; (split; [done|simpl; lia]).
  - case_bool_decide as Hin; [|done]. simplify_eq. simpl. split; [done|].
    rewrite size_difference, size_singleton by set_solver. pose proof (size_elem c (live g) Hin). lia.
Qed.

(** Where the accept loop and the handlers can make no step, Run has returned. *)
Lemma closed_stuck g :
  inv g → closer_at g = CDone → (∀ ev, ev ≠ SignalStep → exec g ev = None) → live g = ∅ ∧ ∃ r, run_at g = Returned r.
Proof.
  intros Hi Hc Hstuck. assert (live g = ∅) as Hl.
  { apply leibniz_equiv. intros c. split; [|set_solver]. intros Hin. exfalso.
    specialize (Hstuck (HandlerDone c) ltac:(done)). simpl in Hstuck. by rewrite bool_decide_eq_true_2 in Hstuck. }
  split; [done|]. pose proof (Hstuck RunStep ltac:(done)) as Hrun. simpl in Hrun. unfold run_step in Hrun.
  pose proof (inv_closer g Hi) as Hk. unfold has_listener in Hk. rewrite Hc in Hk.
  pose proof (inv_wg g Hi) as Hw. rewrite Hl in Hw.
  destruct (run_at g) as [| |e| |c|c| |r] eqn:Ep; try done.
  - specialize (Hstuck (AcceptErr ErrNetClosed) ltac:(done)). simpl in Hstuck.
    by rewrite Ep, (inv_done g Hi Hc) in Hstuck.
  - by destruct (closed g), e.
  - by rewrite Hw, size_empty in Hrun.
  - eauto.
Qed.

(** C34: Every shutdown ends: once the listener is closed, an execution makes at
    most [steps_left] more steps, whatever the order of accept loop, handlers and
    signal handler, and where it can make no further step Run has returned and no
    handler is left. *)
Theorem shutdown_ends evs0 g evs g' :
  run start evs0 = Some g → closer_at g = CDone → run g evs = Some g' →
  (length evs <= steps_left g)%nat ∧
  ((∀ ev, exec g' ev = None) → live g' = ∅ ∧ ∃ r, run_at g' = Returned r).
Proof.
  intros H0 Hc Hr. pose proof (inv_run evs0 start g inv_start H0) as Hi. clear H0.
  revert g Hi Hc Hr. induction evs as [|ev evs IH]; simpl; intros g Hi Hc Hr.
  - injection Hr as <-. split; [lia|]. intros Hstuck. apply closed_stuck; auto.
  - destruct (exec g ev) as [g1|] eqn:E; [|done]. destruct (closed_exec g ev g1 Hi Hc E) as [Hc1 Hlt].
    destruct (IH g1 (inv_exec g ev g1 Hi E) Hc1 Hr) as [Hle Hs]. split; [lia|done].
Qed.

(** * Concrete executions *)

(** A connection is accepted, the gateway is told to stop, the connection ends. *)
Definition ex_graceful : list event :=
  [Listen true; AcceptErr ErrTemporary; RunStep; RunStep; AcceptConn 1; RunStep; RunStep; SignalStep; CloserStep; CloserStep;
   AcceptErr ErrNetClosed; RunStep; SignalStep; HandlerDone 1; RunStep].
(** The goroutine of Run is slow and Drain closes the listener. *)
Definition ex_race : list event :=
  [Listen true; AcceptConn 1; RunStep; RunStep; SignalStep; SignalStep; SignalStep; AcceptErr ErrNetClosed; RunStep].

Definition ex_end (evs : list event) : gateway := match run start evs with Some g => g | None => start end.

Lemma run_returns_drained_witness : accepted (ex_end ex_graceful) = {[1%nat]} ∧ finished (ex_end ex_graceful) = {[1%nat]}.
Proof.
  destruct (run_returns_drained ex_graceful (ex_end ex_graceful)) as (_ & _ & <-); [vm_compute; reflexivity..|].
  split; vm_compute; reflexivity.
Defined.

Lemma run_error_cause_witness :
  run_at (ex_end ex_race) = Returned (Some (ErrAccept ErrNetClosed)) ∧ ctx_done (ex_end ex_race) = true.
Proof.
  destruct (run_error_cause ex_race (ex_end ex_race) (ErrAccept ErrNetClosed)) as [Hc _]; [vm_compute; reflexivity..|].
  split; [vm_compute; reflexivity|exact Hc].
Defined.

Lemma shutdown_ends_witness :
  (length (drop 10 ex_graceful) <= steps_left (ex_end (take 10 ex_graceful)))%nat.
Proof.
  destruct (shutdown_ends (take 10 ex_graceful) (ex_end (take 10 ex_graceful)) (drop 10 ex_graceful)
    (ex_end ex_graceful)) as [Hle _]; [vm_compute; reflexivity..|exact Hle].
Defined.

(** Drain can beat the goroutine that records the shutdown: Run then returns
    an error while a connection is being served, and main exits with it. *)
Theorem drain_race :
  ∃ evs g, run start evs = Some g ∧ run_at g = Returned (Some (ErrAccept ErrNetClosed)) ∧ live g = {[1%nat]}.
Proof. exists ex_race, (ex_end ex_race). split_and!; vm_compute; reflexivity. Qed.
