(* ===== verification/Process.v ===== *)
(** The process: the goroutines src/cmd/gateway/main.go starts, together, from the
    last line of its set-up to the exit of the process.

    Accept.v has the accept loop, the connection handlers and the signal handler.
    Here they run beside the poller (Run of src/internal/sync/sync.go), the health
    server and main itself, which waits for Run; log.Fatalf, a panic and the return
    of main end all of them at once.  An execution is any list of steps. *)
From stdpp Require Import fin_sets.
From S2P Require Import Prelude Accept.
Local Open Scope Z_scope.

(** Syncer.Run.  [PFetch ok]: in fetchOnce, and [ok] when the context was not
    cancelled when the request was made; a later one fails at once. *)
Inductive poll_pc : Type := PFetch (ok first : bool) | PTicker | PSelect | PStopped.

(** httpSrv.ListenAndServe: is the server shutting down; net.Listen; Serve. *)
Inductive health_pc : Type := HStart | HListen | HServe | HReturned.

Inductive exit : Type :=
| ExitOK                       (* main returned *)
| ExitGateway (e : run_error)  (* log.Fatalf("gateway: %v") *)
| ExitHealth                   (* log.Fatalf("health server: %v") *)
| ExitPanic.                   (* time.NewTicker of a non-positive interval *)

Record process := {
  gw : gateway;
  poller : poll_pc;
  updates : nat;               (* history: polls whose answer was applied *)
  health_at : health_pc;
  in_shutdown : bool;          (* httpSrv.Shutdown was called *)
  interval : Z;
  exited : option exit;
}.

Definition boot (interval : Z) : process := {|
  gw := start; poller := PFetch true true; updates := 0; health_at := HStart; in_shutdown := false;
  interval := interval; exited := None;
|}.

Inductive pevent : Type :=
| Gateway (ev : event)
| Shutdown                     (* the signal handler calls httpSrv.Shutdown *)
| Fetched (ok : bool)          (* fetchOnce returns; [ok]: it read a whole answer *)
| MakeTicker
| Tick
| PollStop
| HealthStart
| HealthListen (ok : bool)
| HealthFail                   (* Serve returns an error *)
| MainReturns.

Definition set_gw (p : process) (g : gateway) : process := {|
  gw := g; poller := poller p; updates := updates p; health_at := health_at p; in_shutdown := in_shutdown p;
  interval := interval p; exited := exited p |}.
Definition set_poller (p : process) (pc : poll_pc) (n : nat) : process := {|
  gw := gw p; poller := pc; updates := n; health_at := health_at p; in_shutdown := in_shutdown p;
  interval := interval p; exited := exited p |}.
Definition set_health (p : process) (h : health_pc) : process := {|
  gw := gw p; poller := poller p; updates := updates p; health_at := h; in_shutdown := in_shutdown p;
  interval := interval p; exited := exited p |}.
Definition set_shutdown (p : process) : process := {|
  gw := gw p; poller := poller p; updates := updates p; health_at := health_at p; in_shutdown := true;
  interval := interval p; exited := exited p |}.
Definition die (p : process) (x : exit) : process := {|
  gw := gw p; poller := poller p; updates := updates p; health_at := health_at p; in_shutdown := in_shutdown p;
  interval := interval p; exited := Some x |}.

(** Syncer.Run: a first fetch, the ticker, then select. *)
Definition poll_step (p : process) (ev : pevent) : option process :=
  match ev, poller p with
  | Fetched ok, PFetch live first =>
      if ok && negb live then None
      else Some (set_poller p (if first then PTicker else PSelect) (if ok then S (updates p) else updates p))
  | MakeTicker, PTicker => Some (if interval p <=? 0 then die p ExitPanic else set_poller p PSelect (updates p))
  | Tick, PSelect => Some (set_poller p (PFetch (negb (ctx_done (gw p))) false) (updates p))
  | PollStop, PSelect => if ctx_done (gw p) then Some (set_poller p PStopped (updates p)) else None
  | _, _ => None
  end.

(** The goroutine of the health server: http.ErrServerClosed is no error. *)
Definition health_step (p : process) (ev : pevent) : option process :=
  match ev, health_at p with
  | HealthStart, HStart => Some (set_health p (if in_shutdown p then HReturned else HListen))
  | HealthListen ok, HListen => Some (if ok then set_health p HServe else die p ExitHealth)
  | HealthFail, HServe => Some (if in_shutdown p then set_health p HReturned else die p ExitHealth)
  | _, _ => None
  end.

(** The accept loop, the handlers and the signal handler, which passes
    httpSrv.Shutdown before gw.Drain. *)
Definition gateway_step (p : process) (ev : event) : option process :=
  match ev, signal_at (gw p) with
  | SignalStep, SCancelled => if in_shutdown p then set_gw p <$> Accept.exec (gw p) ev else None
  | _, _ => set_gw p <$> Accept.exec (gw p) ev
  end.

Definition exec (p : process) (ev : pevent) : option process :=
  match exited p with
  | Some _ => None
  | None =>
      match ev with
      | Gateway ev => gateway_step p ev
      | Shutdown =>
          match signal_at (gw p) with
          | SCancelled => if in_shutdown p then None else Some (set_shutdown p)
          | _ => None
          end
      | MainReturns =>
          match run_at (gw p) with
          | Returned None => Some (die p ExitOK)
          | Returned (Some e) => Some (die p (ExitGateway e))
          | _ => None
          end
      | HealthStart | HealthListen _ | HealthFail => health_step p ev
      | _ => poll_step p ev
      end
  end.

Fixpoint run (p : process) (evs : list pevent) : option process :=
  match evs with
  | [] => Some p
  | ev :: evs => match exec p ev with Some p' => run p' evs | None => None end
  end.

(** * The invariant *)

Definition exit_cause (p : process) : Prop :=
  match exited p with
  | None => True
  | Some ExitOK => run_at (gw p) = Returned None
  | Some (ExitGateway e) => run_at (gw p) = Returned (Some e)
  | Some ExitHealth => health_at p = HListen ∨ (health_at p = HServe ∧ in_shutdown p = false)
  | Some ExitPanic => interval p <= 0
  end.

Record pinv (p : process) : Prop := {
  pinv_gw : inv (gw p);
  pinv_shutdown : in_shutdown p = true → ctx_done (gw p) = true;
  pinv_exit : exit_cause p;
}.

Lemma ctx_stays g ev g' : Accept.exec g ev = Some g' → ctx_done g = true → ctx_done g' = true.
Proof.
  unfold Accept.exec, run_step, closer_step, signal_step, drain_wait, drain_close, at_run.
  intros He Hc. repeat (case_match; simplify_eq; try done).
Qed.

Lemma gateway_step_exec p ev p' :
  gateway_step p ev = Some p' → ∃ g', Accept.exec (gw p) ev = Some g' ∧ p' = set_gw p g'.
Proof.
  unfold gateway_step. intros He.
  destruct (Accept.exec (gw p) ev) as [g'|]; [exists g'; split; [done|]|]; repeat (case_match; simplify_eq/=); done.
Qed.

Lemma pinv_exec p ev p' : pinv p → exec p ev = Some p' → pinv p' ∧ interval p' = interval p.
Proof.
  intros [Hg Hs Hx] He. unfold exec in He. destruct (exited p) eqn:Ex; [done|]. unfold exit_cause in Hx.
  destruct ev as [ev| | | | | | | | |].
  1: { apply gateway_step_exec in He as (g' & Hg' & ->). split; [|done]. split; simpl.
       - by eapply inv_exec.
       - intros Hsh. eapply ctx_stays; [done|]. auto.
       - unfold exit_cause. simpl. by rewrite Ex. }
  1: { destruct (signal_at (gw p)) eqn:Es; try done. destruct (in_shutdown p); [done|]. injection He as <-. split; [|done].
       split; simpl; [done| |unfold exit_cause; simpl; by rewrite Ex]. intros _. apply (inv_signal _ Hg). by rewrite Es. }
  all: unfold poll_step, health_step in He; repeat (case_match; simplify_eq/=); (split; [|done]); split; simpl; auto;
    unfold exit_cause; simpl; try match goal with E : exited _ = _ |- _ => rewrite E end; auto; first [congruence | by apply Z.leb_le].
Qed.

Lemma pinv_run evs p p' : pinv p → run p evs = Some p' → pinv p' ∧ interval p' = interval p.
Proof.
  revert p. induction evs as [|ev evs IH]; simpl; intros p Hi Hr; [by simplify_eq|].
  destruct (exec p ev) as [p1|] eqn:E; [|done]. destruct (pinv_exec p ev p1 Hi E) as [Hi1 <-]. by apply IH.
Qed.

Lemma pinv_boot i : pinv (boot i).
Proof. split; [apply inv_start|done|done]. Qed.

(** * How the process ends *)

(** C33: How the process ends: with success only after a signal, when the handler of every
    connection ever accepted has returned; otherwise because Run could not listen
    (before any connection), because Accept failed for good, because Drain was
    faster than the goroutine of Run, because the health server could not listen or
    broke down while it was not being shut down, or at once on a poll interval that
    is not positive.  The shutdown of the health server itself never ends it. *)
Theorem process_exit i evs p x :
  run (boot i) evs = Some p → exited p = Some x →
  let g := gw p in
  match x with
  | ExitOK => ctx_done g = true ∧ live g = ∅ ∧ accepted g = finished g
  | ExitGateway ErrListen => accepted g = ∅
  | ExitGateway (ErrAccept e) => e ≠ ErrTemporary ∧
      (e = ErrNetClosed → ctx_done g = true ∧ (signal_at g = SDraining ∨ signal_at g = SDone))
  | ExitHealth => health_at p = HListen ∨ (health_at p = HServe ∧ in_shutdown p = false)
  | ExitPanic => i <= 0
  end.
Proof.
  intros Hr Hx g. destruct (pinv_run evs (boot i) p (pinv_boot i) Hr) as [[Hg _ Hc] Hi]. unfold exit_cause in Hc. rewrite Hx in Hc.
  pose proof (inv_error _ Hg) as He. unfold error_cause in He. destruct x as [|[|[]]| |]; rewrite ?Hc in He; try done.
  - pose proof (inv_returned _ Hg Hc) as Hl. split_and!; [|done|].
    + apply (inv_ctx _ Hg), (inv_waiting _ Hg). by right.
    + unfold g. rewrite (inv_accepted _ Hg), Hc, Hl. set_solver.
  - split; [done|]. intros _. split; [|done]. apply (inv_signal _ Hg). by destruct He as [-> | ->].
  - by rewrite Hi in Hc.
Qed.

(** Once the listener is closed nothing blocks the exit: where no goroutine can
    make a step, the process has exited. *)
Theorem process_stops i evs p :
  run (boot i) evs = Some p → closer_at (gw p) = CDone → (∀ ev, exec p ev = None) → ∃ x, exited p = Some x.
Proof.
  intros Hr Hc Hstuck. destruct (exited p) as [x|] eqn:Ex; [eauto|]. exfalso.
  destruct (pinv_run evs (boot i) p (pinv_boot i) Hr) as [[Hg _ _] _].
  destruct (closed_stuck (gw p) Hg Hc) as (_ & r & Hret).
  - intros ev Hev. specialize (Hstuck (Gateway ev)). unfold exec in Hstuck. rewrite Ex in Hstuck. unfold gateway_step in Hstuck.
    destruct (Accept.exec (gw p) ev); [|done]. by destruct ev.
  - specialize (Hstuck MainReturns). unfold exec in Hstuck. rewrite Ex, Hret in Hstuck. by destruct r.
Qed.

(** * What the shutdown leaves running *)

(** Answers the poller may still apply. *)
Definition in_flight (pc : poll_pc) : nat := match pc with PFetch true _ => 1 | _ => 0 end.

Lemma cancelled_exec p ev p' :
  ctx_done (gw p) = true → exec p ev = Some p' →
  ctx_done (gw p') = true ∧ (updates p' + in_flight (poller p') <= updates p + in_flight (poller p))%nat.
Proof.
  intros Hc He. unfold exec in He. destruct (exited p); [done|].
  destruct ev as [ev| | | | | | | | |].
  1: { apply gateway_step_exec in He as (g' & Hg' & ->). split; [by eapply ctx_stays|done]. }
  all: unfold poll_step, health_step in He; rewrite ?Hc in He; repeat (case_match; simplify_eq/=);
    (split; [done|]); simpl; try lia.
  all: try match goal with E : poller _ = _ |- _ => rewrite E end; simpl; lia.
Qed.

(** The drain is blind: after the signal at most one more answer of the
    management service, the one on its way, reaches the route table, however long
    the connections accepted before take to end. *)
Theorem drain_is_blind i evs0 p evs p' :
  run (boot i) evs0 = Some p → ctx_done (gw p) = true → run p evs = Some p' →
  (updates p' <= updates p + in_flight (poller p))%nat.
Proof.
  intros _ Hc Hr. assert (updates p' + in_flight (poller p') <= updates p + in_flight (poller p))%nat; [|lia].
  revert p Hc Hr. induction evs as [|ev evs IH]; simpl; intros p Hc Hr; [by simplify_eq|].
  destruct (exec p ev) as [p1|] eqn:E; [|done]. destruct (cancelled_exec p ev p1 Hc E) as [Hc1 Hle].
  specialize (IH p1 Hc1 Hr). lia.
Qed.

(** * Concrete executions *)

Definition ex_boot : list pevent :=
  [Gateway (Listen true); HealthStart; HealthListen true; Fetched true; MakeTicker; Gateway (AcceptConn 1);
   Gateway RunStep; Gateway RunStep].
(** The signal comes; the poller ticks once more, in vain, and stops; the
    connection goes on, then ends. *)
Definition ex_signal : list pevent :=
  [Gateway SignalStep; Tick; Fetched false; PollStop; Gateway CloserStep; Gateway CloserStep;
   Gateway (AcceptErr ErrNetClosed); Gateway RunStep; Shutdown; HealthFail; Gateway SignalStep; Gateway SignalStep].
Definition ex_finish : list pevent := [Gateway (HandlerDone 1); Gateway RunStep; MainReturns].

Definition ex_process (evs : list pevent) : process :=
  match run (boot 30) evs with Some p => p | None => boot 30 end.

Lemma process_exit_witness :
  let p := ex_process (ex_boot ++ ex_signal ++ ex_finish) in
  exited p = Some ExitOK ∧ accepted (gw p) = finished (gw p) ∧ accepted (gw p) = {[1%nat]}.
Proof.
  intros p. destruct (process_exit 30 (ex_boot ++ ex_signal ++ ex_finish) p ExitOK) as (_ & _ & Hf).
  - vm_compute. reflexivity.
  - vm_compute. reflexivity.
  - split; [vm_compute; reflexivity|]. split; [exact Hf|]. vm_compute. reflexivity.
Defined.

(** Where no step is left: the poller has stopped, the health server returned
    and Drain is done. *)
Lemma process_stops_witness :
  let p := ex_process (ex_boot ++ ex_signal ++ ex_finish) in ∃ x, exited p = Some x.
Proof.
  intros p. apply (process_stops 30 (ex_boot ++ ex_signal ++ ex_finish) p).
  - vm_compute. reflexivity.
  - vm_compute. reflexivity.
  - intros ev. reflexivity.
Defined.

(** A connection is served for the whole shutdown with the table of before. *)
Lemma drain_is_blind_witness :
  let p := ex_process (ex_boot ++ take 1 ex_signal) in
  let p' := ex_process (ex_boot ++ ex_signal) in
  (updates p' <= updates p)%nat ∧ live (gw p') = {[1%nat]} ∧ poller p' = PStopped.
Proof.
  intros p p'. split.
  - etransitivity; [apply (drain_is_blind 30 (ex_boot ++ take 1 ex_signal) p (drop 1 ex_signal) p')|].
    + vm_compute. reflexivity.
    + vm_compute. reflexivity.
    + vm_compute. reflexivity.
    + vm_compute. lia.
  - split; vm_compute; reflexivity.
Defined.
