(* ===== verification/Certs.v ===== *)
(** The certificates of terminate mode: loading and reloading from disk
    (src/internal/certloader/certloader.go) and the choice per server name
    (src/internal/certmgr/certmgr.go), with x509's VerifyHostname as the code uses it.

    The disk is what LoadX509KeyPair returns at the moment of a load; parsing DER
    and IP literals are parameters.  Log lines are left out. *)
From Stdlib Require Import Strings.Ascii Strings.String.
From S2P Require Import Prelude GoBytes GoStrings.
Local Open Scope Z_scope.
Local Open Scope go_scope.

(** * crypto/x509: VerifyHostname *)

(** The fields of an x509.Certificate that VerifyHostname reads. *)
Record Leaf := { DNSNames : list string; IPAddresses : list bytes }.

Class GoCerts := {
  parse_leaf : bytes → option Leaf;       (* x509.ParseCertificate *)
  parse_ip : string → option bytes;       (* net.ParseIP *)
}.

Definition toLowerCaseASCII (s : string) : string := smap lower_char s.

Definition v4InV6Prefix : bytes := [x00; x00; x00; x00; x00; x00; x00; x00; x00; x00; xff; xff].

(** IP.Equal *)
Definition ip_equal (ip x : bytes) : bool :=
  if blen ip =? blen x then bool_decide (ip = x)
  else if (blen ip =? 4) && (blen x =? 16) then bool_decide (x = v4InV6Prefix ++ ip)
  else if (blen ip =? 16) && (blen x =? 4) then bool_decide (ip = v4InV6Prefix ++ x)
  else false.

(** A character of a label, [first] when it is the first one. *)
Definition label_char (first : bool) (c : ascii) : bool :=
  is_lower c || is_upper c || ((48 <=? char_code c)%nat && (char_code c <=? 57)%nat) ||
  (Ascii.eqb c "-" && negb first) || Ascii.eqb c "_".

Definition valid_label (part : string) : bool :=
  match part with
  | EmptyString => false
  | String c rest => label_char true c && sall (label_char false) rest
  end.

Definition validHostname (host : string) (isPattern : bool) : bool :=
  let host := if isPattern then host else TrimSuffix host "." in
  if String.eqb host "" || String.eqb host "*" then false else
  match SplitChar "." host with
  | [] => false
  | first :: parts => ((isPattern && String.eqb first "*") || valid_label first) && forallb valid_label parts
  end.

Definition matchExactly (hostA hostB : string) : bool :=
  negb (String.eqb hostA "" || String.eqb hostA "." || String.eqb hostB "" || String.eqb hostB ".") &&
  String.eqb (toLowerCaseASCII hostA) (toLowerCaseASCII hostB).

Fixpoint match_parts (first : bool) (pattern host : list string) : bool :=
  match pattern, host with
  | [], [] => true
  | p :: pattern, x :: host => ((first && String.eqb p "*") || String.eqb p x) && match_parts false pattern host
  | _, _ => false
  end.

Definition matchHostnames (pattern host : string) : bool :=
  let pattern := toLowerCaseASCII pattern in
  let host := toLowerCaseASCII (TrimSuffix host ".") in
  negb (String.eqb pattern "" || String.eqb host "") &&
  match_parts true (SplitChar "." pattern) (SplitChar "." host).

(** IP addresses may be written in brackets. *)
Definition strip_brackets (h : string) : string :=
  if (3 <=? String.length h)%nat && HasPrefix h "[" && HasSuffix h "]"
  then stake (String.length h - 2) (sdrop 1 h) else h.

Section certs.
Context `{GoCerts}.

Definition VerifyHostname (c : Leaf) (h : string) : bool :=
  match parse_ip (strip_brackets h) with
  | Some ip => existsb (ip_equal ip) (IPAddresses c)
  | None =>
      let candidateName := toLowerCaseASCII h in
      existsb (fun m =>
        if validHostname candidateName false && validHostname m true
        then matchHostnames m candidateName else matchExactly m candidateName) (DNSNames c)
  end.

(** * certloader *)

(** A tls.Certificate: the DER chain, and the parsed leaf when it is kept. *)
Record Certificate := { cert_chain : list bytes; cert_leaf : option Leaf }.

Record Loader := { certPath : string; keyPath : string; cert : option Certificate }.

(** tls.LoadX509KeyPair at one moment. *)
Definition disk : Type := string → string → Certificate + string.

Definition reload (l : Loader) (d : disk) : Loader * option string :=
  match d (certPath l) (keyPath l) with
  | inr err => (l, Some err)
  | inl c => ({| certPath := certPath l; keyPath := keyPath l; cert := Some c |}, None)
  end.

Definition NewLoader (certPath keyPath : string) (d : disk) : Loader + string :=
  let '(l, err) := reload {| certPath := certPath; keyPath := keyPath; cert := None |} d in
  match err with
  | Some e => inr ("initial cert load: " ++ e)%string
  | None => inl l
  end.

(** The loop of watchSIGHUP, one disk per signal. *)
Definition watchSIGHUP (l : Loader) (ds : list disk) : Loader :=
  fold_left (fun l d => (reload l d).1) ds l.

Definition LoaderGetCertificate (l : Loader) : Certificate + string :=
  match cert l with
  | None => inr "certloader: no certificate loaded"%string
  | Some c => inl c
  end.

(** * certmgr *)

Record Resolver := { wildcard : option Loader }.

Definition NewResolver (wildcard : option Loader) : Resolver := {| wildcard := wildcard |}.

Definition wildcardFor (r : Resolver) (name : string) : go (option Certificate) :=
  match wildcard r with
  | None => Ret None
  | Some l =>
      match LoaderGetCertificate l with
      | inr _ => Ret None
      | inl c =>
          if String.eqb name "" then Ret (Some c) else
          let! leaf :=
            match cert_leaf c with
            | Some leaf => Ret (Some leaf)
            | None => match cert_chain c with der :: _ => Ret (parse_leaf der) | [] => Panic end
            end in
          match leaf with
          | None => Ret None
          | Some leaf => Ret (if VerifyHostname leaf (TrimSuffix name ".") then Some c else None)
          end
      end
  end.

(** fmt.Errorf("certmgr: no certificate for %q", hello.ServerName) *)
Inductive cert_error : Type := ErrNoCertificate (name : string).

Definition GetCertificate (r : Resolver) (ServerName : string) : go (Certificate + cert_error) :=
  let! c := wildcardFor r ServerName in
  match c with
  | Some c => Ret (inl c)
  | None => Ret (inr (ErrNoCertificate ServerName))
  end.

(** * Loading *)

Definition good {A E} (r : A + E) : option A := match r with inl a => Some a | inr _ => None end.

Lemma watchSIGHUP_cert l ds :
  certPath (watchSIGHUP l ds) = certPath l ∧ keyPath (watchSIGHUP l ds) = keyPath l ∧
  cert (watchSIGHUP l ds) =
    match last (omap (fun d => good (d (certPath l) (keyPath l))) ds) with Some c => Some c | None => cert l end.
Proof.
  induction ds as [|d ds IH] using rev_ind; [done|]. unfold watchSIGHUP in *. rewrite fold_left_app, omap_app.
  cbn [fold_left]. set (l' := fold_left _ ds l) in *. destruct IH as (Hc & Hk & IH). unfold reload. rewrite Hc, Hk. simpl.
  destruct (d (certPath l) (keyPath l)) as [c|err]; simpl; [|by rewrite app_nil_r].
  by rewrite last_snoc.
Qed.

Lemma loader_last_good cp kp d0 ds :
  match d0 cp kp with
  | inr err => NewLoader cp kp d0 = inr ("initial cert load: " ++ err)%string
  | inl c0 => ∃ l, NewLoader cp kp d0 = inl l ∧
      ∃ c, last (c0 :: omap (fun d => good (d cp kp)) ds) = Some c ∧
        LoaderGetCertificate (watchSIGHUP l ds) = inl c
  end.
Proof.
  unfold NewLoader, reload. simpl. destruct (d0 cp kp) as [c0|err]; [|done].
  eexists. split; [done|]. rewrite last_cons. unfold LoaderGetCertificate.
  destruct (watchSIGHUP_cert {| certPath := cp; keyPath := kp; cert := Some c0 |} ds) as (_ & _ & ->). simpl.
  destruct (last _) as [c|]; eauto.
Qed.

(** C35: A broken renewal never takes the certificate away: the gateway starts
    only with a certificate, and after any sequence of reloads, failed ones
    included, it serves the last one that loaded. *)
Theorem loader_serves_last_good cp kp d0 ds :
  match d0 cp kp with
  | inr err => NewLoader cp kp d0 = inr ("initial cert load: " ++ err)%string
  | inl c0 => ∃ l, NewLoader cp kp d0 = inl l ∧
      ∃ c, last (c0 :: omap (fun d => good (d cp kp)) ds) = Some c ∧
        LoaderGetCertificate (watchSIGHUP l ds) = inl c
  end.
Proof. apply loader_last_good. Qed.

(** * Choosing *)

(** The certificate names the host: its leaf, kept or parsed, verifies it. *)
Definition names (c : Certificate) (name : string) : Prop :=
  ∃ leaf, VerifyHostname leaf (TrimSuffix name ".") = true ∧
    (cert_leaf c = Some leaf ∨
     cert_leaf c = None ∧ ∃ der chain, cert_chain c = der :: chain ∧ parse_leaf der = Some leaf).

Lemma wildcardFor_loaded l c name :
  LoaderGetCertificate l = inl c → cert_chain c ≠ [] →
  ∃ b : bool, wildcardFor (NewResolver (Some l)) name = Ret (if b then Some c else None) ∧
    (b = true ↔ name = "" ∨ names c name).
Proof.
  intros Hl Hne. unfold wildcardFor. simpl. rewrite Hl.
  destruct (String.eqb_spec name "") as [->|Hn]; [by exists true; naive_solver|]. unfold names.
  destruct c as [chain [leaf|]]; simpl in *.
  - exists (VerifyHostname leaf (TrimSuffix name ".")). split; [done|]. naive_solver.
  - destruct chain as [|der chain]; [done|]. simpl. destruct (parse_leaf der) as [leaf|] eqn:Ep.
    + exists (VerifyHostname leaf (TrimSuffix name ".")). split; [done|]. naive_solver.
    + exists false. split; [done|]. naive_solver.
Qed.

Lemma GetCertificate_loaded l c name :
  LoaderGetCertificate l = inl c → cert_chain c ≠ [] →
  (name = "" ∨ names c name) ∧ GetCertificate (NewResolver (Some l)) name = Ret (inl c) ∨
  name ≠ "" ∧ ¬ names c name ∧ GetCertificate (NewResolver (Some l)) name = Ret (inr (ErrNoCertificate name)).
Proof.
  intros Hl Hne. destruct (wildcardFor_loaded l c name Hl Hne) as (b & Hw & Hb). unfold GetCertificate. rewrite Hw.
  destruct b; simpl; naive_solver.
Qed.

(** The platform certificate is presented to a client exactly when it names
    the server name asked for, or none was asked for; any other name gets an error
    and no certificate, and looking at the leaf never panics, since a pair that
    loads has a certificate. *)
Theorem GetCertificate_spec cp kp d0 ds l name :
  Forall (fun d : disk => ∀ c, d cp kp = inl c → cert_chain c ≠ []) (d0 :: ds) →
  NewLoader cp kp d0 = inl l →
  ∃ c, LoaderGetCertificate (watchSIGHUP l ds) = inl c ∧
    ((name = "" ∨ names c name) ∧ GetCertificate (NewResolver (Some (watchSIGHUP l ds))) name = Ret (inl c) ∨
     name ≠ "" ∧ ¬ names c name ∧
     GetCertificate (NewResolver (Some (watchSIGHUP l ds))) name = Ret (inr (ErrNoCertificate name))).
Proof.
  intros Hne Hl. pose proof (loader_last_good cp kp d0 ds) as Hg. rewrite Forall_cons, Forall_forall in Hne.
  destruct Hne as [H0 Hne]. destruct (d0 cp kp) as [c0|] eqn:E0; [|congruence].
  destruct Hg as (l' & Hl' & c & Hlast & Hget). rewrite Hl in Hl'. injection Hl' as <-.
  exists c. split; [done|]. apply GetCertificate_loaded; [done|].
  apply last_Some_elem_of, elem_of_cons in Hlast as [->|(d & Hd & Hc)%list_elem_of_omap]; [by apply H0|].
  apply (Hne d Hd). unfold good in Hc. by destruct (d cp kp); simplify_eq.
Qed.

(** ** The platform's own names *)

Lemma SplitChar_cons c s : ∃ p ps, SplitChar c s = p :: ps.
Proof. destruct s as [|d s]; simpl; [eauto|]. destruct (Ascii.eqb d c); [eauto|]. destruct (SplitChar c s); eauto. Qed.

Lemma SplitChar_uncons c s a ps :
  SplitChar c s = a :: ps →
  sin c a = false ∧ ((ps = [] ∧ s = a) ∨ ∃ b, s = (a ++ String c b)%string ∧ SplitChar c b = ps).
Proof.
  revert a. induction s as [|d s IH]; simpl; intros a.
  - intros [= <- <-]. split; [done|by left].
  - destruct (Ascii.eqb_spec d c) as [->|Hd].
    + intros [= <- <-]. split; [done|]. right. by exists s.
    + destruct (SplitChar c s) as [|p ps'] eqn:Es; [by destruct (SplitChar_cons c s) as (? & ? & ?); congruence|].
      intros [= <- <-]. destruct (IH p eq_refl) as [Hp Hor]. split.
      { simpl. rewrite Hp, orb_false_r. by apply Ascii.eqb_neq; congruence. }
      destruct Hor as [[-> ->]|(b & -> & <-)]; [by left|right]. by exists b.
Qed.

Lemma SplitChar_inj c a b : SplitChar c a = SplitChar c b → a = b.
Proof.
  remember (SplitChar c a) as l eqn:E. revert a b E.
  induction l as [|p ps IH]; intros a b Ea Eb; [by destruct (SplitChar_cons c a) as (? & ? & ?); congruence|].
  destruct (SplitChar_uncons c a p ps) as [_ Ha]; [done|]. destruct (SplitChar_uncons c b p ps) as [_ Hb]; [done|].
  destruct Ha as [[-> ->]|(a' & -> & <-)], Hb as [[Hps ->]|(b' & -> & Eb')]; try done.
  - by destruct (SplitChar_cons c b') as (? & ? & ?); congruence.
  - by destruct (SplitChar_cons c a') as (? & ? & ?); congruence.
  - by rewrite (IH a' b').
Qed.

Lemma match_parts_eq p h : match_parts false p h = true ↔ p = h.
Proof.
  revert h. induction p as [|x p IH]; intros [|y h]; simpl; try done.
  rewrite andb_true_iff, IH, String.eqb_eq. naive_solver.
Qed.

(** [s] is one label below the domain, up to letter case and dots at its end. *)
Definition under (dom s : string) : Prop :=
  ∃ label dots, sin "." label = false ∧ dots ∈ ["" ; "." ; ".."]%string ∧
    toLowerCaseASCII s = (label ++ "." ++ toLowerCaseASCII dom ++ dots)%string.

Lemma TrimSuffix_cases s p : TrimSuffix s p = s ∨ s = (TrimSuffix s p ++ p)%string.
Proof.
  unfold TrimSuffix. destruct (HasSuffix s p) eqn:E; [right|by left]. apply HasSuffix_spec in E as [r ->].
  rewrite slength_app, Nat.add_sub. by rewrite stake_app.
Qed.

Lemma lower_app a b : toLowerCaseASCII (a ++ b) = (toLowerCaseASCII a ++ toLowerCaseASCII b)%string.
Proof. unfold toLowerCaseASCII. induction a as [|c a IH]; [done|]. rewrite sapp_cons. simpl. by rewrite IH. Qed.

Lemma lower_idem s : toLowerCaseASCII (toLowerCaseASCII s) = toLowerCaseASCII s.
Proof. unfold toLowerCaseASCII. rewrite smap_smap. apply smap_ext, lower_char_idem. Qed.

(** A wildcard matches one label in front of its domain, and nothing else. *)
Lemma matchHostnames_wildcard dom host :
  matchHostnames ("*." ++ dom) host = true →
  ∃ label, sin "." label = false ∧
    toLowerCaseASCII (TrimSuffix host ".") = (label ++ "." ++ toLowerCaseASCII dom)%string.
Proof.
  unfold matchHostnames. rewrite lower_app. intros [_ Hm]%andb_true_iff.
  set (t := toLowerCaseASCII (TrimSuffix host ".")) in *.
  change (SplitChar "." (toLowerCaseASCII "*." ++ toLowerCaseASCII dom)) with
    ("*"%string :: SplitChar "." (toLowerCaseASCII dom)) in Hm.
  destruct (SplitChar_cons "." t) as (label & ps & Et). rewrite Et in Hm. simpl in Hm.
  apply match_parts_eq in Hm as <-. apply SplitChar_uncons in Et as [Hl [[Hn _]|(b & -> & Eb%SplitChar_inj)]].
  - by destruct (SplitChar_cons "." (toLowerCaseASCII dom)) as (? & ? & ?); congruence.
  - exists label. by subst b.
Qed.

Lemma VerifyHostname_wildcard doms h :
  VerifyHostname {| DNSNames := map (fun dom => "*." ++ dom)%string doms; IPAddresses := [] |} (TrimSuffix h ".") = true →
  ∃ dom, dom ∈ doms ∧ under dom h.
Proof.
  intros Hv.
  assert (∃ dom label d, dom ∈ doms ∧ sin "." label = false ∧ d ∈ ["" ; "."]%string ∧
    toLowerCaseASCII (TrimSuffix h ".") = (label ++ "." ++ toLowerCaseASCII dom ++ d)%string)
    as (dom & label & d & Hd & Hl & Hdot & Eh).
  { unfold VerifyHostname in Hv. destruct (parse_ip _); [done|]. cbn [DNSNames] in Hv.
    apply existsb_exists in Hv as (m & (dom & <- & Hin)%in_map_iff & Hm). apply list_elem_of_In in Hin.
    destruct (_ && _).
    - apply matchHostnames_wildcard in Hm as (label & Hl & E). exists dom, label.
      set (t := toLowerCaseASCII (TrimSuffix h ".")) in *. destruct (TrimSuffix_cases t ".") as [Et|Et].
      + exists "". split_and!; [done|done|set_solver|]. rewrite Et in E. unfold t in *. rewrite lower_idem in E.
        by rewrite E, sapp_nil_r.
      + exists ".". split_and!; [done|done|set_solver|].
        assert (toLowerCaseASCII t = t) as Ht by apply lower_idem. rewrite <- Ht, Et at 1.
        by rewrite lower_app, E, !sapp_assoc.
    - unfold matchExactly in Hm. apply andb_true_iff in Hm as [_ Hm%String.eqb_eq].
      rewrite lower_app, lower_idem in Hm. exists dom, "*"%string, "". split_and!; [done|done|set_solver|].
      by rewrite <- Hm, sapp_nil_r. }
  exists dom. split; [done|]. destruct (TrimSuffix_cases h ".") as [Et|Et].
  - exists label, d. split_and!; [done|set_solver|]. by rewrite <- Et.
  - exists label, (d ++ ".")%string. split_and!; [done|set_solver|]. rewrite Et, lower_app, Eh. by rewrite !sapp_assoc.
Qed.

(** C36: An adopter's hostname gets no certificate from the gateway: with a
    platform certificate for [*.dom1], [*.dom2], ..., a server name is presented the
    certificate only when it is one label below one of these domains (or empty). *)
Theorem adopter_gets_no_certificate l c doms name :
  LoaderGetCertificate l = inl c → cert_chain c ≠ [] →
  cert_leaf c = Some {| DNSNames := map (fun dom => "*." ++ dom)%string doms; IPAddresses := [] |} →
  name ≠ "" → (∀ dom, dom ∈ doms → ¬ under dom name) →
  GetCertificate (NewResolver (Some l)) name = Ret (inr (ErrNoCertificate name)).
Proof.
  intros Hl Hne Hleaf Hn Hout. destruct (GetCertificate_loaded l c name Hl Hne) as [[[?|(leaf & Hv & Hor)] _]|(_ & _ & ?)];
    [done| |done].
  exfalso. assert (leaf = {| DNSNames := map (fun dom => "*." ++ dom)%string doms; IPAddresses := [] |}) as ->
    by (destruct Hor as [Hor|[Hor _]]; congruence).
  apply VerifyHostname_wildcard in Hv as (dom & Hin & Hu). by apply (Hout dom).
Qed.

End certs.

(** A name under a domain ends like it. *)
Lemma under_suffix dom s :
  under dom s →
  existsb (fun dots => HasSuffix (toLowerCaseASCII s) ("." ++ toLowerCaseASCII dom ++ dots)%string) ["" ; "." ; ".."] = true.
Proof.
  intros (label & dots & _ & Hd & ->). apply existsb_exists. exists dots. split; [by apply list_elem_of_In|].
  apply HasSuffix_spec. by exists label.
Qed.

(** * Concrete certificates *)

Section witnesses.

Definition ex_leaf (names : list string) : Leaf := {| DNSNames := names; IPAddresses := [] |}.
Definition ex_certs : GoCerts := {|
  parse_leaf der := if bool_decide (der = [x30]) then Some (ex_leaf ["*.apps.privasys.org"%string]) else None;
  parse_ip s := if String.eqb s "192.0.2.1" then Some [xc0; x00; x02; x01] else None;
|}.
#[local] Existing Instance ex_certs.

Definition ex_cert : Certificate := {| cert_chain := [[x30]]; cert_leaf := None |}.
Definition ex_renewed : Certificate := {|
  cert_chain := [[x31]]; cert_leaf := Some (ex_leaf ["*.apps.privasys.org"%string]) |}.
Definition ex_disk (r : Certificate + string) : disk := fun _ _ => r.
Definition ex_loader : Loader := {| certPath := "wildcard.crt"; keyPath := "wildcard.key"; cert := Some ex_cert |}.
Definition ex_reloads : list disk := [ex_disk (inl ex_renewed); ex_disk (inr "open wildcard.crt: no such file"%string)].

Example wildcard_label : VerifyHostname (ex_leaf ["*.apps.privasys.org"%string]) "Harness.apps.privasys.org" = true.
Proof. vm_compute. reflexivity. Qed.
Example wildcard_one_level : VerifyHostname (ex_leaf ["*.apps.privasys.org"%string]) "a.b.apps.privasys.org" = false.
Proof. vm_compute. reflexivity. Qed.

Lemma GetCertificate_spec_witness :
  GetCertificate (NewResolver (Some (watchSIGHUP ex_loader ex_reloads))) "harness.apps.privasys.org." = Ret (inl ex_renewed).
Proof.
  destruct (GetCertificate_spec "wildcard.crt" "wildcard.key" (ex_disk (inl ex_cert)) ex_reloads ex_loader
    "harness.apps.privasys.org.") as (c & Hc & [[_ Hg]|(_ & Hn & _)]).
  - repeat constructor; intros ? [= <-]; discriminate.
  - reflexivity.
  - vm_compute in Hc. injection Hc as <-. exact Hg.
  - exfalso. apply Hn. vm_compute in Hc. injection Hc as <-.
    exists (ex_leaf ["*.apps.privasys.org"%string]). split; [vm_compute; reflexivity|left; reflexivity].
Defined.

Lemma adopter_gets_no_certificate_witness :
  GetCertificate (NewResolver (Some (watchSIGHUP ex_loader ex_reloads))) "harness.example.com" =
  Ret (inr (ErrNoCertificate "harness.example.com")).
Proof.
  apply (adopter_gets_no_certificate _ ex_renewed ["apps.privasys.org"%string]).
  - vm_compute. reflexivity.
  - discriminate.
  - reflexivity.
  - discriminate.
  - intros dom Hd Hu. apply list_elem_of_singleton in Hd as ->. apply under_suffix in Hu.
    vm_compute in Hu. discriminate Hu.
Defined.

End witnesses.
