(* ===== verification/GoFlag.v ===== *)
(** What internal/config uses of Go's standard library: the command line of package
    flag, strconv.ParseInt with base 0, strconv.ParseBool, and fmt.Sscanf with the
    verb %d. *)
From Stdlib Require Import Strings.Ascii Strings.String.
From stdpp Require Import pretty.
From S2P Require Import Prelude GoBytes GoStrings.
Local Open Scope Z_scope.

(** * Integers *)

Definition digit_val (c : ascii) : option Z :=
  let n := Z.of_nat (char_code c) in
  if (48 <=? n) && (n <=? 57) then Some (n - 48)
  else let n := Z.of_nat (char_code (lower_char c)) in
    if (97 <=? n) && (n <=? 122) then Some (n - 97 + 10) else None.

(** The digit loop of ParseUint; with [base0] underscores are skipped. *)
Fixpoint parse_digits (base0 : bool) (base : Z) (acc : Z) (s : string) : option Z :=
  match s with
  | EmptyString => Some acc
  | String c s =>
      if base0 && Ascii.eqb c "_" then parse_digits base0 base acc s else
      match digit_val c with
      | Some d => if d <? base then parse_digits base0 base (acc * base + d) s else None
      | None => None
      end
  end.

(** The base prefix of a literal, and the digits after it. *)
Definition base_prefix (s : string) : Z * string :=
  match s with
  | String "0" (String x rest) =>
      match rest, lower_char x with
      | String _ _, "b"%char => (2, rest)
      | String _ _, "o"%char => (8, rest)
      | String _ _, "x"%char => (16, rest)
      | _, _ => (8, String x rest)
      end
  | String "0" EmptyString => (8, EmptyString)
  | s => (10, s)
  end.

(** underscoreOK after the sign: an underscore stands between two digits, the
    base prefix counting as one.  [saw] is the last class of character. *)
Inductive saw : Type := SawStart | SawDigit | SawUnder | SawOther.
Fixpoint underscores_ok (hex : bool) (last : saw) (s : string) : bool :=
  match s with
  | EmptyString => match last with SawUnder => false | _ => true end
  | String c s =>
      let n := char_code c in
      let l := char_code (lower_char c) in
      if ((48 <=? n)%nat && (n <=? 57)%nat) || (hex && (97 <=? l)%nat && (l <=? 102)%nat)
      then underscores_ok hex SawDigit s
      else if Ascii.eqb c "_" then match last with SawDigit => underscores_ok hex SawUnder s | _ => false end
      else match last with SawUnder => false | _ => underscores_ok hex SawOther s end
  end.
Definition underscoreOK (s : string) : bool :=
  match s with
  | String "0" (String x rest) =>
      match lower_char x with
      | "b"%char | "o"%char => underscores_ok false SawDigit rest
      | "x"%char => underscores_ok true SawDigit rest
      | _ => underscores_ok false SawStart s
      end
  | _ => underscores_ok false SawStart s
  end.

(** A sign and what follows it. *)
Definition take_sign (s : string) : bool * string :=
  match s with
  | String "-" s => (true, s)
  | String "+" s => (false, s)
  | s => (false, s)
  end.

(** The value of a sign and a magnitude, when it fits 64 bits. *)
Definition in_range (neg : bool) (un : Z) : option Z :=
  if neg then (if un <=? 2 ^ 63 then Some (- un) else None)
  else (if un <? 2 ^ 63 then Some un else None).

(** strconv.ParseInt(s, 0, 64); [None] is its error. *)
Definition ParseInt0 (s : string) : option Z :=
  let '(neg, s) := take_sign s in
  match s with
  | EmptyString => None
  | _ =>
      let '(base, ds) := base_prefix s in
      match parse_digits true base 0 ds with
      | Some un => if underscoreOK s then in_range neg un else None
      | None => None
      end
  end.

(** strconv.ParseBool *)
Definition ParseBool (s : string) : option bool :=
  if existsb (String.eqb s) ["1"; "t"; "T"; "TRUE"; "true"; "True"]%string then Some true
  else if existsb (String.eqb s) ["0"; "f"; "F"; "FALSE"; "false"; "False"]%string then Some false
  else None.

Definition is_digit (c : ascii) : bool := (48 <=? char_code c)%nat && (char_code c <=? 57)%nat.

(** The digits at the head of a string. *)
Fixpoint digits_of (s : string) : string :=
  match s with
  | String c s => if is_digit c then String c (digits_of s) else EmptyString
  | EmptyString => EmptyString
  end.

(** White space other than a newline, which ends the scan with an error. *)
Definition scan_spaces : list string := List.filter (fun e => negb (String.eqb e (chars [10%nat]))) space_encodings.

(** fmt.Sscanf(s, "%d", &n): leading space, a sign, digits; the rest is not read. *)
Definition Sscanf_d (s : string) : option Z :=
  let s := trim_left (String.length s) scan_spaces s in
  let '(neg, s) := take_sign s in
  match digits_of s with
  | EmptyString => None
  | tok => match parse_digits false 10 0 tok with Some un => in_range neg un | None => None end
  end.

(** * The command line *)

Inductive flag_value : Type := VString (s : string) | VInt (z : Z) | VBool (b : bool).

(** Value.Set on a flag that holds [v]. *)
Definition flag_set (v : flag_value) (s : string) : option flag_value :=
  match v with
  | VString _ => Some (VString s)
  | VInt _ => VInt <$> ParseInt0 s
  | VBool _ => VBool <$> ParseBool s
  end.

(** The name and, after the first [=], the value; [=] is not looked for in front. *)
Fixpoint split_eq (s : string) : string * option string :=
  match s with
  | EmptyString => (EmptyString, None)
  | String c s =>
      if Ascii.eqb c "=" then (EmptyString, Some s)
      else let '(n, v) := split_eq s in (String c n, v)
  end.
Definition split_flag (name : string) : string * option string :=
  match name with
  | String c s => let '(n, v) := split_eq s in (String c n, v)
  | EmptyString => (EmptyString, None)
  end.

Inductive parse_error : Type := ErrSyntax | ErrUndefined | ErrHelp | ErrValue | ErrNoArgument.
#[export] Instance parse_error_eq_dec : EqDecision parse_error.
Proof. solve_decision. Defined.

(** The flag an argument names, without its minus signs. *)
Inductive arg_shape : Type := NotFlag | Terminator | FlagArg (name : string).
Definition shape (arg : string) : arg_shape :=
  match arg with
  | String c (String d name) =>
      if negb (Ascii.eqb c "-") then NotFlag
      else if Ascii.eqb d "-" then (if String.eqb name "" then Terminator else FlagArg name)
      else FlagArg (String d name)
  | _ => NotFlag
  end.

(** FlagSet.Parse: the flags with their values after the arguments. *)
Fixpoint flag_parse (flags : gmap string flag_value) (args : list string) : gmap string flag_value + parse_error :=
  match args with
  | [] => inl flags
  | arg :: args =>
      match shape arg with
      | NotFlag | Terminator => inl flags
      | FlagArg name =>
          if String.eqb name "" || HasPrefix name "-" || HasPrefix name "=" then inr ErrSyntax else
          let '(name, value) := split_flag name in
          match flags !! name with
          | None => inr (if String.eqb name "help" || String.eqb name "h" then ErrHelp else ErrUndefined)
          | Some (VBool b) =>
              match flag_set (VBool b) (default "true"%string value) with
              | Some v => flag_parse (<[name := v]> flags) args
              | None => inr ErrValue
              end
          | Some old =>
              match value with
              | Some s =>
                  match flag_set old s with
                  | Some v => flag_parse (<[name := v]> flags) args
                  | None => inr ErrValue
                  end
              | None =>
                  match args with
                  | [] => inr ErrNoArgument
                  | s :: args =>
                      match flag_set old s with
                      | Some v => flag_parse (<[name := v]> flags) args
                      | None => inr ErrValue
                      end
                  end
              end
          end
      end
  end.

Example parse_hex : ParseInt0 "-0x7F" = Some (-127).
Proof. reflexivity. Qed.
Example parse_underscore : (ParseInt0 "32_768", ParseInt0 "3__2", ParseInt0 "_3") = (Some 32768, None, None).
Proof. reflexivity. Qed.
Example parse_octal : (ParseInt0 "010", ParseInt0 "0", ParseInt0 "09") = (Some 8, Some 0, None).
Proof. reflexivity. Qed.
Example scan_prefix : (Sscanf_d " +500ms", Sscanf_d "5 s", Sscanf_d "s5") = (Some 500, Some 5, None).
Proof. reflexivity. Qed.

(** * Decimal numbers read back *)

Lemma pretty_digit n : (n < 10)%N →
  digit_val (pretty_N_char n) = Some (Z.of_N n) ∧ Ascii.eqb (pretty_N_char n) "_" = false ∧
  is_digit (pretty_N_char n) = true.
Proof.
  intros Hn. assert (Hf : forallb (fun k => bool_decide (digit_val (pretty_N_char k) = Some (Z.of_N k)) &&
    negb (Ascii.eqb (pretty_N_char k) "_") && is_digit (pretty_N_char k)) (N.of_nat <$> seq 0 10) = true) by done.
  rewrite forallb_forall in Hf. specialize (Hf n). rewrite !andb_true_iff, bool_decide_eq_true, negb_true_iff in Hf.
  destruct Hf as [[? ?] ?]; [|done]. apply list_elem_of_In, list_elem_of_fmap. exists (N.to_nat n).
  split; [lia|]. apply elem_of_seq. lia.
Qed.

(** The digits of [x] in front of [s]. *)
Lemma parse_pretty_go b x s : (0 < x)%N →
  parse_digits b 10 0 (pretty_N_go x s) = parse_digits b 10 (Z.of_N x) s.
Proof.
  revert s. induction x as [x IH] using (well_founded_induction N.lt_wf_0). intros s Hx.
  rewrite pretty_N_go_step by done.
  destruct (pretty_digit (x mod 10)) as (Hv & Hu & _); [by apply N.mod_lt|].
  assert (Hd : ∀ acc, parse_digits b 10 acc (String (pretty_N_char (x mod 10)) s) =
    parse_digits b 10 (acc * 10 + Z.of_N (x mod 10)) s).
  { intros acc. cbn [parse_digits]. rewrite Hu, andb_false_r, Hv. pose proof (N.mod_lt x 10 ltac:(done)).
    rewrite (proj2 (Z.ltb_lt _ _)) by lia. done. }
  destruct (decide (x / 10 = 0)%N) as [E|E].
  - rewrite E, pretty_N_go_0, Hd. f_equal. pose proof (N.div_mod' x 10); lia.
  - rewrite IH; [|apply N.div_lt; lia|apply N.neq_0_lt_0; done]. rewrite Hd. f_equal. pose proof (N.div_mod' x 10); lia.
Qed.

(** The first digit of a positive number is a digit other than 0. *)
Lemma pretty_go_head x s : (0 < x)%N →
  ∃ c s', pretty_N_go x s = String c s' ∧ is_digit c = true ∧ Ascii.eqb c "0" = false.
Proof.
  revert s. induction x as [x IH] using (well_founded_induction N.lt_wf_0). intros s Hx.
  rewrite pretty_N_go_step by done. destruct (decide (x / 10 = 0)%N) as [E|E].
  - rewrite E, pretty_N_go_0. eexists _, _. split; [done|].
    assert (x < 10)%N as Hlt by (apply N.div_small_iff in E; lia). rewrite N.mod_small by done.
    assert (Hf : forallb (fun k => is_digit (pretty_N_char k) && negb (Ascii.eqb (pretty_N_char k) "0"))
      (N.of_nat <$> seq 1 9) = true) by done.
    rewrite forallb_forall in Hf. specialize (Hf x). rewrite andb_true_iff, negb_true_iff in Hf. apply Hf.
    apply list_elem_of_In, list_elem_of_fmap. exists (N.to_nat x). split; [lia|]. apply elem_of_seq. lia.
  - apply IH; [apply N.div_lt; lia|apply N.neq_0_lt_0; done].
Qed.

Lemma sall_digits_go x s : sall is_digit s = true → sall is_digit (pretty_N_go x s) = true.
Proof.
  revert s. induction x as [x IH] using (well_founded_induction N.lt_wf_0). intros s Hs.
  destruct (decide (x = 0)%N) as [->|Hx]; [by rewrite pretty_N_go_0|]. rewrite pretty_N_go_step by lia.
  apply IH; [apply N.div_lt; lia|]. simpl. rewrite Hs. destruct (pretty_digit (x mod 10)) as (_ & _ & ->); [by apply N.mod_lt|done].
Qed.

Lemma digits_of_all s : sall is_digit s = true → digits_of s = s.
Proof. induction s as [|c s IH]; [done|]. simpl. intros [-> ?]%andb_true_iff. by rewrite IH. Qed.

Lemma underscores_digits s last : sall is_digit s = true → last ≠ SawUnder → underscores_ok false last s = true.
Proof.
  revert last. induction s as [|c s IH]; intros last; cbn [sall underscores_ok]; [by destruct last|].
  intros [Hc Hs]%andb_true_iff Hl. unfold is_digit in Hc. cbv zeta. rewrite Hc. by apply IH.
Qed.

(** The decimal digits of a positive number. *)
Lemma pretty_pos p :
  ∃ c s', pretty (Npos p) = String c s' ∧ is_digit c = true ∧ Ascii.eqb c "0" = false ∧
    sall is_digit (pretty (Npos p)) = true ∧ ∀ b, parse_digits b 10 0 (pretty (Npos p)) = Some (Zpos p).
Proof.
  change (pretty (Npos p)) with (pretty_N_go (Npos p) "").
  destruct (pretty_go_head (Npos p) "" ltac:(lia)) as (c & s' & E & Hd & H0). exists c, s'. split_and!; try done.
  - by apply sall_digits_go.
  - intros b. by rewrite parse_pretty_go by lia.
Qed.

(** A number printed in decimal is read back. *)
Lemma parse_itoa n : (0 <= n)%Z → parse_digits false 10 0 (itoa n) = Some n ∧ itoa n ≠ "".
Proof.
  intros Hn. destruct n as [|p|p]; [done| |lia]. destruct (pretty_pos p) as (c & s' & E & _ & _ & _ & Hp).
  unfold itoa. change (pretty (Zpos p)) with (pretty (Npos p)). split; [apply Hp|]. by rewrite E.
Qed.

(** Arabic digits are no signs and no base prefixes. *)
Lemma digit_not_sign c s : is_digit c = true → take_sign (String c s) = (false, String c s).
Proof.
  intros Hc. pose proof (ascii_cases (fun c => negb (is_digit c) ||
    (negb (Ascii.eqb c "-") && negb (Ascii.eqb c "+")))) as Hall.
  specialize (Hall ltac:(vm_compute; reflexivity) c). cbv beta in Hall. rewrite Hc in Hall. simpl in Hall.
  unfold take_sign. by repeat (case_match; simplify_eq).
Qed.

Lemma digit_base c s : Ascii.eqb c "0" = false → base_prefix (String c s) = (10, String c s) ∧
  underscoreOK (String c s) = underscores_ok false SawStart (String c s).
Proof. intros Hc. unfold base_prefix, underscoreOK. by repeat (case_match; simplify_eq). Qed.

Definition int64_range (z : Z) : Prop := - 2 ^ 63 <= z < 2 ^ 63.

Lemma ParseInt0_itoa z : int64_range z → ParseInt0 (itoa z) = Some z.
Proof.
  unfold int64_range, itoa. intros Hz. destruct z as [|p|p]; [done|..];
    destruct (pretty_pos p) as (c & s' & E & Hd & H0 & Hall & Hp).
  - change (pretty (Zpos p)) with (pretty (Npos p)). rewrite E in *. unfold ParseInt0. rewrite digit_not_sign by done.
    destruct (digit_base c s' H0) as [-> Hu]. rewrite Hp, Hu, underscores_digits by done.
    unfold in_range. by rewrite (proj2 (Z.ltb_lt _ _)) by lia.
  - change (pretty (Zneg p)) with (String "-" (pretty (Npos p))). rewrite E in *. unfold ParseInt0. cbn [take_sign].
    destruct (digit_base c s' H0) as [-> Hu]. rewrite Hp, Hu, underscores_digits by done.
    unfold in_range. by rewrite (proj2 (Z.leb_le _ _)) by lia.
Qed.

Lemma no_space c s : is_digit c = true ∨ c = "-"%char → trim_left (String.length (String c s)) scan_spaces (String c s) = String c s.
Proof.
  intros Hc. cbn [String.length trim_left].
  assert (List.find (fun e => String.prefix e (String c s)) scan_spaces = None) as ->; [|done].
  assert (Ascii.eqb c "-" || is_digit c = true) as Hb by (by destruct Hc as [->| ->]; rewrite ?orb_true_r).
  pose proof (ascii_cases (fun c => negb (Ascii.eqb c "-" || is_digit c) ||
    forallb (fun e => match e with String d _ => negb (Ascii.eqb d c) | EmptyString => false end) scan_spaces)) as Hall.
  specialize (Hall ltac:(vm_compute; reflexivity) c). cbv beta in Hall. rewrite Hb in Hall. simpl negb in Hall. rewrite orb_false_l in Hall.
  revert Hall. generalize scan_spaces. intros l. induction l as [|e l IH]; [done|]. simpl.
  destruct e as [|d e]; [done|]. intros [Hn Hl]%andb_true_iff. simpl.
  destruct (ascii_dec d c) as [->|]; [|by apply IH]. by rewrite Ascii.eqb_refl in Hn.
Qed.

Lemma Sscanf_itoa z : int64_range z → Sscanf_d (itoa z) = Some z.
Proof.
  unfold int64_range, itoa, Sscanf_d. intros Hz. destruct z as [|p|p]; [done|..];
    destruct (pretty_pos p) as (c & s' & E & Hd & H0 & Hall & Hp).
  - change (pretty (Zpos p)) with (pretty (Npos p)). rewrite E in *. rewrite no_space by auto.
    rewrite digit_not_sign, digits_of_all, Hp by done. unfold in_range. by rewrite (proj2 (Z.ltb_lt _ _)) by lia.
  - change (pretty (Zneg p)) with (String "-" (pretty (Npos p))). rewrite E in *. rewrite no_space by auto.
    cbn [take_sign]. rewrite digits_of_all, Hp by done. unfold in_range. by rewrite (proj2 (Z.leb_le _ _)) by lia.
Qed.
