(* ===== verification/Config.v ===== *)
(** internal/config/config.go: the configuration from command line and environment.

    Load is a function of the environment (os.Getenv), and of the arguments; its
    outcomes are a configuration, an error, or the exit of the process by package
    flag.  Integers of the configuration are 64 bits wide, durations count
    nanoseconds. *)
From Stdlib Require Import Strings.Ascii Strings.String.
From S2P Require Import Prelude GoBytes GoStrings GoFlag Sync.
Local Open Scope Z_scope.

Record Config := {
  ListenAddr : string;
  HealthAddr : string;
  ManagementURL : string;
  AuthToken : string;
  PollInterval : Z;
  DialTimeout : Z;
  IdleTimeout : Z;
  BufferSize : Z;
  TLSCertPath : string;
  TLSKeyPath : string;
  UpstreamCA : string;
  DirectProxyProtocol : bool;
  CORSOrigins : string;
  ACMECacheDir : string;
  ACMEEmail : string;
  ACMEDirectory : string;
  Tunnels : bool;
}.

Definition env : Type := string → string.

Definition envOr (e : env) (key fallback : string) : string :=
  let v := e key in if String.eqb v "" then fallback else v.

Definition envOrInt (e : env) (key : string) (fallback : Z) : Z :=
  let v := e key in
  if String.eqb v "" then fallback else
  match Sscanf_d v with Some n => n | None => fallback end.

(** The flags as Load declares them, with the values they start from. *)
Definition declared (e : env) : list (string * flag_value) := [
  ("listen", VString (envOr e "GATEWAY_LISTEN" ":443"));
  ("health", VString (envOr e "GATEWAY_HEALTH" ":9090"));
  ("management-url", VString (envOr e "GATEWAY_MANAGEMENT_URL" ""));
  ("auth-token", VString (envOr e "GATEWAY_AUTH_TOKEN" ""));
  ("poll-interval", VInt (envOrInt e "GATEWAY_POLL_INTERVAL" 5));
  ("dial-timeout", VInt (envOrInt e "GATEWAY_DIAL_TIMEOUT" 2));
  ("idle-timeout", VInt (envOrInt e "GATEWAY_IDLE_TIMEOUT" 300));
  ("buffer-size", VInt (envOrInt e "GATEWAY_BUFFER_SIZE" 32768));
  ("tls-cert", VString (envOr e "GATEWAY_TLS_CERT" ""));
  ("tls-key", VString (envOr e "GATEWAY_TLS_KEY" ""));
  ("upstream-ca", VString (envOr e "GATEWAY_UPSTREAM_CA" ""));
  ("direct-proxy-protocol", VBool (String.eqb (envOr e "GATEWAY_DIRECT_PROXY_PROTOCOL" "") "true"));
  ("cors-origins", VString (envOr e "GATEWAY_CORS_ORIGINS" ""));
  ("acme-cache", VString (envOr e "GATEWAY_ACME_CACHE" ""));
  ("acme-email", VString (envOr e "GATEWAY_ACME_EMAIL" ""));
  ("acme-directory", VString (envOr e "GATEWAY_ACME_DIRECTORY" ""));
  ("tunnels", VBool (String.eqb (envOr e "GATEWAY_TUNNELS" "") "true"))
]%string.

Definition flags_of (e : env) : gmap string flag_value := list_to_map (declared e).

(** The variables the flags point to. *)
Definition get_string (fs : gmap string flag_value) (name : string) : string :=
  match fs !! name with Some (VString s) => s | _ => "" end.
Definition get_int (fs : gmap string flag_value) (name : string) : Z :=
  match fs !! name with Some (VInt z) => z | _ => 0 end.
Definition get_bool (fs : gmap string flag_value) (name : string) : bool :=
  match fs !! name with Some (VBool b) => b | _ => false end.

(** time.Duration(n) * time.Second *)
Definition seconds (n : Z) : Z := int64 (n * 1000000000).

Definition config_of (fs : gmap string flag_value) : Config := {|
  ListenAddr := get_string fs "listen";
  HealthAddr := get_string fs "health";
  ManagementURL := get_string fs "management-url";
  AuthToken := get_string fs "auth-token";
  PollInterval := seconds (get_int fs "poll-interval");
  DialTimeout := seconds (get_int fs "dial-timeout");
  IdleTimeout := seconds (get_int fs "idle-timeout");
  BufferSize := get_int fs "buffer-size";
  TLSCertPath := get_string fs "tls-cert";
  TLSKeyPath := get_string fs "tls-key";
  UpstreamCA := get_string fs "upstream-ca";
  DirectProxyProtocol := get_bool fs "direct-proxy-protocol";
  CORSOrigins := get_string fs "cors-origins";
  ACMECacheDir := get_string fs "acme-cache";
  ACMEEmail := get_string fs "acme-email";
  ACMEDirectory := get_string fs "acme-directory";
  Tunnels := get_bool fs "tunnels";
|}.

Inductive config_error : Type := ErrManagementURL | ErrTunnels | ErrTLSPair.

Inductive load_result : Type :=
| Loaded (cfg : Config)
| LoadErr (err : config_error)
| Exited (code : Z).           (* flag.Parse left the process *)

(** The checks at the end of Load. *)
Definition checked (cfg : Config) : load_result :=
  if String.eqb (ManagementURL cfg) "" then LoadErr ErrManagementURL
  else if Tunnels cfg && String.eqb (TLSCertPath cfg) "" then LoadErr ErrTunnels
  else if xorb (String.eqb (TLSCertPath cfg) "") (String.eqb (TLSKeyPath cfg) "") then LoadErr ErrTLSPair
  else Loaded cfg.

Definition Load (e : env) (args : list string) : load_result :=
  match flag_parse (flags_of e) args with
  | inr ErrHelp => Exited 0
  | inr _ => Exited 2
  | inl fs => checked (config_of fs)
  end.

(** * Precedence *)

(** [-name=value] *)
Definition assignment (kv : string * string) : string := ("-" ++ kv.1 ++ "=" ++ kv.2)%string.

(** The value a flag has after the assignments [kvs], in order. *)
Definition assigned (e : env) (kvs : list (string * string)) (name : string) : option flag_value :=
  let old := flags_of e !! name in
  match last (filter (fun kv => kv.1 = name) kvs) with
  | Some kv => old ≫= fun v => flag_set v kv.2
  | None => old
  end.

(** A flag with a value of its type. *)
Definition well_typed (e : env) (kv : string * string) : Prop :=
  ∃ v, flags_of e !! kv.1 = Some v ∧ is_Some (flag_set v kv.2).

(** The kind of a value, which setting a flag keeps. *)
Definition same_kind (a b : flag_value) : bool :=
  match a, b with VString _, VString _ | VInt _, VInt _ | VBool _, VBool _ => true | _, _ => false end.

Lemma flag_set_kind v s v' : flag_set v s = Some v' → same_kind v v' = true.
Proof.
  destruct v; simpl; [by intros [= <-]|by intros (? & _ & ->)%fmap_Some..].
Qed.

Lemma flag_set_same v v' s : same_kind v v' = true → flag_set v' s = flag_set v s.
Proof. by destruct v, v'. Qed.

(** What the parser makes of the declared names. *)
Definition plain_name (n : string) : Prop :=
  ∃ c rest, n = String c rest ∧ sin "=" n = false ∧ Ascii.eqb c "-" = false.

Lemma declared_plain e n : is_Some (flags_of e !! n) → plain_name n.
Proof.
  intros [v Hv]. apply elem_of_list_to_map_2 in Hv. unfold declared in Hv.
  rewrite ?elem_of_cons in Hv. 
  repeat destruct Hv as [[= -> _]|Hv]; try (eexists _, _; split; [reflexivity|split; reflexivity]).
  by apply not_elem_of_nil in Hv.
Qed.

Lemma split_eq_app n v : sin "=" n = false → split_eq (n ++ "=" ++ v) = (n, Some v).
Proof.
  induction n as [|c n IH]; [done|]. cbn [sin]. intros [Hc Hn]%orb_false_iff. rewrite sapp_cons. cbn [split_eq].
  rewrite (IH Hn). by rewrite Hc.
Qed.

Lemma shape_assignment n v : plain_name n →
  shape (assignment (n, v)) = FlagArg (n ++ "=" ++ v) ∧
  (String.eqb (n ++ "=" ++ v) "" || HasPrefix (n ++ "=" ++ v) "-" || HasPrefix (n ++ "=" ++ v) "=") = false ∧
  split_flag (n ++ "=" ++ v) = (n, Some v).
Proof.
  intros (c & rest & -> & Hs & Hd). cbn [sin] in Hs. apply orb_false_iff in Hs as [He Hs].
  pose proof (split_eq_app rest v Hs) as E. unfold assignment. simpl fst. simpl snd. rewrite !sapp_cons in *. split_and!.
  - unfold shape. rewrite sapp_nil_l, Ascii.eqb_refl, Hd. done.
  - apply Ascii.eqb_neq in He, Hd. unfold HasPrefix. cbn -[ascii_dec].
    destruct (ascii_dec "-" c); [congruence|]. by destruct (ascii_dec "=" c); [congruence|].
  - unfold split_flag. by rewrite E.
Qed.

Lemma flag_parse_assignment fs n v args :
  plain_name n →
  flag_parse fs (assignment (n, v) :: args) =
  match fs !! n with
  | None => inr (if String.eqb n "help" || String.eqb n "h" then ErrHelp else ErrUndefined)
  | Some old =>
      match flag_set old v with
      | Some x => flag_parse (<[n := x]> fs) args
      | None => inr ErrValue
      end
  end.
Proof.
  intros Hn. destruct (shape_assignment n v Hn) as (H1 & H2 & H3). cbn [flag_parse]. rewrite H1, H2, H3.
  by destruct (fs !! n) as [[]|].
Qed.

(** Flags given as [-name=value] leave every flag as [assigned] says: the parser
    started from flags [fs] that earlier assignments [done] produced. *)
Lemma flag_parse_assigned e done kvs fs :
  Forall (well_typed e) done → Forall (well_typed e) kvs → (∀ n, fs !! n = assigned e done n) →
  ∃ fs', flag_parse fs (map assignment kvs) = inl fs' ∧ ∀ n, fs' !! n = assigned e (done ++ kvs) n.
Proof.
  revert done fs. induction kvs as [|[n s] kvs IH]; intros dn fs Hd Hw Hfs.
  { exists fs. by rewrite app_nil_r. }
  apply Forall_cons in Hw as [Hns Hw]. pose proof Hns as (v & Hv & x & Hx). simpl in Hv, Hx. cbn [map].
  rewrite flag_parse_assignment by (apply (declared_plain e); eauto).
  assert (∃ old, fs !! n = Some old ∧ same_kind v old = true) as (old & Hold & Hk).
  { rewrite Hfs. unfold assigned. rewrite Hv. destruct (last _) as [kv|] eqn:El; [|by exists v; destruct v].
    apply last_Some_elem_of, list_elem_of_filter in El as [<- Hin]. rewrite Forall_forall in Hd.
    destruct (Hd kv Hin) as (v' & Hv' & y & Hy). rewrite Hv in Hv'. injection Hv' as <-. exists y.
    split; [done|by eapply flag_set_kind]. }
  rewrite Hold, (flag_set_same v old) by done. rewrite Hx.
  destruct (IH (dn ++ [(n, s)]) (<[n := x]> fs)) as (fs' & Hp & Hl); [by apply Forall_app; auto|done|..].
  { intros m. unfold assigned. rewrite filter_app, lookup_insert. cbn [filter list_filter]. case_decide as Hm.
    - subst m. rewrite decide_True by done. rewrite last_snoc. cbn [fst snd]. rewrite Hv. done.
    - rewrite decide_False by done. rewrite app_nil_r. apply Hfs. }
  exists fs'. split; [done|]. intros m. rewrite Hl. by rewrite <- app_assoc.
Qed.

Lemma Load_assigned e kvs fs :
  Forall (well_typed e) kvs → (∀ n, fs !! n = assigned e kvs n) →
  Load e (map assignment kvs) = checked (config_of fs).
Proof.
  intros Hw Hfs. destruct (flag_parse_assigned e [] kvs (flags_of e)) as (fs' & Hp & Hl); [constructor|done|done|].
  unfold Load. rewrite Hp. f_equal. f_equal. apply map_eq. intros n. by rewrite Hl, Hfs.
Qed.

(** What a configuration has to satisfy. *)
Definition acceptable (cfg : Config) : Prop :=
  ManagementURL cfg ≠ "" ∧ (Tunnels cfg = true → TLSCertPath cfg ≠ "") ∧ (TLSCertPath cfg = "" ↔ TLSKeyPath cfg = "").

Lemma checked_spec cfg :
  match checked cfg with
  | Loaded cfg' => cfg' = cfg ∧ acceptable cfg
  | LoadErr ErrManagementURL => ManagementURL cfg = ""
  | LoadErr ErrTunnels => Tunnels cfg = true ∧ TLSCertPath cfg = ""
  | LoadErr ErrTLSPair => ¬ (TLSCertPath cfg = "" ↔ TLSKeyPath cfg = "")
  | Exited _ => False
  end.
Proof.
  unfold checked, acceptable. destruct (String.eqb_spec (ManagementURL cfg) ""); [done|].
  destruct (Tunnels cfg), (String.eqb_spec (TLSCertPath cfg) ""), (String.eqb_spec (TLSKeyPath cfg) ""); simpl; naive_solver.
Qed.

Lemma acceptable_checked cfg : acceptable cfg → checked cfg = Loaded cfg.
Proof.
  pose proof (checked_spec cfg) as Hc. intros (H1 & H2 & H3). destruct (checked cfg) as [cfg'|[]|]; naive_solver.
Qed.

(** C39: The gateway never starts half configured: whatever the environment and
    the command line, a configuration Load returns names a management service, has
    the certificate and its key together or neither, and enables tunnels only with
    a certificate; a command line the flag package cannot read ends the process. *)
Theorem Load_accepted e args :
  match Load e args with
  | Loaded cfg => acceptable cfg ∧ ∃ fs, flag_parse (flags_of e) args = inl fs ∧ cfg = config_of fs
  | LoadErr err => ∃ fs, flag_parse (flags_of e) args = inl fs ∧
      match err with
      | ErrManagementURL => ManagementURL (config_of fs) = ""
      | ErrTunnels => Tunnels (config_of fs) = true ∧ TLSCertPath (config_of fs) = ""
      | ErrTLSPair => ¬ (TLSCertPath (config_of fs) = "" ↔ TLSKeyPath (config_of fs) = "")
      end
  | Exited code => ∃ err, flag_parse (flags_of e) args = inr err ∧ code = (if decide (err = ErrHelp) then 0 else 2)
  end.
Proof.
  unfold Load. destruct (flag_parse (flags_of e) args) as [fs|err].
  - pose proof (checked_spec (config_of fs)) as Hc. destruct (checked (config_of fs)) as [cfg|err|code]; [|by eauto|done].
    destruct Hc as [-> ?]. eauto.
  - destruct err; eexists; (split; [reflexivity|reflexivity]).
Qed.

(** ** Command lines of configurations *)

(** A configuration as a command line. *)
Definition render (cfg : Config) : list (string * string) := [
  ("listen", ListenAddr cfg); ("health", HealthAddr cfg); ("management-url", ManagementURL cfg);
  ("auth-token", AuthToken cfg);
  ("poll-interval", itoa (PollInterval cfg / 1000000000)); ("dial-timeout", itoa (DialTimeout cfg / 1000000000));
  ("idle-timeout", itoa (IdleTimeout cfg / 1000000000)); ("buffer-size", itoa (BufferSize cfg));
  ("tls-cert", TLSCertPath cfg); ("tls-key", TLSKeyPath cfg); ("upstream-ca", UpstreamCA cfg);
  ("direct-proxy-protocol", if DirectProxyProtocol cfg then "true" else "false"); ("cors-origins", CORSOrigins cfg);
  ("acme-cache", ACMECacheDir cfg); ("acme-email", ACMEEmail cfg); ("acme-directory", ACMEDirectory cfg);
  ("tunnels", if Tunnels cfg then "true" else "false")
]%string.

(** Whole seconds that fit a duration. *)
Definition whole_seconds (d : Z) : Prop := int64_range d ∧ d mod 1000000000 = 0.

Lemma seconds_div d : whole_seconds d → seconds (d / 1000000000) = d ∧ int64_range (d / 1000000000).
Proof.
  unfold whole_seconds, int64_range, seconds, int64, wrap. intros [Hd Hm].
  pose proof (Z.div_mod d 1000000000 ltac:(done)).
  split; [|lia]. rewrite Z.mod_small; lia.
Qed.

Lemma bool_roundtrip (b : bool) : ParseBool (if b then "true" else "false") = Some b.
Proof. by destruct b. Qed.

(** Looking a declared flag up computes. *)
Lemma flags_string e n s kvs v :
  flags_of e !! n = Some (VString v) → last (filter (fun kv => kv.1 = n) kvs) = Some (n, s) →
  assigned e kvs n = Some (VString s).
Proof. intros Hf Hl. unfold assigned. by rewrite Hl, Hf. Qed.
Lemma flags_int e n z kvs v :
  int64_range z → flags_of e !! n = Some (VInt v) → last (filter (fun kv => kv.1 = n) kvs) = Some (n, itoa z) →
  assigned e kvs n = Some (VInt z).
Proof. intros Hz Hf Hl. unfold assigned. rewrite Hl, Hf. cbn -[ParseInt0]. by rewrite ParseInt0_itoa. Qed.
Lemma flags_bool e n (b : bool) kvs v :
  flags_of e !! n = Some (VBool v) →
  last (filter (fun kv => kv.1 = n) kvs) = Some (n, if b then "true" else "false")%string →
  assigned e kvs n = Some (VBool b).
Proof. intros Hf Hl. unfold assigned. rewrite Hl, Hf. cbn -[ParseBool]. by rewrite bool_roundtrip. Qed.

(** A rendered value has the type of its flag. *)
Lemma render_typed e cfg :
  int64_range (PollInterval cfg / 1000000000) → int64_range (DialTimeout cfg / 1000000000) →
  int64_range (IdleTimeout cfg / 1000000000) → int64_range (BufferSize cfg) →
  Forall (well_typed e) (render cfg).
Proof.
  intros H1 H2 H3 H4. unfold render.
  assert (Hint : ∀ v z, int64_range z → is_Some (flag_set (VInt v) (itoa z))).
  { intros v z Hz. cbn -[ParseInt0]. rewrite ParseInt0_itoa by done. by eexists. }
  assert (Hbool : ∀ v (b : bool), is_Some (flag_set (VBool v) (if b then "true" else "false")%string)).
  { intros v b. cbn -[ParseBool]. rewrite bool_roundtrip. by eexists. }
  repeat (apply Forall_cons_2;
    [unfold well_typed; eexists; split;
      [reflexivity|cbn [fst snd]; first [by apply Hint | by apply Hbool | by eexists]]|]).
  constructor.
Qed.

(** Every configuration can be given on the command line, and flags win over
    the environment: whatever the environment says, Load of a rendered configuration
    is that configuration when it is acceptable. *)
Theorem Load_render e cfg :
  whole_seconds (PollInterval cfg) → whole_seconds (DialTimeout cfg) → whole_seconds (IdleTimeout cfg) →
  int64_range (BufferSize cfg) → acceptable cfg →
  Load e (map assignment (render cfg)) = Loaded cfg.
Proof.
  intros Hp Hd Hi Hb Hacc.
  apply seconds_div in Hp as [Hp Hp'], Hd as [Hd Hd'], Hi as [Hi Hi'].
  destruct (flag_parse_assigned e [] (render cfg) (flags_of e)) as (fs & Hparse & Hfs);
    [constructor|by apply render_typed|done|]. simpl app in Hfs.
  unfold Load. rewrite Hparse. replace (config_of fs) with cfg; [by apply acceptable_checked|].
  assert (Hs : ∀ n s v, flags_of e !! n = Some (VString v) →
    last (filter (fun kv => kv.1 = n) (render cfg)) = Some (n, s) → get_string fs n = s).
  { intros n s v Hf Hl. unfold get_string. rewrite Hfs. by erewrite flags_string. }
  assert (Hz : ∀ n z v, int64_range z → flags_of e !! n = Some (VInt v) →
    last (filter (fun kv => kv.1 = n) (render cfg)) = Some (n, itoa z) → get_int fs n = z).
  { intros n z v Hr Hf Hl. unfold get_int. rewrite Hfs. by erewrite flags_int. }
  assert (Hbl : ∀ n (b : bool) v, flags_of e !! n = Some (VBool v) →
    last (filter (fun kv => kv.1 = n) (render cfg)) = Some (n, if b then "true" else "false")%string →
    get_bool fs n = b).
  { intros n b v Hf Hl. unfold get_bool. rewrite Hfs. by erewrite flags_bool. }
  symmetry. unfold config_of.
  rewrite (Hz "poll-interval" _ _ Hp' eq_refl eq_refl), (Hz "dial-timeout" _ _ Hd' eq_refl eq_refl),
    (Hz "idle-timeout" _ _ Hi' eq_refl eq_refl), (Hz "buffer-size" _ _ Hb eq_refl eq_refl), Hp, Hd, Hi.
  rewrite (Hbl "direct-proxy-protocol" (DirectProxyProtocol cfg) _ eq_refl eq_refl),
    (Hbl "tunnels" (Tunnels cfg) _ eq_refl eq_refl).
  destruct cfg. f_equal; by (eapply Hs; reflexivity).
Qed.

(** An integer in the environment is read back; trailing text is ignored, so a
    value with a unit is taken as a number of seconds. *)
Lemma envOrInt_reads e key fallback z :
  int64_range z → e key = itoa z → envOrInt e key fallback = z.
Proof.
  intros Hz He. unfold envOrInt. rewrite He, Sscanf_itoa by done. destruct (String.eqb_spec (itoa z) "") as [E|]; [|done].
  pose proof (ParseInt0_itoa z Hz) as Hp. by rewrite E in Hp.
Qed.

(** Load does not check intervals and sizes: a poll interval of zero passes, with
    which time.NewTicker in Syncer.Run panics. *)
Theorem zero_poll_interval_accepted :
  ∃ cfg, Load (fun _ => "") ["-management-url=https://mgmt"; "-poll-interval=0"]%string = Loaded cfg ∧
    PollInterval cfg = 0.
Proof. eexists. split; vm_compute; reflexivity. Qed.

(** * A concrete command line *)

Definition ex_cfg : Config := {|
  ListenAddr := ":8443"; HealthAddr := ":9090"; ManagementURL := "https://mgmt"; AuthToken := "t=1";
  PollInterval := 5000000000; DialTimeout := 2000000000; IdleTimeout := 300000000000; BufferSize := 32768;
  TLSCertPath := "w.crt"; TLSKeyPath := "w.key"; UpstreamCA := ""; DirectProxyProtocol := false;
  CORSOrigins := "https://chat.privasys.org, *.privasys.org"; ACMECacheDir := ""; ACMEEmail := ""; ACMEDirectory := "";
  Tunnels := true;
|}.
Definition ex_getenv : env := fun key =>
  if String.eqb key "GATEWAY_LISTEN" then ":1" else if String.eqb key "GATEWAY_POLL_INTERVAL" then "500ms" else "".

Lemma Load_render_witness : Load ex_getenv (map assignment (render ex_cfg)) = Loaded ex_cfg.
Proof. apply Load_render; [split; [split|]; vm_compute; congruence..|split; vm_compute; congruence|]. repeat split; discriminate. Defined.

(** Without flags the environment counts. *)
Example environment_counts :
  match Load ex_getenv ["-management-url"; "https://mgmt"; "--tunnels=f"; "rest"]%string with
  | Loaded cfg => ListenAddr cfg = ":1" ∧ PollInterval cfg = 500000000000 ∧ DialTimeout cfg = 2000000000
  | _ => False
  end.
Proof. vm_compute. repeat split. Qed.
