(* ===== verification/Main.v ===== *)
(** cmd/gateway/main.go: how the program is put together, with the constructors it
    calls (proxy.New and its setters, terminate.New, certmgr, tunnel.NewAcceptor).

    [setup] is main up to the start of its goroutines, a function of the environment,
    the command line and the files it reads; log.Fatalf and the exits of package flag
    are outcomes.  The objects main allocates and shares (the table, the tracker, the
    tunnel registry, the terminator and so on) have references, so that who holds
    which of them is part of the result.  Accept.v has what follows. *)
From Stdlib Require Import Strings.Ascii Strings.String.
From S2P Require Import Prelude GoBytes GoStrings GoRuntime Effects RouteTable Tracker CutProtocol Sync Cors Policy ProxyCache.
From S2P Require Import Http System Certs GoFlag Config.
From S2P Require Sni Proxy Terminate Connection.
Local Open Scope Z_scope.

(** * splitAndTrim *)

Definition splitAndTrim (s : string) : list string :=
  if String.eqb s "" then [] else
  flat_map (fun p => let p := TrimSpace p in if String.eqb p "" then [] else [p]) (SplitChar "," s).

(** * TLS settings *)

Record tls_config := { MinVersion : Z; NextProtos : list string }.
Definition VersionTLS12 : Z := 771.
Definition VersionTLS13 : Z := 772.

(** Resolver.TLSConfig *)
Definition resolver_TLSConfig : tls_config := {| MinVersion := VersionTLS12; NextProtos := ["http/1.1"%string] |}.

(** tunnel.NewAcceptor *)
Definition acceptor_TLSConfig (base : tls_config) : tls_config :=
  {| MinVersion := VersionTLS13; NextProtos := [Proxy.ALPN] |}.

(** crypto/tls negotiateALPN: the first protocol of the server the client offers,
    none when one side names none; [None] fails the handshake. *)
Definition negotiateALPN (server client : list string) : option string :=
  match server, client with
  | [], _ | _, [] => Some ""%string
  | _, _ =>
      match List.find (fun s => existsb (String.eqb s) client) server with
      | Some s => Some s
      | None =>
          if existsb (String.eqb "h2") server && existsb (String.eqb "http/1.1") client then Some ""%string else None
      end
  end.

(** * Objects *)

(** A reference to an object main allocates, and the allocator. *)
Definition ref : Type := nat.
Definition heap : Type := nat.
Definition new (h : heap) : ref * heap := (h, S h).

(** The route table with its hooks: the tracker whose CutHost the quarantine hook
    calls, and the terminator whose Forget the retirement hook is. *)
Record TableObj := { to_ref : ref; to_table : Table; to_cut : option ref; to_forget : option ref }.

(** routetable.New and its setters, called with [func(host) { tracker.CutHost(host) }]
    and [th.Forget]. *)
Definition NewTable (r : ref) : TableObj := {| to_ref := r; to_table := New; to_cut := None; to_forget := None |}.
Definition TableOnQuarantine (t : TableObj) (tracker : ref) : TableObj :=
  {| to_ref := to_ref t; to_table := OnQuarantine (to_table t); to_cut := Some tracker; to_forget := to_forget t |}.
Definition TableOnRetired (t : TableObj) (th : ref) : TableObj :=
  {| to_ref := to_ref t; to_table := OnRetired (to_table t); to_cut := to_cut t; to_forget := Some th |}.

(** Who dials upstreams: the default, TCP, or DialUpstream of a tunnel.Dialer with
    its registry. *)
Inductive dial_func : Type := DialTCP | DialUpstream (registry : ref).

(** The syncer, the health server and the tunnel acceptor, by what they hold. *)
Record SyncerObj := { so_ref : ref; so_table : ref; so_url : string; so_interval : Z; so_token : string }.
Record HealthObj := { ho_table : ref; ho_syncer : ref }.
Record AcceptorObj := {
  ac_ref : ref; ac_tls : tls_config; ac_registry : ref;
  ac_mgmt : string * string               (* the URL and the token of its MgmtAuthorizer *)
}.

(** * Constructors *)

Section main.
Context `{GoUnicode} `{GoX509}.

(** terminate.Options; [o_Lookup] is the table whose Lookup it is. *)
Record Options := {
  o_TLSConfig : tls_config;
  o_DialTimeout : Z;
  o_IdleTimeout : Z;
  o_CACertPool : option CertPool;
  o_InsecureSkip : bool;
  o_CORSOrigins : list string;
  o_Lookup : option ref;
  o_Tracker : option ref;
  o_Dial : option dial_func;
}.

(** terminate.Handler: its settings, and the caches of ProxyCache. *)
Record TermHandler := {
  th_ref : ref;
  th_tlsConfig : tls_config;
  th_dialTimeout : Z;
  th_idleTimeout : Z;
  th_caCertPool : option CertPool;
  th_insecureSkip : bool;
  th_cors : Cors;
  th_lookup : option ref;
  th_tracker : option ref;
  th_dial : dial_func;
  th_caches : Handler;
}.

(** What Handle branches on. *)
Definition th_conf (th : TermHandler) : Terminate.handler_conf := {|
  Terminate.h_cors := th_cors th;
  Terminate.h_lookup := match th_lookup th with Some _ => true | None => false end |}.

(** terminate.New *)
Definition NewTerminator (r : ref) (opts : Options) : TermHandler := {|
  th_ref := r;
  th_tlsConfig := o_TLSConfig opts;
  th_dialTimeout := if o_DialTimeout opts =? 0 then 2000000000 else o_DialTimeout opts;
  th_idleTimeout := if o_IdleTimeout opts =? 0 then 300000000000 else o_IdleTimeout opts;
  th_caCertPool := o_CACertPool opts;
  th_insecureSkip := o_InsecureSkip opts;
  th_cors := cors_of (o_CORSOrigins opts);
  th_lookup := o_Lookup opts;
  th_tracker := o_Tracker opts;
  th_dial := default DialTCP (o_Dial opts);
  th_caches := {| proxies := ∅; muxPools := ∅ |};
|}.

(** proxy.Gateway. *)
Record ProxyGateway := {
  pg_table : ref;
  pg_bufferSize : Z;
  pg_terminator : option ref;
  pg_tunnels : option ref;
  pg_fallbackTLS : bool;
  pg_listenAddr : string;
  pg_dialTimeout : Z;
  pg_idleTimeout : Z;
  pg_tracker : option ref;
  pg_dial : dial_func;
}.

(** What handleConn branches on. *)
Definition pg_conf (g : ProxyGateway) : Proxy.Gateway := {|
  Proxy.bufferSize := pg_bufferSize g;
  Proxy.terminator := match pg_terminator g with Some _ => true | None => false end;
  Proxy.tunnels := match pg_tunnels g with Some _ => true | None => false end;
  Proxy.fallbackTLS := pg_fallbackTLS g |}.

(** proxy.New; [selfSigned] is whether selfSignedTLSConfig succeeded. *)
Definition NewGateway (selfSigned : bool) (table : ref) (listenAddr : string) (dialTimeout idleTimeout bufferSize : Z)
    (terminator : option ref) : ProxyGateway := {|
  pg_table := table; pg_bufferSize := bufferSize; pg_terminator := terminator; pg_tunnels := None;
  pg_fallbackTLS := selfSigned;
  pg_listenAddr := listenAddr; pg_dialTimeout := dialTimeout; pg_idleTimeout := idleTimeout;
  pg_tracker := None; pg_dial := DialTCP;
|}.

Definition SetTracker (g : ProxyGateway) (tracker : ref) : ProxyGateway := {|
  pg_table := pg_table g; pg_bufferSize := pg_bufferSize g; pg_terminator := pg_terminator g;
  pg_tunnels := pg_tunnels g; pg_fallbackTLS := pg_fallbackTLS g; pg_listenAddr := pg_listenAddr g;
  pg_dialTimeout := pg_dialTimeout g; pg_idleTimeout := pg_idleTimeout g; pg_tracker := Some tracker;
  pg_dial := pg_dial g |}.
Definition SetDialer (g : ProxyGateway) (d : dial_func) : ProxyGateway := {|
  pg_table := pg_table g; pg_bufferSize := pg_bufferSize g; pg_terminator := pg_terminator g;
  pg_tunnels := pg_tunnels g; pg_fallbackTLS := pg_fallbackTLS g; pg_listenAddr := pg_listenAddr g;
  pg_dialTimeout := pg_dialTimeout g; pg_idleTimeout := pg_idleTimeout g; pg_tracker := pg_tracker g;
  pg_dial := d |}.
Definition SetTunnelAcceptor (g : ProxyGateway) (acceptor : ref) : ProxyGateway := {|
  pg_table := pg_table g; pg_bufferSize := pg_bufferSize g; pg_terminator := pg_terminator g;
  pg_tunnels := Some acceptor; pg_fallbackTLS := pg_fallbackTLS g; pg_listenAddr := pg_listenAddr g;
  pg_dialTimeout := pg_dialTimeout g; pg_idleTimeout := pg_idleTimeout g; pg_tracker := pg_tracker g;
  pg_dial := pg_dial g |}.

(** * main *)

(** What main finds around it. *)
Record machine := {
  m_env : env;
  m_args : list string;
  m_disk : disk;                          (* tls.LoadX509KeyPair *)
  m_file : string → option string;        (* os.ReadFile *)
  m_pem : string → option CertPool;       (* a pool with the certificates of a PEM file, if any *)
  m_selfSigned : bool;
}.

Inductive fatal : Type :=
| FatalConfig (err : config_error)
| FatalCert (err : string)
| FatalReadCA
| FatalParseCA.

Record program := {
  p_cfg : Config;
  p_table : TableObj;
  p_tracker : ref;
  p_sync : SyncerObj;
  p_health : HealthObj;
  p_terminator : option (TermHandler * Resolver);
  p_acceptor : option AcceptorObj;
  p_gateway : ProxyGateway;
}.

Inductive outcome : Type :=
| Started (p : program)
| Fatal (f : fatal)
| Exit (code : Z).

(** The CA pool of -upstream-ca. *)
Definition ca_pool (m : machine) (path : string) : option CertPool + fatal :=
  if String.eqb path "" then inl None else
  match m_file m path with
  | None => inr FatalReadCA
  | Some caBytes => match m_pem m caBytes with Some pool => inl (Some pool) | None => inr FatalParseCA end
  end.

(** The terminate-mode handler, when a certificate is configured: with it the
    table gets its retirement hook, and the tunnels their acceptor. *)
Definition build_terminator (m : machine) (cfg : Config) (table : TableObj) (tracker tunnels : ref)
    (dialer : dial_func) (h : heap) : (TableObj * option (TermHandler * Resolver) * option AcceptorObj) + fatal :=
  if String.eqb (TLSCertPath cfg) "" then inl (table, None, None) else
  match NewLoader (TLSCertPath cfg) (TLSKeyPath cfg) (m_disk m) with
  | inr err => inr (FatalCert err)
  | inl loader =>
      match ca_pool m (UpstreamCA cfg) with
      | inr f => inr f
      | inl caPool =>
          let resolver := NewResolver (Some loader) in
          let '(r, h) := new h in
          let th := NewTerminator r {|
            o_TLSConfig := resolver_TLSConfig; o_DialTimeout := DialTimeout cfg; o_IdleTimeout := IdleTimeout cfg;
            o_CACertPool := caPool; o_InsecureSkip := match caPool with None => true | Some _ => false end;
            o_CORSOrigins := splitAndTrim (CORSOrigins cfg); o_Lookup := Some (to_ref table);
            o_Tracker := Some tracker; o_Dial := Some dialer |} in
          let table := TableOnRetired table r in
          let acceptor :=
            if Tunnels cfg then
              let '(a, h) := new h in
              Some {| ac_ref := a; ac_tls := acceptor_TLSConfig resolver_TLSConfig; ac_registry := tunnels;
                      ac_mgmt := (ManagementURL cfg, AuthToken cfg) |}
            else None in
          inl (table, Some (th, resolver), acceptor)
      end
  end.

Definition setup (m : machine) : outcome :=
  match Load (m_env m) (m_args m) with
  | Exited code => Exit code
  | LoadErr err => Fatal (FatalConfig err)
  | Loaded cfg =>
      let '(t, h) := new 0%nat in
      let table := NewTable t in
      let '(tracker, h) := new h in
      let table := TableOnQuarantine table tracker in
      let '(s, h) := new h in
      let syncer := {| so_ref := s; so_table := to_ref table;
        so_url := (ManagementURL cfg ++ "/api/v1/internal/routes")%string; so_interval := PollInterval cfg;
        so_token := AuthToken cfg |} in
      let healthSrv := {| ho_table := to_ref table; ho_syncer := so_ref syncer |} in
      let '(tunnels, h) := new h in
      let dialer := DialUpstream tunnels in
      match build_terminator m cfg table tracker tunnels dialer h with
      | inr f => Fatal f
      | inl (table, term, acceptor) =>
          let gw := NewGateway (m_selfSigned m) (to_ref table) (ListenAddr cfg) (DialTimeout cfg) (IdleTimeout cfg)
                      (BufferSize cfg) ((fun tr => th_ref tr.1) <$> term) in
          let gw := SetTracker gw tracker in
          let gw := SetDialer gw dialer in
          let gw := match acceptor with Some a => SetTunnelAcceptor gw (ac_ref a) | None => gw end in
          Started {|
            p_cfg := cfg; p_table := table; p_tracker := tracker; p_sync := syncer; p_health := healthSrv;
            p_terminator := term; p_acceptor := acceptor; p_gateway := gw |}
      end
  end.

(** * CORS origins *)

Lemma splitAndTrim_in s x :
  x ∈ splitAndTrim s ↔ x ≠ "" ∧ ∃ p, p ∈ SplitChar "," s ∧ x = TrimSpace p.
Proof.
  unfold splitAndTrim. destruct (String.eqb_spec s "") as [->|].
  { split; [by intros ?%not_elem_of_nil|]. intros (Hx & p & Hp & ->). simpl in Hp.
    apply list_elem_of_singleton in Hp as ->. by exfalso. }
  rewrite list_elem_of_In, in_flat_map. setoid_rewrite <- list_elem_of_In. split.
  - intros (p & Hp & Hx). cbv zeta in Hx. destruct (String.eqb_spec (TrimSpace p) ""); [by apply not_elem_of_nil in Hx|].
    apply list_elem_of_singleton in Hx as ->. eauto.
  - intros (Hx & p & Hp & ->). exists p. split; [done|]. cbv zeta.
    destruct (String.eqb_spec (TrimSpace p) ""); [done|]. set_solver.
Qed.

(** The origins given by -cors-origins: an origin is allowed exactly when it
    is not empty and one of the comma-separated entries allows it, white space
    around an entry ignored and empty entries skipped. *)
Theorem cors_configured s origin :
  isAllowedOrigin (cors_of (splitAndTrim s)) origin = true ↔
  origin ≠ "" ∧ ∃ entry, entry ∈ SplitChar "," s ∧ entry_allows entry origin (originHost origin).
Proof.
  rewrite isAllowedOrigin_list. unfold entry_allows. split.
  - intros [Ho (x & (Hx & p & Hp & ->)%splitAndTrim_in & Ht)]. rewrite TrimSpace_idem in Ht. eauto.
  - intros [Ho (p & Hp & Hne & Ha)]. split; [done|]. exists (TrimSpace p). rewrite TrimSpace_idem, splitAndTrim_in.
    split; [|done]. split; [done|]. by exists p.
Qed.

(** * What main builds *)

Lemma build_terminator_spec m cfg table tracker tunnels dialer h table' term acceptor :
  build_terminator m cfg table tracker tunnels dialer h = inl (table', term, acceptor) →
  match term with
  | None => TLSCertPath cfg = "" ∧ table' = table ∧ acceptor = None
  | Some (th, r) => TLSCertPath cfg ≠ "" ∧ table' = TableOnRetired table (th_ref th) ∧
      th_cors th = cors_of (splitAndTrim (CORSOrigins cfg)) ∧ th_lookup th = Some (to_ref table) ∧
      th_tracker th = Some tracker ∧ th_dial th = dialer ∧
      th_dialTimeout th ≠ 0 ∧ th_idleTimeout th ≠ 0 ∧
      ca_pool m (UpstreamCA cfg) = inl (th_caCertPool th) ∧
      (th_insecureSkip th = true ↔ UpstreamCA cfg = "") ∧
      (∃ l c, r = NewResolver (Some l) ∧ NewLoader (TLSCertPath cfg) (TLSKeyPath cfg) (m_disk m) = inl l ∧
        LoaderGetCertificate l = inl c) ∧
      match acceptor with
      | None => Tunnels cfg = false
      | Some a => Tunnels cfg = true ∧ ac_registry a = tunnels ∧ ac_mgmt a = (ManagementURL cfg, AuthToken cfg)
      end
  end.
Proof.
  unfold build_terminator. destruct (String.eqb_spec (TLSCertPath cfg) "") as [|Hc]; [by intros [= <- <- <-]|].
  pose proof (loader_last_good (TLSCertPath cfg) (TLSKeyPath cfg) (m_disk m) []) as Hl.
  destruct (m_disk m (TLSCertPath cfg) (TLSKeyPath cfg)) as [c0|err]; [|by rewrite Hl].
  destruct Hl as (l & Hl & c & _ & Hg). rewrite Hl.
  destruct (ca_pool m (UpstreamCA cfg)) as [pool|] eqn:Ep; [|done]. cbn [new]. intros [= <- <- <-]. simpl.
  assert (Hskip : pool = None ↔ UpstreamCA cfg = "").
  { unfold ca_pool in Ep. destruct (String.eqb_spec (UpstreamCA cfg) ""); [by injection Ep as <-|].
    destruct (m_file m _); [|done]. destruct (m_pem m _); [|done]. by injection Ep as <-. }
  split_and!; try done; [by destruct (Z.eqb_spec (DialTimeout cfg) 0)|by destruct (Z.eqb_spec (IdleTimeout cfg) 0)| |eauto|].
  - destruct pool; naive_solver.
  - by destruct (Tunnels cfg).
Qed.

(** The configuration of the terminator handleConn runs with (of no use
    without one). *)
Definition term_conf (p : program) : Terminate.handler_conf :=
  match p_terminator p with
  | Some (th, _) => th_conf th
  | None => {| Terminate.h_cors := cors_of []; Terminate.h_lookup := true |}
  end.

(** What a started program is made of. *)
Record wired (p : program) : Prop := {
  w_acceptable : acceptable (p_cfg p);
  (* one table: the one that is polled is the one looked up and reported *)
  w_table : so_table (p_sync p) = to_ref (p_table p) ∧ ho_table (p_health p) = to_ref (p_table p) ∧
    ho_syncer (p_health p) = so_ref (p_sync p) ∧ pg_table (p_gateway p) = to_ref (p_table p);
  (* one tracker: the one the cuts close is the one traffic is registered with *)
  w_tracker : to_cut (p_table p) = Some (p_tracker p) ∧ pg_tracker (p_gateway p) = Some (p_tracker p);
  (* one terminator: the one connections go to is the one told of retired routes *)
  w_terminator : pg_terminator (p_gateway p) = (fun tr => th_ref tr.1) <$> p_terminator p ∧
    to_forget (p_table p) = (fun tr => th_ref tr.1) <$> p_terminator p;
  w_hooks : to_table (p_table p) = wired_table (Proxy.terminator (pg_conf (p_gateway p)));
  w_cert : is_Some (p_terminator p) ↔ TLSCertPath (p_cfg p) ≠ "";
  (* one registry: both paths dial through the tunnels that are accepted *)
  w_registry : ∃ reg, pg_dial (p_gateway p) = DialUpstream reg ∧
    (∀ th r, p_terminator p = Some (th, r) → th_dial th = DialUpstream reg) ∧
    (∀ a, p_acceptor p = Some a → ac_registry a = reg ∧ ac_mgmt a = (ManagementURL (p_cfg p), AuthToken (p_cfg p)));
  w_tunnels : pg_tunnels (p_gateway p) = ac_ref <$> p_acceptor p ∧ (is_Some (p_acceptor p) ↔ Tunnels (p_cfg p) = true);
  w_gateway : pg_bufferSize (p_gateway p) = BufferSize (p_cfg p) ∧ pg_listenAddr (p_gateway p) = ListenAddr (p_cfg p) ∧
    so_token (p_sync p) = AuthToken (p_cfg p) ∧ so_interval (p_sync p) = PollInterval (p_cfg p);
  w_handler : ∀ th r, p_terminator p = Some (th, r) →
    th_lookup th = Some (to_ref (p_table p)) ∧ th_tracker th = Some (p_tracker p) ∧
    th_cors th = cors_of (splitAndTrim (CORSOrigins (p_cfg p))) ∧
    th_dialTimeout th ≠ 0 ∧ th_idleTimeout th ≠ 0 ∧
    (th_insecureSkip th = true ↔ UpstreamCA (p_cfg p) = "") ∧
    ∃ l c, r = NewResolver (Some l) ∧ LoaderGetCertificate l = inl c;
}.

Lemma Load_acceptable m cfg : Load (m_env m) (m_args m) = Loaded cfg → acceptable cfg.
Proof.
  unfold Load. destruct (flag_parse _ _) as [fs|[]]; try done. intros El.
  pose proof (checked_spec (config_of fs)) as Hc. rewrite El in Hc. by destruct Hc as [-> ?].
Qed.

Lemma setup_wired m p : setup m = Started p → wired p.
Proof.
  unfold setup. destruct (Load (m_env m) (m_args m)) as [cfg| |] eqn:El; [|done..].
  pose proof (Load_acceptable m cfg El) as Hacc. cbn [new].
  destruct (build_terminator _ _ _ _ _ _ _) as [[[table term] acceptor]|] eqn:Eb; [|done].
  apply build_terminator_spec in Eb. intros [= <-]. pose proof Hacc as (_ & Htun & _).
  destruct term as [[th r]|].
  - destruct Eb as (Hc & -> & Hcors & Hlook & Ht & Hd & H1 & H2 & _ & Hs & (l & c & -> & _ & Hl) & Ha).
    split; simpl; try (by destruct acceptor).
    + eexists. split; [by destruct acceptor|]. split; [by intros th' r' [= <- <-]|]. intros a ->. by destruct Ha as (_ & -> & ->).
    + destruct acceptor as [a|]; [destruct Ha as [Ha _]|]; by rewrite Ha.
    + intros th' r' [= <- <-]. split_and!; try done. eauto.
  - destruct Eb as (Hc & -> & ->).
    assert (Tunnels cfg = false) as Et by (destruct (Tunnels cfg); [by destruct Htun|done]).
    split; simpl; rewrite ?Et; try done; try (split; [|done]; by intros [? ?]).
    eexists. by split_and!.
Qed.

Lemma term_conf_live p : wired p → Terminate.h_lookup (term_conf p) = true.
Proof.
  intros Hw. unfold term_conf. destruct (p_terminator p) as [[th r]|] eqn:E; [|done].
  destruct (w_handler p Hw th r E) as (Hl & _). unfold th_conf. by rewrite Hl.
Qed.

(** C32: A program that starts is wired for the quarantine.  There is one route
    table: the syncer updates it, the splicer and the terminator look it up, and
    the health server reports it.  There is one tracker: its quarantine hook cuts
    what the splicer and the terminator register.  Retired routes are forgotten by
    the terminator connections go to, and both paths dial through the registry the
    tunnel acceptor fills.  Terminate mode is on exactly when a certificate is
    configured, and then one is loaded; tunnels are accepted exactly when they are
    enabled, which needs a certificate; chain validation of enclaves is skipped
    exactly when no CA is configured; timeouts are not zero, and the CORS rules
    are those of the configuration. *)
Theorem setup_started m p : setup m = Started p → wired p.
Proof. apply setup_wired. Qed.

(** * ALPN *)

(** The server protocols of the two kinds of terminated connection: a
    connection handleConn hands to the tunnel acceptor negotiates the tunnel
    protocol, and a terminated one never negotiates ACME's challenge protocol. *)
Theorem alpn_negotiated base alpns :
  (Sni.HasALPN alpns Proxy.ALPN = true →
   negotiateALPN (NextProtos (acceptor_TLSConfig base)) alpns = Some Proxy.ALPN) ∧
  negotiateALPN (NextProtos resolver_TLSConfig) alpns ≠ Some Terminate.acmeALPNProto.
Proof.
  split.
  - rewrite Sni.HasALPN_spec. intros Hin. destruct alpns as [|a alpns]; [by apply not_elem_of_nil in Hin|].
    unfold negotiateALPN, acceptor_TLSConfig. cbn [NextProtos List.find].
    assert (existsb (String.eqb Proxy.ALPN) (a :: alpns) = true) as ->; [|done].
    apply existsb_exists. exists Proxy.ALPN. split; [by apply list_elem_of_In|]. apply String.eqb_refl.
  - unfold negotiateALPN, resolver_TLSConfig. cbn [NextProtos List.find]. destruct alpns as [|a alpns]; [done|].
    by destruct (existsb _ _).
Qed.

End main.

(** * The running program *)

Section running.
Context `{GoUnicode} `{GoRange} `{GoSort} `{GoRoutesJSON} `{GoJSON} `{GoURL} `{GoX509}.
Context `{!GoUnicodeLaws} `{!GoRangeLaws}.

(** Every gateway main starts, under every configuration and any traffic:
    once the cuts of the last update are made, a connection about to exchange bytes
    with an enclave under a server name the table says is quarantined has been
    closed (or its host had left the table before). *)
Theorem started_gateway_cuts m p s c t o k :
  setup m = Started p →
  sys_reachable (pg_conf (p_gateway p)) (term_conf p) NewTracker s → hook_hosts (s_pending s) = [] →
  s_threads s !! c = Some t → t_prog t = PDo o k → touches o = true →
  quarantined_now (s_table s) (t_name t) = true →
  c ∈ s_closed s ∨ ToLower (t_name t) ∈ s_gone s.
Proof.
  intros Hm. assert (ht_wf NewTracker) as Hwf by apply NewTracker_wf.
  exact (quarantined_is_cut (pg_conf (p_gateway p)) (term_conf p) (term_conf_live p (setup_wired m p Hm)) NewTracker s c t o k Hwf).
Qed.
End running.

(** * A concrete start *)

Section witnesses.
Import RouteTableExamples.
#[local] Existing Instances ex_sys_decoder ex_sys_json ex_sys_url.

Definition ex_no_x509 : GoX509 := {|
  certificate := unit; ParseCertificate _ := None; Extensions _ := []; CertPool := unit; chain_ok _ _ _ := false |}.
#[local] Existing Instance ex_no_x509.

Definition ex_machine : machine := {|
  m_env := ex_getenv; m_args := map assignment (render ex_cfg); m_disk := ex_disk (inl ex_cert);
  m_file _ := None; m_pem _ := None; m_selfSigned := true |}.
Definition ex_program : program :=
  match setup ex_machine with Started p => p | _ => {|
    p_cfg := ex_cfg; p_table := NewTable 0%nat; p_tracker := 0%nat;
    p_sync := {| so_ref := 0%nat; so_table := 0%nat; so_url := ""; so_interval := 0; so_token := "" |};
    p_health := {| ho_table := 0%nat; ho_syncer := 0%nat |}; p_terminator := None; p_acceptor := None;
    p_gateway := NewGateway false 0%nat "" 0 0 0 None |} end.

Lemma ex_started : setup ex_machine = Started ex_program.
Proof. vm_compute. reflexivity. Qed.

Lemma setup_started_witness :
  to_cut (p_table ex_program) = pg_tracker (p_gateway ex_program) ∧
  to_cut (p_table ex_program) = (p_terminator ex_program ≫= fun tr => th_tracker tr.1) ∧
  is_Some (p_acceptor ex_program).
Proof.
  destruct (setup_started ex_machine ex_program ex_started) as [_ _ [Hc Hg] _ _ _ _ [_ Ht] _ Hh].
  split; [rewrite Hc, Hg; reflexivity|]. split; [|apply Ht; vm_compute; reflexivity].
  destruct (p_terminator ex_program) as [[th r]|] eqn:E; [|vm_compute in E; discriminate].
  destruct (Hh th r eq_refl) as (_ & Htr & _). rewrite Hc. simpl. rewrite Htr. reflexivity.
Defined.

Definition ex_main_run (es : list sys_event) : system Tracker :=
  let s0 := sys_initial true "t=1" NewTracker in
  match sys_exec_all (pg_conf (p_gateway ex_program)) (term_conf ex_program) s0 es with Some s => s | None => s0 end.

Lemma ex_main_reachable es : sys_reachable (pg_conf (p_gateway ex_program)) (term_conf ex_program) NewTracker (ex_main_run es).
Proof.
  unfold ex_main_run. destruct (sys_exec_all _ _ _ es) eqn:E; [|constructor].
  eapply sys_exec_reachable; [constructor|done].
Qed.

Lemma started_gateway_cuts_witness : 7%nat ∈ s_closed (ex_main_run (ex_held ++ replicate 3 SysHook)).
Proof.
  set (s := ex_main_run (ex_held ++ replicate 3 SysHook)).
  assert (E : next_op s 7 = Some ("a.apps.privasys.org"%string, Connection.GP Proxy.OSplice)) by (vm_compute; reflexivity).
  assert (Hp : hook_hosts (s_pending s) = []) by (vm_compute; reflexivity).
  assert (Hq : quarantined_now (s_table s) "a.apps.privasys.org" = true) by (vm_compute; reflexivity).
  assert (Hg : ToLower "a.apps.privasys.org" ∉ s_gone s) by (apply (bool_decide_unpack _); vm_compute; exact I).
  assert (Hr : sys_reachable (pg_conf (p_gateway ex_program)) (term_conf ex_program) NewTracker s)
    by apply ex_main_reachable.
  clearbody s. destruct (next_op_Some s 7 _ _ E) as (t & k & Hc & Hk & Hn). rewrite <- Hn in Hq, Hg.
  destruct (started_gateway_cuts ex_machine ex_program s 7 t _ k ex_started Hr Hp Hc Hk eq_refl Hq) as [Hin|Hin].
  - exact Hin.
  - destruct (Hg Hin).
Defined.

Lemma alpn_negotiated_witness :
  negotiateALPN (NextProtos (acceptor_TLSConfig resolver_TLSConfig)) ["h2"; Proxy.ALPN]%string = Some Proxy.ALPN.
Proof. apply (alpn_negotiated resolver_TLSConfig ["h2"; Proxy.ALPN]%string). vm_compute. reflexivity. Defined.

End witnesses.
