(* ===== verification/GoJson.v ===== *)
(** Package encoding/json as the gateway uses it: the encoder of strings,
    numbers, arrays and objects, the reader of documents, and the decoding of a
    document into the fields of a struct.

    A Go string is a sequence of bytes; the encoder writes bytes that are not
    UTF-8 as the replacement character, the reader does the same, and both are
    shown to agree ([parse_encode]): a document that was written reads back, with
    [to_valid] applied to its strings. *)
From Stdlib Require Import Strings.Ascii Strings.String.
From stdpp Require Import pretty.
From S2P Require Import Prelude GoBytes GoStrings GoRuntime GoFlag.
Local Open Scope string_scope.

(** * UTF-8 *)

Definition within (lo hi : nat) (c : ascii) : bool := (lo <=? char_code c)%nat && (char_code c <=? hi)%nat.
Definition continues (c : ascii) : bool := within 128 191 c.

(** The second bytes utf8 accepts after a first byte of a three-byte and of a
    four-byte encoding. *)
Definition second3 (c c1 : ascii) : bool :=
  (within 224 224 c && within 160 191 c1) || (within 225 236 c && continues c1) ||
  (within 237 237 c && within 128 159 c1) || (within 238 239 c && continues c1).
Definition second4 (c c1 : ascii) : bool :=
  (within 240 240 c && within 144 191 c1) || (within 241 243 c && continues c1) ||
  (within 244 244 c && within 128 143 c1).

(** utf8.DecodeRuneInString: the width of a valid encoding at the head, [None]
    where Go gives RuneError with width one (and for the empty string). *)
Definition rune_width (s : string) : option nat :=
  match s with
  | EmptyString => None
  | String c s1 =>
      if (char_code c <? 128)%nat then Some 1%nat else
      match s1 with
      | EmptyString => None
      | String c1 s2 =>
          if within 194 223 c && continues c1 then Some 2%nat else
          match s2 with
          | EmptyString => None
          | String c2 s3 =>
              if second3 c c1 && continues c2 then Some 3%nat else
              match s3 with
              | EmptyString => None
              | String c3 _ =>
                  if second4 c c1 && continues c2 && continues c3 then Some 4%nat else None
              end
          end
      end
  end.

(** The encoding of U+FFFD. *)
Definition replacement : string := chars [239; 191; 189]%nat.

(** The bytes that are not part of a valid encoding, replaced. *)
Fixpoint to_valid_go (fuel : nat) (s : string) : string :=
  match fuel, s with
  | S f, String _ s' =>
      match rune_width s with
      | Some n => stake n s ++ to_valid_go f (sdrop n s)
      | None => replacement ++ to_valid_go f s'
      end
  | _, _ => ""
  end.
Definition to_valid (s : string) : string := to_valid_go (String.length s) s.

(** utf8.ValidString *)
Definition valid_utf8 (s : string) : bool := String.eqb (to_valid s) s.

(** utf8.AppendRune, of a rune below 0x110000. *)
Definition encode_rune (r : Z) : string :=
  let b z := ascii_of_nat (Z.to_nat z) in
  (if r <? 128 then String (b r) ""
   else if r <? 2048 then String (b (192 + r / 64)) (String (b (128 + r mod 64)) "")
   else if (55296 <=? r) && (r <=? 57343) then replacement
   else if r <? 65536 then
     String (b (224 + r / 4096)) (String (b (128 + r / 64 mod 64)) (String (b (128 + r mod 64)) ""))
   else String (b (240 + r / 262144)) (String (b (128 + r / 4096 mod 64))
     (String (b (128 + r / 64 mod 64)) (String (b (128 + r mod 64)) ""))))%Z.

(** * Writing strings *)

Definition backslash : ascii := ascii_of_nat 92.
Definition quotation : ascii := ascii_of_nat 34.

(** appendString on one byte below 0x80, HTML characters escaped. *)
Definition escape_char (c : ascii) : string :=
  let n := char_code c in
  if (n =? 92)%nat || (n =? 34)%nat then String backslash (String c "")
  else if (n =? 8)%nat then String backslash "b"
  else if (n =? 12)%nat then String backslash "f"
  else if (n =? 10)%nat then String backslash "n"
  else if (n =? 13)%nat then String backslash "r"
  else if (n =? 9)%nat then String backslash "t"
  else if (n <? 32)%nat || (n =? 38)%nat || (n =? 60)%nat || (n =? 62)%nat
  then String backslash ("u00" ++ hex_byte (Z.of_nat n))
  else String c "".

(** U+2028 and U+2029, which are escaped although they are valid. *)
Definition line_separator (s : string) : option string :=
  if HasPrefix s (chars [226; 128; 168]%nat) then Some (String backslash "u2028")
  else if HasPrefix s (chars [226; 128; 169]%nat) then Some (String backslash "u2029")
  else None.

Fixpoint escape_go (fuel : nat) (s : string) : string :=
  match fuel, s with
  | S f, String c s' =>
      if (char_code c <? 128)%nat then escape_char c ++ escape_go f s' else
      match rune_width s with
      | None => String backslash "ufffd" ++ escape_go f s'
      | Some n =>
          (match line_separator s with Some e => e | None => stake n s end) ++ escape_go f (sdrop n s)
      end
  | _, _ => ""
  end.
Definition escape (s : string) : string := escape_go (String.length s) s.
Definition quote (s : string) : string := String quotation (escape s ++ String quotation "").

(** * Reading strings *)

(** The text of a string literal after its opening quotation mark, and what
    follows its closing one. *)
Fixpoint scan_string (s : string) : option (string * string) :=
  match s with
  | EmptyString => None
  | String c r =>
      if Ascii.eqb c quotation then Some ("", r)
      else if Ascii.eqb c backslash then
        match r with
        | EmptyString => None
        | String e r' =>
            match scan_string r' with Some (raw, rest) => Some (String c (String e raw), rest) | None => None end
        end
      else match scan_string r with Some (raw, rest) => Some (String c raw, rest) | None => None end
  end.

(** The four hexadecimal digits of an escape. *)
Definition hex4 (s : string) : option Z :=
  if (String.length s <? 4)%nat then None else parse_hex_from 0 (stake 4 s).

Definition is_surrogate (r : Z) : bool := (55296 <=? r)%Z && (r <? 57344)%Z.

(** The second half of a surrogate pair, as an escape at the head of the text;
    with [utf16.DecodeRune] of both. *)
Definition low_surrogate (hi : Z) (s : string) : option Z :=
  match s with
  | String c (String e r) =>
      if Ascii.eqb c backslash && Ascii.eqb e "u"%char then
        match hex4 r with
        | Some lo =>
            if (hi <? 56320)%Z && (56320 <=? lo)%Z && (lo <? 57344)%Z
            then Some ((hi - 55296) * 1024 + (lo - 56320) + 65536)%Z else None
        | None => None
        end
      else None
  | _ => None
  end.

Definition simple_escape (e : ascii) : option ascii :=
  let n := char_code e in
  if (n =? 34)%nat || (n =? 92)%nat || (n =? 47)%nat then Some e
  else if (n =? 98)%nat then Some (ascii_of_nat 8)
  else if (n =? 102)%nat then Some (ascii_of_nat 12)
  else if (n =? 110)%nat then Some (ascii_of_nat 10)
  else if (n =? 114)%nat then Some (ascii_of_nat 13)
  else if (n =? 116)%nat then Some (ascii_of_nat 9)
  else None.

Definition prepend (p : string) (o : option string) : option string :=
  match o with Some s => Some (p ++ s) | None => None end.

(** unquote, of the text between the quotation marks. *)
Fixpoint unquote_go (fuel : nat) (raw : string) : option string :=
  match raw with
  | EmptyString => Some ""
  | String c r =>
      match fuel with
      | O => None
      | S f =>
          if Ascii.eqb c backslash then
            match r with
            | EmptyString => None
            | String e r' =>
                if Ascii.eqb e "u"%char then
                  match hex4 r' with
                  | None => None
                  | Some v =>
                      let r2 := sdrop 4 r' in
                      if is_surrogate v then
                        match low_surrogate v r2 with
                        | Some full => prepend (encode_rune full) (unquote_go f (sdrop 6 r2))
                        | None => prepend replacement (unquote_go f r2)
                        end
                      else prepend (encode_rune v) (unquote_go f r2)
                  end
                else match simple_escape e with
                     | Some x => prepend (String x "") (unquote_go f r')
                     | None => None
                     end
            end
          else if Ascii.eqb c quotation || (char_code c <? 32)%nat then None
          else match rune_width raw with
               | Some n => prepend (stake n raw) (unquote_go f (sdrop n raw))
               | None => prepend replacement (unquote_go f r)
               end
      end
  end.
Definition unquote (raw : string) : option string := unquote_go (String.length raw) raw.

(** ** The reader undoes the writer *)

Lemma rune_width_range s n : rune_width s = Some n → (1 <= n <= String.length s)%nat.
Proof.
  unfold rune_width. intros Hw. repeat (case_match; try done); simplify_eq; simpl; lia.
Qed.

Lemma stake_sdrop n s : stake n s ++ sdrop n s = s.
Proof. revert s. induction n as [|n IH]; intros [|c s]; [done..|]. cbn [stake sdrop]. by rewrite sapp_cons, IH. Qed.

Lemma length_sdrop n s : String.length (sdrop n s) = (String.length s - n)%nat.
Proof. revert s. induction n as [|n IH]; intros [|c s]; cbn [sdrop String.length]; [done..|]. by rewrite IH. Qed.

(** A valid encoding is recognised whatever follows it, and its bytes are all
    below or all above 0x80. *)
Lemma rune_width_local s n r :
  rune_width s = Some n →
  rune_width (stake n s ++ r) = Some n ∧
  (n = 1%nat ∨ sall (fun c => (128 <=? char_code c)%nat) (stake n s) = true).
Proof.
  assert (Hhi : ∀ lo hi c, (128 <= lo)%nat → within lo hi c = true → (128 <=? char_code c)%nat = true).
  { unfold within. intros lo hi c Hlo [H _]%andb_true_iff. apply Nat.leb_le in H. apply Nat.leb_le. lia. }
  unfold rune_width. destruct s as [|c s1]; [done|].
  destruct (char_code c <? 128)%nat eqn:E0.
  { intros [= <-]. cbn [stake]. rewrite sapp_cons. rewrite E0. auto. }
  assert (H0 : (128 <=? char_code c)%nat = true) by (rewrite Nat.leb_antisym, E0; done).
  destruct s1 as [|c1 s2]; [done|]. destruct (within 194 223 c && continues c1) eqn:E1.
  { intros [= <-]. apply andb_true_iff in E1 as [A1 A2]. cbn [stake]. rewrite !sapp_cons. rewrite E0, A1, A2.
    split; [done|]. right. cbn [sall]. rewrite H0, (Hhi 128 191 c1)%nat by (done || lia). done. }
  destruct s2 as [|c2 s3]; [done|]. destruct (second3 c c1 && continues c2) eqn:E2.
  { intros [= <-]. cbn [stake]. rewrite !sapp_cons. rewrite E0, E1, E2. split; [done|]. right.
    apply andb_true_iff in E2 as [A1 A2]. cbn [sall]. rewrite H0, (Hhi 128 191 c2)%nat, andb_true_r by (done || lia).
    unfold second3, continues in A1. rewrite !orb_true_iff, !andb_true_iff in A1.
    destruct A1 as [[[[_ A1]|[_ A1]]|[_ A1]]|[_ A1]]; (eapply Hhi in A1; [by rewrite A1|lia]). }
  destruct s3 as [|c3 s4]; [done|]. destruct (second4 c c1 && continues c2 && continues c3) eqn:E3; [|done].
  intros [= <-]. cbn [stake]. rewrite !sapp_cons. rewrite E0, E1, E2, E3. split; [done|]. right.
  apply andb_true_iff in E3 as [[A1 A2]%andb_true_iff A3]. cbn [sall].
  rewrite H0, (Hhi 128 191 c2)%nat, (Hhi 128 191 c3)%nat by (done || lia).
  unfold second4, continues in A1. rewrite !orb_true_iff, !andb_true_iff in A1.
  destruct A1 as [[[_ A1]|[_ A1]]|[_ A1]]; (eapply Hhi in A1; [by rewrite A1|lia]).
Qed.

(** A piece of a literal: it does not end it, and one step of the reader turns
    it into [d]. *)
Definition piece (p d : string) : Prop :=
  p ≠ "" ∧
  (∀ x, scan_string (p ++ x) = match scan_string x with Some (w, r) => Some (p ++ w, r) | None => None end) ∧
  (∀ f x, unquote_go (S f) (p ++ x) = prepend d (unquote_go f x)).

Lemma scan_nil x :
  scan_string ("" ++ x) = match scan_string x with Some (w, r) => Some ("" ++ w, r) | None => None end.
Proof. rewrite sapp_nil_l. by destruct (scan_string x) as [[??]|]. Qed.

Lemma scan_plain p x :
  sall (fun c => (128 <=? char_code c)%nat) p = true →
  scan_string (p ++ x) = match scan_string x with Some (w, r) => Some (p ++ w, r) | None => None end.
Proof.
  induction p as [|c p IH]; [intros _; apply scan_nil|]. cbn [sall]. intros [Hc Hp]%andb_true_iff.
  rewrite sapp_cons. cbn [scan_string].
  assert (Ascii.eqb c quotation = false ∧ Ascii.eqb c backslash = false) as [-> ->].
  { split; apply Ascii.eqb_neq; intros ->; vm_compute in Hc; discriminate. }
  rewrite IH by done. by destruct (scan_string x) as [[??]|].
Qed.

Lemma escape_char_piece c : (char_code c <? 128)%nat = true → piece (escape_char c) (String c "").
Proof.
  intros Hc. split_and!.
  - destruct c as [[] [] [] [] [] [] [] []]; try discriminate Hc; discriminate.
  - intros x. destruct c as [[] [] [] [] [] [] [] []]; try discriminate Hc;
      (match goal with |- context [escape_char ?c] =>
         let e := eval vm_compute in (escape_char c) in change (escape_char c) with e end;
       rewrite ?sapp_cons, ?sapp_nil_l; simpl; by destruct (scan_string x) as [[??]|]).
  - intros f x. destruct c as [[] [] [] [] [] [] [] []]; try discriminate Hc; reflexivity.
Qed.

Lemma escaped_piece e d : (e, d) ∈ [("ufffd", replacement); ("u2028", chars [226; 128; 168]%nat);
  ("u2029", chars [226; 128; 169]%nat)] → piece (String backslash e) d.
Proof.
  intros He. repeat (apply elem_of_cons in He as [[= -> ->]|He]); [..|by apply not_elem_of_nil in He];
    (split_and!; [done|intros x; rewrite ?sapp_cons, ?sapp_nil_l; simpl; by destruct (scan_string x) as [[??]|]|reflexivity]).
Qed.

Lemma rune_piece s n :
  rune_width s = Some n → sall (fun c => (128 <=? char_code c)%nat) (stake n s) = true →
  piece (stake n s) (stake n s).
Proof.
  intros Hw Hall. pose proof (rune_width_range s n Hw) as Hr. split_and!.
  - intros E. apply (f_equal String.length) in E. rewrite length_stake in E by lia. simpl in E. lia.
  - intros x. by apply scan_plain.
  - intros f x. destruct (rune_width_local s n x Hw) as [Hl _].
    assert (sdrop n (stake n s ++ x) = x ∧ stake n (stake n s ++ x) = stake n s) as [Hd Ht].
    { pose proof (length_stake n s ltac:(lia)) as Hls. rewrite <- Hls at 1 3. split; [|by rewrite stake_app].
      rewrite <- (Nat.add_0_r (String.length (stake n s))). by rewrite sdrop_app. }
    destruct (stake n s ++ x) as [|c r] eqn:E.
    { destruct (stake n s) eqn:E'; [|done]. apply (f_equal String.length) in E'. rewrite length_stake in E' by lia.
      simpl in E'. lia. }
    cbn [unquote_go]. rewrite Hl, Hd, Ht.
    assert ((128 <=? char_code c)%nat = true) as Hc.
    { destruct (stake n s) as [|c' q] eqn:E'.
      - apply (f_equal String.length) in E'. rewrite length_stake in E' by lia. simpl in E'. lia.
      - rewrite sapp_cons in E. injection E as -> _. cbn [sall] in Hall. by apply andb_true_iff in Hall as [? _]. }
    assert (Ascii.eqb c backslash = false ∧ Ascii.eqb c quotation = false ∧ (char_code c <? 32)%nat = false) as (-> & -> & ->).
    { split_and!; [apply Ascii.eqb_neq; intros ->; vm_compute in Hc; discriminate..|]. apply Nat.ltb_ge. apply Nat.leb_le in Hc. lia. }
    done.
Qed.

Lemma line_separator_spec s e :
  line_separator s = Some e → rune_width s = Some 3%nat ∧ piece e (stake 3 s).
Proof.
  unfold line_separator. intros Hs.
  destruct (HasPrefix s (chars [226; 128; 168]%nat)) eqn:E1;
    [|destruct (HasPrefix s (chars [226; 128; 169]%nat)) eqn:E2; [|done]];
    injection Hs as <-; [apply HasPrefix_spec in E1 as [r ->]|apply HasPrefix_spec in E2 as [r ->]];
    (split; [reflexivity|]); apply escaped_piece; set_solver.
Qed.

(** What the writer makes of a string is a sequence of pieces. *)
Lemma escape_pieces f s :
  (String.length s <= f)%nat →
  (∀ x, scan_string (escape_go f s ++ x) = match scan_string x with Some (w, r) => Some (escape_go f s ++ w, r) | None => None end) ∧
  (∀ g, (String.length (escape_go f s) <= g)%nat → unquote_go g (escape_go f s) = Some (to_valid_go f s)).
Proof.
  assert (Hpiece : ∀ p d e v, piece p d →
    (∀ x, scan_string (e ++ x) = match scan_string x with Some (w, r) => Some (e ++ w, r) | None => None end) ∧
    (∀ g, (String.length e <= g)%nat → unquote_go g e = Some v) →
    (∀ x, scan_string ((p ++ e) ++ x) = match scan_string x with Some (w, r) => Some ((p ++ e) ++ w, r) | None => None end) ∧
    (∀ g, (String.length (p ++ e) <= g)%nat → unquote_go g (p ++ e) = Some (d ++ v))).
  { intros p d e v (Hne & Hs & Hu) [Is Iu]. split.
    - intros x. rewrite sapp_assoc, Hs, Is. destruct (scan_string x) as [[??]|]; [|done]. by rewrite sapp_assoc.
    - intros g Hg. rewrite slength_app in Hg. destruct p as [|c p]; [done|]. simpl in Hg. destruct g as [|g]; [lia|].
      rewrite Hu, Iu by lia. done. }
  revert s. induction f as [|f IH]; intros s Hf.
  - destruct s; [|simpl in Hf; lia]. split; [apply scan_nil|by intros [|?]].
  - destruct s as [|c s]; [split; [apply scan_nil|by intros [|?]]|].
    cbn [escape_go to_valid_go]. simpl in Hf. destruct (char_code c <? 128)%nat eqn:Ec.
    + assert (rune_width (String c s) = Some 1%nat) as -> by (unfold rune_width; by rewrite Ec).
      apply Hpiece; [by apply escape_char_piece|]. apply (IH s). lia.
    + destruct (rune_width (String c s)) as [n|] eqn:Ew.
      * pose proof (rune_width_range _ _ Ew) as Hn. pose proof (length_sdrop n (String c s)) as Hl.
        apply Hpiece; [|apply IH; simpl in *; lia]. destruct (line_separator (String c s)) as [e|] eqn:El.
        -- apply line_separator_spec in El as [E3 He]. rewrite Ew in E3. by injection E3 as ->.
        -- apply rune_piece; [done|]. destruct (rune_width_local _ _ "" Ew) as [_ [->|?]]; [|done].
           cbn [stake sall]. rewrite andb_true_r. apply Nat.leb_le. apply Nat.ltb_ge in Ec. lia.
      * apply Hpiece; [by apply escaped_piece; set_solver|]. apply IH. lia.
Qed.

(** A string that was quoted is read back, with its invalid bytes replaced. *)
Lemma unquote_quote s rest :
  scan_string (escape s ++ String quotation rest) = Some (escape s, rest) ∧ unquote (escape s) = Some (to_valid s).
Proof.
  destruct (escape_pieces (String.length s) s) as [Hs Hu]; [done|]. split; [|by apply Hu].
  unfold escape. rewrite Hs. cbn [scan_string]. change (Ascii.eqb quotation quotation) with true. cbv iota.
  by rewrite sapp_nil_r.
Qed.

Lemma valid_utf8_eq s : valid_utf8 s = true → to_valid s = s.
Proof. apply String.eqb_eq. Qed.

Lemma ascii_valid s : is_ascii s = true → to_valid s = s.
Proof.
  unfold to_valid, is_ascii. induction s as [|c s IH]; [done|]. cbn [sall]. intros [Hc Hs]%andb_true_iff.
  cbn [String.length to_valid_go]. assert (rune_width (String c s) = Some 1%nat) as -> by (unfold rune_width; by rewrite Hc).
  cbn [stake sdrop]. by rewrite sapp_cons, sapp_nil_l, IH.
Qed.

(** * Documents *)

Unset Elimination Schemes.

(** What the code writes: strings, integers, booleans, arrays, and objects whose
    members are in the order they are written. *)
Inductive json : Type :=
| JString (s : string)
| JInt (z : Z)
| JBool (b : bool)
| JArray (l : list json)
| JObject (ms : list (string * json)).

(** Induction with the hypotheses for the elements of arrays and objects. *)
Fixpoint json_nested_ind (P : json → Prop)
    (Hs : ∀ s, P (JString s)) (Hi : ∀ z, P (JInt z)) (Hb : ∀ b, P (JBool b))
    (Ha : ∀ l, Forall P l → P (JArray l)) (Ho : ∀ ms, Forall (fun kv => P kv.2) ms → P (JObject ms))
    (j : json) : P j :=
  let rec := json_nested_ind P Hs Hi Hb Ha Ho in
  match j with
  | JString s => Hs s
  | JInt z => Hi z
  | JBool b => Hb b
  | JArray l => Ha l ((fix go l : Forall P l :=
      match l with [] => Forall_nil_2 _ | x :: l' => Forall_cons_2 _ x l' (rec x) (go l') end) l)
  | JObject ms => Ho ms ((fix go ms : Forall (fun kv : string * json => P kv.2) ms :=
      match ms with [] => Forall_nil_2 _ | kv :: ms' => Forall_cons_2 _ kv ms' (rec kv.2) (go ms') end) ms)
  end.

Fixpoint encode (j : json) : string :=
  match j with
  | JString s => quote s
  | JInt z => itoa z
  | JBool b => if b then "true" else "false"
  | JArray l => "[" ++ SJoin (map encode l) "," ++ "]"
  | JObject ms => "{" ++ SJoin (map (fun kv => quote kv.1 ++ ":" ++ encode kv.2) ms) "," ++ "}"
  end.

(** The members of a map are written in the order of their keys. *)
Definition sort_members (ms : list (string * json)) : list (string * json) :=
  foldr (insert_sorted (fun a b => str_less a.1 b.1)) [] ms.

Lemma sort_members_perm ms : sort_members ms ≡ₚ ms.
Proof. unfold sort_members. induction ms as [|kv ms IH]; [done|]. cbn [foldr]. by rewrite insert_sorted_perm, IH. Qed.

(** What the reader finds: numbers as their text, members with the text of their
    value (what a json.RawMessage gets). *)
Inductive doc : Type :=
| DNull
| DBool (b : bool)
| DNumber (text : string)
| DString (s : string)
| DArray (l : list doc)
| DObject (ms : list (string * string * doc)).

Set Elimination Schemes.

Definition is_space (c : ascii) : bool := existsb (Nat.eqb (char_code c)) [32; 9; 13; 10]%nat.
Fixpoint skip_ws (s : string) : string :=
  match s with
  | String c r => if is_space c then skip_ws r else s
  | EmptyString => ""
  end.

(** ** Numbers: -? int frac? exp? *)

Definition take_digits (s : string) : string * string :=
  let d := digits_of s in (d, sdrop (String.length d) s).

Definition scan_int (s : string) : option (string * string) :=
  match s with
  | EmptyString => None
  | String c r =>
      if Ascii.eqb c "0"%char then Some ("0", r)
      else if is_digit c then Some (take_digits s) else None
  end.

Definition scan_frac (s : string) : option (string * string) :=
  match s with
  | String c r =>
      if Ascii.eqb c "."%char then
        match take_digits r with (EmptyString, _) => None | (d, r') => Some (String c d, r') end
      else Some ("", s)
  | EmptyString => Some ("", s)
  end.

Definition scan_exp (s : string) : option (string * string) :=
  match s with
  | String c r =>
      if Ascii.eqb c "e"%char || Ascii.eqb c "E"%char then
        let '(sign, r) := match r with
          | String x r' => if Ascii.eqb x "+"%char || Ascii.eqb x "-"%char then (String x "", r') else ("", r)
          | EmptyString => ("", r) end in
        match take_digits r with (EmptyString, _) => None | (d, r') => Some (String c (sign ++ d), r') end
      else Some ("", s)
  | EmptyString => Some ("", s)
  end.

Definition scan_number (s : string) : option (string * string) :=
  let '(sign, r) := match s with
    | String c r => if Ascii.eqb c "-"%char then ("-", r) else ("", s)
    | EmptyString => ("", s) end in
  match scan_int r with
  | None => None
  | Some (i, r) =>
      match scan_frac r with
      | None => None
      | Some (fr, r) =>
          match scan_exp r with
          | None => None
          | Some (e, r) => Some (sign ++ i ++ fr ++ e, r)
          end
      end
  end.

(** ** Values

    [depth] counts the arrays and objects the value is in; Go refuses a document
    nested deeper than 10000. *)
Definition maxNestingDepth : Z := 10000.

Definition scan_literal (s : string) : option (doc * string) :=
  if HasPrefix s "true" then Some (DBool true, sdrop 4 s)
  else if HasPrefix s "false" then Some (DBool false, sdrop 5 s)
  else if HasPrefix s "null" then Some (DNull, sdrop 4 s)
  else match scan_number s with Some (t, r) => Some (DNumber t, r) | None => None end.

(** A member name: a literal, unquoted, and the text after the colon. *)
Definition scan_key (s : string) : option (string * string) :=
  match skip_ws s with
  | String c r =>
      if Ascii.eqb c quotation then
        match scan_string r with
        | Some (raw, r1) =>
            match unquote raw, skip_ws r1 with
            | Some k, String c2 r2 => if Ascii.eqb c2 ":"%char then Some (k, skip_ws r2) else None
            | _, _ => None
            end
        | None => None
        end
      else None
  | EmptyString => None
  end.

Fixpoint parse_value (fuel : nat) (depth : Z) (s : string) : option (doc * string) :=
  match fuel with
  | O => None
  | S f =>
      match skip_ws s with
      | EmptyString => None
      | String c r =>
          if Ascii.eqb c "{"%char then
            if (maxNestingDepth <=? depth)%Z then None else
            match skip_ws r with
            | String c' r' =>
                if Ascii.eqb c' "}"%char then Some (DObject [], r') else
                match parse_members f (depth + 1) r with Some (ms, r) => Some (DObject ms, r) | None => None end
            | EmptyString => None
            end
          else if Ascii.eqb c "["%char then
            if (maxNestingDepth <=? depth)%Z then None else
            match skip_ws r with
            | String c' r' =>
                if Ascii.eqb c' "]"%char then Some (DArray [], r') else
                match parse_elements f (depth + 1) r with Some (l, r) => Some (DArray l, r) | None => None end
            | EmptyString => None
            end
          else if Ascii.eqb c quotation then
            match scan_string r with
            | Some (raw, rest) => match unquote raw with Some v => Some (DString v, rest) | None => None end
            | None => None
            end
          else scan_literal (String c r)
      end
  end
with parse_elements (fuel : nat) (depth : Z) (s : string) : option (list doc * string) :=
  match fuel with
  | O => None
  | S f =>
      match parse_value f depth s with
      | None => None
      | Some (v, r) =>
          match skip_ws r with
          | String c r =>
              if Ascii.eqb c "]"%char then Some ([v], r)
              else if Ascii.eqb c ","%char then
                match parse_elements f depth r with Some (l, r) => Some (v :: l, r) | None => None end
              else None
          | EmptyString => None
          end
      end
  end
with parse_members (fuel : nat) (depth : Z) (s : string) : option (list (string * string * doc) * string) :=
  match fuel with
  | O => None
  | S f =>
      match scan_key s with
      | None => None
      | Some (k, r0) =>
          match parse_value f depth r0 with
          | None => None
          | Some (v, r) =>
              let m := (k, stake (String.length r0 - String.length r) r0, v) in
              match skip_ws r with
              | String c r =>
                  if Ascii.eqb c "}"%char then Some ([m], r)
                  else if Ascii.eqb c ","%char then
                    match parse_members f depth r with Some (ms, r) => Some (m :: ms, r) | None => None end
                  else None
              | EmptyString => None
              end
          end
      end
  end.

Definition parse_fuel (s : string) : nat := S (S (2 * String.length s)).

(** json.NewDecoder(r).Decode reads one value and leaves the rest;
    json.Unmarshal wants nothing but white space after it. *)
Definition decode_first (s : string) : option doc := fst <$> parse_value (parse_fuel s) 0 s.
Definition unmarshal (s : string) : option doc :=
  match parse_value (parse_fuel s) 0 s with
  | Some (d, r) => if String.eqb (skip_ws r) "" then Some d else None
  | None => None
  end.

(** * What is written reads back *)

Fixpoint doc_of (j : json) : doc :=
  match j with
  | JString s => DString (to_valid s)
  | JInt z => DNumber (itoa z)
  | JBool b => DBool b
  | JArray l => DArray (map doc_of l)
  | JObject ms => DObject (map (fun kv => (to_valid kv.1, encode kv.2, doc_of kv.2)) ms)
  end.

Fixpoint json_depth (j : json) : Z :=
  match j with
  | JArray l => 1 + foldr Z.max 0 (map json_depth l)
  | JObject ms => 1 + foldr Z.max 0 (map (fun kv => json_depth kv.2) ms)
  | _ => 0
  end%Z.

(** A number ends in front of it. *)
Definition number_end (s : string) : bool :=
  match s with
  | EmptyString => true
  | String c _ => negb (is_digit c || Ascii.eqb c "."%char || Ascii.eqb c "e"%char || Ascii.eqb c "E"%char)
  end.

Lemma take_digits_app d r :
  sall is_digit d = true → number_end r = true → take_digits (d ++ r) = (d, r).
Proof.
  intros Hd Hr. unfold take_digits.
  assert (digits_of (d ++ r) = d) as ->.
  { induction d as [|c d IH].
    - rewrite sapp_nil_l. destruct r as [|c r]; [done|]. cbn [number_end digits_of] in *.
      by destruct (is_digit c).
    - cbn [sall] in Hd. apply andb_true_iff in Hd as [Hc Hd]. rewrite sapp_cons. cbn [digits_of]. by rewrite Hc, IH. }
  f_equal. rewrite <- (Nat.add_0_r (String.length d)). by rewrite sdrop_app.
Qed.

Lemma scan_tail r : number_end r = true → scan_frac r = Some ("", r) ∧ scan_exp r = Some ("", r).
Proof.
  destruct r as [|c r]; [done|]. cbn [number_end scan_frac scan_exp].
  rewrite negb_true_iff, !orb_false_iff. intros [[[_ ->] ->] ->]. done.
Qed.

Lemma scan_positive p r : number_end r = true → scan_int (pretty (Npos p) ++ r) = Some (pretty (Npos p), r).
Proof.
  intros Hr. destruct (pretty_pos p) as (c & s' & E & Hd & H0 & Hall & _). rewrite <- (take_digits_app _ r Hall Hr).
  rewrite E, sapp_cons. cbn [scan_int]. by rewrite H0, Hd.
Qed.

Lemma scan_number_itoa z r : number_end r = true → scan_number (itoa z ++ r) = Some (itoa z, r).
Proof.
  intros Hr. destruct (scan_tail r Hr) as [Hf He]. unfold itoa. destruct z as [|p|p].
  - change (pretty 0%Z) with "0". unfold scan_number. rewrite sapp_cons, sapp_nil_l. simpl. by rewrite Hf, He.
  - change (pretty (Zpos p)) with (pretty (Npos p)). pose proof (scan_positive p r Hr) as Hs.
    destruct (pretty_pos p) as (c & s' & E & Hd & _). unfold scan_number.
    assert (Ascii.eqb c "-"%char = false) as Hm by (apply Ascii.eqb_neq; intros ->; done).
    rewrite E, sapp_cons in *. rewrite Hm. rewrite Hs, Hf, He. by rewrite !sapp_nil_r, sapp_nil_l.
  - change (pretty (Zneg p)) with (String "-"%char (pretty (Npos p))). unfold scan_number. rewrite sapp_cons.
    rewrite Ascii.eqb_refl, scan_positive by done. by rewrite Hf, He, !sapp_nil_r, sapp_cons, sapp_nil_l.
Qed.

(** The first character of a document tells what it is. *)
Definition begins (j : json) (c : ascii) : Prop :=
  match j with
  | JString _ => c = quotation
  | JInt _ => is_digit c = true ∨ c = "-"%char
  | JBool b => c = if b then "t"%char else "f"%char
  | JArray _ => c = "["%char
  | JObject _ => c = "{"%char
  end.

Lemma encode_head j : ∃ c s, encode j = String c s ∧ begins j c.
Proof.
  destruct j as [s|z|[]|l|ms]; cbn [encode begins]; [by eexists _, _|..|by eexists _, _|by eexists _, _|
    by eexists _, _|by eexists _, _].
  destruct z as [|p|p]; [by eexists _, _; split; [|left]|..].
  - destruct (pretty_pos p) as (c & s' & E & Hd & _). exists c, s'. split; [exact E|by left].
  - eexists _, _. split; [done|by right].
Qed.

Lemma begins_plain j c : begins j c → is_space c = false ∧ Ascii.eqb c "]"%char = false.
Proof.
  assert (Hd : is_digit c = true → is_space c = false ∧ Ascii.eqb c "]"%char = false).
  { intros Hc. pose proof (ascii_cases (fun c => negb (is_digit c) || (negb (is_space c) && negb (Ascii.eqb c "]"%char)))
      ltac:(vm_compute; reflexivity) c) as Hall. cbv beta in Hall. rewrite Hc in Hall. simpl in Hall.
    by rewrite andb_true_iff, !negb_true_iff in Hall. }
  destruct j as [s|z|[]|l|ms]; simpl; [intros ->; done| |intros ->; done..]. intros [?| ->]; [by apply Hd|done].
Qed.

Lemma skip_encode j r : skip_ws (encode j ++ r) = encode j ++ r.
Proof.
  destruct (encode_head j) as (c & s & -> & Hb). rewrite sapp_cons. cbn [skip_ws].
  by destruct (begins_plain j c Hb) as [-> _].
Qed.

Lemma skip_nonspace c r : is_space c = false → skip_ws (String c r) = String c r.
Proof. cbn [skip_ws]. by intros ->. Qed.

Lemma scan_key_quote k j r : scan_key (quote k ++ ":" ++ encode j ++ r) = Some (to_valid k, encode j ++ r).
Proof.
  unfold scan_key, quote. rewrite sapp_cons, skip_nonspace by done. rewrite Ascii.eqb_refl, sapp_assoc, sapp_cons, sapp_nil_l.
  destruct (unquote_quote k (":" ++ encode j ++ r)) as [-> ->].
  change (":" ++ ?x) with (String ":" ("" ++ x)). rewrite sapp_nil_l, skip_nonspace by done.
  change (Ascii.eqb ":" ":") with true. cbv iota. by rewrite skip_encode.
Qed.

Lemma SJoin_cons2 x y l sep : SJoin (x :: y :: l) sep = x ++ sep ++ SJoin (y :: l) sep.
Proof. done. Qed.

(** Documents that read back, at [depth], with the given fuel. *)
Definition reads (j : json) : Prop :=
  ∀ f d r, (2 * String.length (encode j) <= f)%nat → number_end r = true → (d + json_depth j <= maxNestingDepth)%Z →
    parse_value f d (encode j ++ r) = Some (doc_of j, r).

Lemma encode_nonempty j : (0 < String.length (encode j))%nat.
Proof. destruct (encode_head j) as (c & s & -> & _). simpl. lia. Qed.

Lemma reads_elements l f d r :
  Forall reads l → l ≠ [] → (S (2 * String.length (SJoin (map encode l) ",")) <= f)%nat →
  (d + foldr Z.max 0 (map json_depth l) <= maxNestingDepth)%Z →
  parse_elements f d (SJoin (map encode l) "," ++ "]" ++ r) = Some (map doc_of l, r).
Proof.
  intros Hl. revert f. induction Hl as [|x l Hx Hl IH]; intros f Hne Hf Hd; [done|].
  destruct f as [|f]; [lia|]. cbn [parse_elements map foldr] in *. destruct l as [|y l].
  - cbn [map SJoin] in *. rewrite Hx; [|lia|done|lia]. rewrite sapp_cons, sapp_nil_l. rewrite skip_nonspace by done.
    done.
  - cbn [map] in *. rewrite SJoin_cons2 in *. rewrite !slength_app in Hf. cbn [String.length] in Hf.
    rewrite !sapp_assoc, Hx; [|lia|done|lia]. rewrite sapp_cons, sapp_nil_l, skip_nonspace by done.
    change (Ascii.eqb "," "]") with false. change (Ascii.eqb "," ",") with true. cbv iota.
    rewrite IH; [done|done|lia|]. simpl in *. lia.
Qed.

Lemma stake_length_app (a b : string) : stake (String.length (a ++ b) - String.length b) (a ++ b) = a.
Proof. rewrite slength_app, Nat.add_sub. apply stake_app. Qed.

Definition member (kv : string * json) : string := quote kv.1 ++ ":" ++ encode kv.2.
Definition doc_member (kv : string * json) : string * string * doc := (to_valid kv.1, encode kv.2, doc_of kv.2).

Lemma reads_members ms f d r :
  Forall (fun kv => reads kv.2) ms → ms ≠ [] → (S (2 * String.length (SJoin (map member ms) ",")) <= f)%nat →
  (d + foldr Z.max 0 (map (fun kv => json_depth kv.2) ms) <= maxNestingDepth)%Z →
  parse_members f d (SJoin (map member ms) "," ++ "}" ++ r) = Some (map doc_member ms, r).
Proof.
  intros Hl. revert f. induction Hl as [|[k x] ms Hx Hl IH]; intros f Hne Hf Hd; [done|].
  destruct f as [|f]; [lia|]. cbn [parse_members map foldr fst snd] in *. destruct ms as [|kv ms].
  - cbn [map SJoin] in *. unfold member in *. cbn [fst snd] in *. rewrite !slength_app in Hf. cbn [String.length] in Hf.
    rewrite !sapp_assoc, scan_key_quote. rewrite Hx; [|lia|done|lia]. rewrite stake_length_app.
    rewrite sapp_cons, sapp_nil_l, skip_nonspace by done. done.
  - cbn [map] in *. rewrite SJoin_cons2 in *. unfold member in Hf at 1. unfold member at 1. cbn [fst snd] in *.
    rewrite !slength_app in Hf. cbn [String.length] in Hf.
    rewrite !sapp_assoc, scan_key_quote. rewrite Hx; [|lia|done|lia]. rewrite stake_length_app.
    rewrite (sapp_cons ","), sapp_nil_l, skip_nonspace by done.
    change (Ascii.eqb "," "}") with false. change (Ascii.eqb "," ",") with true. cbv iota.
    rewrite IH; [done|done|lia|]. simpl in *. lia.
Qed.

Lemma HasPrefix_head c s d p : c ≠ d → HasPrefix (String c s) (String d p) = false.
Proof. intros Hne. unfold HasPrefix. cbn [String.prefix]. by destruct (ascii_dec d c) as [->|]. Qed.

Lemma reads_literal j c s f d r :
  encode j = String c s → begins j c →
  match j with JInt _ | JBool _ => True | _ => False end →
  parse_value (S f) d (encode j ++ r) = scan_literal (encode j ++ r).
Proof.
  intros E Hb Hj. cbn [parse_value]. rewrite skip_encode, E, sapp_cons.
  assert (Ascii.eqb c "{"%char = false ∧ Ascii.eqb c "["%char = false ∧ Ascii.eqb c quotation = false) as (-> & -> & ->);
    [|done].
  destruct j as [|z|[]| |]; try done; simpl in Hb; [|by subst c..].
  split_and!; apply Ascii.eqb_neq; intros ->; by destruct Hb.
Qed.

Lemma foldr_max_nonneg l : (0 <= foldr Z.max 0 l)%Z.
Proof. induction l as [|z l IH]; simpl; lia. Qed.

Lemma encode_reads j : reads j.
Proof.
  induction j as [s|z|b|l IH|ms IH] using json_nested_ind; intros f d r Hf Hr Hd;
    match type of Hf with context [encode ?j] => pose proof (encode_nonempty j); pose proof (encode_head j) as (c & t & E & Hb) end;
    (destruct f as [|f]; [lia|]).
  - cbn [parse_value encode doc_of] in *. unfold quote. rewrite sapp_cons, skip_nonspace by done.
    change (Ascii.eqb quotation "{") with false. change (Ascii.eqb quotation "[") with false. rewrite Ascii.eqb_refl.
    cbv iota. rewrite sapp_assoc, sapp_cons, sapp_nil_l. by destruct (unquote_quote s r) as [-> ->].
  - rewrite (reads_literal _ c t) by done. cbn [encode begins doc_of] in *. unfold scan_literal.
    rewrite scan_number_itoa by done. rewrite E, sapp_cons.
    rewrite !HasPrefix_head by (intros ->; by destruct Hb). done.
  - rewrite (reads_literal _ c t) by done. cbn [encode doc_of]. unfold scan_literal.
    destruct b.
    + rewrite (proj2 (HasPrefix_spec _ "true")) by eauto. by rewrite !sapp_cons, sapp_nil_l.
    + rewrite (proj2 (HasPrefix_spec _ "false")) by eauto. rewrite !sapp_cons, sapp_nil_l.
      by rewrite HasPrefix_head by done.
  - clear E Hb. cbn [parse_value encode doc_of json_depth] in *. rewrite !sapp_cons, !sapp_nil_l, skip_nonspace by done.
    change (Ascii.eqb "[" "{") with false. change (Ascii.eqb "[" "[") with true. cbv iota.
    rewrite !slength_app in Hf. cbn [String.length] in Hf. rewrite sapp_assoc.
    destruct l as [|x l]; [simpl in *; by rewrite (proj2 (Z.leb_gt _ _)) by lia|].
    pose proof (foldr_max_nonneg (map json_depth (x :: l))).
    rewrite (proj2 (Z.leb_gt maxNestingDepth d)) by lia. rewrite (reads_elements (x :: l)); [|done|done|lia|lia].
    destruct (encode_head x) as (cx & sx & Ex & Hbx). pose proof (begins_plain x cx Hbx) as [Hs He].
    assert (∃ q, SJoin (map encode (x :: l)) "," ++ "]" ++ r = String cx q) as [q ->].
    { destruct l; cbn [map]; [cbn [SJoin]|rewrite SJoin_cons2]; rewrite Ex, !sapp_cons; eauto. }
    rewrite skip_nonspace, He by done. done.
  - clear E Hb. cbn [parse_value encode doc_of json_depth] in *.
    change (map (fun kv => quote kv.1 ++ ":" ++ encode kv.2) ms) with (map member ms) in *.
    rewrite !sapp_cons, !sapp_nil_l, skip_nonspace by done. change (Ascii.eqb "{" "{") with true. cbv iota.
    rewrite !slength_app in Hf. cbn [String.length] in Hf. rewrite sapp_assoc.
    destruct ms as [|[k x] ms]; [simpl in *; by rewrite (proj2 (Z.leb_gt _ _)) by lia|].
    pose proof (foldr_max_nonneg (map (fun kv => json_depth kv.2) ((k, x) :: ms))).
    rewrite (proj2 (Z.leb_gt maxNestingDepth d)) by lia. rewrite (reads_members ((k, x) :: ms)); [|done|done|lia|lia].
    assert (∃ q, SJoin (map member ((k, x) :: ms)) "," ++ "}" ++ r = String quotation q) as [q ->].
    { unfold quote. destruct ms; cbn [map]; [cbn [SJoin]|rewrite SJoin_cons2]; unfold member at 1, quote;
        rewrite !sapp_cons; eauto. }
    rewrite skip_nonspace by done. done.
Qed.

(** A document the encoder wrote, read by the decoder: the same document, its
    strings made valid UTF-8, and nothing of what follows is taken. *)
Lemma parse_encode j r :
  (json_depth j <= maxNestingDepth)%Z → number_end r = true →
  parse_value (parse_fuel (encode j ++ r)) 0 (encode j ++ r) = Some (doc_of j, r).
Proof.
  intros Hd Hr. apply encode_reads; [|done|lia]. unfold parse_fuel. rewrite slength_app. lia.
Qed.

Lemma decode_first_encode j r :
  (json_depth j <= maxNestingDepth)%Z → number_end r = true → decode_first (encode j ++ r) = Some (doc_of j).
Proof. intros Hd Hr. unfold decode_first. by rewrite parse_encode. Qed.

Lemma unmarshal_encode j r :
  (json_depth j <= maxNestingDepth)%Z → number_end r = true → skip_ws r = "" →
  unmarshal (encode j ++ r) = Some (doc_of j).
Proof. intros Hd Hr Hs. unfold unmarshal. by rewrite parse_encode, Hs. Qed.

(** * The fuel is enough

    Every call takes at least one character, and at most two calls are made for
    one, so the result no longer depends on the fuel from [parse_fuel] on. *)

Abbreviation len := String.length.

Lemma skip_ws_le s : (len (skip_ws s) <= len s)%nat.
Proof. induction s as [|c s IH]; simpl; [lia|]. destruct (is_space c); simpl; lia. Qed.

Lemma scan_string_lt s raw r : scan_string s = Some (raw, r) → (len r < len s)%nat.
Proof.
  assert (Hn : ∀ n s raw r, (len s <= n)%nat → scan_string s = Some (raw, r) → (len r < len s)%nat); [|eauto].
  clear. induction n as [|n IH]; intros [|c s] raw r Hl; try done; [simpl in Hl; lia|]. cbn [scan_string]. simpl in Hl.
  destruct (Ascii.eqb c quotation); [intros [= _ <-]; simpl; lia|]. destruct (Ascii.eqb c backslash).
  - destruct s as [|e s]; [done|]. destruct (scan_string s) as [[w q]|] eqn:E; [|done]. intros [= _ <-].
    apply IH in E; simpl in *; lia.
  - destruct (scan_string s) as [[w q]|] eqn:E; [|done]. intros [= _ <-]. apply IH in E; simpl in *; lia.
Qed.

Lemma scan_number_lt s t r : scan_number s = Some (t, r) → (len r < len s)%nat.
Proof.
  assert (Hi : ∀ s t r, scan_int s = Some (t, r) → (len r < len s)%nat).
  { intros [|c q] t' r'; [done|]. cbn [scan_int]. destruct (Ascii.eqb c "0"%char); [intros [= _ <-]; simpl; lia|].
    destruct (is_digit c) eqn:E; [|done]. unfold take_digits. cbn [digits_of]. rewrite E. intros [= _ <-].
    cbn [len sdrop]. rewrite length_sdrop. lia. }
  assert (Ht : ∀ s, (len (take_digits s).2 <= len s)%nat) by (intros q; unfold take_digits; simpl; rewrite length_sdrop; lia).
  assert (Hf : ∀ s t r, scan_frac s = Some (t, r) → (len r <= len s)%nat).
  { intros [|c q] t' r'; cbn [scan_frac]; [intros [= _ <-]; lia|]. destruct (Ascii.eqb c "."%char); [|intros [= _ <-]; lia].
    specialize (Ht q). destruct (take_digits q) as [[|x d] w]; [done|]. intros [= _ <-]. simpl in *. lia. }
  assert (He : ∀ s t r, scan_exp s = Some (t, r) → (len r <= len s)%nat).
  { intros [|c q] t' r'; cbn [scan_exp]; [intros [= _ <-]; lia|]. destruct (_ || _); [|intros [= _ <-]; lia].
    set (p := match q with EmptyString => _ | _ => _ end).
    assert (len p.2 <= len q)%nat as Hp by (unfold p; repeat case_match; simpl; lia).
    destruct p as [sg w]. simpl in Hp. specialize (Ht w). destruct (take_digits w) as [[|x d] w']; [done|].
    intros [= _ <-]. simpl in *. lia. }
  unfold scan_number. set (p := match s with EmptyString => _ | _ => _ end).
  assert (len p.2 <= len s)%nat as Hp by (unfold p; repeat case_match; simpl; lia).
  destruct p as [sg w]. simpl in Hp. destruct (scan_int w) as [[i w1]|] eqn:E1; [|done].
  destruct (scan_frac w1) as [[fr w2]|] eqn:E2; [|done]. destruct (scan_exp w2) as [[e w3]|] eqn:E3; [|done].
  intros [= _ <-]. apply Hi in E1. apply Hf in E2. apply He in E3. lia.
Qed.

Lemma scan_literal_lt s v r : scan_literal s = Some (v, r) → (len r < len s)%nat.
Proof.
  unfold scan_literal. intros Hs.
  assert (Hp : ∀ p n, HasPrefix s p = true → (len p = n)%nat → (0 < n)%nat → (len (sdrop n s) < len s)%nat).
  { intros p n [q ->]%HasPrefix_spec <- Hn. rewrite length_sdrop, slength_app. lia. }
  destruct (HasPrefix s "true") eqn:E1; [injection Hs as _ <-; apply (Hp "true" 4%nat E1); [done|lia]|].
  destruct (HasPrefix s "false") eqn:E2; [injection Hs as _ <-; apply (Hp "false" 5%nat E2); [done|lia]|].
  destruct (HasPrefix s "null") eqn:E3; [injection Hs as _ <-; apply (Hp "null" 4%nat E3); [done|lia]|].
  destruct (scan_number s) as [[t q]|] eqn:E; [|done]. injection Hs as _ <-. by apply scan_number_lt in E.
Qed.

Lemma scan_key_lt s k r : scan_key s = Some (k, r) → (len r < len s)%nat.
Proof.
  unfold scan_key. pose proof (skip_ws_le s) as H0. destruct (skip_ws s) as [|c q]; [done|].
  destruct (Ascii.eqb c quotation); [|done]. destruct (scan_string q) as [[raw r1]|] eqn:E; [|done].
  apply scan_string_lt in E. destruct (unquote raw); [|done]. pose proof (skip_ws_le r1) as H1.
  destruct (skip_ws r1) as [|c2 r2]; [done|]. destruct (Ascii.eqb c2 ":"%char); [|done]. intros [= _ <-].
  pose proof (skip_ws_le r2). simpl in *. lia.
Qed.

(** A value takes something, a list or the members of an object as well. *)
Lemma parse_lt f :
  (∀ d s v r, parse_value f d s = Some (v, r) → (len r < len s)%nat) ∧
  (∀ d s v r, parse_elements f d s = Some (v, r) → (len r < len s)%nat) ∧
  (∀ d s v r, parse_members f d s = Some (v, r) → (len r < len s)%nat).
Proof.
  induction f as [|f (IHv & IHe & IHm)]; [done|]. split_and!; intros d s v r.
  - cbn [parse_value]. pose proof (skip_ws_le s) as H0. destruct (skip_ws s) as [|c q]; [done|].
    pose proof (skip_ws_le q) as H1. intros Hp.
    repeat case_match; simplify_eq; simpl in *;
      repeat match goal with
      | H : parse_elements f _ _ = Some _ |- _ => apply IHe in H
      | H : parse_members f _ _ = Some _ |- _ => apply IHm in H
      | H : scan_string _ = Some _ |- _ => apply scan_string_lt in H
      | H : scan_literal _ = Some _ |- _ => apply scan_literal_lt in H
      end; simpl in *; lia.
  - cbn [parse_elements]. destruct (parse_value f d s) as [[x q]|] eqn:E; [|done]. apply IHv in E.
    pose proof (skip_ws_le q) as H1. intros Hp. repeat case_match; simplify_eq; simpl in *;
      repeat match goal with H : parse_elements f _ _ = Some _ |- _ => apply IHe in H end; lia.
  - cbn [parse_members]. destruct (scan_key s) as [[k r0]|] eqn:Ek; [|done]. apply scan_key_lt in Ek.
    destruct (parse_value f d r0) as [[x q]|] eqn:E; [|done]. apply IHv in E.
    pose proof (skip_ws_le q) as H1. intros Hp. repeat case_match; simplify_eq; simpl in *;
      repeat match goal with H : parse_members f _ _ = Some _ |- _ => apply IHm in H end; lia.
Qed.

Lemma parse_more f :
  (∀ d s, (2 * len s < f)%nat → parse_value (S f) d s = parse_value f d s) ∧
  (∀ d s, (S (2 * len s) < f)%nat → parse_elements (S f) d s = parse_elements f d s) ∧
  (∀ d s, (S (2 * len s) < f)%nat → parse_members (S f) d s = parse_members f d s).
Proof.
  induction f as [|f (IHv & IHe & IHm)]; [split_and!; intros; lia|].
  destruct (parse_lt f) as (Hlt & _ & _).
  split_and!; intros d s Hf.
  - remember (S f) as g eqn:Eg. cbn [parse_value]. subst g. cbn [parse_value].
    pose proof (skip_ws_le s) as H0. destruct (skip_ws s) as [|c q]; [done|]. simpl in H0.
    rewrite (IHe (d + 1)%Z q), (IHm (d + 1)%Z q) by lia. done.
  - remember (S f) as g eqn:Eg. cbn [parse_elements]. subst g. rewrite (IHv d s) by lia. cbn [parse_elements].
    destruct (parse_value f d s) as [[x q]|] eqn:E; [|done]. apply Hlt in E. pose proof (skip_ws_le q) as H1.
    destruct (skip_ws q) as [|c q']; [done|]. simpl in H1. pose proof (IHe d q' ltac:(lia)) as Hq. cbn [parse_elements] in Hq. by rewrite Hq.
  - remember (S f) as g eqn:Eg. cbn [parse_members]. subst g. cbn [parse_members].
    destruct (scan_key s) as [[k r0]|] eqn:Ek; [|done]. apply scan_key_lt in Ek. rewrite (IHv d r0) by lia.
    destruct (parse_value f d r0) as [[x q]|] eqn:E; [|done]. apply Hlt in E. pose proof (skip_ws_le q) as H1.
    destruct (skip_ws q) as [|c q']; [done|]. simpl in H1. pose proof (IHm d q' ltac:(lia)) as Hq. cbn [parse_members] in Hq. by rewrite Hq.
Qed.

(** More fuel than [parse_fuel] gives the same result, an error included. *)
Lemma parse_fuel_enough f d s : (parse_fuel s <= f)%nat → parse_value f d s = parse_value (parse_fuel s) d s.
Proof.
  unfold parse_fuel. intros Hf. induction Hf as [|f Hf IH]; [done|]. rewrite <- IH.
  apply parse_more. lia.
Qed.

(** * Decoding into a struct

    A setter stores a value, given as its text and its document, in a field of
    [A]; [None] is an error of type.  Go goes on after such an error and returns
    it at the end, and the code drops what was decoded.  A member is matched by
    its exact name first, then by case folding; members without a field are
    skipped, [null] leaves a struct as it is. *)
Definition setter (A : Type) : Type := A → string → doc → option A.

Section decoding.
Context {A : Type}.

Definition find_field (fields : list (string * setter A)) (key : string) : option (setter A) :=
  match List.find (fun f => String.eqb key f.1) fields with
  | Some f => Some f.2
  | None => snd <$> List.find (fun f => EqualFold key f.1) fields
  end.

Definition decode_member (fields : list (string * setter A)) (a : A) (m : string * string * doc) : option A :=
  match find_field fields m.1.1 with
  | Some set => set a m.1.2 m.2
  | None => Some a
  end.

Fixpoint decode_members (fields : list (string * setter A)) (a : A) (ms : list (string * string * doc)) : option A :=
  match ms with
  | [] => Some a
  | m :: ms => match decode_member fields a m with Some a => decode_members fields a ms | None => None end
  end.

Definition decode_struct (fields : list (string * setter A)) (a : A) (d : doc) : option A :=
  match d with
  | DNull => Some a
  | DObject ms => decode_members fields a ms
  | _ => None
  end.

Definition string_field (set : A → string → A) : setter A := fun a _ d =>
  match d with DString s => Some (set a s) | DNull => Some a | _ => None end.
Definition bool_field (set : A → bool → A) : setter A := fun a _ d =>
  match d with DBool b => Some (set a b) | DNull => Some a | _ => None end.
(** A json.RawMessage takes the text, that of [null] included. *)
Definition raw_field (set : A → string → A) : setter A := fun a text _ => Some (set a text).

(** A map[string]string: members are added to what is there; the element of a
    [null] is the empty string; [null] for the map makes it nil. *)
Fixpoint decode_map (m : gmap string string) (ms : list (string * string * doc)) : option (gmap string string) :=
  match ms with
  | [] => Some m
  | (k, _, DString s) :: ms => decode_map (<[k := s]> m) ms
  | (k, _, DNull) :: ms => decode_map (<[k := ""]> m) ms
  | _ => None
  end.
Definition map_field (get : A → gmap string string) (set : A → gmap string string → A) : setter A := fun a _ d =>
  match d with
  | DObject ms => set a <$> decode_map (get a) ms
  | DNull => Some (set a ∅)
  | _ => None
  end.

Lemma decode_members_app fields a ms ms' :
  decode_members fields a (ms ++ ms')%list =
  match decode_members fields a ms with Some a' => decode_members fields a' ms' | None => None end.
Proof.
  revert a. induction ms as [|m ms IH]; intros a; [done|]. cbn [app decode_members].
  destruct (decode_member fields a m); [apply IH|done].
Qed.

End decoding.

(** Members with strings, read into a map: a later member wins. *)
Lemma decode_map_strings (m : gmap string string) (kvs : list (string * string)) :
  decode_map m (map (fun kv => (to_valid kv.1, encode (JString kv.2), DString (to_valid kv.2))) kvs) =
  Some (fold_left (fun m kv => <[to_valid kv.1 := to_valid kv.2]> m) kvs m).
Proof. revert m. induction kvs as [|[k v] kvs IH]; intros m; [done|]. cbn [map decode_map fold_left fst snd]. apply IH. Qed.

(** Inserting the pairs of a map gives the map. *)
Lemma fold_insert_pairs (m : gmap string string) (l : list (string * string)) :
  l ≡ₚ map_to_list m → fold_left (fun m kv => <[kv.1 := kv.2]> m) l ∅ = m.
Proof.
  intros Hp. assert (Hnd : NoDup l.*1) by (rewrite Hp; apply NoDup_fst_map_to_list).
  assert (Hf : ∀ m0 : gmap string string, (∀ k, k ∈ l.*1 → m0 !! k = None) →
    fold_left (fun m kv => <[kv.1 := kv.2]> m) l m0 = list_to_map l ∪ m0).
  { clear Hp m. induction l as [|[k v] l IH]; intros m0 H0; [simpl; symmetry; apply (left_id_L ∅ (∪))|].
    cbn [fold_left fst snd]. rewrite fmap_cons in Hnd, H0. apply NoDup_cons in Hnd as [Hk Hnd]. rewrite IH; [|done|].
    - rewrite list_to_map_cons, <- insert_union_l. symmetry. apply insert_union_r. by apply not_elem_of_list_to_map_1.
    - intros k' Hk'. rewrite lookup_insert_ne by (intros ->; by apply Hk). apply H0. by right. }
  rewrite Hf by (intros; apply lookup_empty). rewrite (right_id_L ∅ (∪)).
  rewrite (list_to_map_proper l (map_to_list m)) by done. apply list_to_map_to_list.
Qed.

(** One member of an object the encoder wrote. *)
Lemma decode_one {A} (fields : list (string * setter A)) set a k j :
  find_field fields k = Some set → to_valid k = k →
  decode_members fields a (map doc_member [(k, j)]) = set a (encode j) (doc_of j).
Proof.
  intros Hf Hk. cbn [map decode_members]. unfold decode_member, doc_member. cbn [fst snd]. rewrite Hk, Hf.
  by destruct (set _ _ _).
Qed.

Definition valid_map (m : gmap string string) : Prop :=
  ∀ k v, m !! k = Some v → valid_utf8 k = true ∧ valid_utf8 v = true.

(** The members of a map of strings, in any order, decode to the map. *)
Lemma decode_map_json m l :
  l ≡ₚ map_to_list m → valid_map m →
  decode_map ∅ (map doc_member (map (fun kv => (kv.1, JString kv.2)) l)) = Some m.
Proof.
  intros Hl Hv. rewrite map_map. etransitivity; [apply (decode_map_strings ∅ l)|]. f_equal.
  rewrite <- (fold_insert_pairs m l Hl).
  assert (Hall : ∀ k v, (k, v) ∈ l → to_valid k = k ∧ to_valid v = v).
  { intros k v Hkv. rewrite Hl in Hkv. apply elem_of_map_to_list in Hkv. apply Hv in Hkv as [Hk' Hv'].
    split; by apply valid_utf8_eq. }
  clear Hl. generalize (∅ : gmap string string). induction l as [|[k v] l IH]; intros m0; [done|].
  cbn [fold_left fst snd]. destruct (Hall k v) as [-> ->]; [by left|]. apply IH. intros k' v' Hin. apply Hall. by right.
Qed.
