(* ===== verification/GoCodec.v ===== *)
(** Two encodings of the standard library the gateway writes: base64 (the body of
    an authorization request inside its JSON document) and RFC 3339 times (the
    health report), each with the reader that undoes it. *)
From Stdlib Require Import Strings.Ascii Strings.String.
From S2P Require Import Prelude GoBytes GoStrings GoFlag.
Local Open Scope Z_scope.

(** * encoding/base64.StdEncoding *)

Definition b64_char (n : Z) : ascii :=
  ascii_of_nat (Z.to_nat (if n <? 26 then 65 + n else if n <? 52 then 71 + n else if n <? 62 then n - 4
    else if n =? 62 then 43 else 47)).

Definition b64_val (c : ascii) : option Z :=
  let n := Z.of_nat (char_code c) in
  if (65 <=? n) && (n <=? 90) then Some (n - 65)
  else if (97 <=? n) && (n <=? 122) then Some (n - 71)
  else if (48 <=? n) && (n <=? 57) then Some (n + 4)
  else if n =? 43 then Some 62 else if n =? 47 then Some 63 else None.

Fixpoint b64_encode (b : bytes) : string :=
  match b with
  | [] => ""
  | [x] =>
      let x := byte_val x in
      String (b64_char (x / 4)) (String (b64_char (x mod 4 * 16)) "==")
  | [x; y] =>
      let '(x, y) := (byte_val x, byte_val y) in
      String (b64_char (x / 4)) (String (b64_char (x mod 4 * 16 + y / 16))
        (String (b64_char (y mod 16 * 4)) "="))
  | x :: y :: z :: r =>
      let '(x, y, z) := (byte_val x, byte_val y, byte_val z) in
      String (b64_char (x / 4)) (String (b64_char (x mod 4 * 16 + y / 16))
        (String (b64_char (y mod 16 * 4 + z / 64)) (String (b64_char (z mod 64)) (b64_encode r))))
  end.

(** Reading: groups of four, the last one padded. *)
Fixpoint b64_decode (s : string) : option bytes :=
  match s with
  | EmptyString => Some []
  | String a (String b (String c (String d r))) =>
      match b64_val a, b64_val b with
      | Some a, Some b =>
          match b64_val c, b64_val d with
          | Some c, Some d =>
              match b64_decode r with
              | Some rest => Some (byte_of_Z (a * 4 + b / 16) :: byte_of_Z (b mod 16 * 16 + c / 4)
                                   :: byte_of_Z (c mod 4 * 64 + d) :: rest)
              | None => None
              end
          | Some c, None =>
              if String.eqb (String d r) "=" then Some [byte_of_Z (a * 4 + b / 16); byte_of_Z (b mod 16 * 16 + c / 4)] else None
          | _, _ => if String.eqb (String c (String d r)) "==" then Some [byte_of_Z (a * 4 + b / 16)] else None
          end
      | _, _ => None
      end
  | _ => None
  end.

Lemma b64_val_char n : 0 <= n < 64 → b64_val (b64_char n) = Some n.
Proof.
  intros Hn. assert (Hf : forallb (fun k => bool_decide (b64_val (b64_char (Z.of_nat k)) = Some (Z.of_nat k))) (seq 0 64) = true)
    by (vm_compute; reflexivity).
  rewrite forallb_forall in Hf. specialize (Hf (Z.to_nat n)). rewrite Z2Nat.id in Hf by lia.
  apply (bool_decide_unpack _). rewrite Hf; [done|]. apply in_seq. lia.
Qed.

Lemma b64_val_pad : b64_val "=" = None.
Proof. reflexivity. Qed.

Lemma byte_eq x z : z = byte_val x → byte_of_Z z = x.
Proof. intros ->. apply byte_of_val. Qed.

Ltac euclid := Z.to_euclidean_division_equations; lia.

Lemma b64_roundtrip b : b64_decode (b64_encode b) = Some b.
Proof.
  assert (Hn : ∀ n b, (length b <= n)%nat → b64_decode (b64_encode b) = Some b); [|eauto].
  clear. induction n as [|n IH]; intros b Hl; [by destruct b; [|simpl in Hl; lia]|].
  destruct b as [|x [|y [|z r]]]; [done|..]; cbn [b64_encode]; pose proof (byte_val_range x) as Hx;
    try pose proof (byte_val_range y) as Hy; try pose proof (byte_val_range z) as Hz; cbn [b64_decode].
  - rewrite !b64_val_char by euclid. rewrite b64_val_pad. change (String.eqb "==" "==") with true. cbv iota.
    do 2 f_equal. apply byte_eq. euclid.
  - rewrite !b64_val_char by euclid. rewrite b64_val_pad. change (String.eqb "=" "=") with true. cbv iota.
    f_equal. f_equal; [apply byte_eq; euclid|]. f_equal. apply byte_eq. euclid.
  - rewrite !b64_val_char by euclid. rewrite IH by (simpl in Hl; lia).
    f_equal. f_equal; [apply byte_eq; euclid|]. f_equal; [apply byte_eq; euclid|]. f_equal. apply byte_eq. euclid.
Qed.

Lemma b64_ascii b : is_ascii (b64_encode b) = true.
Proof.
  assert (Hc : ∀ n, 0 <= n < 64 → (char_code (b64_char n) <? 128)%nat = true).
  { intros n Hn. assert (Hf : forallb (fun k => (char_code (b64_char (Z.of_nat k)) <? 128)%nat) (seq 0 64) = true)
      by (vm_compute; reflexivity).
    rewrite forallb_forall in Hf. specialize (Hf (Z.to_nat n)). rewrite Z2Nat.id in Hf by lia. apply Hf, in_seq. lia. }
  assert (Hn : ∀ n b, (length b <= n)%nat → is_ascii (b64_encode b) = true); [|eauto].
  clear b. unfold is_ascii. induction n as [|n IH]; intros b Hl; [by destruct b; [|simpl in Hl; lia]|].
  destruct b as [|x [|y [|z r]]]; [done|..]; cbn [b64_encode sall]; pose proof (byte_val_range x) as Hx;
    try pose proof (byte_val_range y) as Hy; try pose proof (byte_val_range z) as Hz; rewrite !Hc by euclid; [done..|].
  apply IH. simpl in Hl. lia.
Qed.

(** * Times in RFC 3339

    A time is its Unix seconds; the date is that of the proleptic Gregorian
    calendar, counted in eras of 400 years from the first of March of year 0. *)

(** The year (from March on), month and day of a day of an era. *)
Definition year_of_era (doe : Z) : Z := (doe - doe / 1460 + doe / 36524 - doe / 146096) / 365.
Definition year_start (yoe : Z) : Z := 365 * yoe + yoe / 4 - yoe / 100.
Definition month_day (doe : Z) : Z * Z :=
  let doy := doe - year_start (year_of_era doe) in
  let mp := (5 * doy + 2) / 153 in
  (if mp <? 10 then mp + 3 else mp - 9, doy - (153 * mp + 2) / 5 + 1).

(** time.Time.Date of the day [days] days after 1970-01-01. *)
Definition civil (days : Z) : Z * Z * Z :=
  let z := days + 719468 in
  let era := z / 146097 in
  let doe := z mod 146097 in
  let '(m, d) := month_day doe in
  (year_of_era doe + 400 * era + (if m <=? 2 then 1 else 0), m, d).

(** The day of a date. *)
Definition days_of (y m d : Z) : Z :=
  let y := if m <=? 2 then y - 1 else y in
  let era := y / 400 in
  let yoe := y mod 400 in
  let mp := if m <=? 2 then m + 9 else m - 3 in
  let doy := (153 * mp + 2) / 5 + d - 1 in
  era * 146097 + (yoe * 365 + yoe / 4 - yoe / 100 + doy) - 719468.

Definition digit (n : Z) : ascii := ascii_of_nat (Z.to_nat (48 + n)).
Definition pad2 (n : Z) : string := String (digit (n / 10)) (String (digit (n mod 10)) "").
Definition pad4 (n : Z) : string := (pad2 (n / 100) ++ pad2 (n mod 100))%string.

(** t.UTC().Format(time.RFC3339), for a year of four digits. *)
Definition rfc3339 (t : Z) : string :=
  let '(y, m, d) := civil (t / 86400) in
  let s := t mod 86400 in
  (pad4 y ++ "-" ++ pad2 m ++ "-" ++ pad2 d ++ "T" ++
   pad2 (s / 3600) ++ ":" ++ pad2 (s mod 3600 / 60) ++ ":" ++ pad2 (s mod 60) ++ "Z")%string.

(** Reading two digits, and a time. *)
Definition read2 (a b : ascii) : option Z :=
  match digit_val a, digit_val b with Some x, Some y => Some (10 * x + y) | _, _ => None end.

(** Two digits and the given separator. *)
Definition take2 (sep : string) (s : string) : option (Z * string) :=
  match s with
  | String a (String b r) =>
      match read2 a b with
      | Some n => if HasPrefix r sep then Some (n, sdrop (String.length sep) r) else None
      | None => None
      end
  | _ => None
  end.

Fixpoint take_fields (seps : list string) (s : string) : option (list Z * string) :=
  match seps with
  | [] => Some ([], s)
  | sep :: seps =>
      match take2 sep s with
      | Some (n, r) => match take_fields seps r with Some (ns, r) => Some (n :: ns, r) | None => None end
      | None => None
      end
  end.

Definition parse_rfc3339 (s : string) : option Z :=
  match take_fields [""; "-"; "-"; "T"; ":"; ":"; "Z"]%string s with
  | Some ([ya; yb; m; d; h; n; s], EmptyString) => Some (days_of (100 * ya + yb) m d * 86400 + h * 3600 + n * 60 + s)
  | _ => None
  end.

(** ** Every day of an era *)

(** The number of days, leap days taken out, never falls. *)
Lemma plain_days_mono a b :
  0 <= a <= b → b <= 146096 →
  a - a / 1460 + a / 36524 - a / 146096 <= b - b / 1460 + b / 36524 - b / 146096.
Proof. intros Ha Hb. euclid. Qed.

(** The day after a year of an era; the last one ends with the leap day of the
    year that is a multiple of 400. *)
Definition year_end (y : Z) : Z := year_start (y + 1) + (if y =? 399 then 1 else 0).

(** The first and the last day of each year of an era are of that year. *)
Lemma year_ends y : 0 <= y < 400 → year_of_era (year_start y) = y ∧ year_of_era (year_end y - 1) = y.
Proof.
  intros Hy. assert (Hf : forallb (fun k => let y := Z.of_nat k in
    (year_of_era (year_start y) =? y) && (year_of_era (year_end y - 1) =? y)) (seq 0 400) = true)
    by (vm_compute; reflexivity).
  rewrite forallb_forall in Hf. specialize (Hf (Z.to_nat y)). rewrite Z2Nat.id in Hf by lia.
  rewrite andb_true_iff, !Z.eqb_eq in Hf. apply Hf, in_seq. lia.
Qed.

Lemma year_exists (n : nat) doe :
  0 <= doe < year_start (Z.of_nat n) → ∃ y, 0 <= y < Z.of_nat n ∧ year_start y <= doe < year_start (y + 1).
Proof.
  induction n as [|n IH]; intros Hd; [change (year_start (Z.of_nat 0)) with 0 in Hd; lia|].
  destruct (Z.ltb_spec doe (year_start (Z.of_nat n))) as [Hlt|Hge].
  - destruct IH as (y & Hy & Hr); [lia|]. exists y. split; [lia|done].
  - exists (Z.of_nat n). split; [lia|]. rewrite Nat2Z.inj_succ in Hd. unfold Z.succ in Hd. lia.
Qed.

Lemma year_of_era_spec doe :
  0 <= doe < 146097 → let y := year_of_era doe in 0 <= y < 400 ∧ 0 <= doe - year_start y <= 365.
Proof.
  intros Hd. assert (∃ y, 0 <= y < 400 ∧ year_start y <= doe < year_end y) as (y & Hy & Hr).
  { destruct (decide (doe = 146096)) as [->|Hne]; [by exists 399|].
    destruct (year_exists 400 doe) as (y & Hy & Hr); [change (year_start (Z.of_nat 400)) with 146096; lia|].
    change (Z.of_nat 400) with 400 in Hy. exists y. split; [lia|]. unfold year_end. destruct (y =? 399); lia. }
  destruct (year_ends y Hy) as [H1 H2].
  assert (0 <= year_start y ∧ year_end y <= 146097 ∧ year_end y <= year_start y + 366) as (Hs & He & Hl).
  { unfold year_end, year_start. destruct (Z.eqb_spec y 399) as [->|]; [done|euclid]. }
  cbv zeta. assert (year_of_era doe = y) as ->; [|lia]. unfold year_of_era in *.
  pose proof (plain_days_mono (year_start y) doe ltac:(lia) ltac:(lia)).
  pose proof (plain_days_mono doe (year_end y - 1) ltac:(lia) ltac:(lia)).
  apply Z.le_antisymm; [rewrite <- H2|rewrite <- H1]; apply Z.div_le_mono; done.
Qed.

(** Months and days of a year that starts in March. *)
Lemma doy_ok doy : 0 <= doy <= 365 →
  let mp := (5 * doy + 2) / 153 in
  let d := doy - (153 * mp + 2) / 5 + 1 in
  0 <= mp <= 11 ∧ 1 <= d <= 31 ∧ (153 * mp + 2) / 5 + d - 1 = doy.
Proof. intros Hd. cbv zeta. split; [euclid|]. split; [|lia]. euclid. Qed.

(** The date of a day is a date, and is the date of that day only. *)
Lemma civil_days z :
  let '(y, m, d) := civil z in days_of y m d = z ∧ 1 <= m <= 12 ∧ 1 <= d <= 31.
Proof.
  unfold civil, month_day. pose proof (Z.mod_pos_bound (z + 719468) 146097 ltac:(lia)) as Hb.
  pose proof (Z.div_mod (z + 719468) 146097 ltac:(lia)) as Hdm.
  set (era := (z + 719468) / 146097) in *. set (doe := (z + 719468) mod 146097) in *. clearbody era doe.
  destruct (year_of_era_spec doe Hb) as [Hy Hdoy]. set (yoe := year_of_era doe) in *. clearbody yoe.
  pose proof (doy_ok (doe - year_start yoe) ltac:(lia)) as Hok. cbv zeta in Hok.
  set (mp := (5 * (doe - year_start yoe) + 2) / 153) in *. clearbody mp.
  set (d := doe - year_start yoe - (153 * mp + 2) / 5 + 1) in *. destruct Hok as (Hmp & Hd & Hsum).
  assert (He : ∀ y, y = yoe + 400 * era → y / 400 = era ∧ y mod 400 = yoe) by (intros y ->; euclid).
  unfold days_of, year_start in *. destruct (Z.ltb_spec mp 10).
  - rewrite (proj2 (Z.leb_gt (mp + 3) 2)) by lia. destruct (He (yoe + 400 * era + 0)) as [-> ->]; [lia|].
    rewrite Z.add_simpl_r. lia.
  - rewrite (proj2 (Z.leb_le (mp - 9) 2)) by lia. destruct (He (yoe + 400 * era + 1 - 1)) as [-> ->]; [lia|].
    rewrite Z.sub_add. lia.
Qed.

Lemma read2_pad n : 0 <= n < 100 → read2 (digit (n / 10)) (digit (n mod 10)) = Some n.
Proof.
  intros Hn. assert (Hd : ∀ k, 0 <= k < 10 → digit_val (digit k) = Some k).
  { intros k Hk. assert (Hf : forallb (fun k => bool_decide (digit_val (digit (Z.of_nat k)) = Some (Z.of_nat k))) (seq 0 10) = true)
      by (vm_compute; reflexivity).
    rewrite forallb_forall in Hf. specialize (Hf (Z.to_nat k)). rewrite Z2Nat.id in Hf by lia.
    apply (bool_decide_unpack _). rewrite Hf; [done|]. apply in_seq. lia. }
  unfold read2. rewrite !Hd by euclid. f_equal. euclid.
Qed.

Lemma take2_pad n sep r : 0 <= n < 100 → take2 sep (pad2 n ++ sep ++ r)%string = Some (n, r).
Proof.
  intros Hn. unfold pad2. rewrite !sapp_cons, sapp_nil_l. cbn [take2]. rewrite read2_pad by done.
  rewrite (proj2 (HasPrefix_spec _ _)) by eauto. rewrite <- (Nat.add_0_r (String.length sep)). by rewrite sdrop_app.
Qed.

(** A time of the years 0 to 9999 reads back. *)
Lemma parse_rfc3339_format t :
  0 <= (civil (t / 86400)).1.1 < 10000 → parse_rfc3339 (rfc3339 t) = Some t.
Proof.
  unfold rfc3339. pose proof (civil_days (t / 86400)) as Hc. destruct (civil (t / 86400)) as [[y m] d]. cbn [fst].
  destruct Hc as (Hz & Hm & Hd). intros Hy. unfold parse_rfc3339, pad4. rewrite !sapp_assoc.
  set (s := t mod 86400). assert (0 <= s < 86400) as Hs by (apply Z.mod_pos_bound; lia).
  cbn [take_fields]. rewrite <- (sapp_nil_l (pad2 (y mod 100) ++ _)), take2_pad by euclid.
  rewrite !take2_pad by euclid. rewrite <- (sapp_nil_r "Z"), take2_pad by euclid. f_equal.
  replace (100 * (y / 100) + y mod 100) with y by euclid. rewrite Hz. unfold s in *. clear -Hs. euclid.
Qed.

Lemma rfc3339_ascii t : 0 <= (civil (t / 86400)).1.1 < 10000 → is_ascii (rfc3339 t) = true.
Proof.
  unfold rfc3339. pose proof (civil_days (t / 86400)) as Hc. destruct (civil (t / 86400)) as [[y m] d]. cbn [fst].
  destruct Hc as (_ & Hm & Hd). intros Hy. unfold pad4.
  set (s := t mod 86400). assert (0 <= s < 86400) as Hs by (apply Z.mod_pos_bound; lia).
  assert (Hp : ∀ n, 0 <= n < 100 → sall (fun c => (char_code c <? 128)%nat) (pad2 n) = true).
  { intros n Hn. assert (Hf : forallb (fun k => sall (fun c => (char_code c <? 128)%nat) (pad2 (Z.of_nat k))) (seq 0 100) = true)
      by (vm_compute; reflexivity).
    rewrite forallb_forall in Hf. specialize (Hf (Z.to_nat n)). rewrite Z2Nat.id in Hf by lia. apply Hf, in_seq. lia. }
  unfold is_ascii. rewrite !sall_app, !Hp by euclid. done.
Qed.
