(* ===== verification/Feeds.v ===== *)
(** The documents the gateway reads from the management service: the feed of
    routes (json.NewDecoder in src/internal/sync/sync.go into the structs of
    sync.go and routetable/table.go) and the attestation policy inside it
    (parsePolicy of src/internal/terminate/terminate.go), decoded by the reader of
    GoJson.  They implement the interfaces [GoRoutesJSON] and [GoJSON] that Sync and
    Policy are written against; the texts of decoding errors stay a parameter.

    With them, the way of a policy from the bytes of a feed to the check of the
    enclave's certificate is one statement ([feed_policy_enforced]). *)
From Stdlib Require Import Strings.Ascii Strings.String.
From S2P Require Import Prelude GoBytes GoStrings GoRuntime Http RouteTable Policy ProxyCache Sync GoJson.
Local Open Scope string_scope.

(** * Routes *)

Definition zero_route : Route := {|
  SNI := ""; Upstream := ""; AttestationPolicy := ""; State := ""; Canonical := ""; Mode := ""; ProxyProtocol := false;
|}.

Definition set_SNI (r : Route) (v : string) : Route := {|
  SNI := v; Upstream := Upstream r; AttestationPolicy := AttestationPolicy r; State := State r;
  Canonical := Canonical r; Mode := Mode r; ProxyProtocol := ProxyProtocol r |}.
Definition set_Upstream (r : Route) (v : string) : Route := {|
  SNI := SNI r; Upstream := v; AttestationPolicy := AttestationPolicy r; State := State r;
  Canonical := Canonical r; Mode := Mode r; ProxyProtocol := ProxyProtocol r |}.
Definition set_AttestationPolicy (r : Route) (v : string) : Route := {|
  SNI := SNI r; Upstream := Upstream r; AttestationPolicy := v; State := State r;
  Canonical := Canonical r; Mode := Mode r; ProxyProtocol := ProxyProtocol r |}.
Definition set_State (r : Route) (v : string) : Route := {|
  SNI := SNI r; Upstream := Upstream r; AttestationPolicy := AttestationPolicy r; State := v;
  Canonical := Canonical r; Mode := Mode r; ProxyProtocol := ProxyProtocol r |}.
Definition set_Canonical (r : Route) (v : string) : Route := {|
  SNI := SNI r; Upstream := Upstream r; AttestationPolicy := AttestationPolicy r; State := State r;
  Canonical := v; Mode := Mode r; ProxyProtocol := ProxyProtocol r |}.
Definition set_Mode (r : Route) (v : string) : Route := {|
  SNI := SNI r; Upstream := Upstream r; AttestationPolicy := AttestationPolicy r; State := State r;
  Canonical := Canonical r; Mode := v; ProxyProtocol := ProxyProtocol r |}.
Definition set_ProxyProtocol (r : Route) (v : bool) : Route := {|
  SNI := SNI r; Upstream := Upstream r; AttestationPolicy := AttestationPolicy r; State := State r;
  Canonical := Canonical r; Mode := Mode r; ProxyProtocol := v |}.

(** The json tags of Route. *)
Definition route_fields : list (string * setter Route) :=
  [("sni", string_field set_SNI); ("upstream", string_field set_Upstream);
   ("attestation_policy", raw_field set_AttestationPolicy); ("state", string_field set_State);
   ("canonical", string_field set_Canonical); ("mode", string_field set_Mode);
   ("proxy_protocol", bool_field set_ProxyProtocol)].

(** * The feed *)

(** The slice of routes while it is decoded: the cells of its array, those
    beyond its length included, since a member that comes twice is decoded into
    the elements the first one left. *)
Record feed_state := { fs_cells : list Route; fs_len : nat; fs_version : string }.
Definition zero_feed : feed_state := {| fs_cells := []; fs_len := 0; fs_version := "" |}.

Definition store_cell (i : nat) (r : Route) (cells : list Route) : list Route :=
  (if (i <? length cells)%nat then <[i := r]> cells else cells ++ [r])%list.

Fixpoint decode_cells (i : nat) (cells : list Route) (ds : list doc) : option (list Route) :=
  match ds with
  | [] => Some cells
  | d :: ds =>
      match decode_struct route_fields (default zero_route (cells !! i)) d with
      | Some r => decode_cells (S i) (store_cell i r cells) ds
      | None => None
      end
  end.

Definition routes_field : setter feed_state := fun fs _ d =>
  match d with
  | DNull | DArray [] => Some {| fs_cells := []; fs_len := 0; fs_version := fs_version fs |}
  | DArray ds =>
      match decode_cells 0 (fs_cells fs) ds with
      | Some cells => Some {| fs_cells := cells; fs_len := length ds; fs_version := fs_version fs |}
      | None => None
      end
  | _ => None
  end.

Definition set_Version (fs : feed_state) (v : string) : feed_state :=
  {| fs_cells := fs_cells fs; fs_len := fs_len fs; fs_version := v |}.

(** The json tags of RoutesResponse. *)
Definition feed_fields : list (string * setter feed_state) :=
  [("routes", routes_field); ("version", string_field set_Version)].

Definition feed_of (fs : feed_state) : RoutesResponse :=
  {| Routes := take (fs_len fs) (fs_cells fs); RespVersion := fs_version fs |}.

Definition decode_feed (body : string) : option RoutesResponse :=
  match decode_first body with
  | Some d => feed_of <$> decode_struct feed_fields zero_feed d
  | None => None
  end.

(** The text of a decoding error. *)
Class GoJSONErrors := { json_error : string → string }.

#[export] Instance feed_decoder `{GoJSONErrors} : GoRoutesJSON := {|
  decode_routes body := match decode_feed body with Some r => inl r | None => inr (json_error body) end
|}.

(** * Policies *)

Definition policy_fields : list (string * setter PolicyDoc) :=
  [("expected_oids", map_field ExpectedOIDs (fun _ m => {| ExpectedOIDs := m |}))].

#[export] Instance policy_decoder : GoJSON := {|
  unmarshal_policy raw :=
    match unmarshal raw with
    | Some d => decode_struct policy_fields {| ExpectedOIDs := ∅ |} d
    | None => None
    end
|}.

(** * Reference: what the management service writes

    The encoder's view of the same structs, fields with omitempty left out when
    they are zero. *)

Definition if_set (name v : string) : list (string * json) := if String.eqb v "" then [] else [(name, JString v)].

Definition route_json (r : Route) (policy : option json) : json := JObject
  ([("sni", JString (SNI r)); ("upstream", JString (Upstream r))]
   ++ match policy with Some p => [("attestation_policy", p)] | None => [] end
   ++ if_set "state" (State r) ++ if_set "canonical" (Canonical r) ++ if_set "mode" (Mode r)
   ++ if ProxyProtocol r then [("proxy_protocol", JBool true)] else [])%list.

Definition feed_json (rs : list (Route * option json)) (version : string) : json := JObject
  [("routes", JArray (map (fun rp => route_json rp.1 rp.2) rs)); ("version", JString version)].

Definition policy_json (oids : list (string * string)) : json := JObject
  [("expected_oids", JObject (map (fun kv => (kv.1, JString kv.2)) oids))].

(** A route whose strings are valid UTF-8 and whose policy is the given document. *)
Definition feed_route_ok (rp : Route * option json) : Prop :=
  valid_utf8 (SNI rp.1) = true ∧ valid_utf8 (Upstream rp.1) = true ∧ valid_utf8 (State rp.1) = true ∧
  valid_utf8 (Canonical rp.1) = true ∧ valid_utf8 (Mode rp.1) = true ∧
  AttestationPolicy rp.1 = match rp.2 with Some p => encode p | None => "" end ∧
  match rp.2 with Some p => (json_depth p <= 9997)%Z | None => True end.

Lemma decode_if_set {A} (fields : list (string * setter A)) set a k v :
  find_field fields k = Some (string_field set) → to_valid k = k → to_valid v = v →
  decode_members fields a (map doc_member (if_set k v)) = Some (if String.eqb v "" then a else set a v).
Proof.
  intros Hf Hk Hv. unfold if_set. destruct (String.eqb v ""); [done|].
  rewrite (decode_one _ _ _ _ _ Hf Hk). cbn [doc_of string_field]. by rewrite Hv.
Qed.

Lemma decode_route_json r policy :
  feed_route_ok (r, policy) → decode_struct route_fields zero_route (doc_of (route_json r policy)) = Some r.
Proof.
  destruct r as [sni up pol st ca mo pp]. intros (Hs & Hu & Hst & Hc & Hm & Hp & _).
  cbn [fst snd SNI Upstream AttestationPolicy State Canonical Mode] in *. apply valid_utf8_eq in Hs, Hu, Hst, Hc, Hm.
  unfold route_json. cbn [doc_of decode_struct SNI Upstream State Canonical Mode ProxyProtocol].
  change (map (fun kv => (to_valid kv.1, encode kv.2, doc_of kv.2))) with (map doc_member).
  change [("sni", JString sni); ("upstream", JString up)] with ([("sni", JString sni)] ++ [("upstream", JString up)])%list.
  rewrite !map_app, !decode_members_app.
  rewrite (decode_one _ (string_field set_SNI)) by done. cbn [doc_of string_field]. rewrite Hs.
  rewrite (decode_one _ (string_field set_Upstream)) by done. cbn [doc_of string_field]. rewrite Hu.
  rewrite ?decode_members_app.
  assert (decode_members route_fields (set_Upstream (set_SNI zero_route sni) up)
    (map doc_member match policy with Some p => [("attestation_policy", p)] | None => [] end) =
    Some (set_AttestationPolicy (set_Upstream (set_SNI zero_route sni) up) pol)) as ->.
  { destruct policy as [p|]; rewrite Hp; [|done]. by rewrite (decode_one _ (raw_field set_AttestationPolicy)) by done. }
  rewrite ?decode_members_app. rewrite (decode_if_set _ set_State) by done.
  rewrite ?decode_members_app. rewrite (decode_if_set _ set_Canonical) by done.
  rewrite ?decode_members_app.
  rewrite (decode_if_set _ set_Mode) by done.
  destruct (String.eqb_spec st "") as [->|], (String.eqb_spec ca "") as [->|], (String.eqb_spec mo "") as [->|], pp; done.
Qed.

Lemma decode_cells_json rs done_ :
  Forall feed_route_ok rs →
  decode_cells (length done_) done_ (map doc_of (map (fun rp => route_json rp.1 rp.2) rs)) = Some (done_ ++ rs.*1)%list.
Proof.
  intros Hrs. revert done_. induction Hrs as [|[r pol] rs Hr _ IH]; intros dn; cbn [map decode_cells].
  { by rewrite app_nil_r. }
  rewrite lookup_ge_None_2 by done. cbn [default]. cbn [fst snd]. rewrite decode_route_json by done.
  unfold store_cell. rewrite Nat.ltb_irrefl.
  assert (S (length dn) = length (dn ++ [r])%list) as -> by (rewrite length_app; simpl; lia).
  rewrite IH. by rewrite <- app_assoc.
Qed.

Lemma feed_depth rs version : Forall feed_route_ok rs → (json_depth (feed_json rs version) <= maxNestingDepth)%Z.
Proof.
  intros Hrs. unfold feed_json, maxNestingDepth. cbn [json_depth map foldr snd].
  assert (foldr Z.max 0 (map json_depth (map (fun rp => route_json rp.1 rp.2) rs)) <= 9998)%Z; [|lia].
  induction Hrs as [|[r pol] rs Hr _ IH]; [done|]. cbn [map foldr fst snd].
  assert (json_depth (route_json r pol) <= 9998)%Z; [|lia]. destruct Hr as (_ & _ & _ & _ & _ & _ & Hd). cbn [snd] in Hd.
  unfold route_json. cbn [json_depth]. rewrite !map_app, !foldr_app. unfold if_set.
  destruct pol, (String.eqb (State r) ""), (String.eqb (Canonical r) ""), (String.eqb (Mode r) ""), (ProxyProtocol r);
    cbn [map foldr json_depth snd]; lia.
Qed.

Lemma routes_field_json rs text fs :
  Forall feed_route_ok rs → fs_cells fs = [] →
  routes_field fs text (doc_of (JArray (map (fun rp => route_json rp.1 rp.2) rs))) =
  Some {| fs_cells := rs.*1; fs_len := length rs; fs_version := fs_version fs |}.
Proof.
  intros Hrs Hfs. destruct rs as [|rp rs]; [done|]. pose proof (decode_cells_json (rp :: rs) [] Hrs) as Hc.
  cbn [doc_of map routes_field length] in *. rewrite Hfs, Hc. by rewrite !length_map.
Qed.

(** The feed the management service marshals is the feed the gateway decodes:
    every field of every route, in order, and the version; what follows the
    document is not read. *)
Lemma decode_feed_json rs version rest :
  Forall feed_route_ok rs → valid_utf8 version = true → number_end rest = true →
  decode_feed (encode (feed_json rs version) ++ rest) = Some {| Routes := rs.*1; RespVersion := version |}.
Proof.
  intros Hrs Hv Hr. unfold decode_feed. rewrite decode_first_encode by (done || by apply feed_depth).
  unfold feed_json. cbn [doc_of decode_struct].
  change (map (fun kv => (to_valid kv.1, encode kv.2, doc_of kv.2))) with (map doc_member).
  match goal with |- context [map doc_member [?x; ?y]] => change [x; y] with ([x] ++ [y])%list end.
  rewrite map_app, decode_members_app. rewrite (decode_one _ routes_field), routes_field_json by done.
  rewrite (decode_one _ (string_field set_Version)) by done. cbn [doc_of string_field]. rewrite valid_utf8_eq by done.
  unfold feed_of. cbn. f_equal. f_equal. rewrite <- (length_fmap fst rs). apply firstn_all.
Qed.

(** * Policies read back *)

Lemma oids_depth l : (json_depth (JObject (map (fun kv : string * string => (kv.1, JString kv.2)) l)) <= 1)%Z.
Proof.
  cbn [json_depth]. rewrite map_map. induction l as [|kv l IH]; [done|]. simpl in *. lia.
Qed.

Lemma parsePolicy_json oids l :
  l ≡ₚ map_to_list oids → valid_map oids →
  parsePolicy (encode (policy_json l)) = Some {| ExpectedOIDs := oids |}.
Proof.
  intros Hl Hv. unfold parsePolicy. pose proof (encode_nonempty (policy_json l)) as Hne.
  rewrite (proj2 (Z.eqb_neq _ _)) by (unfold slen; lia). cbn [unmarshal_policy policy_decoder].
  rewrite <- (sapp_nil_r (encode _)), unmarshal_encode; [|..|done|done].
  2:{ pose proof (oids_depth l). unfold policy_json, maxNestingDepth. cbn [map foldr snd json_depth] in *. lia. }
  unfold policy_json. cbn [doc_of decode_struct].
  change (map (fun kv => (to_valid kv.1, encode kv.2, doc_of kv.2))) with (map doc_member).
  erewrite decode_one by done. cbn [map_field doc_of].
  change (map (fun kv => (to_valid kv.1, encode kv.2, doc_of kv.2))) with (map doc_member).
  cbn [snd map_field ExpectedOIDs]. by rewrite (decode_map_json oids).
Qed.

(** * From the feed to the certificate check *)

Section polls.
Context `{GoUnicode} `{GoRange} `{GoSort} `{GoJSONErrors} `{GoURL} `{GoX509}.

(** The management service answers the poll with 200 and the given body. *)
Definition answers (w : surroundings) (s : Syncer) (body : string) : Prop :=
  NewRequestErr w = None ∧ Do w (fetch_headers s) = inl {| StatusCode := 200; Body := body |}.

Lemma answers_feed w s body r :
  answers w s body → decode_feed body = Some r → outcome_of s w = Delivered r.
Proof.
  intros [Hn Hd] Hr. unfold outcome_of. rewrite Hn, Hd. cbn [StatusCode Body]. change (200 =? 304)%Z with false.
  change (200 =? 200)%Z with true. cbv iota. cbn [decode_routes feed_decoder]. by rewrite Hr.
Qed.

(** A poll that delivers a new version puts its routes in place. *)
Lemma poll_installs s w body r :
  answers w s body → decode_feed body = Some r → same_version (table s) (feed_version r) = false →
  let s' := (fetchOnce s w).1.1 in
  (∀ host, Lookup (table s') host = last_for (Routes r) (ToLower host)) ∧
  Version (table s') = feed_version r ∧ lastErr s' = None ∧ lastSync s' = Some (Now w) ∧
  Count (table s') = Z.of_nat (length (Routes r)).
Proof.
  intros Ha Hr Hv. pose proof (fetchOnce_outcome s w) as Ho. rewrite (answers_feed w s body r Ha Hr) in Ho.
  destruct Ho as [-> _]. rewrite Update_fresh by done. cbn. split_and!; try done.
  intros host. unfold Lookup. simpl. apply build_map_lookup.
Qed.

(** The feed routes [host] to [r] and demands the extensions [oids] of it. *)
Definition demands (rs : list (Route * option json)) (host : string) (r : Route) (oids : gmap string string) : Prop :=
  last_for rs.*1 (ToLower host) = Some r ∧ valid_map oids ∧
  ∃ l, l ≡ₚ map_to_list oids ∧ (r, Some (policy_json l)) ∈ rs.

Context `{!GoRangeLaws}.

(** A proxy cached under the key of the route was built from the route's policy: the
    key holds eight bytes of its SHA-256, and no other policy with the same ones
    was cached for the app.  (Nothing is asked of a cache without such an entry.) *)
Definition built_from_policy (h : Handler) (r : Route) : Prop :=
  ∀ q, proxies h !! cache_key (Upstream r) (UpstreamName r) (hashPolicy (AttestationPolicy r)) = Some q →
    parsePolicy (AttestationPolicy r) = Some (rp_policy q).

(** The certificates that satisfy a demand: a leaf that parses, with a valid chain
    when a pool is configured and validation is not skipped, and, for every
    identifier, an extension (the last of that identifier) with the value given in
    hexadecimal. *)
Definition satisfies (ca : option CertPool) (skip : bool) (oids : gmap string string) (certs : list bytes) : Prop :=
  ∃ raw chain leaf, certs = raw :: chain ∧ ParseCertificate raw = Some leaf ∧
    (∀ pool, ca = Some pool → skip = false → chain_ok pool (omap ParseCertificate chain) leaf = true) ∧
    ∀ oid hex, oids !! oid = Some hex →
      ∃ l1 arcs v l2, Extensions leaf = (l1 ++ (arcs, v) :: l2)%list ∧ oid_string arcs = oid ∧
        Forall (fun e => oid_string e.1 ≠ oid) l2 ∧ hex_decode (TrimPrefix hex "0x") = Some v.

Lemma proxyFor_policy h r p policy :
  built_from_policy h r → parsePolicy (AttestationPolicy r) = Some policy →
  (proxyFor h r).2 = inl p → rp_policy p = policy.
Proof.
  unfold built_from_policy, cache_key, proxyFor. intros Hb Hp. rewrite !sapp_assoc.
  destruct (proxies h !! _) as [q|].
  - intros [= <-]. specialize (Hb q eq_refl). rewrite Hp in Hb. by injection Hb as ->.
  - rewrite Hp. destruct (url_parse _) as [target|]; [|done]. by intros [= <-].
Qed.

(** C14: The policy travels from the feed to the handshake.  When the
    management service answers a poll with a feed in which a host demands certain
    certificate extensions, then after that poll the host resolves to its route,
    and the proxy for that route, new or cached for the same policy, accepts
    exactly the certificates that parse, chain to the configured pool (when there
    is one and validation is not skipped), and carry, for every identifier
    demanded, an extension with exactly the value the feed gives in hexadecimal:
    nothing is lost between the bytes of the feed and the check, and nothing is
    added.  (The feed is in UTF-8, its policies are not nested deeper than
    encoding/json reads, and its version is given and not the one in place.) *)
Theorem feed_policy_enforced s w rs version rest host r oids h ca skip certs :
  Forall feed_route_ok rs → valid_utf8 version = true → version ≠ "" → number_end rest = true →
  answers w s (encode (feed_json rs version) ++ rest) → same_version (table s) version = false →
  demands rs host r oids → built_from_policy h r →
  Lookup (table (fetchOnce s w).1.1) host = Some r ∧
  ∀ p, (proxyFor h r).2 = inl p →
    makeRATLSVerifier ca skip (Some (rp_policy p)) certs = Accepted ↔ satisfies ca skip oids certs.
Proof.
  intros Hrs Hv Hne Hrest Ha Hnew (Hl & Hm & l & Hperm & Hin) Hbuilt.
  pose proof (decode_feed_json rs version rest Hrs Hv Hrest) as Hd.
  assert (Hfv : feed_version {| Routes := rs.*1; RespVersion := version |} = version).
  { unfold feed_version. cbn. by destruct (String.eqb_spec version ""). }
  destruct (poll_installs s w _ _ Ha Hd) as (Hlook & _); [by rewrite Hfv|]. split; [by rewrite Hlook|].
  rewrite Forall_forall in Hrs. apply Hrs in Hin as (_ & _ & _ & _ & _ & Hp & _). cbn [fst snd] in Hp.
  intros p Hproxy. rewrite (proxyFor_policy h r p {| ExpectedOIDs := oids |}); [apply verifier_accepts|done| |done].
  rewrite Hp. by apply (parsePolicy_json oids).
Qed.

(** A document that has no routes empties the table.  A 200 answer whose
    document is an object without a member called routes, an error document for
    instance, is taken for an empty feed: no error is recorded, the sync counts as
    successful, and no host resolves any more. *)
Theorem document_without_routes_clears s w ms rest :
  (json_depth (JObject ms) <= maxNestingDepth)%Z → number_end rest = true →
  answers w s (encode (JObject ms) ++ rest) →
  Forall (fun kv => find_field feed_fields (to_valid kv.1) = None) ms →
  same_version (table s) (ComputeVersion []) = false →
  let s' := (fetchOnce s w).1.1 in
  (∀ host, Lookup (table s') host = None) ∧ lastErr s' = None ∧ lastSync s' = Some (Now w).
Proof.
  intros Hdepth Hrest Ha Hms Hnew.
  assert (Hd : decode_feed (encode (JObject ms) ++ rest) = Some {| Routes := []; RespVersion := "" |}).
  { unfold decode_feed. rewrite decode_first_encode by done. cbn [doc_of decode_struct].
    change (map (fun kv => (to_valid kv.1, encode kv.2, doc_of kv.2))) with (map doc_member).
    assert (∀ a, decode_members feed_fields a (map doc_member ms) = Some a) as ->; [|done].
    intros a. clear Ha Hdepth. induction Hms as [|[k v] ms Hk _ IH]; [done|]. cbn [map decode_members].
    unfold decode_member, doc_member at 1. cbn [fst snd] in *. by rewrite Hk. }
  destruct (poll_installs s w _ _ Ha Hd) as (Hlook & _ & He & Hs & _); [done|]. split_and!; [|done|done].
  intros host. by rewrite Hlook.
Qed.

End polls.

(** * Concrete feeds *)

(** Names are matched without regard to case, a value of the wrong type is an
    error, a member that comes twice is merged into what the first one left. *)
Example decode_examples :
  (decode_feed ("{" ++ quote "ROUTES" ++ ": [null] } x"),
   decode_feed ("{" ++ quote "routes" ++ ":" ++ quote "a" ++ "}"),
   decode_feed ("{" ++ quote "routes" ++ ":[" ++ encode (JObject [("state", JString "quarantined")]) ++ "]," ++
                       quote "routes" ++ ":[" ++ encode (JObject [("sni", JString "b")]) ++ "]}"),
   decode_feed "null", decode_feed "") =
  (Some {| Routes := [zero_route]; RespVersion := "" |}, None,
   Some {| Routes := [set_SNI (set_State zero_route "quarantined") "b"]; RespVersion := "" |},
   Some {| Routes := []; RespVersion := "" |}, None).
Proof. vm_compute. reflexivity. Qed.

Section witnesses.
#[local] Existing Instances ascii_unicode map_range map_range_laws insertion_sort ex_url ex_x509.
Definition ex_errors : GoJSONErrors := {| json_error _ := "invalid" |}.
#[local] Existing Instance ex_errors.

Definition ex_oids : list (string * string) := [("1.3.6.1", "0x0aff")].
Definition ex_attested : Route := {|
  SNI := "app.example.org"; Upstream := "10.0.0.1:443"; AttestationPolicy := encode (policy_json ex_oids);
  State := ""; Canonical := ""; Mode := ""; ProxyProtocol := false |}.
Definition ex_feed : list (Route * option json) := [(ex_attested, Some (policy_json ex_oids))].
Definition ex_answer (body : string) : surroundings := {|
  NewRequestErr := None; Do := fun _ => inl {| StatusCode := 200; Body := body |}; Now := 1700000000 |}.
Definition ex_empty : Syncer := NewSyncer New "token".
Definition ex_newline : string := chars [10]%nat.

Lemma ex_feed_ok : Forall feed_route_ok ex_feed.
Proof. apply Forall_singleton. repeat split; vm_compute; congruence. Qed.

(** The caches after the proxy of the route was built once. *)
Definition ex_cached : Handler := (proxyFor {| proxies := ∅; muxPools := ∅ |} ex_attested).1.
Definition ex_pinned : upstreamProxy := {|
  policyHash := hashPolicy (AttestationPolicy ex_attested);
  rp_target := {| tu_Scheme := "https"; tu_Host := "10.0.0.1:443"; tu_Path := ""; tu_EscapedPath := ""; tu_RawQuery := "" |};
  rp_dial := "10.0.0.1:443"; rp_name := "app.example.org"; rp_policy := {| ExpectedOIDs := {[ "1.3.6.1" := "0x0aff" ]} |} |}.

Lemma feed_policy_enforced_witness :
  Lookup (table (fetchOnce ex_empty (ex_answer (encode (feed_json ex_feed "v1") ++ ex_newline))).1.1) "APP.example.org" =
    Some ex_attested ∧
  (makeRATLSVerifier None true (Some (rp_policy ex_pinned)) [[x0a; xff]] = Accepted ↔
   satisfies None true {[ "1.3.6.1" := "0x0aff" ]} [[x0a; xff]]).
Proof.
  destruct (feed_policy_enforced ex_empty (ex_answer (encode (feed_json ex_feed "v1") ++ ex_newline)) ex_feed "v1" ex_newline
    "APP.example.org" ex_attested {[ "1.3.6.1" := "0x0aff" ]} ex_cached None true [[x0a; xff]]) as [Hl Ha].
  - exact ex_feed_ok.
  - vm_compute. reflexivity.
  - discriminate.
  - vm_compute. reflexivity.
  - split; reflexivity.
  - vm_compute. reflexivity.
  - split; [vm_compute; reflexivity|split].
    + intros k v Hkv. apply lookup_singleton_Some in Hkv as [<- <-]. split; vm_compute; reflexivity.
    + exists ex_oids. split; [|apply list_elem_of_singleton; reflexivity].
      assert (map_to_list ({[ "1.3.6.1" := "0x0aff" ]} : gmap string string) = ex_oids) as -> by (vm_compute; reflexivity).
      reflexivity.
  - intros q Hq.
    assert (proxies ex_cached !! cache_key (Upstream ex_attested) (UpstreamName ex_attested)
      (hashPolicy (AttestationPolicy ex_attested)) = Some ex_pinned) as E by (vm_compute; reflexivity).
    rewrite E in Hq. injection Hq as <-. vm_compute. reflexivity.
  - split; [exact Hl|]. apply Ha. vm_compute. reflexivity.
Defined.

Lemma document_without_routes_clears_witness :
  let s := (fetchOnce ex_empty (ex_answer (encode (feed_json ex_feed "v1")))).1.1 in
  Lookup (table s) "app.example.org" = Some ex_attested ∧
  Lookup (table (fetchOnce s (ex_answer (encode (JObject [("error", JString "database is down")])))).1.1) "app.example.org" = None.
Proof.
  split; [vm_compute; reflexivity|].
  set (s := (fetchOnce ex_empty (ex_answer (encode (feed_json ex_feed "v1")))).1.1).
  destruct (document_without_routes_clears s (ex_answer (encode (JObject [("error", JString "database is down")])))
    [("error", JString "database is down")] "") as [Hl _].
  - vm_compute. discriminate.
  - reflexivity.
  - split; [reflexivity|]. rewrite sapp_nil_r. reflexivity.
  - apply Forall_singleton. vm_compute. reflexivity.
  - vm_compute. reflexivity.
  - apply Hl.
Defined.

End witnesses.
