(* ===== verification/Health.v ===== *)
(** internal/health (src/internal/health/health.go): the health and readiness
    endpoints, with the JSON they write.

    The Prometheus handler behind /metrics is a third-party package and a
    parameter; [Handler] answers [None] where http.ServeMux answers by itself, with
    a 404 or a redirect to the cleaned path. *)
From Stdlib Require Import Strings.Ascii Strings.String.
From S2P Require Import Prelude GoBytes GoStrings GoRuntime Http RouteTable Sync GoJson GoCodec.
Local Open Scope string_scope.

Record Reply := { r_code : Z; r_type : string; r_body : string }.

(** json.Encoder on a map: its document and a newline. *)
Definition newline : string := chars [10]%nat.
Definition Encode (ms : list (string * json)) : string := encode (JObject (sort_members ms)) ++ newline.

Definition formatTime (t : option Z) : string := match t with None => "never" | Some t => rfc3339 t end.
Definition formatError (e : option string) : string := match e with None => "" | Some e => e end.

Definition handleHealth (s : Syncer) : Reply := {|
  r_code := 200; r_type := "application/json";
  r_body := Encode
    [("status", JString "ok");
     ("routes", JInt (Count (table s)));
     ("quarantined", JInt (QuarantinedCount (table s)));
     ("version", JString (Version (table s)));
     ("last_sync", JString (formatTime (LastSync s)));
     ("last_error", JString (formatError (LastError s)));
     ("syncs", JInt (SyncCount s));
     ("errors", JInt (ErrorCount s))];
|}.

Definition handleReady (s : Syncer) : Reply :=
  match LastSync s with
  | None => {|
      r_code := 503; r_type := "application/json";
      r_body := Encode [("status", JString "not ready"); ("reason", JString "no successful sync yet")] |}
  | Some _ => {| r_code := 200; r_type := "application/json"; r_body := Encode [("status", JString "ready")] |}
  end.

(** The patterns New registers. *)
Definition Handler (metrics : Reply) (s : Syncer) (path : string) : option Reply :=
  if String.eqb path "/healthz" then Some (handleHealth s)
  else if String.eqb path "/readyz" then Some (handleReady s)
  else if String.eqb path "/metrics" then Some metrics
  else None.

(** * What a monitor reads *)

(** The member of a document. *)
Definition member_of (ms : list (string * string * doc)) (k : string) : option doc :=
  snd <$> List.find (fun m => String.eqb m.1.1 k) ms.

(** The report of a syncer, member by member. *)
Lemma handleHealth_reads s :
  ∃ ms, unmarshal (r_body (handleHealth s)) = Some (DObject ms) ∧
    member_of ms "status" = Some (DString "ok") ∧
    member_of ms "routes" = Some (DNumber (itoa (Count (table s)))) ∧
    member_of ms "quarantined" = Some (DNumber (itoa (QuarantinedCount (table s)))) ∧
    member_of ms "version" = Some (DString (to_valid (Version (table s)))) ∧
    member_of ms "last_sync" = Some (DString (to_valid (formatTime (LastSync s)))) ∧
    member_of ms "last_error" = Some (DString (to_valid (formatError (LastError s)))) ∧
    member_of ms "syncs" = Some (DNumber (itoa (SyncCount s))) ∧
    member_of ms "errors" = Some (DNumber (itoa (ErrorCount s))).
Proof.
  cbn [handleHealth r_body]. unfold Encode. rewrite unmarshal_encode by done.
  eexists. split; [reflexivity|]. split_and!; reflexivity.
Qed.

Section health.
Context `{GoUnicode} `{GoRange} `{GoSort} `{GoRoutesJSON}.

(** The clock of a poll shows a year of four digits. *)
Definition clock_ok (w : surroundings) : Prop := (0 <= (civil (Now w / 86400)).1.1 < 10000)%Z.

Lemma last_success_clock s ws t :
  Forall clock_ok ws → last_success s ws = Some t → (0 <= (civil (t / 86400)).1.1 < 10000)%Z.
Proof.
  intros Hc Hl. unfold last_success in Hl. apply last_Some_elem_of in Hl.
  apply list_elem_of_omap in Hl as ([o w] & Hin & Hf). cbn in Hf. destruct (failed o); [done|]. injection Hf as <-.
  apply elem_of_zip_r in Hin. rewrite Forall_forall in Hc. by apply Hc.
Qed.

(** C38: The health endpoints tell the truth, in JSON.  After any sequence of
    polls, the document /healthz answers is well formed and a monitor reads from it
    the number of routes and of quarantined routes of the very feed whose entries
    the table serves, the version of that table, the number of polls and of failed
    polls, a last error exactly when the last poll failed, and as last sync the
    time of the last poll that did not fail, or never; /readyz answers 200 exactly
    when some poll has succeeded, and 503 before.  (The clock shows years of four
    digits, there are fewer than 2^63 polls, and the table they start from is that
    of some feed, such as the empty one of New.) *)
Theorem health_truthful metrics rs0 t0 tok ws :
  (Z.of_nat (length ws) < 2 ^ 63)%Z → Forall clock_ok ws → table_of_feed rs0 t0 →
  let s := Run (NewSyncer t0 tok) ws in
  let os := history (NewSyncer t0 tok) ws in
  (∃ r ms rs, Handler metrics s "/healthz" = Some r ∧ r_code r = 200%Z ∧ r_type r = "application/json" ∧
     unmarshal (r_body r) = Some (DObject ms) ∧ member_of ms "status" = Some (DString "ok") ∧
     (∀ host, Lookup (table s) host = last_for rs (ToLower host)) ∧
     Count (table s) = Z.of_nat (length rs) ∧
     QuarantinedCount (table s) = Z.of_nat (length (filter (fun r => Quarantined r = true) rs)) ∧
     member_of ms "routes" = Some (DNumber (itoa (Count (table s)))) ∧
     member_of ms "quarantined" = Some (DNumber (itoa (QuarantinedCount (table s)))) ∧
     member_of ms "version" = Some (DString (to_valid (Version (table s)))) ∧
     member_of ms "syncs" = Some (DNumber (itoa (Z.of_nat (length ws)))) ∧
     member_of ms "errors" = Some (DNumber (itoa (Z.of_nat (length (filter (fun o => failed o = true) os))))) ∧
     (last os ≠ Some Failed → member_of ms "last_error" = Some (DString "")) ∧
     (last os = Some Failed → ∃ msg, lastErr s = Some msg ∧ member_of ms "last_error" = Some (DString (to_valid msg))) ∧
     match last_success (NewSyncer t0 tok) ws with
     | None => member_of ms "last_sync" = Some (DString "never")
     | Some t => ∃ text, member_of ms "last_sync" = Some (DString text) ∧ parse_rfc3339 text = Some t
     end) ∧
  ∃ r, Handler metrics s "/readyz" = Some r ∧
    r_code r = match last_success (NewSyncer t0 tok) ws with Some _ => 200 | None => 503 end%Z.
Proof.
  intros Hlen Hclock Hfeed. cbv zeta. destruct (polls_feed rs0 t0 tok ws Hfeed) as (rs & Hlast & Hcount & Hquar).
  destruct (polls_figures t0 tok ws Hlen) as (Hs & He & Hl & Ht).
  set (s := Run (NewSyncer t0 tok) ws) in *. split.
  - destruct (handleHealth_reads s) as (ms & Hu & Hst & Hr & Hq & Hv & Hls & Hle & Hsy & Her).
    exists (handleHealth s), ms, rs. rewrite Hs in Hsy. rewrite He in Her.
    split_and!; try done.
    + intros host. apply Hlast.
    + intros Hne. rewrite Hle. destruct (LastError s) as [msg|]; [|done]. exfalso. apply Hne, Hl. eauto.
    + intros Hf. apply Hl in Hf as [msg Hm]. exists msg. split; [done|]. rewrite Hle. by rewrite Hm.
    + rewrite Ht in Hls. destruct (last_success _ ws) as [t|] eqn:E; [|done].
      pose proof (last_success_clock _ _ _ Hclock E) as Hy. cbn [formatTime] in Hls.
      rewrite ascii_valid in Hls by (by apply rfc3339_ascii). exists (rfc3339 t). split; [done|].
      by apply parse_rfc3339_format.
  - exists (handleReady s). split; [done|]. unfold handleReady. rewrite Ht. by destruct (last_success _ ws).
Qed.

End health.

(** * A concrete report *)

Section witnesses.
Import RouteTableExamples.
#[local] Existing Instance ex_decoder.

(** The bytes of a report. *)
Example handleHealth_bytes :
  r_body (handleReady ex_syncer) =
  "{" ++ quote "reason" ++ ":" ++ quote "no successful sync yet" ++ "," ++ quote "status" ++ ":" ++ quote "not ready" ++ "}" ++ newline.
Proof. vm_compute. reflexivity. Qed.

Lemma health_truthful_witness :
  ∃ r ms text, Handler {| r_code := 200; r_type := ""; r_body := "" |} (Run ex_syncer ex_polls) "/healthz" = Some r ∧
    unmarshal (r_body r) = Some (DObject ms) ∧
    member_of ms "quarantined" = Some (DNumber "1") ∧ member_of ms "routes" = Some (DNumber "1") ∧
    member_of ms "syncs" = Some (DNumber "6") ∧ member_of ms "errors" = Some (DNumber "3") ∧
    member_of ms "last_sync" = Some (DString text) ∧ parse_rfc3339 text = Some 1700000000%Z.
Proof.
  destruct (health_truthful {| r_code := 200; r_type := ""; r_body := "" |} [] (OnQuarantine New) "token" ex_polls) as
    [(r & ms & rs & Hh & _ & _ & Hu & _ & _ & _ & _ & Hr & Hq & _ & Hs & He & _ & _ & Ht) _].
  - vm_compute. reflexivity.
  - repeat constructor; vm_compute; discriminate.
  - by split_and!.
  - assert (last_success (NewSyncer (OnQuarantine New) "token") ex_polls = Some 1700000000%Z) as E by (vm_compute; reflexivity).
    rewrite E in Ht. destruct Ht as (text & Ht & Hp). exists r, ms, text.
    split; [exact Hh|split; [exact Hu|split; [exact Hq|split; [exact Hr|
      split; [exact Hs|split; [exact He|split; [exact Ht|exact Hp]]]]]]].
Defined.

End witnesses.
