(* ===== verification/Authz.v ===== *)
(** internal/tunnel/authz.go: asking the management service whether an enclave may
    open a tunnel.

    [Authorize] of Tunnel.v is written against an encoder and a decoder; here they
    are those of encoding/json on the structs of accept.go and authz.go.  What the
    service reads back is the request itself ([marshal_auth_read]), so that its
    decision is about exactly what the enclave sent ([authorize_decides]). *)
From Stdlib Require Import Strings.Ascii Strings.String.
From S2P Require Import Prelude GoBytes GoStrings GoRuntime Effects Http GoJson GoCodec Tunnel.
From S2P Require Proxy.
Local Open Scope string_scope.

Definition AuthorizePath : string := "/api/v1/internal/tunnel/authorize".

Record MgmtAuthorizer := { m_url : string; m_token : string }.
Definition NewMgmtAuthorizer (mgmtURL token : string) : MgmtAuthorizer :=
  {| m_url := TrimRightChar mgmtURL "/" ++ AuthorizePath; m_token := token |}.

(** json.Marshal of an AuthRequest: a []byte is written in base64, a map in the
    order of its keys. *)
Definition headers_json (h : gmap string string) : json :=
  JObject (sort_members (map (fun kv => (kv.1, JString kv.2)) (map_to_list h))).
Definition marshal_auth (ar : AuthRequest) : string := encode (JObject
  [("method", JString (ar_Method ar)); ("path", JString (ar_Path ar)); ("headers", headers_json (ar_Headers ar));
   ("body", JString (b64_encode (of_string (ar_Body ar)))); ("remote_addr", JString (ar_RemoteAddr ar))]).

(** json.Unmarshal into an authorizeResponse. *)
Definition unmarshal_answer (raw : string) : option string :=
  match unmarshal raw with
  | Some d => decode_struct [("enclave_id", string_field (fun _ v => v))] "" d
  | None => None
  end.

(** The HTTP exchange: whether the request could be built, and what the service
    answers to a request to the URL with these headers and this body. *)
Record exchange := { x_new : bool; x_do : string → Header → string → option (Z * string) }.

Definition mgmt_env (m : MgmtAuthorizer) (x : exchange) : auth_env := {|
  Marshal ar := Some (marshal_auth ar); NewRequest := x_new x; Do := x_do x (m_url m); Unmarshal := unmarshal_answer;
|}.

Definition MgmtAuthorize (m : MgmtAuthorizer) (x : exchange) (ar : AuthRequest) : option string :=
  Authorize (m_token m) (mgmt_env m x) ar.

(** * Reference: the service's side *)

Definition bytes_field {A} (set : A → string → A) : setter A := fun a _ d =>
  match d with DString s => match b64_decode s with Some b => Some (set a (to_string b)) | None => None end | DNull => Some a | _ => None end.

Definition zero_request : AuthRequest :=
  {| ar_Method := ""; ar_Path := ""; ar_Headers := ∅; ar_Body := ""; ar_RemoteAddr := "" |}.
Definition set_Method (a : AuthRequest) (v : string) : AuthRequest := {|
  ar_Method := v; ar_Path := ar_Path a; ar_Headers := ar_Headers a; ar_Body := ar_Body a; ar_RemoteAddr := ar_RemoteAddr a |}.
Definition set_Path (a : AuthRequest) (v : string) : AuthRequest := {|
  ar_Method := ar_Method a; ar_Path := v; ar_Headers := ar_Headers a; ar_Body := ar_Body a; ar_RemoteAddr := ar_RemoteAddr a |}.
Definition set_Headers (a : AuthRequest) (v : gmap string string) : AuthRequest := {|
  ar_Method := ar_Method a; ar_Path := ar_Path a; ar_Headers := v; ar_Body := ar_Body a; ar_RemoteAddr := ar_RemoteAddr a |}.
Definition set_Body (a : AuthRequest) (v : string) : AuthRequest := {|
  ar_Method := ar_Method a; ar_Path := ar_Path a; ar_Headers := ar_Headers a; ar_Body := v; ar_RemoteAddr := ar_RemoteAddr a |}.
Definition set_RemoteAddr (a : AuthRequest) (v : string) : AuthRequest := {|
  ar_Method := ar_Method a; ar_Path := ar_Path a; ar_Headers := ar_Headers a; ar_Body := ar_Body a; ar_RemoteAddr := v |}.

(** The json tags of AuthRequest. *)
Definition auth_fields : list (string * setter AuthRequest) :=
  [("method", string_field set_Method); ("path", string_field set_Path); ("headers", map_field ar_Headers set_Headers);
   ("body", bytes_field set_Body); ("remote_addr", string_field set_RemoteAddr)].

Definition read_request (body : string) : option AuthRequest :=
  match unmarshal body with Some d => decode_struct auth_fields zero_request d | None => None end.

(** A request whose strings, other than the body, are valid UTF-8. *)
Definition request_ok (ar : AuthRequest) : Prop :=
  valid_utf8 (ar_Method ar) = true ∧ valid_utf8 (ar_Path ar) = true ∧ valid_utf8 (ar_RemoteAddr ar) = true ∧
  valid_map (ar_Headers ar).

Lemma headers_depth h : (json_depth (headers_json h) <= 1)%Z.
Proof.
  unfold headers_json. cbn [json_depth].
  assert (∀ ms : list (string * json), Forall (fun kv => json_depth kv.2 = 0%Z) ms →
    (foldr Z.max 0 (map (fun kv => json_depth kv.2) ms) <= 0)%Z) as Hf.
  { intros ms Hms. induction Hms as [|kv ms Hk _ IH]; [done|]. cbn [map foldr]. lia. }
  assert (Forall (fun kv : string * json => json_depth kv.2 = 0%Z)
    (sort_members (map (fun kv => (kv.1, JString kv.2)) (map_to_list h)))) as Ha.
  { rewrite sort_members_perm. apply Forall_forall. intros kv (x & -> & _)%list_elem_of_fmap. done. }
  specialize (Hf _ Ha). lia.
Qed.

Lemma map_field_headers {A} get (set : A → gmap string string → A) a text h :
  get a = ∅ → valid_map h → map_field get set a text (doc_of (headers_json h)) = Some (set a h).
Proof.
  intros Hg Hv. unfold headers_json. cbn [doc_of map_field]. rewrite Hg.
  change (map (fun kv => (to_valid kv.1, encode kv.2, doc_of kv.2))) with (map doc_member).
  destruct (Permutation_map_inv (fun kv : string * string => (kv.1, JString kv.2)) (map_to_list h)
    (sort_members_perm (map (fun kv => (kv.1, JString kv.2)) (map_to_list h)))) as (l & -> & Hl).
  by rewrite (decode_map_json h l).
Qed.

(** What the gateway posts reads back as the request: method, path, the
    enclave's headers, the remote address, and the body byte for byte. *)
Lemma marshal_auth_read ar : request_ok ar → read_request (marshal_auth ar) = Some ar.
Proof.
  destruct ar as [me pa he bo re]. intros (Hm & Hp & Hr & Hh). cbn in Hm, Hp, Hr, Hh. apply valid_utf8_eq in Hm, Hp, Hr.
  unfold read_request, marshal_auth. cbn [ar_Method ar_Path ar_Headers ar_Body ar_RemoteAddr].
  rewrite <- (sapp_nil_r (encode _)), unmarshal_encode; [|..|done|done].
  2:{ pose proof (headers_depth he). unfold maxNestingDepth. cbn [json_depth map foldr snd] in *. lia. }
  set (hj := headers_json he). cbn [doc_of decode_struct].
  change (map (fun kv => (to_valid kv.1, encode kv.2, doc_of kv.2))) with (map doc_member).
  match goal with |- context [map doc_member [?a; ?b; ?c; ?d; ?e]] =>
    change [a; b; c; d; e] with ([a] ++ [b] ++ [c] ++ [d] ++ [e])%list end.
  rewrite !map_app, decode_members_app, (decode_one _ (string_field set_Method)) by done.
  cbn [doc_of string_field]. rewrite Hm.
  rewrite decode_members_app, (decode_one _ (string_field set_Path)) by done. cbn [doc_of string_field]. rewrite Hp.
  rewrite decode_members_app, (decode_one _ (map_field ar_Headers set_Headers)) by done. unfold hj.
  rewrite map_field_headers by done.
  rewrite decode_members_app, (decode_one _ (bytes_field set_Body)) by done. cbn [doc_of bytes_field].
  rewrite ascii_valid, b64_roundtrip, to_of_string by apply b64_ascii.
  rewrite (decode_one _ (string_field set_RemoteAddr)) by done. cbn [doc_of string_field]. by rewrite Hr.
Qed.

(** * The decision is the service's *)

(** A management service that decides on the URL, the headers and the request it reads. *)
Definition service := string → Header → option AuthRequest → option (Z * string).
Definition exchange_with (ok : bool) (sv : service) : exchange :=
  {| x_new := ok; x_do url h body := sv url h (read_request body) |}.

(** An enclave id comes back exactly when the service answered 200 with it, not
    empty, to the very request; every failure on the way is a refusal. *)
Lemma authorize_decides m ok sv ar id :
  request_ok ar →
  MgmtAuthorize m (exchange_with ok sv) ar = Some id ↔
  ok = true ∧ id ≠ "" ∧ ∃ raw, sv (m_url m) (authorize_headers (m_token m)) (Some ar) = Some (200%Z, raw) ∧
    unmarshal_answer raw = Some id.
Proof.
  intros Har. unfold MgmtAuthorize, Authorize. cbn [mgmt_env Marshal NewRequest Do Unmarshal exchange_with x_new x_do].
  rewrite marshal_auth_read by done. destruct ok; [|naive_solver]. cbn [negb].
  destruct (sv _ _ (Some ar)) as [[code raw]|]; [|naive_solver].
  destruct (Z.eqb_spec code 200) as [->|]; cbn [negb]; [|naive_solver].
  destruct (unmarshal_answer raw) as [i|] eqn:E; [|naive_solver].
  destruct (String.eqb_spec i "") as [->|]; naive_solver.
Qed.

Section admission.
Context `{GoRange} `{!GoRangeLaws}.

(** A run whose authorizer is the management service, and whose requests are as
    http.ReadRequest leaves them, with canonical keys, and carry attestation
    headers in UTF-8. *)
Definition asks (m : MgmtAuthorizer) (sv : service) (e : event ans) : Prop :=
  match e with
  | existT (OAuthorize ar) a => ∃ ok, a = MgmtAuthorize m (exchange_with ok sv) ar
  | existT OReadRequest (Some req) =>
      valid_map (authHeaders (ReqHeader req)) ∧ ∀ k vs, ReqHeader req !! k = Some vs → CanonicalHeaderKey k = k
  | _ => True
  end.

(** What a run read from the enclave: its requests and their bodies. *)
Definition request_read (e : event ans) : list (option Request) :=
  match e with existT OReadRequest a => [a] | _ => [] end.
Definition body_read (e : event ans) : list (option string) :=
  match e with existT (OReadBody _) a => [a] | _ => [] end.

(** The request the service is asked about: of the headers the enclave sent, the
    first values of those whose names start with X-Enclave-. *)
Definition asked_about (req : Request) (body remote : string) (ar : AuthRequest) : Prop :=
  ar_Method ar = Method req ∧ ar_Path ar = Path req ∧ ar_Body ar = body ∧ ar_RemoteAddr ar = remote ∧
  ∀ k v, ar_Headers ar !! k = Some v ↔
    (∃ rest, k = "X-Enclave-" ++ rest) ∧ ∃ vs, ReqHeader req !! k = Some (v :: vs).

(** C11: No tunnel without the management service's word.  A session is
    registered under an enclave id only if the management service, asked at its
    URL with the gateway's bearer about exactly the request the enclave sent (the
    one request and the one body read from this connection: method and path, which
    are those the gateway insists on, its X-Enclave- headers, its body byte for
    byte, its address), answered 200 with a document that names this id; whatever
    else fails or is answered, nothing is registered.  (The enclave's attestation
    headers and address are in UTF-8.) *)
Theorem tunnel_admission m sv remote hello tr id s :
  trace (Handle remote hello) tr tt → Forall (asks m sv) tr → valid_utf8 remote = true →
  ev (ORegister id s) tt ∈ tr →
  id ≠ "" ∧ ∃ req body ar raw,
    flat_map request_read tr = [Some req] ∧ flat_map body_read tr = [Some body] ∧
    Method req = "POST" ∧ Path req = TunnelPath ∧ (slen body <= maxRequestBody)%Z ∧
    asked_about req body remote ar ∧
    sv (m_url m) (authorize_headers (m_token m)) (Some ar) = Some (200%Z, raw) ∧
    unmarshal_answer raw = Some id.
Proof.
  intros Ht Hasks Hremote Hreg.
  destruct (Handle_admits remote hello tr Ht) as [Hn|(req & body & i & pending & s' & Hup & Hb & _ & ->)].
  { exfalso. rewrite forallb_forall in Hn. apply list_elem_of_In, Hn in Hreg. done. }
  assert (id = i) as ->.
  { repeat (apply elem_of_cons in Hreg as [E|Hreg]; [inversion E; done|]). by apply not_elem_of_nil in Hreg. }
  do 2 apply Forall_cons in Hasks as [_ Hasks]. apply Forall_cons in Hasks as [[Hv Hcan] Hasks].
  apply Forall_cons in Hasks as [_ Hasks]. apply Forall_cons in Hasks as [[ok Ha] _].
  unfold valid_upgrade in Hup. apply andb_true_iff in Hup as [[Hm%String.eqb_eq Hp%String.eqb_eq]%andb_true_iff _].
  symmetry in Ha. apply authorize_decides in Ha as (_ & Hid & raw & Hsv & Hraw); [|split; [reflexivity|split; [reflexivity|by split]]].
  split; [done|]. eexists req, body, _, raw. split_and!; [done..| |done|done].
  split_and!; try done. intros k v. by apply authHeaders_spec.
Qed.

End admission.

(** * A concrete admission *)

Section witnesses.
#[local] Existing Instances map_range map_range_laws.

Definition ex_mgmt : MgmtAuthorizer := NewMgmtAuthorizer "https://mgmt.example.org//" "secret".

(** A service that vouches for the enclave named in the X-Enclave-Id header. *)
Definition ex_service : service := fun _ _ r =>
  match r with
  | Some ar =>
      match ar_Headers ar !! "X-Enclave-Id" with
      | Some id => Some (200%Z, encode (JObject [("enclave_id", JString id)]) ++ chars [10]%nat)
      | None => Some (403%Z, "no enclave")
      end
  | None => Some (400%Z, "bad request")
  end.

Definition ex_ask (o : op) (_ : unit) : ans o * unit :=
  (match o return ans o with
   | OHandshake _ | OWrite _ => true
   | ONegotiated => Proxy.ALPN
   | OReadRequest => Some ex_upgrade
   | OReadBody _ => Some (chars [123; 0; 255; 125]%nat)
   | OAuthorize ar => MgmtAuthorize ex_mgmt (exchange_with true ex_service) ar
   | OBuffered => []
   | OYamuxClient _ => Some 4%nat
   | _ => tt
   end, tt).

Definition ex_admission : list (event ans) := (prun ex_ask (Handle "198.51.100.1:5000" []) tt).1.1.

Example mgmt_url : m_url ex_mgmt = "https://mgmt.example.org/api/v1/internal/tunnel/authorize".
Proof. reflexivity. Qed.

Lemma ex_headers_canonical k vs : ex_headers !! k = Some vs → CanonicalHeaderKey k = k.
Proof.
  intros Hk. apply elem_of_list_to_map_2 in Hk.
  repeat (apply elem_of_cons in Hk as [[= -> ->]|Hk]; [vm_compute; reflexivity|]). by apply not_elem_of_nil in Hk.
Qed.

Lemma tunnel_admission_witness : ∃ ar raw,
  ar_Body ar = chars [123; 0; 255; 125]%nat ∧ ar_Headers ar !! "X-Enclave-Id" = Some "e1" ∧
  ex_service (m_url ex_mgmt) (authorize_headers (m_token ex_mgmt)) (Some ar) = Some (200%Z, raw) ∧
  unmarshal_answer raw = Some "e1".
Proof.
  destruct (tunnel_admission ex_mgmt ex_service "198.51.100.1:5000" [] ex_admission "e1" 4)
    as (_ & req & body & ar & raw & Hreq & Hbody & _ & _ & _ & (_ & _ & Hb & _ & Hh) & Hsv & Hraw).
  - exact (prun_trace_unit ex_ask (Handle "198.51.100.1:5000" []) tt).
  - unfold ex_admission.
    assert (Hh : authHeaders ex_headers = {[ "X-Enclave-Id" := "e1" ]}) by (vm_compute; reflexivity).
    repeat (apply Forall_cons; split); try apply Forall_nil; try exact I.
    + change (valid_map (authHeaders ex_headers) ∧ ∀ k vs, ex_headers !! k = Some vs → CanonicalHeaderKey k = k).
      split; [rewrite Hh; intros k v Hkv; apply lookup_singleton_Some in Hkv as [<- <-]; split; vm_compute; reflexivity|].
      exact ex_headers_canonical.
    + exists true. reflexivity.
  - vm_compute. reflexivity.
  - apply (list_elem_of_lookup_2 _ 9%nat). vm_compute. reflexivity.
  - exists ar, raw. vm_compute in Hbody. injection Hbody as <-. split; [exact Hb|]. split; [|split; [exact Hsv|exact Hraw]].
    assert (flat_map request_read ex_admission = [Some ex_upgrade]) as E by (vm_compute; reflexivity).
    rewrite E in Hreq. injection Hreq as <-. apply Hh. split; [exists "Id"; reflexivity|]. exists ["e9"]. vm_compute. reflexivity.
Defined.

End witnesses.
