(* ===== verification/TunnelSystem.v ===== *)
(** Tunnels in the running gateway: any number of acceptors (Handle of
    src/internal/tunnel/accept.go) and dials (Open of tunnel.go) share one
    registry, while sessions close under them.

    An acceptor is the program of Tunnel.v, run one operation at a time; what the
    network, TLS and the management service answer is chosen by the event.  A dial
    is Open with its goroutines: OpenStream runs in one, the caller waits for it or
    for its context, and a stream that arrives too late is closed by a second one.
    A session can close at any moment, the clock moves between events. *)
From Stdlib Require Import Strings.Ascii Strings.String.
From S2P Require Import Prelude GoBytes GoStrings GoRuntime Effects Http Tunnel.
From S2P Require Proxy.
Local Open Scope Z_scope.

(** * State *)

(** A thread of Handle: where it started, what is left of it, what it did, and
    what the closure of Register captured while it is to be called. *)
Record acceptor := {
  a_remote : string; a_hello : bytes; a_rest : prog ans unit; a_tr : list (event ans); a_key : option (string * nat);
}.

Inductive dial_pc : Type :=
| DPick                                 (* r.pick *)
| DWait (s : nat)                       (* OpenStream runs, the caller selects *)
| DReady (s st : nat)                   (* the stream is in the channel *)
| DFailed                               (* the error is in the channel *)
| DLate (s : nat)                       (* the caller left with ctx.Err(), OpenStream runs *)
| DLateReady (st : nat)                 (* the stream arrived after the caller left *)
| DPreamble (s st : nat)                (* the caller has the stream *)
| DDone (r : dialed_conn + dial_error)
| DReleased.                            (* the caller closed its connection *)

Record dial := { d_id : string; d_addr : string; d_at : dial_pc }.
Definition at_dial (d : dial) (pc : dial_pc) : dial := {| d_id := d_id d; d_addr := d_addr d; d_at := pc |}.

Record tunnels := {
  reg : Registry;
  closed : gset nat;             (* sessions that are closed *)
  sess_next : nat;               (* session and stream numbers given out *)
  stream_next : nat;
  streams : gmap nat nat;        (* open streams and their sessions *)
  acceptors : list acceptor;
  dials : list dial;
  clock : Z;
}.

Definition boot : tunnels := {|
  reg := NewRegistry; closed := ∅; sess_next := O; stream_next := O; streams := ∅; acceptors := []; dials := []; clock := 0;
|}.

Definition set_acceptors (t : tunnels) (l : list acceptor) : tunnels := {|
  reg := reg t; closed := closed t; sess_next := sess_next t; stream_next := stream_next t; streams := streams t;
  acceptors := l; dials := dials t; clock := clock t |}.
Definition set_dials (t : tunnels) (m : gmap nat nat) (l : list dial) : tunnels := {|
  reg := reg t; closed := closed t; sess_next := sess_next t; stream_next := stream_next t; streams := m;
  acceptors := acceptors t; dials := l; clock := clock t |}.
Definition set_reg (t : tunnels) (r : Registry) : tunnels := {|
  reg := r; closed := closed t; sess_next := sess_next t; stream_next := stream_next t; streams := streams t;
  acceptors := acceptors t; dials := dials t; clock := clock t |}.

(** * Events *)

(** What happens to a dial. *)
Inductive dial_event : Type :=
| EvStep           (* the caller, or the goroutine that closes a late stream, goes on *)
| EvOpened         (* OpenStream returns a stream *)
| EvOpenError      (* OpenStream returns an error *)
| EvDone           (* ctx is done *)
| EvWriteError     (* the preamble cannot be written *)
| EvRelease.       (* the caller closes the connection it got *)

Inductive tevent : Type :=
| TConnect (remote : string) (hello : bytes)   (* a tunnel connection arrives *)
| TAccept (j : nat) (answers : ∀ o : op, ans o) (* an acceptor's next operation *)
| TDial (id addr : string)                     (* Open is called *)
| TDialStep (j : nat) (e : dial_event)
| TClose (s : nat)                             (* a session closes *)
| TTick (dt : nat).

Section exec.
Context `{GoRange}.

(** The operation [o] of an acceptor: its answer and its effect. *)
Definition accept_op (t : tunnels) (a : acceptor) (o : op) (answer : ans o) : option (ans o * tunnels * option (string * nat)) :=
  match o return ans o → option (ans o * tunnels * option (string * nat)) with
  | OYamuxClient _ => fun r =>
      match r with
      | None => Some (None, t, a_key a)
      | Some _ => Some (Some (sess_next t), {|
          reg := reg t; closed := closed t; sess_next := S (sess_next t); stream_next := stream_next t;
          streams := streams t; acceptors := acceptors t; dials := dials t; clock := clock t |}, a_key a)
      end
  | ORegister id s => fun _ =>
      let '(r, key) := Register (reg t) id s (clock t) in Some (tt, set_reg t r, Some key)
  | OWaitClosed s => fun _ => if decide (s ∈ closed t) then Some (tt, t, a_key a) else None
  | OUnregister _ _ => fun _ =>
      match a_key a with
      | Some key => Some (tt, set_reg t (unregister (reg t) key), None)
      | None => None
      end
  | _ => fun r => Some (r, t, a_key a)
  end answer.

Definition exec_accept (t : tunnels) (j : nat) (answers : ∀ o : op, ans o) : option tunnels :=
  match acceptors t !! j with
  | Some a =>
      match a_rest a with
      | PRet _ => None
      | PDo o k =>
          match accept_op t a o (answers o) with
          | Some (r, t, key) => Some (set_acceptors t (<[j := {|
              a_remote := a_remote a; a_hello := a_hello a; a_rest := k r; a_tr := a_tr a ++ [ev o r]; a_key := key |}]>
              (acceptors t)))
          | None => None
          end
      end
  | None => None
  end.

(** One event of a dial: the new place and the change to the open streams. *)
Definition dial_next (t : tunnels) (d : dial) (e : dial_event) : option (dial_pc * gmap nat nat) :=
  match d_at d, e with
  | DPick, EvStep =>
      match pick (reg t) (fun s => bool_decide (s ∈ closed t)) (d_id d) with
      | None => Some (DDone (inr ErrNoTunnel), streams t)
      | Some s => Some (DWait s, streams t)
      end
  | DWait s, EvOpened =>
      Some (DReady s (stream_next t), <[stream_next t := s]> (streams t))
  | DWait s, EvOpenError => Some (DFailed, streams t)
  | DWait s, EvDone => Some (DLate s, streams t)
  | DReady s st, EvStep => Some (DPreamble s st, streams t)
  | DReady s st, EvDone => Some (DLateReady st, streams t)
  | DFailed, EvStep => Some (DDone (inr ErrOpenStream), streams t)
  | DFailed, EvDone => Some (DDone (inr ErrContext), streams t)
  | DLate s, EvOpened =>
      Some (DLateReady (stream_next t), <[stream_next t := s]> (streams t))
  | DLate s, EvOpenError => Some (DDone (inr ErrContext), streams t)
  | DLateReady st, EvStep => Some (DDone (inr ErrContext), delete st (streams t))
  | DPreamble s st, EvStep => Some (DDone (inl (TunnelConn s st (writePreamble (d_addr d)))), streams t)
  | DPreamble s st, EvWriteError => Some (DDone (inr ErrPreamble), delete st (streams t))
  | DDone (inl (TunnelConn s st _)), EvRelease => Some (DReleased, delete st (streams t))
  | _, _ => None
  end.

(** The number a dial used for a stream is not used again. *)
Definition exec_dial (t : tunnels) (j : nat) (e : dial_event) : option tunnels :=
  match dials t !! j with
  | Some d =>
      match dial_next t d e with
      | Some (pc, m) => Some {|
          reg := reg t; closed := closed t; sess_next := sess_next t; stream_next := S (stream_next t); streams := m;
          acceptors := acceptors t; dials := <[j := at_dial d pc]> (dials t); clock := clock t |}
      | None => None
      end
  | None => None
  end.

Definition exec (t : tunnels) (e : tevent) : option tunnels :=
  match e with
  | TConnect remote hello => Some (set_acceptors t (acceptors t ++ [{|
      a_remote := remote; a_hello := hello; a_rest := Handle remote hello; a_tr := []; a_key := None |}]))
  | TAccept j answers => exec_accept t j answers
  | TDial id addr => Some (set_dials t (streams t) (dials t ++ [{| d_id := id; d_addr := addr; d_at := DPick |}]))
  | TDialStep j e => exec_dial t j e
  | TClose s => if (sess_next t <=? s)%nat then None else Some {|
      reg := reg t; closed := {[s]} ∪ closed t; sess_next := sess_next t; stream_next := stream_next t; streams := streams t;
      acceptors := acceptors t; dials := dials t; clock := clock t |}
  | TTick dt => Some {|
      reg := reg t; closed := closed t; sess_next := sess_next t; stream_next := stream_next t; streams := streams t;
      acceptors := acceptors t; dials := dials t; clock := clock t + Z.of_nat dt |}
  end.

Fixpoint run (t : tunnels) (es : list tevent) : option tunnels :=
  match es with
  | [] => Some t
  | e :: es => match exec t e with Some t => run t es | None => None end
  end.

End exec.

(** * What an acceptor has done *)

(** An answer for every operation. *)
Definition some_answer (o : op) : ans o :=
  match o return ans o with
  | OHandshake _ | OWrite _ => false
  | ONegotiated => ""%string
  | OReadRequest | OReadBody _ | OAuthorize _ | OYamuxClient _ => None
  | OBuffered => []
  | _ => tt
  end.

Lemma prefix_lookup {A} (l ext L : list A) i : l ++ ext = L → (i < length l)%nat → l !! i = L !! i.
Proof. intros <- Hi. by rewrite lookup_app_l. Qed.

Section traces.
Context `{GoRange}.

(** A thread that did [a_tr] and has [a_rest] left. *)
Definition on_track (a : acceptor) : Prop :=
  ∀ ext, trace (a_rest a) ext tt → trace (Handle (a_remote a) (a_hello a)) (a_tr a ++ ext) tt.

(** A thread that opened a session has the successful run behind and before it. *)
Lemma session_run a e :
  on_track a → e ∈ a_tr a → registers e = true →
  ∃ req body id pending s ext,
    valid_upgrade req = true ∧ id ≠ ""%string ∧
    a_tr a ++ ext =
      [ev (OHandshake (a_hello a)) true; ev ONegotiated Proxy.ALPN; ev OReadRequest (Some req);
       ev (OReadBody (maxRequestBody + 1)) (Some body);
       ev (OAuthorize {| ar_Method := "POST"; ar_Path := TunnelPath;
                         ar_Headers := authHeaders (ReqHeader req); ar_Body := body;
                         ar_RemoteAddr := a_remote a |}) (Some id);
       ev (OWrite switching) true; ev OBuffered pending; ev (OYamuxClient pending) (Some s);
       ev (OCount "ok") tt; ev (ORegister id s) tt; ev (OWaitClosed s) tt; ev (OUnregister id s) tt] ∧
    (7 < length (a_tr a))%nat.
Proof.
  intros Hon He Hr. destruct (trace_exists (a_rest a) some_answer) as (ext & [] & Hext).
  destruct (Handle_admits _ _ _ (Hon ext Hext)) as [Hn|(req & body & id & pending & s & Hv & _ & Hid & Htr)].
  - exfalso. rewrite forallb_forall in Hn. assert (negb (registers e) = true) as Hf.
    { apply Hn, list_elem_of_In, elem_of_app. by left. }
    by rewrite Hr in Hf.
  - exists req, body, id, pending, s, ext. split_and!; [done..|].
    apply list_elem_of_lookup in He as [i Hi]. pose proof (lookup_lt_Some _ _ _ Hi) as Hlt.
    rewrite (prefix_lookup _ _ _ i Htr Hlt) in Hi.
    do 7 (destruct i as [|i]; [cbn in Hi; injection Hi as <-; done|]). lia.
Qed.

(** The session a thread opened, the id the authorizer gave it, what it
    registered, whether it took the registration back. *)
Definition session_of (e : event ans) : option nat :=
  match e with
  | existT o a => match o return ans o → option nat with OYamuxClient _ => fun r => r | _ => fun _ => None end a
  end.
Definition vouch_of (e : event ans) : option string :=
  match e with
  | existT o a => match o return ans o → option string with OAuthorize _ => fun r => r | _ => fun _ => None end a
  end.
Definition entry_of (e : event ans) : option (string * nat) :=
  match e with existT (ORegister id s) _ => Some (id, s) | _ => None end.
Definition unregisters (e : event ans) : bool :=
  match e with existT (OUnregister _ _) _ => true | _ => false end.

Definition sessions_of (a : acceptor) : list nat := omap session_of (a_tr a).
Definition entries_of (a : acceptor) : list (string * nat) := omap entry_of (a_tr a).

Lemma session_registers e s : session_of e = Some s → registers e = true.
Proof. destruct e as [o r]. destruct o; try done. cbn. by intros ->. Qed.
Lemma entry_registers e x : entry_of e = Some x → registers e = true.
Proof. destruct e as [o r]. by destruct o. Qed.

(** A thread with a session has one session, one id, and registers that session
    under that id; the id answers the request the gateway insists on. *)
Lemma one_session a e :
  on_track a → e ∈ a_tr a → registers e = true →
  ∃ id s req body, id ≠ ""%string ∧
    (∀ s', s' ∈ sessions_of a → s' = s) ∧ s ∈ sessions_of a ∧
    (∀ x, x ∈ entries_of a → x = (id, s)) ∧
    (∀ e' id', e' ∈ a_tr a → vouch_of e' = Some id' → id' = id) ∧
    ev (OAuthorize {| ar_Method := "POST"; ar_Path := TunnelPath; ar_Headers := authHeaders (ReqHeader req);
                      ar_Body := body; ar_RemoteAddr := a_remote a |}) (Some id) ∈ a_tr a.
Proof.
  intros Hon He Hr. destruct (session_run a e Hon He Hr) as (req & body & id & pending & s & ext & _ & Hid & Htr & Hlen).
  assert (Hin : ∀ e', e' ∈ a_tr a → e' ∈ a_tr a ++ ext) by (intros e' ?; apply elem_of_app; by left).
  assert (Hsub : ∀ {B} (f : event ans → option B) x, x ∈ omap f (a_tr a) → x ∈ omap f (a_tr a ++ ext)).
  { intros B f x. rewrite omap_app, elem_of_app. by left. }
  exists id, s, req, body. split_and!; [done|..].
  - intros s' Hs'%Hsub. rewrite Htr in Hs'. cbn in Hs'. by apply list_elem_of_singleton in Hs'.
  - apply list_elem_of_omap. exists (ev (OYamuxClient pending) (Some s)). split; [|done].
    apply (list_elem_of_lookup_2 _ 7%nat). by rewrite (prefix_lookup _ _ _ 7%nat Htr) by lia.
  - intros x Hx%Hsub. rewrite Htr in Hx. cbn in Hx. by apply list_elem_of_singleton in Hx.
  - intros e' id' He' Hv. assert (id' ∈ omap vouch_of (a_tr a ++ ext)) as Hx.
    { apply list_elem_of_omap. exists e'. split; [by apply Hin|done]. }
    rewrite Htr in Hx. cbn in Hx. by apply list_elem_of_singleton in Hx.
  - apply (list_elem_of_lookup_2 _ 4%nat). by rewrite (prefix_lookup _ _ _ 4%nat Htr) by lia.
Qed.

(** When a thread registers, it has not done so before and has taken nothing back. *)
Lemma first_registration a e x :
  on_track a → a_tr a !! pred (length (a_tr a)) = Some e → entry_of e = Some x →
  entries_of a = [x] ∧ existsb unregisters (a_tr a) = false.
Proof.
  intros Hon He Hx. assert (e ∈ a_tr a) as Hin by (by apply list_elem_of_lookup_2 in He).
  destruct (session_run a e Hon Hin (entry_registers e x Hx)) as (req & body & id & pending & s & ext & _ & _ & Htr & Hlen).
  assert (length (a_tr a) = 10%nat) as H10.
  { rewrite (prefix_lookup _ _ _ (pred (length (a_tr a))) Htr) in He by lia.
    destruct (length (a_tr a)) as [|n]; [lia|]. cbn [pred] in He.
    do 9 (destruct n as [|n]; [cbn in He; injection He as <-; done|]). destruct n as [|n]; [done|].
    do 2 (destruct n as [|n]; [cbn in He; injection He as <-; done|]). done. }
  assert (a_tr a = take 10 (a_tr a ++ ext)) as E by (by rewrite take_app_length').
  assert (Hlast : e = ev (ORegister id s) tt).
  { rewrite (prefix_lookup _ _ _ (pred (length (a_tr a))) Htr), H10 in He by lia. by injection He as <-. }
  subst e. cbn in Hx. injection Hx as <-. unfold entries_of. rewrite E, Htr. done.
Qed.

(** A thread that is done has taken its registration back. *)
Lemma finished_unregistered a x :
  on_track a → a_rest a = PRet tt → x ∈ entries_of a → existsb unregisters (a_tr a) = true.
Proof.
  intros Hon Hret Hx. assert (trace (Handle (a_remote a) (a_hello a)) (a_tr a) tt) as Ht.
  { rewrite <- (app_nil_r (a_tr a)). apply Hon. by rewrite Hret. }
  apply list_elem_of_omap in Hx as (e & He & Hx).
  destruct (Handle_admits _ _ _ Ht) as [Hn|(req & body & id & pending & s & _ & _ & _ & ->)]; [|done].
  exfalso. rewrite forallb_forall in Hn. apply list_elem_of_In, Hn in He. by rewrite (entry_registers e x Hx) in He.
Qed.

End traces.

(** * The acceptors and the registry *)

Section invariants.
Context `{GoRange}.

Record acc_inv (t : tunnels) (live : list (string * entry)) : Prop := {
  ai_reg : registry_reachable (reg t) live;
  ai_track : ∀ j a, acceptors t !! j = Some a → on_track a;
  ai_bound : ∀ j a s, acceptors t !! j = Some a → s ∈ sessions_of a → (s < sess_next t)%nat;
  ai_uniq : ∀ i j a b s, acceptors t !! i = Some a → acceptors t !! j = Some b →
    s ∈ sessions_of a → s ∈ sessions_of b → i = j;
  ai_live : ∀ x, x ∈ live → ∃ j a, acceptors t !! j = Some a ∧ a_key a = Some (x.1, e_ptr x.2) ∧
    (x.1, sess x.2) ∈ entries_of a;
  ai_key : ∀ j a key, acceptors t !! j = Some a → a_key a = Some key →
    (∃ e, (key.1, e) ∈ live ∧ e_ptr e = key.2) ∧ (∃ x, x ∈ entries_of a) ∧ existsb unregisters (a_tr a) = false;
  ai_inj : ∀ i j a b k k', acceptors t !! i = Some a → acceptors t !! j = Some b →
    a_key a = Some k → a_key b = Some k' → k.2 = k'.2 → i = j;
}.

(** A thread after one more operation. *)
Definition advance (a : acceptor) (rest : prog ans unit) (e : event ans) (key : option (string * nat)) : acceptor := {|
  a_remote := a_remote a; a_hello := a_hello a; a_rest := rest; a_tr := a_tr a ++ [e]; a_key := key |}.

Lemma advance_track a o k r key : a_rest a = PDo o k → on_track a → on_track (advance a (k r) (ev o r) key).
Proof.
  intros Hrest Hon ext Hext. cbn in *. rewrite <- app_assoc. apply Hon. rewrite Hrest. by exists r, ext.
Qed.

Lemma sessions_advance a rest e key :
  sessions_of (advance a rest e key) = sessions_of a ++ match session_of e with Some s => [s] | None => [] end.
Proof. unfold sessions_of. cbn [advance a_tr]. rewrite omap_app. cbn. by destruct (session_of e). Qed.

Lemma entries_advance a rest e key :
  entries_of (advance a rest e key) = entries_of a ++ match entry_of e with Some s => [s] | None => [] end.
Proof. unfold entries_of. cbn [advance a_tr]. rewrite omap_app. cbn. by destruct (entry_of e). Qed.

Lemma unregisters_advance a rest e key :
  existsb unregisters (a_tr (advance a rest e key)) = existsb unregisters (a_tr a) || unregisters e.
Proof. cbn [advance a_tr]. rewrite existsb_app. cbn. by rewrite orb_false_r. Qed.

Lemma lookup_set {A} (l : list A) j a b i c :
  l !! j = Some a → <[j := b]> l !! i = Some c → (i = j ∧ c = b) ∨ (i ≠ j ∧ l !! i = Some c).
Proof.
  intros Hj Hi. destruct (decide (i = j)) as [->|Hne].
  - rewrite list_lookup_insert_eq in Hi by (by apply lookup_lt_Some in Hj). injection Hi as <-. by left.
  - rewrite list_lookup_insert_ne in Hi by done. by right.
Qed.

(** An operation that leaves the registry alone: it may open the next session. *)
Lemma acc_inv_quiet t live j a o k r n :
  acc_inv t live → acceptors t !! j = Some a → a_rest a = PDo o k → entry_of (ev o r) = None → unregisters (ev o r) = false →
  match session_of (ev o r) with Some s => s = sess_next t ∧ n = S (sess_next t) | None => n = sess_next t end →
  ∀ t', reg t' = reg t → sess_next t' = n →
  acceptors t' = <[j := advance a (k r) (ev o r) (a_key a)]> (acceptors t) → acc_inv t' live.
Proof.
  intros [Hreg Htr Hb Hu Hl Hk Hi] Hj Hrest He Hun Hs t' Er En Ea.
  assert (Hn : (sess_next t <= n)%nat) by (destruct (session_of _); lia).
  assert (Hold : ∀ i b s, acceptors t' !! i = Some b → s ∈ sessions_of b →
    (∃ b', acceptors t !! i = Some b' ∧ s ∈ sessions_of b') ∨ (i = j ∧ s = sess_next t ∧ n = S (sess_next t))).
  { intros i b s Hib Hsb. rewrite Ea in Hib. apply (lookup_set _ _ a) in Hib as [[-> ->]|[_ Hib]]; [| |done]; [|by eauto].
    rewrite sessions_advance in Hsb. apply elem_of_app in Hsb as [Hsb|Hsb]; [by eauto|].
    destruct (session_of _) as [s'|]; [|by apply not_elem_of_nil in Hsb]. apply list_elem_of_singleton in Hsb as ->. naive_solver. }
  split.
  - by rewrite Er.
  - intros i b Hib. rewrite Ea in Hib. apply (lookup_set _ _ a) in Hib as [[-> ->]|[_ Hib]]; [|by eauto|done].
    apply advance_track; eauto.
  - intros i b s Hib Hsb. rewrite En. destruct (Hold i b s Hib Hsb) as [(b' & Hb' & Hs')|(_ & -> & ->)]; [|lia].
    specialize (Hb _ _ _ Hb' Hs'). lia.
  - intros i i' b b' s Hib Hib' Hsb Hsb'.
    destruct (Hold i b s Hib Hsb) as [(c & Hc & Hsc)|(-> & -> & _)],
      (Hold i' b' _ Hib' Hsb') as [(c' & Hc' & Hsc')|(-> & E & _)]; [eauto|..|done].
    + subst s. specialize (Hb _ _ _ Hc Hsc). lia.
    + specialize (Hb _ _ _ Hc' Hsc'). lia.
  - intros x Hx. destruct (Hl x Hx) as (i & b & Hib & Hkey & Hent). rewrite Ea. destruct (decide (i = j)) as [->|Hne].
    + rewrite Hj in Hib. injection Hib as <-. exists j, (advance a (k r) (ev o r) (a_key a)).
      rewrite list_lookup_insert_eq by (by apply lookup_lt_Some in Hj). split_and!; [done|done|].
      rewrite entries_advance. apply elem_of_app. by left.
    + exists i, b. by rewrite list_lookup_insert_ne.
  - intros i b key Hib Hkey. rewrite Ea in Hib. apply (lookup_set _ _ a) in Hib as [[-> ->]|[_ Hib]]; [|by eauto|done].
    destruct (Hk j a key Hj Hkey) as (H1 & [x Hx] & H3). split_and!; [done| |].
    + exists x. rewrite entries_advance. apply elem_of_app. by left.
    + by rewrite unregisters_advance, H3, Hun.
  - intros i i' b b' k1 k2 Hib Hib' Hk1 Hk2 Heq. rewrite Ea in Hib, Hib'.
    apply (lookup_set _ _ a) in Hib as [[-> ->]|[_ Hib]]; [| |done];
      apply (lookup_set _ _ a) in Hib' as [[-> ->]|[_ Hib']]; try done; eauto.
Qed.

Lemma acc_inv_register t live j a id s k u :
  acc_inv t live → acceptors t !! j = Some a → a_rest a = PDo (ORegister id s) k →
  let '(r, key) := Register (reg t) id s (clock t) in
  acc_inv (set_acceptors (set_reg t r) (<[j := advance a (k u) (ev (ORegister id s) u) (Some key)]> (acceptors t)))
    (live ++ [(id, {| e_ptr := allocated (reg t); sess := s; at_ := clock t |})]).
Proof.
  intros [Hreg Htr Hb Hu Hl Hk Hi] Hj Hrest. cbn [Register].
  set (a' := advance a (k u) (ev (ORegister id s) u) (Some (id, allocated (reg t)))).
  assert (Hon : on_track a') by (apply advance_track; eauto).
  assert (Hlast : a_tr a' !! pred (length (a_tr a')) = Some (ev (ORegister id s) u)).
  { cbn [a' advance a_tr]. rewrite length_app, Nat.add_comm. cbn. by apply lookup_app_exact. }
  destruct (first_registration a' _ (id, s) Hon Hlast eq_refl) as [Hent Hun].
  assert (Hnone : a_key a = None).
  { destruct (a_key a) as [key|] eqn:E; [|done]. exfalso. destruct (Hk j a key Hj E) as (_ & [x Hx] & _).
    unfold a' in Hent. rewrite entries_advance in Hent. cbn in Hent.
    destruct (entries_of a) as [|y l]; [by apply not_elem_of_nil in Hx|]. by destruct l. }
  pose proof (registry_reachable_inv _ _ Hreg) as Hri.
  assert (Hfresh : ∀ i b key, acceptors t !! i = Some b → a_key b = Some key → (key.2 < allocated (reg t))%nat).
  { intros i b key Hib Hkey. destruct (Hk i b key Hib Hkey) as ((e & He & <-) & _). by apply (ri_fresh _ _ Hri (key.1, e)). }
  assert (Hses : sessions_of a' = sessions_of a) by (unfold a'; rewrite sessions_advance; cbn; by rewrite app_nil_r).
  split; cbn [set_acceptors set_reg reg sess_next acceptors].
  - apply (rr_register (reg t) live id s (clock t) Hreg).
  - intros i b Hib. apply (lookup_set _ _ a) in Hib as [[-> ->]|[_ Hib]]; eauto.
  - intros i b s' Hib Hs'. apply (lookup_set _ _ a) in Hib as [[-> ->]|[_ Hib]]; [rewrite Hses in Hs'|..]; eauto.
  - intros i i' b b' s' Hib Hib' Hsb Hsb'.
    apply (lookup_set _ _ a) in Hib as [[-> ->]|[_ Hib]]; [rewrite Hses in Hsb| |done];
      apply (lookup_set _ _ a) in Hib' as [[-> ->]|[_ Hib']]; try done; rewrite ?Hses in Hsb'; eauto.
  - intros x [Hx| ->%list_elem_of_singleton]%elem_of_app.
    + destruct (Hl x Hx) as (i & b & Hib & Hkey & Hx'). exists i, b. rewrite list_lookup_insert_ne; [done|].
      intros <-. rewrite Hj in Hib. injection Hib as <-. by rewrite Hnone in Hkey.
    + exists j, a'. rewrite list_lookup_insert_eq by (by apply lookup_lt_Some in Hj). split_and!; [done|done|].
      rewrite Hent. by left.
  - intros i b key Hib Hkey. apply (lookup_set _ _ a) in Hib as [[-> ->]|[_ Hib]]; [| |done].
    + cbn [a' advance a_key] in Hkey. injection Hkey as <-. split_and!; [|exists (id, s); rewrite Hent; by left|done].
      eexists. split; [apply elem_of_app; right; by apply list_elem_of_singleton|done].
    + destruct (Hk i b key Hib Hkey) as ((e & He & Hp) & H2). split; [|done]. exists e. split; [|done].
      apply elem_of_app. by left.
  - intros i i' b b' k1 k2 Hib Hib' Hk1 Hk2 Heq.
    apply (lookup_set _ _ a) in Hib as [[-> ->]|[_ Hib]]; [| |done];
      apply (lookup_set _ _ a) in Hib' as [[-> ->]|[_ Hib']]; try done; [..|by eauto].
    + cbn [a' advance a_key] in Hk1. injection Hk1 as <-. specialize (Hfresh _ _ _ Hib' Hk2). cbn in Heq. lia.
    + cbn [a' advance a_key] in Hk2. injection Hk2 as <-. specialize (Hfresh _ _ _ Hib Hk1). cbn in Heq. lia.
Qed.

Lemma acc_inv_unregister t live j a id s k u key :
  acc_inv t live → acceptors t !! j = Some a → a_rest a = PDo (OUnregister id s) k → a_key a = Some key →
  ∃ live', acc_inv (set_acceptors (set_reg t (unregister (reg t) key))
    (<[j := advance a (k u) (ev (OUnregister id s) u) None]> (acceptors t))) live'.
Proof.
  intros [Hreg Htr Hb Hu Hl Hk Hi] Hj Hrest Hkey.
  set (a' := advance a (k u) (ev (OUnregister id s) u) None).
  assert (Hon : on_track a') by (apply advance_track; eauto).
  destruct (Hk j a key Hj Hkey) as ((e & He & Hp) & _).
  assert (Hses : sessions_of a' = sessions_of a) by (unfold a'; rewrite sessions_advance; cbn; by rewrite app_nil_r).
  exists (filter (fun x => e_ptr x.2 ≠ e_ptr e) live). split; cbn [set_acceptors set_reg reg sess_next acceptors].
  - assert (key = (key.1, e_ptr e)) as -> by (rewrite Hp; by destruct key). by apply rr_unregister.
  - intros i b Hib. apply (lookup_set _ _ a) in Hib as [[-> ->]|[_ Hib]]; eauto.
  - intros i b s' Hib Hs'. apply (lookup_set _ _ a) in Hib as [[-> ->]|[_ Hib]]; [rewrite Hses in Hs'|..]; eauto.
  - intros i i' b b' s' Hib Hib' Hsb Hsb'.
    apply (lookup_set _ _ a) in Hib as [[-> ->]|[_ Hib]]; [rewrite Hses in Hsb| |done];
      apply (lookup_set _ _ a) in Hib' as [[-> ->]|[_ Hib']]; try done; rewrite ?Hses in Hsb'; eauto.
  - intros x [Hne Hx]%list_elem_of_filter. destruct (Hl x Hx) as (i & b & Hib & Hkb & Hx'). exists i, b.
    rewrite list_lookup_insert_ne; [done|]. intros <-. rewrite Hj in Hib. injection Hib as <-.
    rewrite Hkey in Hkb. injection Hkb as ->. done.
  - intros i b key' Hib Hkb. apply (lookup_set _ _ a) in Hib as [[-> ->]|[Hij Hib]]; [done| |done].
    destruct (Hk i b key' Hib Hkb) as ((e' & He' & Hp') & H2). split; [|done]. exists e'. split; [|done].
    apply list_elem_of_filter. split; [|done]. cbn. intros Heq. apply Hij.
    apply (Hi i j b a key' key Hib Hj Hkb Hkey). congruence.
  - intros i i' b b' k1 k2 Hib Hib' Hk1 Hk2 Heq.
    apply (lookup_set _ _ a) in Hib as [[-> ->]|[_ Hib]]; [done| |done].
    apply (lookup_set _ _ a) in Hib' as [[-> ->]|[_ Hib']]; [done|eauto|done].
Qed.

(** Changes that do not touch registry and acceptors. *)
Lemma acc_inv_frame t t' live :
  acc_inv t live → reg t' = reg t → sess_next t' = sess_next t → acceptors t' = acceptors t → acc_inv t' live.
Proof. intros [Hreg Htr Hb Hu Hl Hk Hi] Er En Ea. split; rewrite ?Er, ?En, ?Ea; done. Qed.

Lemma acc_inv_connect t live remote hello :
  acc_inv t live →
  acc_inv (set_acceptors t (acceptors t ++ [{|
    a_remote := remote; a_hello := hello; a_rest := Handle remote hello; a_tr := []; a_key := None |}])) live.
Proof.
  intros [Hreg Htr Hb Hu Hl Hk Hi]. set (n := Build_acceptor _ _ _ _ _).
  assert (Hc : ∀ i b, (acceptors t ++ [n]) !! i = Some b → acceptors t !! i = Some b ∨ b = n).
  { intros i b [Hib|[_ Hib]]%lookup_app_Some; [by left|]. apply list_lookup_singleton_Some in Hib as [_ <-]. by right. }
  split; cbn [set_acceptors reg sess_next acceptors].
  - done.
  - intros i b [?| ->]%Hc; [by eauto|]. by intros ext Hext.
  - intros i b s [?| ->]%Hc; [by eauto|]. by intros ?%not_elem_of_nil.
  - intros i j a b s [?| ->]%Hc [?| ->]%Hc; [by eauto|..].
    + by intros _ ?%not_elem_of_nil.
    + by intros ?%not_elem_of_nil.
    + by intros ?%not_elem_of_nil.
  - intros x Hx. destruct (Hl x Hx) as (j & a & Hj & H2). exists j, a. split; [|done]. by apply lookup_app_l_Some.
  - intros j a key [?| ->]%Hc; [by eauto|done].
  - intros i j a b k k' [?| ->]%Hc [?| ->]%Hc; [by eauto|done..].
Qed.

Lemma acc_inv_accept t live j answers t' :
  acc_inv t live → exec_accept t j answers = Some t' → ∃ live', acc_inv t' live'.
Proof.
  intros Hinv. unfold exec_accept. destruct (acceptors t !! j) as [a|] eqn:Hj; [|done].
  destruct (a_rest a) as [|o k] eqn:Hrest; [done|]. generalize (answers o). intros r.
  destruct (accept_op t a o r) as [[[r' t1] key]|] eqn:Ho; [|done]. intros [= <-].
  destruct o; cbn in Ho; try (injection Ho as <- <- <-; exists live;
    by apply (acc_inv_quiet t live j a _ k r (sess_next t) Hinv Hj Hrest)).
  - destruct r as [?|]; injection Ho as <- <- <-; exists live.
    + by apply (acc_inv_quiet t live j a _ k (Some (sess_next t)) (S (sess_next t)) Hinv Hj Hrest).
    + by apply (acc_inv_quiet t live j a _ k None (sess_next t) Hinv Hj Hrest).
  - injection Ho as <- <- <-. eexists. apply (acc_inv_register t live j a enclaveID s k tt Hinv Hj Hrest).
  - destruct (decide (s ∈ closed t)); [|done]. injection Ho as <- <- <-. exists live.
    by apply (acc_inv_quiet t live j a _ k tt (sess_next t) Hinv Hj Hrest).
  - destruct (a_key a) as [key'|] eqn:Hkey; [|done]. injection Ho as <- <- <-.
    eapply (acc_inv_unregister t live j a _ _ k tt key'); done.
Qed.

Lemma acc_inv_exec t live e t' : acc_inv t live → exec t e = Some t' → ∃ live', acc_inv t' live'.
Proof.
  intros Hinv. destruct e as [remote hello|j answers|id addr|j e|s|dt]; cbn [exec].
  - intros [= <-]. exists live. by apply acc_inv_connect.
  - by eapply acc_inv_accept.
  - intros [= <-]. exists live. by apply (acc_inv_frame t).
  - unfold exec_dial. destruct (dials t !! j); [|done]. destruct (dial_next _ _ _) as [[pc m]|]; [|done].
    intros [= <-]. exists live. by apply (acc_inv_frame t).
  - destruct (_ <=? _)%nat; [done|]. intros [= <-]. exists live. by apply (acc_inv_frame t).
  - intros [= <-]. exists live. by apply (acc_inv_frame t).
Qed.

Lemma acc_inv_boot : acc_inv boot [].
Proof. split; cbn; try done; [constructor|]. by intros x ?%not_elem_of_nil. Qed.

Lemma acc_inv_run es t live t' : acc_inv t live → run t es = Some t' → ∃ live', acc_inv t' live'.
Proof.
  revert t live. induction es as [|e es IH]; intros t live Hinv; cbn [run]; [intros [= <-]; eauto|].
  destruct (exec t e) as [t1|] eqn:E; [|done]. apply (acc_inv_exec t live) in E as [live1 H1]; [|done]. by apply (IH t1 live1).
Qed.

(** * The dials and their streams *)

(** The session [s] was opened by a thread to which the authorizer had answered
    the enclave [id]. *)
Definition vouched (t : tunnels) (s : nat) (id : string) : Prop :=
  ∃ j a, acceptors t !! j = Some a ∧ s ∈ sessions_of a ∧ (id, s) ∈ entries_of a.

(** The stream a dial, or the caller it returned to, has to close. *)
Definition holds (d : dial) : option nat :=
  match d_at d with
  | DReady _ st | DLateReady st | DPreamble _ st | DDone (inl (TunnelConn _ st _)) => Some st
  | _ => None
  end.
(** The session a dial works on. *)
Definition dial_session (d : dial) : option nat :=
  match d_at d with
  | DWait s | DReady s _ | DLate s | DPreamble s _ | DDone (inl (TunnelConn s _ _)) => Some s
  | _ => None
  end.

Record dial_inv (t : tunnels) : Prop := {
  di_vouched : ∀ j d s, dials t !! j = Some d → dial_session d = Some s → vouched t s (d_id d);
  di_holds : ∀ j d st, dials t !! j = Some d → holds d = Some st →
    ∃ s, streams t !! st = Some s ∧ ∀ s', dial_session d = Some s' → s' = s;
  di_held : ∀ st s, streams t !! st = Some s → (st < stream_next t)%nat ∧ ∃ j d, dials t !! j = Some d ∧ holds d = Some st;
  di_inj : ∀ i j d d' st, dials t !! i = Some d → dials t !! j = Some d' → holds d = Some st → holds d' = Some st → i = j;
  di_sent : ∀ j d c, dials t !! j = Some d → d_at d = DDone (inl c) →
    ∃ s st, c = TunnelConn s st (writePreamble (d_addr d));
}.

(** What acceptors did stays done. *)
Lemma vouched_accept t j answers t' s id :
  exec_accept t j answers = Some t' → vouched t s id → vouched t' s id.
Proof.
  unfold exec_accept. destruct (acceptors t !! j) as [a|] eqn:Hj; [|done]. destruct (a_rest a) as [|o k]; [done|].
  destruct (accept_op t a o (answers o)) as [[[r t1] key]|] eqn:Ho; [|done]. intros [= <-].
  assert (acceptors t1 = acceptors t) as E.
  { generalize dependent (answers o). intros x Ho. destruct o; cbn in Ho;
      repeat case_match; simplify_eq; done. }
  intros (i & b & Hi & Hs & He). unfold vouched. cbn [set_acceptors acceptors]. rewrite E.
  destruct (decide (i = j)) as [->|Hne].
  - rewrite Hj in Hi. injection Hi as <-. exists j, (advance a (k r) (ev o r) key).
    rewrite list_lookup_insert_eq by (by apply lookup_lt_Some in Hj). split; [done|].
    rewrite sessions_advance, entries_advance. split; apply elem_of_app; by left.
  - exists i, b. by rewrite list_lookup_insert_ne.
Qed.

Lemma dial_inv_frame t t' :
  dial_inv t → dials t' = dials t → streams t' = streams t → stream_next t' = stream_next t →
  (∀ s id, vouched t s id → vouched t' s id) → dial_inv t'.
Proof. intros [H1 H2 H3 H4 H5] Ed Es En Hv. split; rewrite ?Ed, ?Es, ?En; eauto. Qed.

(** A session picked for an enclave is one the authorizer answered that enclave for. *)
Lemma picked_vouched t live id s :
  acc_inv t live → pick (reg t) (fun s => bool_decide (s ∈ closed t)) id = Some s → vouched t s id ∧ s ∉ closed t.
Proof.
  intros Hinv Hp. pose proof (pick_live (reg t) live (fun s => bool_decide (s ∈ closed t)) id
    (registry_reachable_inv _ _ (ai_reg _ _ Hinv))) as Hl. rewrite Hp in Hl. cbn in Hl.
  destruct Hl as (e & He & <- & Hc & _). split; [|by apply bool_decide_eq_false in Hc].
  destruct (ai_live _ _ Hinv _ He) as (j & a & Hj & _ & Hent). exists j, a. cbn in Hent. split_and!; [done| |done].
  apply list_elem_of_omap in Hent as (ev0 & Hin & Hev).
  destruct (one_session a ev0 (ai_track _ _ Hinv _ _ Hj) Hin (entry_registers _ _ Hev))
    as (id' & s' & req & body & _ & _ & Hs' & Hent' & _).
  assert ((id, sess e) = (id', s')) as E.
  { apply Hent'. apply list_elem_of_omap. by exists ev0. }
  injection E as -> ->. done.
Qed.

(** A dial moves to [pc], holding what it held, or nothing, or a new stream. *)
Lemma dial_inv_move t j d pc m :
  dial_inv t → dials t !! j = Some d →
  (∀ s, dial_session (at_dial d pc) = Some s → vouched t s (d_id d)) →
  (∀ c, pc = DDone (inl c) → ∃ s st, c = TunnelConn s st (writePreamble (d_addr d))) →
  (holds (at_dial d pc) = holds d ∧ m = streams t ∧
     (∀ s', dial_session (at_dial d pc) = Some s' → is_Some (holds d) → dial_session d = Some s')) ∨
  (holds (at_dial d pc) = None ∧ ∃ st, holds d = Some st ∧ m = delete st (streams t)) ∨
  (holds d = None ∧ holds (at_dial d pc) = Some (stream_next t) ∧ ∃ s, m = <[stream_next t := s]> (streams t) ∧
     ∀ s', dial_session (at_dial d pc) = Some s' → s' = s) →
  dial_inv {| reg := reg t; closed := closed t; sess_next := sess_next t; stream_next := S (stream_next t); streams := m;
              acceptors := acceptors t; dials := <[j := at_dial d pc]> (dials t); clock := clock t |}.
Proof.
  intros [H1 H2 H3 H4 H5] Hj Hv Hc Hm.
  assert (Hother : ∀ i d' st, i ≠ j → dials t !! i = Some d' → holds d' = Some st → m !! st = streams t !! st).
  { intros i d' st Hne Hi Hh. destruct Hm as [(_ & -> & _)|[(_ & st' & Hst & ->)|(_ & _ & s & -> & _)]]; [done|..].
    - rewrite lookup_delete_ne; [done|]. intros <-. apply Hne. by eapply H4.
    - destruct (H2 i d' st Hi Hh) as (s' & Hs' & _). apply H3 in Hs' as [Hlt _]. rewrite lookup_insert_ne; [done|]. lia. }
  split; cbn [dials streams stream_next].
  - intros i d' s Hi Hs. change (vouched t s (d_id d')).
    apply (lookup_set _ _ d) in Hi as [[-> ->]|[_ Hi]]; [by apply Hv|by eapply H1|done].
  - intros i d' st Hi Hh. apply (lookup_set _ _ d) in Hi as [[-> ->]|[Hne Hi]]; [| |done].
    + destruct Hm as [(E & -> & Hs)|[(E & _)|(_ & E & s & -> & Hs)]]; rewrite E in Hh; [|done|].
      * destruct (H2 j d st Hj Hh) as (s & Hst & Hss). exists s. split; [done|]. intros s' Hs'. apply Hss, Hs; [done|by eauto].
      * injection Hh as <-. exists s. by rewrite lookup_insert_eq.
    + rewrite (Hother i d' st Hne Hi Hh). by eapply H2.
  - intros st s Hst. assert (Hcase : (st = stream_next t ∧ holds (at_dial d pc) = Some st) ∨ (streams t !! st = Some s ∧
      (holds d = Some st → holds (at_dial d pc) = Some st))).
    { destruct Hm as [(E & -> & _)|[(E & st' & Hst' & ->)|(En & E & s' & -> & _)]].
      - right. by rewrite E.
      - apply lookup_delete_Some in Hst as [Hne Hst]. right. split; [done|]. intros Hd. congruence.
      - apply lookup_insert_Some in Hst as [[<- _]|[_ Hst]]; [by left|]. right. split; [done|]. by rewrite En. }
    destruct Hcase as [[-> Hh]|[Hs Hh]].
    + split; [lia|]. exists j, (at_dial d pc). split; [|done]. apply list_lookup_insert_eq. by apply lookup_lt_Some in Hj.
    + destruct (H3 st s Hs) as [Hlt (i & d' & Hi & Hd')]. split; [lia|]. destruct (decide (i = j)) as [->|Hne].
      * rewrite Hj in Hi. injection Hi as <-. exists j, (at_dial d pc). split; [|by apply Hh].
        apply list_lookup_insert_eq. by apply lookup_lt_Some in Hj.
      * exists i, d'. by rewrite list_lookup_insert_ne.
  - assert (Hnew : ∀ i d' st, i ≠ j → dials t !! i = Some d' → holds d' = Some st → holds (at_dial d pc) ≠ Some st).
    { intros i d' st Hne Hi Hh Hp. destruct Hm as [(E & _ & _)|[(E & _)|(_ & E & _)]]; rewrite E in Hp; [|done|].
      - apply Hne. by eapply H4.
      - injection Hp as <-. destruct (H2 i d' _ Hi Hh) as (s' & Hs' & _). apply H3 in Hs' as [Hlt _]. lia. }
    intros i i' d1 d2 st Hi Hi' Hh1 Hh2.
    apply (lookup_set _ _ d) in Hi as [[-> ->]|[Hne Hi]]; [| |done];
      apply (lookup_set _ _ d) in Hi' as [[-> ->]|[Hne' Hi']]; try done; [..|by eapply H4].
    + exfalso. by eapply (Hnew i' d2 st).
    + exfalso. by eapply (Hnew i d1 st).
  - intros i d' c Hi Hd'. apply (lookup_set _ _ d) in Hi as [[-> ->]|[_ Hi]]; [by apply Hc|by eapply H5|done].
Qed.

Lemma dial_inv_dial t live j e t' :
  acc_inv t live → dial_inv t → exec_dial t j e = Some t' → dial_inv t'.
Proof.
  intros Ha Hd. unfold exec_dial. destruct (dials t !! j) as [d|] eqn:Hj; [|done].
  destruct (dial_next t d e) as [[pc m]|] eqn:E; [|done]. intros [= <-].
  pose proof (di_vouched t Hd j d) as Hv. pose proof (di_sent t Hd j d) as Hs.
  apply dial_inv_move; [done|done|..]; unfold dial_next, holds, dial_session in *; cbn [at_dial d_at] in *;
    destruct (d_at d) eqn:Ed, e; try done; cbn in E;
    repeat match type of E with
    | context [match pick ?a ?b ?c with _ => _ end] => destruct (pick a b c) eqn:Ep
    | context [match ?r with inl _ => _ | inr _ => _ end] => destruct r as [[]|]
    end; simplify_eq; cbn.
  all: try (intros s' [= <-]; eauto; by apply (picked_vouched t live)).
  all: try naive_solver.
Qed.

Lemma dial_inv_exec t live e t' : acc_inv t live → dial_inv t → exec t e = Some t' → dial_inv t'.
Proof.
  intros Ha Hd. destruct e as [remote hello|j answers|id addr|j e|s|dt]; cbn [exec].
  - intros [= <-]. apply (dial_inv_frame t); try done. intros s id (i & a & Hi & Hs). exists i, a. split; [|done].
    by apply lookup_app_l_Some.
  - intros He. assert (dials t' = dials t ∧ streams t' = streams t ∧ stream_next t' = stream_next t) as (E1 & E2 & E3).
    { unfold exec_accept in He. destruct (acceptors t !! j) as [a|]; [|done]. destruct (a_rest a) as [|o k]; [done|].
      generalize dependent (answers o). intros x He. destruct (accept_op t a o x) as [[[r t1] key]|] eqn:Ho; [|done].
      injection He as <-. destruct o; cbn in Ho; repeat case_match; simplify_eq; done. }
    apply (dial_inv_frame t); try done. intros s id. by eapply vouched_accept.
  - intros [= <-]. set (n := Build_dial _ _ _).
    assert (Hc : ∀ i d, (dials t ++ [n]) !! i = Some d → dials t !! i = Some d ∨ d = n).
    { intros i b [Hib|[_ Hib]]%lookup_app_Some; [by left|]. apply list_lookup_singleton_Some in Hib as [_ <-]. by right. }
    destruct Hd as [H1 H2 H3 H4 H5]. split; cbn [set_dials dials streams stream_next].
    + intros i d s [?| ->]%Hc; [by eapply H1|done].
    + intros i d st [?| ->]%Hc; [by eapply H2|done].
    + intros st s Hst. destruct (H3 st s Hst) as [? (i & d & Hi & Hh)]. split; [done|]. exists i, d. split; [|done].
      by apply lookup_app_l_Some.
    + intros i i' d d' st [?| ->]%Hc [?| ->]%Hc; [by eapply H4|done..].
    + intros i d c [?| ->]%Hc; [by eapply H5|done].
  - by eapply dial_inv_dial.
  - destruct (_ <=? _)%nat; [done|]. intros [= <-]. by apply (dial_inv_frame t).
  - intros [= <-]. by apply (dial_inv_frame t).
Qed.

Lemma run_inv es t live t' :
  acc_inv t live → dial_inv t → run t es = Some t' → ∃ live', acc_inv t' live' ∧ dial_inv t'.
Proof.
  revert t live. induction es as [|e es IH]; intros t live Ha Hd; cbn [run]; [intros [= <-]; eauto|].
  destruct (exec t e) as [t1|] eqn:E; [|done]. destruct (acc_inv_exec t live e t1 Ha E) as [live1 H1].
  apply (IH t1 live1 H1). exact (dial_inv_exec t live e t1 Ha Hd E).
Qed.

Lemma boot_run es t : run boot es = Some t → ∃ live, acc_inv t live ∧ dial_inv t.
Proof.
  intros Hr. eapply run_inv; [apply acc_inv_boot| |done]. by split.
Qed.

(** * What the tunnels guarantee *)

(** C12: Traffic for an enclave goes to that enclave.  However acceptors, dials,
    timeouts and closing sessions interleave: a connection that Open returned for
    an enclave is a stream, still open, on a session that one tunnel connection
    brought up, and only that one; and to the request of that connection (the
    method and path the gateway insists on, its headers, its body, its address)
    the authorizer had answered with this very enclave. *)
Theorem tunnel_streams_vouched es t j d c :
  run boot es = Some t → dials t !! j = Some d → d_at d = DDone (inl c) →
  ∃ s st i a req body,
    c = TunnelConn s st (writePreamble (d_addr d)) ∧ streams t !! st = Some s ∧
    acceptors t !! i = Some a ∧ s ∈ sessions_of a ∧
    (∀ i' a', acceptors t !! i' = Some a' → s ∈ sessions_of a' → i' = i) ∧
    ev (OAuthorize {| ar_Method := "POST"; ar_Path := TunnelPath; ar_Headers := authHeaders (ReqHeader req);
                      ar_Body := body; ar_RemoteAddr := a_remote a |}) (Some (d_id d)) ∈ a_tr a.
Proof.
  intros (live & Ha & Hd)%boot_run Hj Hc. destruct (di_sent t Hd j d c Hj Hc) as (s & st & ->).
  assert (dial_session d = Some s ∧ holds d = Some st) as [Hs Hh] by (unfold dial_session, holds; by rewrite Hc).
  destruct (di_vouched t Hd j d s Hj Hs) as (i & a & Hi & Hsa & Hent).
  destruct (di_holds t Hd j d st Hj Hh) as (s' & Hst & Hss). rewrite <- (Hss s Hs) in Hst.
  apply list_elem_of_omap in Hent as (e & He & Hee) .
  destruct (one_session a e (ai_track _ _ Ha _ _ Hi) He (entry_registers _ _ Hee))
    as (id' & s1 & req & body & _ & _ & _ & Hents & _ & Hauth).
  assert ((d_id d, s) = (id', s1)) as E by (apply Hents, list_elem_of_omap; by exists e). injection E as -> ->.
  exists s1, st, i, a, req, body. split_and!; try done. intros i' a' Hi' Hs'. by eapply (ai_uniq _ _ Ha).
Qed.

Definition finished (d : dial) : Prop :=
  match d_at d with DDone _ | DReleased => True | _ => False end.

(** C13: No stream is left behind.  Once the dials are over, whatever came too
    late or failed on the way, the streams open on the sessions are exactly those
    that a caller got and has not closed, each of them held by one caller. *)
Theorem no_stream_leak es t :
  run boot es = Some t → (∀ j d, dials t !! j = Some d → finished d) →
  ∀ st s, streams t !! st = Some s ↔
    ∃ j d sent, dials t !! j = Some d ∧ d_at d = DDone (inl (TunnelConn s st sent)) ∧
      ∀ j' d' s' sent', dials t !! j' = Some d' → d_at d' = DDone (inl (TunnelConn s' st sent')) → j' = j.
Proof.
  intros (live & Ha & Hd)%boot_run Hfin st s. split.
  - intros Hst. destruct (di_held t Hd st s Hst) as [_ (j & d & Hj & Hh)]. pose proof (Hfin j d Hj) as Hf.
    unfold holds, finished in *. destruct (d_at d) as [| | | | | | |[[s' st' sent|addr]|err]|] eqn:E; try done.
    injection Hh as ->. destruct (di_holds t Hd j d st Hj) as (s1 & Hs1 & Hss); [unfold holds; by rewrite E|].
    assert (s' = s1) as -> by (apply Hss; unfold dial_session; by rewrite E). rewrite Hst in Hs1. injection Hs1 as ->.
    exists j, d, sent. split_and!; [done|done|]. intros j' d' s' sent' Hj' E'.
    apply (di_inj t Hd j' j d' d st Hj' Hj); unfold holds; [by rewrite E'|by rewrite E].
  - intros (j & d & sent & Hj & E & _). destruct (di_holds t Hd j d st Hj) as (s1 & Hs1 & Hss); [unfold holds; by rewrite E|].
    assert (s = s1) as -> by (apply Hss; unfold dial_session; by rewrite E). done.
Qed.

(** The registry empties.  When every tunnel connection has been served to
    its end, no enclave is registered any more and the gauge is back at zero, so
    that further dials find no tunnel. *)
Theorem registry_drains es t :
  run boot es = Some t → (∀ j a, acceptors t !! j = Some a → a_rest a = PRet tt) →
  sessions (reg t) = ∅ ∧ sessionsActive (reg t) = 0 ∧ Connected (reg t) = 0 ∧
  ∀ isClosed id, pick (reg t) isClosed id = None.
Proof.
  intros (live & Ha & _)%boot_run Hdone.
  assert (live = []) as ->.
  { destruct live as [|x live]; [done|]. exfalso. destruct (ai_live _ _ Ha x) as (j & a & Hj & Hk & Hent); [by left|].
    destruct (ai_key _ _ Ha j a _ Hj Hk) as (_ & _ & Hun).
    by rewrite (finished_unregistered a _ (ai_track _ _ Ha j a Hj) (Hdone j a Hj) Hent) in Hun. }
  pose proof (registry_reachable_inv _ _ (ai_reg _ _ Ha)) as Hri.
  assert (sessions (reg t) = ∅) as E.
  { apply map_eq. intros id. rewrite lookup_empty. pose proof (ri_list _ _ Hri id) as Hl.
    pose proof (ri_nonempty _ _ Hri id) as Hne. unfold session_list in Hl.
    destruct (sessions (reg t) !! id) as [l|]; [|done]. cbn in Hl. by subst l. }
  split_and!; [done|apply Hri|unfold Connected; by rewrite E|]. intros isClosed id. unfold pick, session_list. by rewrite E.
Qed.

End invariants.

(** * A concrete run *)

Section witnesses.
#[local] Existing Instances map_range map_range_laws.

(** Enclave e1 connects; one dial gets a stream, another gives up while its
    stream is opened; the session closes. *)
Definition ex_ok (o : op) : ans o := (Tunnel.ex_answer o tt).1.
Definition ex_events : list tevent :=
  TConnect "198.51.100.1:5000" [] :: repeat (TAccept 0 ex_ok) 10 ++
  [TDial "e1" "203.0.113.7:4242"; TDialStep 0 EvStep; TDial "e1" "203.0.113.8:1"; TDialStep 1 EvStep; TDialStep 1 EvDone;
   TDialStep 0 EvOpened; TDialStep 1 EvOpened; TDialStep 0 EvStep; TDialStep 1 EvStep; TDialStep 0 EvStep].
Definition ex_after (es : list tevent) : tunnels := default boot (run boot es).
Definition ex_over : list tevent := ex_events ++ [TClose 0; TAccept 0 ex_ok; TAccept 0 ex_ok].

Lemma tunnel_streams_vouched_witness :
  ∃ d s st sent, dials (ex_after ex_events) !! 0%nat = Some d ∧ d_at d = DDone (inl (TunnelConn s st sent)) ∧
    streams (ex_after ex_events) !! st = Some s.
Proof.
  assert (Hr : run boot ex_events = Some (ex_after ex_events)) by (vm_compute; reflexivity).
  destruct (tunnel_streams_vouched ex_events (ex_after ex_events) 0
    {| d_id := "e1"; d_addr := "203.0.113.7:4242"; d_at := DDone (inl (TunnelConn 0 3 (writePreamble "203.0.113.7:4242"))) |}
    (TunnelConn 0 3 (writePreamble "203.0.113.7:4242")) Hr) as (s & st & i & a & req & body & Hc & Hs & _).
  - vm_compute. reflexivity.
  - reflexivity.
  - injection Hc as <- <-. do 4 eexists. split; [vm_compute; reflexivity|]. split; [reflexivity|exact Hs].
Defined.

Lemma no_stream_leak_witness :
  ∃ j d sent, dials (ex_after ex_events) !! j = Some d ∧ d_at d = DDone (inl (TunnelConn 0 3 sent)).
Proof.
  assert (Hr : run boot ex_events = Some (ex_after ex_events)) by (vm_compute; reflexivity).
  destruct (no_stream_leak ex_events (ex_after ex_events) Hr) with (st := 3%nat) (s := 0%nat) as [Hl _].
  - intros j d Hj. destruct j as [|[|j]]; vm_compute in Hj; [..|discriminate Hj]; injection Hj as <-; exact I.
  - destruct Hl as (j & d & sent & Hj & Hd & _); [vm_compute; reflexivity|]. exists j, d, sent. split; [exact Hj|exact Hd].
Defined.

Lemma registry_drains_witness :
  sessionsActive (reg (ex_after ex_events)) = 1 ∧ sessionsActive (reg (ex_after ex_over)) = 0.
Proof.
  split; [vm_compute; reflexivity|].
  assert (Hr : run boot ex_over = Some (ex_after ex_over)) by (vm_compute; reflexivity).
  apply (registry_drains ex_over (ex_after ex_over) Hr).
  intros j a Hj. destruct j as [|j]; vm_compute in Hj; [|discriminate Hj]. injection Hj as <-. reflexivity.
Defined.

End witnesses.
