(* ===== verification/ReverseProxy.v ===== *)
(** The response path of a terminated connection, whole: what
    net/http/httputil's ReverseProxy does with the enclave's response once the
    transport returned it (hop-by-hop headers, rp.ModifyResponse, the body copied
    piece by piece, trailers, rp.ErrorHandler), written through connResponseWriter
    by the loop of internal/terminate/terminate.go serveHTTP, and read back by a
    client that frames responses as RFC 9112, section 6.3, says.

    A protocol upgrade (101) leaves the loop and is not here.  The response is what
    http.Transport hands over: keys canonical, no CR in a key or value. *)
From Stdlib Require Import Strings.Ascii Strings.String.
From stdpp Require Import pretty.
From S2P Require Import Prelude GoBytes GoStrings GoRuntime Effects RouteTable Http Quarantine Cors.
From S2P Require Import ResponseWriter WsFrame Policy ProxyCache Forward Terminate GoFlag.
Local Open Scope string_scope.

(** * Operations *)

Definition set_header (w : connResponseWriter) (h : Header) : connResponseWriter := {|
  header := h; status := status w; wroteHeader := wroteHeader w; closeRequested := closeRequested w;
  chunked := chunked w; hijacked := hijacked w; out := out w; unflushed := unflushed w;
|}.

(** The final response of RoundTrip. *)
Record upstream_response := {
  u_code : Z;
  u_header : Header;
  u_reads : list string;        (* what successive reads of res.Body return *)
  u_failed : bool;              (* the last read failed, other than with io.EOF *)
  u_flush : bool;               (* flushInterval(res) < 0 *)
  u_announced : list string;    (* keys of res.Trailer before the body *)
  u_trailer : Header;           (* res.Trailer after the body *)
}.

(** What RoundTrip yields for one request. *)
Record round_trip := {
  rt_early : list (Z * Header);             (* informational responses seen on the way *)
  rt_response : option upstream_response;   (* [None]: an error *)
}.

Section proxy.
Context `{GoUnicode} `{GoRange}.

(** rp.ErrorHandler *)
Definition ErrorHandler (w : connResponseWriter) : connResponseWriter :=
  let w := set_header w (HSet (header w) "Content-Type" "text/plain; charset=utf-8") in
  let w := WriteHeader w 502 in
  Write w ("502 Bad Gateway: upstream enclave unreachable" ++ newline).

(** The Got1xxResponse hook of ReverseProxy. *)
Definition Got1xxResponse (w : connResponseWriter) (early : Z * Header) : connResponseWriter :=
  let w := set_header w (copyHeader (header w) early.2) in
  let w := WriteHeader w early.1 in
  set_header w ∅.

(** One round of copyBuffer; with [fl] maxLatencyWriter flushes at once. *)
Definition copy_piece (fl : bool) (w : connResponseWriter) (p : string) : connResponseWriter :=
  if String.eqb p "" then w else
  let w := Write w p in
  if fl then Flush w else w.

(** The trailers, after the body. *)
Definition set_trailers (res : upstream_response) (w : connResponseWriter) : connResponseWriter :=
  let w := if bool_decide (u_trailer res = ∅) then w else Flush w in
  if (size (u_trailer res) =? length (u_announced res))%nat
  then set_header w (copyHeader (header w) (u_trailer res))
  else set_header w (fold_left (fun d kv => fold_left (fun d v => HAdd d ("Trailer:" ++ kv.1) v) kv.2 d)
         (range_map (u_trailer res)) (header w)).

(** The response header as it stands when WriteHeader is called. *)
Definition response_header (start : Header) (res : upstream_response) : Header :=
  let h := copyHeader start (ModifyResponse (removeHopByHopHeaders (u_header res))) in
  match u_announced res with
  | [] => h
  | ks => HAdd h "Trailer" (SJoin ks ", ")
  end.

(** rp.ServeHTTP after the request went out.  A body that breaks off only makes it return: shouldPanicOnCopyError looks for
    http.ServerContextKey, which the context of http.ReadRequest does not have. *)
Definition ServeHTTP (w : connResponseWriter) (rt : round_trip) : connResponseWriter :=
  let w := fold_left Got1xxResponse (rt_early rt) w in
  match rt_response rt with
  | None => ErrorHandler w
  | Some res =>
      let w := set_header w (response_header (header w) res) in
      let w := WriteHeader w (u_code res) in
      let w := fold_left (copy_piece (u_flush res)) (u_reads res) w in
      if u_failed res then w else set_trailers res w
  end.

(** One turn of the loop of serveHTTP: the writer with the gateway's CORS
    headers, rp.ServeHTTP, flushClose. *)
Definition answer (start : Header) (rt : round_trip) : connResponseWriter :=
  flushClose (ServeHTTP (set_header newConnResponseWriter start) rt).

End proxy.

(** * Reference: a client (RFC 9112, section 6.3) *)

(** The values of one field, in the order received. *)
Definition field_values (fs : list (string * string)) (k : string) : list string :=
  flat_map (fun kv => if String.eqb kv.1 k then [kv.2] else []) fs.

(** HEAD, 204 and 304 have no body whatever their header says. *)
Definition bodyless (meth line : string) : bool :=
  String.eqb meth "HEAD" || HasPrefix line "HTTP/1.1 204 " || HasPrefix line "HTTP/1.1 304 ".

Record reply := { r_line : string; r_fields : list (string * string); r_body : string }.

(** The answer to a request with this method, and what follows it. *)
Definition client_read (meth : string) (s : string) : option (reply * string) :=
  match read_response s with
  | None => None
  | Some (line, fs, r) =>
      if bodyless meth line then Some ({| r_line := line; r_fields := fs; r_body := "" |}, r) else
      match field_values fs "Transfer-Encoding", field_values fs "Content-Length" with
      | ["chunked"], _ =>
          match decode_chunked (String.length r) r with
          | Some (body, r) => Some ({| r_line := line; r_fields := fs; r_body := body |}, r)
          | None => None
          end
      | [], [v] =>
          match (if String.eqb v "" then None else parse_digits false 10 0 v) with
          | Some n =>
              let body := stake (Z.to_nat n) r in
              if (slen body =? n)%Z
              then Some ({| r_line := line; r_fields := fs; r_body := body |}, sdrop (Z.to_nat n) r)
              else None
          | None => None
          end
      | _, _ => None
      end
  end.

(** The answers to requests with these methods, in order. *)
Fixpoint client_stream (meths : list string) (s : string) : option (list reply * string) :=
  match meths with
  | [] => Some ([], s)
  | m :: meths =>
      match client_read m s with
      | None => None
      | Some (r, s) => match client_stream meths s with
                       | Some (rs, s) => Some (r :: rs, s)
                       | None => None
                       end
      end
  end.

(** * Headers that cannot split a response *)

Definition no_cr (s : string) : Prop := sin cr s = false.
Definition clean_key (k : string) : Prop := k ≠ "" ∧ no_cr k ∧ sin ":" k = false.
Definition clean_header (h : Header) : Prop := ∀ k vs, h !! k = Some vs → clean_key k ∧ Forall no_cr vs.

Lemma no_cr_drop (p q : string) : no_cr (p ++ q) → no_cr p ∧ no_cr q.
Proof. unfold no_cr. rewrite sin_app. by intros [? ?]%orb_false_iff. Qed.

Lemma sin_srev c s : sin c (srev s) = sin c s.
Proof.
  induction s as [|d s IH]; [done|]. change (String d s) with (String d "" ++ s).
  rewrite srev_sapp, !sin_app, IH, orb_comm. done.
Qed.

Lemma no_cr_trim_left n encs s : no_cr s → no_cr (trim_left n encs s).
Proof. destruct (trim_left_suffix encs n s) as [p E]. rewrite E at 1. by intros [_ ?]%no_cr_drop. Qed.

Lemma no_cr_TrimSpace s : no_cr s → no_cr (TrimSpace s).
Proof.
  intros Hs. unfold TrimSpace, no_cr. rewrite sin_srev. apply no_cr_trim_left. unfold no_cr. rewrite sin_srev.
  by apply no_cr_trim_left.
Qed.

Lemma no_cr_SplitChar c s : no_cr s → Forall no_cr (SplitChar c s).
Proof.
  unfold no_cr. induction s as [|d s IH]; [by constructor|]. cbn [sin SplitChar]. intros [Hd Hs]%orb_false_iff.
  specialize (IH Hs). destruct (Ascii.eqb d c); [by constructor|]. destruct (SplitChar c s) as [|t ts].
  - constructor; [|done]. cbn [sin]. by rewrite Hd.
  - apply Forall_cons in IH as [Ht Hts]. constructor; [|done]. cbn [sin]. by rewrite Hd.
Qed.

Lemma no_cr_SJoin l sep : no_cr sep → Forall no_cr l → no_cr (SJoin l sep).
Proof.
  intros Hsep. induction 1 as [|s [|t l] Hs Hl IH]; [done|done|].
  change (SJoin (s :: t :: l) sep) with (s ++ sep ++ SJoin (t :: l) sep). unfold no_cr in *.
  by rewrite !sin_app, Hs, Hsep, IH.
Qed.

Lemma clean_empty : clean_header ∅.
Proof. by intros k vs ?%lookup_empty_Some. Qed.

Lemma clean_HDel h k : clean_header h → clean_header (HDel h k).
Proof. unfold HDel. intros Hh k0 vs [_ ?]%lookup_delete_Some. by apply Hh. Qed.

Lemma clean_HDels l h : clean_header h → clean_header (fold_left HDel l h).
Proof. revert h. induction l as [|k l IH]; intros h Hh; [done|]. by apply IH, clean_HDel. Qed.

Lemma clean_HSet h k v : clean_key (CanonicalHeaderKey k) → no_cr v → clean_header h → clean_header (HSet h k v).
Proof. unfold HSet. intros Hk Hv Hh k0 vs [[<- <-]|[_ ?]]%lookup_insert_Some; [|by apply Hh]. split; [done|by constructor]. Qed.

Lemma clean_HValues h k : clean_header h → Forall no_cr (HValues h k).
Proof. intros Hh. unfold HValues. destruct (h !! _) eqn:E; [by eapply Hh|constructor]. Qed.

Lemma clean_HGet h k : clean_header h → no_cr (HGet h k).
Proof. intros Hh%(clean_HValues _ k). unfold HGet. by destruct Hh. Qed.

Lemma clean_HAdd h k v : clean_key (CanonicalHeaderKey k) → no_cr v → clean_header h → clean_header (HAdd h k v).
Proof.
  unfold HAdd. intros Hk Hv Hh k0 vs [[<- <-]|[_ ?]]%lookup_insert_Some; [|by apply Hh]. split; [done|].
  apply Forall_app. split; [by apply clean_HValues|by constructor].
Qed.

(** A literal key, or a canonical one of a clean header. *)
Ltac ckey := first [done | split_and!; by vm_compute].

Section cleanliness.
Context `{GoUnicode} `{GoRange} `{!GoRangeLaws}.

Lemma clean_ModifyResponse h : clean_header h → clean_header (ModifyResponse h).
Proof.
  intros Hh. unfold ModifyResponse. destruct (isPublicResponse h); [by apply clean_HDel|].
  pose proof (clean_HDels cors_headers h Hh) as Hd. pose proof (clean_HValues _ "Vary" Hd) as Hv.
  destruct (HValues _ "Vary") as [|v vs]; [done|]. apply (clean_HDel _ "Vary") in Hd. revert Hd Hv.
  generalize (v :: vs), (HDel (fold_left HDel cors_headers h) "Vary"). intros l.
  induction l as [|line l IH]; intros h0 Hh0 Hl; [done|]. apply Forall_cons in Hl as [Hline Hl]. apply IH; [|done].
  unfold vary_step. destruct (kept_tokens _ line) as [|t ts] eqn:E; [done|]. apply clean_HAdd; [ckey| |done].
  apply no_cr_SJoin; [done|]. rewrite <- E. apply Forall_forall. intros x [_ Hx]%list_elem_of_filter.
  apply list_elem_of_fmap in Hx as (y & -> & Hy). apply no_cr_TrimSpace.
  pose proof (no_cr_SplitChar "," line Hline) as Hf. rewrite Forall_forall in Hf. by apply Hf.
Qed.

Lemma clean_copyHeader dst src :
  canonical_header src → clean_header src → clean_header dst → clean_header (copyHeader dst src).
Proof.
  intros Hc Hs. unfold copyHeader.
  assert (Hf : Forall (fun kv => clean_key (CanonicalHeaderKey kv.1) ∧ Forall no_cr kv.2) (range_map src)).
  { apply Forall_forall. intros [k vs] Hin%range_map_elem. simpl. rewrite (Hc _ _ Hin). by apply Hs. }
  revert dst. induction Hf as [|[k vs] l [Hk Hvs] _ IH]; intros dst Hd; [done|]. cbn [fold_left fst snd]. apply IH.
  simpl in *. revert dst Hd. induction Hvs as [|v vs Hv _ IHv]; intros dst Hd; [done|]. by apply IHv, clean_HAdd.
Qed.

Lemma clean_inject c req : clean_header (ReqHeader req) → clean_header (inject_cors c req).
Proof.
  intros Hr. unfold inject_cors. destruct (_ && _); [|apply clean_empty].
  repeat (apply clean_HSet; [ckey|first [done|by apply clean_HGet]|]). apply clean_empty.
Qed.

Lemma clean_merge vs : Forall no_cr vs → Forall no_cr (merge_tokens vs).
Proof.
  intros Hvs. apply Forall_forall. intros t Ht.
  destruct (merge_fold (flat_map (SplitChar ",") vs) ∅ [] eq_refl ltac:(constructor)) as (_ & _ & I3 & _).
  destruct (I3 t Ht) as [?%not_elem_of_nil|(tok & Hin & ->)]; [done|]. apply no_cr_TrimSpace.
  apply list_elem_of_In, in_flat_map in Hin as (line & Hl%list_elem_of_In & Hin%list_elem_of_In).
  rewrite Forall_forall in Hvs. specialize (no_cr_SplitChar "," line (Hvs _ Hl)). rewrite Forall_forall. auto.
Qed.

Lemma clean_reconcile h : clean_header h → clean_header (reconcilePublicCORS h).
Proof.
  intros Hh. unfold reconcilePublicCORS. destruct (negb _); [done|].
  apply (clean_HDel _ "Access-Control-Allow-Credentials") in Hh. revert Hh. generalize (HDel h "Access-Control-Allow-Credentials").
  intros h1 Hh. match goal with |- context [if existsb ?f ?l then _ else _] => destruct (existsb f l) end;
  match goal with |- context [length (HValues ?g _)] => set (h2 := g) end.
  2: assert (clean_header h2) as H2 by done.
  1: assert (clean_header h2) as H2 by (apply clean_HDel, clean_HSet; [ckey|done|done]).
  all: destruct (1 <? _)%nat; [|done]; apply clean_HSet; [ckey| |done];
    apply no_cr_SJoin; [done|]; by apply clean_merge, clean_HValues.
Qed.

Lemma clean_sent h code : clean_header h → clean_header (sent_headers h code).
Proof.
  intros Hh%clean_reconcile. unfold sent_headers. destruct (frames h code); [|done]. apply clean_HSet; [ckey|done|done].
Qed.

Lemma clean_fields h : clean_header h → Forall clean_field (fields_of h).
Proof.
  intros Hh. apply Forall_forall. intros [k v] Hin. unfold fields_of in Hin.
  apply list_elem_of_In, in_flat_map in Hin as ([k0 vs] & Hkv%list_elem_of_In & Hin%list_elem_of_In).
  apply range_map_elem, Hh in Hkv as [(Hk1 & Hk2 & Hk3) Hvs]. cbn [fst snd] in *.
  apply list_elem_of_fmap in Hin as (v' & [= -> ->] & Hv). rewrite Forall_forall in Hvs. repeat split; try done. by apply Hvs.
Qed.

Lemma clean_hop h : clean_header h → clean_header (removeHopByHopHeaders h).
Proof. intros Hh. by apply clean_HDels, clean_HDels. Qed.

Lemma canonical_hop h : canonical_header h → canonical_header (removeHopByHopHeaders h).
Proof.
  assert (Hd : ∀ l h, canonical_header h → canonical_header (fold_left HDel l h)).
  { induction l as [|k l IH]; intros h0 Hh; [done|]. by apply IH, canonical_HDel. }
  intros Hh. by apply Hd, Hd.
Qed.

Lemma clean_response_header start res :
  clean_header start → canonical_header (u_header res) → clean_header (u_header res) → Forall no_cr (u_announced res) →
  clean_header (response_header start res).
Proof.
  intros Hst Hc Hh Ht. unfold response_header.
  assert (Hcopy : clean_header (copyHeader start (ModifyResponse (removeHopByHopHeaders (u_header res))))).
  { apply clean_copyHeader; [|by apply clean_ModifyResponse, clean_hop|done]. by apply canonical_ModifyResponse, canonical_hop. }
  destruct (u_announced res) eqn:E; [done|]. apply clean_HAdd; [ckey| |done]. by apply no_cr_SJoin.
Qed.

End cleanliness.

(** * The fields that frame the body *)

Lemma field_values_app fs fs' k : field_values (fs ++ fs') k = (field_values fs k ++ field_values fs' k)%list.
Proof. apply flat_map_app. Qed.

Lemma field_values_pair k0 vs k : field_values (map (pair k0) vs) k = if String.eqb k0 k then vs else [].
Proof.
  induction vs as [|v vs IH]; [by destruct (String.eqb k0 k)|]. cbn [map]. unfold field_values in *. cbn [flat_map fst snd].
  rewrite IH. by destruct (String.eqb k0 k).
Qed.

Section framing.
Context `{GoUnicode} `{GoRange} `{!GoRangeLaws}.

Lemma field_values_of h k : CanonicalHeaderKey k = k → field_values (fields_of h) k = HValues h k.
Proof.
  intros Hk. unfold HValues, fields_of. rewrite Hk.
  assert (Hn : ∀ l : list (string * list string), k ∉ l.*1 →
    field_values (flat_map (fun kv => map (pair kv.1) kv.2) l) k = []).
  { induction l as [|[k0 vs] l IH]; [done|]. cbn [flat_map]. rewrite field_values_app, field_values_pair. intros Hin.
    simpl in Hin. rewrite IH by set_solver. simpl. destruct (String.eqb_spec k0 k) as [->|]; [set_solver|done]. }
  pose proof (range_map_NoDup h) as Hnd. destruct (h !! k) as [vs|] eqn:E.
  - apply range_map_elem in E. revert Hnd E. generalize (range_map h). induction l as [|[k0 vs0] l IH]; [set_solver|].
    cbn [flat_map fmap list_fmap fst snd]. rewrite field_values_app, field_values_pair. intros [Hk0 Hnd]%NoDup_cons Hin.
    apply elem_of_cons in Hin as [[= <- <-]|Hin].
    + rewrite String.eqb_refl, Hn by done. apply app_nil_r.
    + destruct (String.eqb_spec k0 k) as [->|_]; [|by apply IH]. exfalso. apply Hk0. apply list_elem_of_fmap. by exists (k, vs).
  - apply Hn. intros ([k0 vs] & Hk0 & Hin%range_map_elem)%list_elem_of_fmap. simpl in Hk0. congruence.
Qed.

Lemma HValues_Modify_other h k :
  CanonicalHeaderKey k ∉ "Vary" :: cors_headers → HValues (ModifyResponse h) k = HValues h k.
Proof.
  intros Hk. destruct (isPublicResponse h) eqn:E.
  - unfold ModifyResponse. rewrite E, HValues_del. case_decide as Ec; [|done]. exfalso. apply Hk. rewrite <- Ec. set_solver.
  - rewrite HValues_ModifyResponse, !decide_False by (done || set_solver). done.
Qed.

Lemma HValues_reconcile_other h k :
  CanonicalHeaderKey k ∉ "Vary" :: cors_headers → HValues (reconcilePublicCORS h) k = HValues h k.
Proof.
  intros Hk. assert (Hne : ∀ k', k' ∈ "Vary" :: cors_headers → CanonicalHeaderKey k' ≠ CanonicalHeaderKey k).
  { assert (Hall : Forall (fun k' => CanonicalHeaderKey k' = k') ("Vary" :: cors_headers)) by (repeat constructor).
    rewrite Forall_forall in Hall. intros k' Hk' E. apply Hk. rewrite <- E. by rewrite Hall. }
  unfold reconcilePublicCORS. destruct (negb _); [done|].
  match goal with |- context [if existsb ?f ?l then _ else _] => destruct (existsb f l) end; destruct (1 <? _)%nat;
    rewrite ?HValues_set, ?HValues_del, ?HValues_set, ?HValues_del, !decide_False by (apply Hne; set_solver); done.
Qed.

(** Which values of a framing field the client sees. *)
Lemma HValues_response start res k :
  CanonicalHeaderKey k ∉ "Trailer" :: "Vary" :: cors_headers → canonical_header (u_header res) →
  HValues (response_header start res) k =
  (HValues start k ++ HValues (removeHopByHopHeaders (u_header res)) k)%list.
Proof.
  intros Hk Hc. assert (HValues (response_header start res) k =
    HValues (copyHeader start (ModifyResponse (removeHopByHopHeaders (u_header res)))) k) as ->.
  { unfold response_header. destruct (u_announced res); [done|]. rewrite HValues_add, decide_False; [done|].
    change (CanonicalHeaderKey "Trailer") with "Trailer". set_solver. }
  rewrite HValues_copyHeader by (by apply canonical_ModifyResponse, canonical_hop).
  rewrite HValues_Modify_other; [done|set_solver].
Qed.

Lemma HValues_hop h k : CanonicalHeaderKey k ∉ hopHeaders →
  HValues (removeHopByHopHeaders h) k = HValues h k ∨ HValues (removeHopByHopHeaders h) k = [].
Proof. intros Hk. unfold removeHopByHopHeaders. rewrite !HValues_del_all. repeat case_decide; auto. Qed.

Lemma HValues_hop_gone h : HValues (removeHopByHopHeaders h) "Transfer-Encoding" = [].
Proof.
  unfold removeHopByHopHeaders. rewrite HValues_del_all, decide_True; [done|]. apply (bool_decide_unpack _). by vm_compute.
Qed.

Lemma sent_encoding h code :
  HValues h "Transfer-Encoding" = [] →
  field_values (fields_of (sent_headers h code)) "Transfer-Encoding" = if frames h code then ["chunked"] else [].
Proof.
  intros Hh. rewrite field_values_of by done. unfold sent_headers. destruct (frames h code).
  - by rewrite HValues_set.
  - rewrite HValues_reconcile_other; [done|]. apply (bool_decide_unpack _). by vm_compute.
Qed.

Lemma sent_length h code :
  field_values (fields_of (sent_headers h code)) "Content-Length" = HValues h "Content-Length".
Proof.
  assert (Hr : HValues (reconcilePublicCORS h) "Content-Length" = HValues h "Content-Length").
  { apply HValues_reconcile_other. apply (bool_decide_unpack _). by vm_compute. }
  rewrite field_values_of by done. unfold sent_headers. destruct (frames h code); [|done].
  by rewrite HValues_set, decide_False by (by vm_compute).
Qed.

(** Without a Transfer-Encoding, chunks are used exactly when no length is given. *)
Lemma frames_length h code : (200 <= code)%Z → HValues h "Transfer-Encoding" = [] →
  frames h code = String.eqb (HGet h "Content-Length") "".
Proof.
  intros Hc Hh. unfold frames, HGet. rewrite !HValues_reconcile_other by (apply (bool_decide_unpack _); by vm_compute).
  rewrite Hh, (proj2 (Z.leb_le _ _)) by done. by rewrite andb_true_r.
Qed.

End framing.

(** * One response *)

Lemma length_chunks ps : (length ps <= String.length (SJoin (map chunk ps) ""))%nat.
Proof.
  induction ps as [|p ps IH]; [done|]. cbn [map]. rewrite SJoin_cons_empty, slength_app.
  unfold chunk at 1. rewrite !slength_app. change (String.length crlf) with 2%nat. simpl length. lia.
Qed.

Section responses.
Context `{GoUnicode} `{GoRange} `{!GoRangeLaws}.

Definition pieces (reads : list string) : list string := filter (fun p => p ≠ "") reads.
Definition small (p : string) : Prop := (slen p <= 32 * 1024)%Z.  (* the buffer of copyBuffer *)

Lemma pieces_join reads : SJoin (pieces reads) "" = SJoin reads "".
Proof.
  induction reads as [|p reads IH]; [done|]. unfold pieces in *. rewrite filter_cons, (SJoin_cons_empty p reads), <- IH.
  case_decide as Hp; [apply SJoin_cons_empty|]. destruct (decide (p = "")) as [->|]; [done|by destruct Hp].
Qed.

Lemma pieces_small reads : Forall small reads → Forall (fun p => 0 < slen p < 2 ^ 63)%Z (pieces reads).
Proof.
  rewrite !Forall_forall. intros Hs p [Hp Hin]%list_elem_of_filter. specialize (Hs p Hin). unfold small in Hs.
  destruct p as [|c p]; [done|]. unfold slen in *. simpl String.length in *. lia.
Qed.

(** Header, status and body as the writer puts them on the connection. *)
Definition wire_response (h : Header) (code : Z) (ps : list string) : string :=
  render_response (status_line code) (fields_of (sent_headers h code))
    (if frames h code then SJoin (map chunk ps) "" ++ last_chunk else SJoin ps "").

(** What a client should make of it. *)
Definition reply_of (meth : string) (h : Header) (code : Z) (body : string) : reply := {|
  r_line := status_line code; r_fields := fields_of (sent_headers h code);
  r_body := if bodyless meth (status_line code) then "" else body;
|}.

(** A response whose length is known to the client: nothing follows a header
    without a body, and a declared length is the true one. *)
Definition delimited (meth : string) (h : Header) (code : Z) (body : string) : Prop :=
  if bodyless meth (status_line code) then body = "" ∧ HGet h "Content-Length" ≠ ""
  else HValues h "Content-Length" = [] ∨ HValues h "Content-Length" = [itoa (slen body)].

Lemma wire_read h code b rest : clean_header h →
  read_response (render_response (status_line code) (fields_of (sent_headers h code)) b ++ rest) =
  Some (status_line code, fields_of (sent_headers h code), b ++ rest).
Proof.
  intros Hh. unfold render_response. rewrite !sapp_assoc. apply read_render; [apply status_line_no_cr|].
  by apply clean_fields, clean_sent.
Qed.

Lemma client_reads meth h code reads rest :
  clean_header h → (200 <= code)%Z → HValues h "Transfer-Encoding" = [] → Forall small reads →
  delimited meth h code (SJoin reads "") →
  client_read meth (wire_response h code (pieces reads) ++ rest) =
  Some (reply_of meth h code (SJoin reads ""), rest).
Proof.
  intros Hcl Hcode Hte Hsm Hd. unfold client_read, wire_response.
  rewrite wire_read by done. pose proof (frames_length h code Hcode Hte) as Hf. unfold delimited in Hd. unfold reply_of.
  rewrite sent_encoding, sent_length by done. destruct (bodyless meth (status_line code)).
  { destruct Hd as [Hb Hl%String.eqb_neq]. rewrite Hf, Hl, pieces_join, Hb. done. }
  destruct Hd as [Hl|Hl]; unfold HGet in Hf; rewrite Hl in *.
  - rewrite Hf. change (String.eqb "" "") with true. cbv iota. rewrite sapp_assoc.
    rewrite decode_chunks; [by rewrite pieces_join|by apply pieces_small|].
    rewrite !slength_app. pose proof (length_chunks (pieces reads)). simpl. lia.
  - destruct (parse_itoa (slen (SJoin reads ""))) as [Hp Hne%String.eqb_neq]; [unfold slen; lia|].
    rewrite Hf, Hne, Hp, pieces_join. cbv iota zeta.
    assert (Z.to_nat (slen (SJoin reads "")) = String.length (SJoin reads "")) as -> by (unfold slen; lia).
    by rewrite stake_app, sdrop_exact, Z.eqb_refl.
Qed.

(** A response without a body and without a length (to a HEAD request, or a
    204 or 304) is followed by a last chunk the client does not expect: it stays in
    front of the next response. *)
Theorem bodyless_tail meth h code rest :
  clean_header h → (200 <= code)%Z → HValues h "Transfer-Encoding" = [] → HValues h "Content-Length" = [] →
  bodyless meth (status_line code) = true →
  client_read meth (wire_response h code [] ++ rest) = Some (reply_of meth h code "", last_chunk ++ rest).
Proof.
  intros Hcl Hcode Hte Hl Hb. unfold client_read, wire_response, reply_of. rewrite wire_read by done. rewrite Hb.
  rewrite frames_length by done. unfold HGet. by rewrite Hl.
Qed.

(** ** What the proxy writes *)

Lemma copy_pieces fl reads w :
  wroteHeader w = true →
  let w' := fold_left (copy_piece fl) reads w in
  wroteHeader w' = true ∧ chunked w' = chunked w ∧ closeRequested w' = closeRequested w ∧
  out w' = out w ++ (if chunked w then SJoin (map chunk (pieces reads)) "" else SJoin (pieces reads) "").
Proof.
  revert w. induction reads as [|p reads IH]; intros w Hw; cbn [fold_left].
  { split_and!; [done..|]. destruct (chunked w); by rewrite sapp_nil_r. }
  unfold pieces. rewrite filter_cons. fold (pieces reads). unfold copy_piece at 2 4 6 8.
  destruct (String.eqb_spec p "") as [->|Hp]; [rewrite decide_False by auto; by apply IH|]. rewrite decide_True by done.
  set (w1 := if fl then Flush (Write w p) else Write w p).
  assert (Hw1 : wroteHeader w1 = true ∧ chunked w1 = chunked w ∧ closeRequested w1 = closeRequested w ∧
    out w1 = out w ++ (if chunked w then chunk p else p)).
  { unfold w1, Write. rewrite Hw. destruct (chunked w) eqn:Ec, fl; unfold Flush; cbn; rewrite ?Hw; by cbn. }
  destruct Hw1 as (W1 & C1 & R1 & O1). destruct (IH w1 W1) as (I1 & I2 & I3 & I4). rewrite C1 in I2, I4.
  split_and!; [done|done|congruence|]. rewrite I4, O1. destruct (chunked w); cbn [map]; by rewrite SJoin_cons_empty, sapp_assoc.
Qed.

Lemma set_trailers_out res w : wroteHeader w = true →
  let w' := set_trailers res w in
  wroteHeader w' = true ∧ chunked w' = chunked w ∧ closeRequested w' = closeRequested w ∧ out w' = out w.
Proof.
  intros Hw. unfold set_trailers, Flush. rewrite Hw. by destruct (bool_decide _), (size _ =? _)%nat.
Qed.

(** The header WriteHeader is given, the status and the reads of the body. *)
Definition answer_header (start : Header) (rt : round_trip) : Header :=
  match rt_response rt with
  | Some res => response_header start res
  | None => HSet start "Content-Type" "text/plain; charset=utf-8"
  end.
Definition answer_code (rt : round_trip) : Z := match rt_response rt with Some res => u_code res | None => 502 end.
Definition answer_reads (rt : round_trip) : list string :=
  match rt_response rt with
  | Some res => u_reads res
  | None => ["502 Bad Gateway: upstream enclave unreachable" ++ newline]
  end.

Lemma answer_out start rt :
  rt_early rt = [] →
  out (answer start rt) = wire_response (answer_header start rt) (answer_code rt) (pieces (answer_reads rt)) ∧
  closeRequested (answer start rt) =
    EqualFold (HGet (sent_headers (answer_header start rt) (answer_code rt)) "Connection") "close".
Proof.
  intros He. unfold answer, ServeHTTP, answer_header, answer_code, answer_reads. rewrite He. cbn [fold_left].
  set (h := match rt_response rt with Some res => response_header start res | None => _ end).
  set (code := match rt_response rt with Some res => u_code res | None => _ end).
  set (w1 := WriteHeader (set_header newConnResponseWriter h) code).
  assert (Hh : wroteHeader w1 = true ∧ chunked w1 = frames h code ∧
    closeRequested w1 = EqualFold (HGet (sent_headers h code) "Connection") "close" ∧
    out w1 = status_line code ++ crlf ++ header_block (fields_of (sent_headers h code)) ++ crlf).
  { rewrite <- header_lines_block. done. }
  destruct Hh as (W1 & C1 & R1 & O1).
  assert (Hfin : ∀ w', wroteHeader w' = true → chunked w' = frames h code → closeRequested w' = closeRequested w1 →
    ∀ ps, out w' = out w1 ++ (if frames h code then SJoin (map chunk ps) "" else SJoin ps "") →
    out (flushClose w') = wire_response h code ps ∧ closeRequested (flushClose w') = closeRequested w1).
  { intros w' Hw' Hc' Hr' ps Ho'. unfold flushClose, wire_response, render_response. rewrite Hw', Hc'.
    destruct (frames h code); cbn [bw_flush put out closeRequested]; rewrite Ho', O1, !sapp_assoc; auto. }
  rewrite <- R1. destruct (rt_response rt) as [res|] eqn:E.
  - change (header (set_header newConnResponseWriter start)) with start.
    change (set_header (set_header newConnResponseWriter start) (response_header start res)) with
      (set_header newConnResponseWriter h). change (WriteHeader (set_header newConnResponseWriter h) (u_code res)) with w1.
    destruct (copy_pieces (u_flush res) (u_reads res) w1 W1) as (I1 & I2 & I3 & I4). rewrite C1 in I2, I4.
    destruct (u_failed res); [by apply Hfin|].
    destruct (set_trailers_out res _ I1) as (J1 & J2 & J3 & J4).
    apply Hfin; congruence.
  - unfold ErrorHandler. change (set_header (set_header newConnResponseWriter start) _) with (set_header newConnResponseWriter h).
    change (WriteHeader (set_header newConnResponseWriter h) 502) with w1.
    destruct (copy_pieces false ["502 Bad Gateway: upstream enclave unreachable" ++ newline] w1 W1) as (I1 & I2 & I3 & I4).
    rewrite C1 in I2, I4. by apply Hfin.
Qed.

End responses.

(** * The responses of one connection *)

Section session.
Context `{GoUnicode} `{GoSort} `{GoRange} `{!GoRangeLaws}.
Variable h : handler_conf.

(** What the client receives during a run of the request loop; [up] is what the
    enclave makes of the proxied requests, in order.  rp.ServeHTTP and the
    flushClose after it are one answer. *)
Fixpoint wire (up : nat → round_trip) (tr : list (event ans)) : string :=
  match tr with
  | [] => ""
  | existT (OConnWrite s) _ :: tr => s ++ wire up tr
  | existT (OServe _ start _) _ :: tr => out (answer start (up O)) ++ wire (fun i => up (S i)) tr
  | _ :: tr => wire up tr
  end.

(** The loop sees what the writer recorded: no upgrade, and whether the response
    asked to close. *)
Fixpoint consistent (up : nat → round_trip) (tr : list (event ans)) : Prop :=
  match tr with
  | [] => True
  | existT (OServe _ start _) r :: tr =>
      r = (false, closeRequested (answer start (up O))) ∧ consistent (fun i => up (S i)) tr
  | _ :: tr => consistent up tr
  end.

Definition preflight (req : Request) : bool :=
  String.eqb (Method req) "OPTIONS" && isAllowedOrigin (h_cors h) (HGet (ReqHeader req) "Origin").

Definition proxied_reply (req : Request) (rt : round_trip) : reply :=
  reply_of (Method req) (answer_header (inject_cors (h_cors h) req) rt) (answer_code rt) (SJoin (answer_reads rt) "").
Definition closes (req : Request) (rt : round_trip) : bool :=
  EqualFold (HGet (ReqHeader req) "Connection") "close" || closeRequested (answer (inject_cors (h_cors h) req) rt).

(** One reply per request, up to the first exchange that ends the connection. *)
Fixpoint replies (up : nat → round_trip) (reqs : list Request) : list reply :=
  match reqs with
  | [] => []
  | req :: reqs =>
      if preflight req then
        {| r_line := "HTTP/1.1 204 No Content"; r_fields := preflight_fields req; r_body := "" |} :: replies up reqs
      else proxied_reply req (up O) :: (if closes req (up O) then [] else replies (fun i => up (S i)) reqs)
  end.

(** A response the writer can delimit: see [delimited]. *)
Definition well_framed (meth : string) (rt : round_trip) : Prop :=
  rt_early rt = [] ∧
  match rt_response rt with
  | None => meth ≠ "HEAD"
  | Some res =>
      (200 <= u_code res)%Z ∧ Forall small (u_reads res) ∧ Forall no_cr (u_announced res) ∧
      canonical_header (u_header res) ∧ clean_header (u_header res) ∧
      delimited meth (removeHopByHopHeaders (u_header res)) (u_code res) (SJoin (u_reads res) "")
  end.
Fixpoint all_framed (up : nat → round_trip) (reqs : list Request) : Prop :=
  match reqs with
  | [] => True
  | req :: reqs =>
      clean_header (ReqHeader req) ∧
      if preflight req then all_framed up reqs
      else well_framed (Method req) (up O) ∧ all_framed (fun i => up (S i)) reqs
  end.

(** The framing fields of a proxied response are the enclave's. *)
Lemma framing_values req res k :
  k = "Transfer-Encoding" ∨ k = "Content-Length" → canonical_header (u_header res) →
  HValues (response_header (inject_cors (h_cors h) req) res) k = HValues (removeHopByHopHeaders (u_header res)) k.
Proof.
  intros Hk Hc. rewrite HValues_response, HValues_inject; [|destruct Hk as [-> | ->]; apply (bool_decide_unpack _); by vm_compute|done].
  destruct Hk as [-> | ->]; by destruct (cross_origin_allowed _ _).
Qed.

(** One answer is read back, wherever it stands on the connection. *)
Lemma answer_read req rt rest :
  clean_header (ReqHeader req) → well_framed (Method req) rt →
  client_read (Method req) (out (answer (inject_cors (h_cors h) req) rt) ++ rest) = Some (proxied_reply req rt, rest).
Proof.
  intros Hreq [He Hw]. destruct (answer_out (inject_cors (h_cors h) req) rt He) as [-> _].
  pose proof (clean_inject (h_cors h) req Hreq) as Hst. unfold proxied_reply, answer_header, answer_code, answer_reads in *.
  destruct (rt_response rt) as [res|].
  - destruct Hw as (Hcode & Hsm & Han & Hca & Hcl & Hd).
    apply client_reads; [by apply clean_response_header|done| |done|].
    + rewrite framing_values by auto. apply HValues_hop_gone.
    + unfold delimited, HGet in *. by rewrite framing_values by auto.
  - apply client_reads; [apply clean_HSet; [ckey|done|done]|done| | |].
    + rewrite HValues_set, HValues_inject. by destruct (cross_origin_allowed _ _).
    + repeat constructor. by vm_compute.
    + unfold delimited. assert (bodyless (Method req) (status_line 502) = false) as ->.
      { unfold bodyless. rewrite (proj2 (String.eqb_neq _ _) Hw). by vm_compute. }
      left. rewrite HValues_set, HValues_inject. by destruct (cross_origin_allowed _ _).
Qed.

Lemma preflight_answer_read req m rest :
  clean_header (ReqHeader req) →
  client_read m (writeCORSPreflight req ++ rest) =
  Some ({| r_line := "HTTP/1.1 204 No Content"; r_fields := preflight_fields req; r_body := "" |}, rest).
Proof.
  intros Hreq. rewrite preflight_render. unfold client_read.
  assert (render_response "HTTP/1.1 204 No Content" (preflight_fields req) "" ++ rest =
    render_response "HTTP/1.1 204 No Content" (preflight_fields req) rest) as ->.
  { unfold render_response. by rewrite !sapp_assoc, sapp_nil_l. }
  rewrite read_render by first [done | apply preflight_clean; intros k; by apply clean_HGet].
  assert (bodyless m "HTTP/1.1 204 No Content" = true) as ->; [|done].
  unfold bodyless. by destruct (String.eqb m "HEAD").
Qed.

(** The live check writes nothing. *)
Lemma quarantined_quiet route tr q :
  Quarantined route = false → trace (quarantined h route) tr q → existsb finds_quarantine tr = false →
  q = false ∧ ∀ up tr2, wire up (tr ++ tr2) = wire up tr2 ∧ (consistent up (tr ++ tr2) → consistent up tr2).
Proof.
  intros Hq Ht Hf. unfold quarantined in Ht. rewrite Hq in Ht. hwalk Ht; [done|].
  cbn in Hf. rewrite orb_false_r in Hf. done.
Qed.

(** One proxied request writes one answer. *)
Lemma proxy_request_wire rp req route tr next up tr2 :
  Quarantined route = false → trace (proxy_request h rp req route) tr next →
  existsb finds_quarantine tr = false → consistent up (tr ++ tr2) →
  next = negb (closes req (up O)) ∧ consistent (fun i => up (S i)) tr2 ∧
  wire up (tr ++ tr2) = out (answer (inject_cors (h_cors h) req) (up O)) ++ wire (fun i => up (S i)) tr2.
Proof.
  intros Hq Ht Hf Hc. unfold proxy_request in Ht.
  apply trace_bind in Ht as (tr0 & u & tr1 & -> & Hk & Ht). cbn in Hk. destruct Hk as (x & ? & -> & -> & _).
  apply trace_bind in Ht as (tr3 & q & tr4 & -> & Hk & Ht).
  change (existsb finds_quarantine (tr3 ++ tr4) = false) in Hf. rewrite existsb_app in Hf. apply orb_false_iff in Hf as [Hf1 Hf2].
  destruct (quarantined_quiet route tr3 q Hq Hk Hf1) as [-> Hquiet].
  cbn [app wire consistent ev] in *. rewrite <- app_assoc in *. destruct (Hquiet up (tr4 ++ tr2)%list) as [-> Hcc].
  apply Hcc in Hc. clear Hcc Hquiet Hk Hf1.
  cbn [pbind pdo trace] in Ht. destruct Ht as (r & tr5 & -> & Ht). cbn [app wire consistent ans ev] in *. destruct Hc as [-> Hc].
  cbn [pbind pdo trace fst snd] in Ht. destruct Ht as ([] & tr6 & -> & [] & tr7 & -> & [] & tr8 & -> & -> & ->). done.
Qed.

(** Every response of a connection reaches the client whole and in its place.  The
    request loop runs over any requests the client sent, with preflights answered
    on the spot and the others proxied; reading the connection as RFC 9112 says, the
    client gets exactly one reply per request, in order, up to the exchange that
    closes: the status, the header fields that were set (no value can split the
    response), and the bytes read from the enclave, and is left at the first byte
    after the last of them.  The responses need a final status, a true
    Content-Length or none, and no missing length on a response without a body. *)
Theorem responses_aligned rp route reqs tr up rest :
  trace (serveHTTP h reqs route (Some rp)) tr tt → consistent up tr →
  Quarantined route = false → existsb finds_quarantine tr = false →
  Forall (fun req => parseSealedWS req = None) reqs → all_framed up reqs →
  let rs := replies up reqs in
  client_stream (take (length rs) (map Method reqs)) (wire up tr ++ rest) = Some (rs, rest).
Proof.
  intros Ht Hc Hq Hf Hws Hfr. revert tr up Ht Hc Hf Hfr. induction Hws as [|req reqs Hp _ IH]; intros tr up Ht Hc Hf Hfr.
  { cbn in Ht. destruct Ht as [-> _]. done. }
  cbn [serveHTTP] in Ht. fold (preflight req) in Ht. cbn [all_framed] in Hfr. destruct Hfr as [Hreq Hfr]. cbn [replies].
  destruct (preflight req) eqn:Epf.
  { cbn [pbind pdo trace] in Ht. destruct Ht as (x & tr' & -> & Ht). cbn [map length take client_stream wire ev].
    by rewrite sapp_assoc, preflight_answer_read, IH. }
  apply trace_bind in Ht as (tr1 & q & tr2 & -> & Hk & Ht). rewrite existsb_app in Hf. apply orb_false_iff in Hf as [Hf1 Hf2].
  destruct (quarantined_quiet route tr1 q Hq Hk Hf1) as [-> Hquiet]. destruct (Hquiet up tr2) as [-> Hcc]. apply Hcc in Hc.
  rewrite Hp in Ht. apply trace_bind in Ht as (tr3 & next & tr4 & -> & Hpr & Ht).
  rewrite existsb_app in Hf2. apply orb_false_iff in Hf2 as [Hf3 Hf4].
  destruct (proxy_request_wire rp req route tr3 next up tr4 Hq Hpr Hf3 Hc) as (-> & Hc4 & ->).
  destruct Hfr as [Hwf Hfr]. cbn [map length take client_stream]. rewrite sapp_assoc, answer_read by done.
  destruct (closes req (up O)); cbn [negb] in Ht.
  - cbn in Ht. destruct Ht as [-> _]. done.
  - by rewrite IH.
Qed.

(** * A body that breaks off *)

Definition broken (failed : bool) (res : upstream_response) : upstream_response := {|
  u_code := u_code res; u_header := u_header res; u_reads := u_reads res; u_failed := failed;
  u_flush := u_flush res; u_announced := u_announced res; u_trailer := u_trailer res;
|}.
Definition final (res : upstream_response) : round_trip := {| rt_early := []; rt_response := Some res |}.

(** Nothing on the connection tells a body the enclave leg lost from a whole
    one: the bytes written and the decision to keep the connection are the same. *)
Lemma truncation_invisible start res :
  out (answer start (final (broken true res))) = out (answer start (final (broken false res))) ∧
  closeRequested (answer start (final (broken true res))) = closeRequested (answer start (final (broken false res))).
Proof.
  destruct (answer_out start (final (broken true res)) eq_refl) as [-> ->].
  by destruct (answer_out start (final (broken false res)) eq_refl) as [-> ->].
Qed.

(** A response with a Content-Length whose body breaks off in the middle
    takes its missing bytes from the next response: ReverseProxy returns as after
    a complete copy, the loop keeps the connection and answers the next request on
    it, and the client reads the beginning of that answer as the rest of this body. *)
Theorem broken_body_desync req res n next :
  clean_header (ReqHeader req) → (200 <= u_code res)%Z → Forall no_cr (u_announced res) →
  canonical_header (u_header res) → clean_header (u_header res) →
  bodyless (Method req) (status_line (u_code res)) = false →
  HValues (removeHopByHopHeaders (u_header res)) "Content-Length" = [itoa n] →
  let rt := final (broken true res) in
  let body := SJoin (u_reads res) "" in
  (slen body < n <= slen body + slen next)%Z →
  let k := Z.to_nat (n - slen body) in
  client_read (Method req) (out (answer (inject_cors (h_cors h) req) rt) ++ next) =
    Some ({| r_line := status_line (u_code res); r_fields := r_fields (proxied_reply req rt);
             r_body := body ++ stake k next |}, sdrop k next) ∧
  closes req rt = closes req (final (broken false res)).
Proof.
  intros Hreq Hcode Han Hca Hcl Hb Hl rt body Hn k. split; [|by unfold closes; rewrite (proj2 (truncation_invisible _ res))].
  destruct (answer_out (inject_cors (h_cors h) req) rt eq_refl) as [-> _].
  change (answer_header (inject_cors (h_cors h) req) rt) with (response_header (inject_cors (h_cors h) req) (broken true res)).
  change (answer_code rt) with (u_code res). change (answer_reads rt) with (u_reads res).
  set (hh := response_header (inject_cors (h_cors h) req) (broken true res)).
  assert (Hch : clean_header hh) by (apply clean_response_header; [by apply clean_inject|done..]).
  assert (Hte : HValues hh "Transfer-Encoding" = []) by (unfold hh; rewrite framing_values by auto; apply HValues_hop_gone).
  assert (Hcl' : HValues hh "Content-Length" = [itoa n]) by (unfold hh; by rewrite framing_values by auto).
  destruct (parse_itoa n) as [Hp Hne%String.eqb_neq]; [unfold slen in *; lia|].
  assert (Hff : frames hh (u_code res) = false) by (rewrite frames_length by done; unfold HGet; by rewrite Hcl').
  unfold client_read, wire_response. rewrite Hff, pieces_join. fold body.
  rewrite wire_read, Hb, sent_encoding, sent_length, Hff, Hcl', Hne, Hp by done. cbv iota zeta.
  assert (Z.to_nat n = String.length body + k)%nat as Ek by (unfold k, slen in *; lia).
  rewrite Ek, sdrop_app, stake_app_add. rewrite (proj2 (Z.eqb_eq _ _)); [done|].
  unfold slen. rewrite slength_app, length_stake; unfold k, slen in *; lia.
Qed.

End session.

(** * Concrete inputs *)

Section witnesses.
#[local] Existing Instances ascii_unicode map_range map_range_laws insertion_sort.
Import RouteTableExamples.

Definition ex_request (meth : string) (hdr : Header) : Request :=
  {| Method := meth; ReqHost := "app.example.org"; Path := "/"; RequestURI := "/"; ReqHeader := hdr |}.
Definition ex_origin : Header := HSet ∅ "Origin" "https://chat.example.org".
Definition ex_preflight : Request := ex_request "OPTIONS" ex_origin.
Definition ex_get : Request := ex_request "GET" ex_origin.
Definition ex_last : Request := ex_request "GET" (HSet ∅ "Connection" "close").

(** A stream of two events without a length, and a page with one. *)
Definition ex_stream : upstream_response := {|
  u_code := 200; u_header := HSet ∅ "Content-Type" "text/event-stream"; u_reads := ["data: a"; ""; "data: b"];
  u_failed := false; u_flush := true; u_announced := []; u_trailer := ∅ |}.
Definition ex_page (body : string) : upstream_response := {|
  u_code := 200; u_header := HSet ∅ "Content-Length" "5"; u_reads := [body];
  u_failed := false; u_flush := false; u_announced := []; u_trailer := ∅ |}.
Definition ex_up (i : nat) : round_trip :=
  match i with 0 => final ex_stream | 1 => {| rt_early := []; rt_response := None |} | _ => final (ex_page "hello") end%nat.

Definition ex_serve (o : op) (i : nat) : ans o * nat :=
  match o with
  | OLookup _ => (Some ex_app_live, i)
  | OHandshake _ => (true, i)
  | ONegotiated => ("http/1.1", i)
  | OProxyFor _ => (Some ex_rp, i)
  | OServe _ start _ => ((false, closeRequested (answer start (ex_up i))), S i)
  | _ => (tt, i)
  end.

Definition ex_reqs : list Request := [ex_preflight; ex_get; ex_get; ex_last; ex_get].
Definition ex_tr : list (event ans) := (prun ex_serve (serveHTTP ex_conf ex_reqs ex_app_live (Some ex_rp)) 0%nat).1.1.

Lemma clean_one k v : clean_key (CanonicalHeaderKey k) → no_cr v → clean_header (HSet ∅ k v).
Proof. intros Hk Hv. apply clean_HSet; [done|done|apply clean_empty]. Qed.

Lemma canonical_one k v : canonical_header (HSet ∅ k v).
Proof. unfold HSet. intros k' vs [[<- _]|[_ ?%lookup_empty_Some]]%lookup_insert_Some; [apply CanonicalHeaderKey_idem|done]. Qed.

Lemma ex_framed_final res :
  u_code res = 200%Z → Forall small (u_reads res) → u_announced res = [] →
  canonical_header (u_header res) → clean_header (u_header res) →
  HValues (removeHopByHopHeaders (u_header res)) "Content-Length" = [] ∨
  HValues (removeHopByHopHeaders (u_header res)) "Content-Length" = [itoa (slen (SJoin (u_reads res) ""))] →
  well_framed "GET" (final res).
Proof. intros Hc Hs Ha Hca Hcl Hd. split; [done|]. simpl. rewrite Hc, Ha. split_and!; try done. Qed.

Lemma ex_framed_all : all_framed ex_conf ex_up ex_reqs.
Proof.
  assert (Ho : clean_header ex_origin) by (apply clean_one; [ckey|done]).
  assert (Hs : well_framed "GET" (final ex_stream)).
  { apply ex_framed_final; [done|repeat constructor; by vm_compute|done|apply canonical_one|apply clean_one; [ckey|done]|].
    left. vm_compute. reflexivity. }
  assert (Hp : well_framed "GET" (final (ex_page "hello"))).
  { apply ex_framed_final; [done|repeat constructor; by vm_compute|done|apply canonical_one|apply clean_one; [ckey|done]|].
    right. vm_compute. reflexivity. }
  assert (Hn : well_framed "GET" {| rt_early := []; rt_response := None |}) by (split; [done|done]).
  assert (Hl : clean_header (ReqHeader ex_last)) by (apply clean_one; [ckey|done]).
  cbn [all_framed ex_reqs].
  assert (preflight ex_conf ex_preflight = true) as -> by (vm_compute; reflexivity).
  assert (preflight ex_conf ex_get = false) as -> by (vm_compute; reflexivity).
  assert (preflight ex_conf ex_last = false) as -> by (vm_compute; reflexivity). split_and!; done.
Qed.

Lemma responses_aligned_witness :
  client_stream ["OPTIONS"; "GET"; "GET"; "GET"] (wire ex_up ex_tr ++ "next") =
    Some (replies ex_conf ex_up ex_reqs, "next") ∧
  map r_body (replies ex_conf ex_up ex_reqs) =
    [""; "data: adata: b"; "502 Bad Gateway: upstream enclave unreachable" ++ newline; "hello"].
Proof.
  split; [|vm_compute; reflexivity].
  assert (Hlen : length (replies ex_conf ex_up ex_reqs) = 4%nat) by (vm_compute; reflexivity).
  pose proof (responses_aligned ex_conf ex_rp ex_app_live ex_reqs ex_tr ex_up "next") as Hr. cbv zeta in Hr.
  rewrite Hlen in Hr. change (take 4 (map Method ex_reqs)) with ["OPTIONS"; "GET"; "GET"; "GET"] in Hr. apply Hr.
  - apply prun_trace_unit.
  - vm_compute. repeat split.
  - reflexivity.
  - vm_compute. reflexivity.
  - repeat constructor.
  - exact ex_framed_all.
Defined.

Lemma broken_body_desync_witness :
  client_read "GET" (out (answer (inject_cors (h_cors ex_conf) ex_get) (final (broken true (ex_page "he")))) ++ "HTTP/1.1 200 OK") =
  Some ({| r_line := "HTTP/1.1 200 OK";
           r_fields := r_fields (proxied_reply ex_conf ex_get (final (broken true (ex_page "he")))); r_body := "heHTT" |},
        "P/1.1 200 OK").
Proof.
  destruct (broken_body_desync ex_conf ex_get (ex_page "he") 5 "HTTP/1.1 200 OK") as [Hr _].
  - apply clean_one; [ckey|done].
  - cbn. lia.
  - constructor.
  - apply canonical_one.
  - apply clean_one; [ckey|done].
  - vm_compute. reflexivity.
  - vm_compute. reflexivity.
  - vm_compute. split; [reflexivity|discriminate].
  - exact Hr.
Defined.

End witnesses.
