(* ===== verification/GoRequest.v ===== *)
(** net/http.ReadRequest as the request loop of internal/terminate/terminate.go and
    the tunnel acceptor use it: the request line, the header block with its continued
    lines, the Host, and how the body is delimited.  url.ParseRequestURI is a
    parameter.

    The round trip at the end is what the loop relies on: a request a client sends is
    read as that request, and the connection is left at the first byte of its body. *)
From Stdlib Require Import Strings.Ascii Strings.String.
From stdpp Require Import pretty.
From S2P Require Import Prelude GoBytes GoStrings GoRuntime Http ResponseWriter GoFlag.
Local Open Scope string_scope.

(** * Lines *)

Definition lf : ascii := ascii_of_nat 10.
Definition is_blank (c : ascii) : bool := Ascii.eqb c " " || Ascii.eqb c (ascii_of_nat 9).

Fixpoint read_lf (s : string) : option (string * string) :=
  match s with
  | EmptyString => None
  | String c s =>
      if Ascii.eqb c lf then Some ("", s)
      else match read_lf s with Some (l, r) => Some (String c l, r) | None => None end
  end.

(** textproto.Reader.ReadLine: up to LF, a CR before it dropped. *)
Definition ReadLine (s : string) : option (string * string) :=
  match read_lf s with
  | Some (l, r) => Some (TrimSuffix l (String cr ""), r)
  | None => None
  end.

Fixpoint skip_blank (s : string) : string :=
  match s with
  | String c s' => if is_blank c then skip_blank s' else s
  | EmptyString => EmptyString
  end.
Definition trim_blank (s : string) : string := srev (skip_blank (srev (skip_blank s))).

Fixpoint Cut (c : ascii) (s : string) : option (string * string) :=
  match s with
  | EmptyString => None
  | String d s =>
      if Ascii.eqb d c then Some ("", s)
      else match Cut c s with Some (a, b) => Some (String d a, b) | None => None end
  end.

(** The lines that continue a header line. *)
Fixpoint continued (fuel : nat) (buf s : string) : string * string :=
  match fuel with
  | O => (buf, s)
  | S fuel =>
      match s with
      | String c _ =>
          if is_blank c then
            match ReadLine (skip_blank s) with
            | Some (l, r) => continued fuel (buf ++ " " ++ trim_blank l) r
            | None => (buf ++ " ", "")
            end
          else (buf, s)
      | EmptyString => (buf, s)
      end
  end.

(** * The header block *)

(** validHeaderFieldByte, with the blank canonicalMIMEHeaderKey lets through. *)
Definition key_char (c : ascii) : bool := token_char c || Ascii.eqb c " ".
(** No control characters but the tab. *)
Definition value_char (c : ascii) : bool :=
  let n := char_code c in (n =? 9)%nat || ((32 <=? n)%nat && negb (n =? 127)%nat).

Fixpoint ReadMIMEHeader (fuel : nat) (s : string) (h : Header) : option (Header * string) :=
  match fuel with
  | O => None
  | S fuel =>
      match ReadLine s with
      | None => None
      | Some (l, r) =>
          if String.eqb l "" then Some (h, r) else
          if negb (sin ":" l) then None else
          let '(kv, r) := continued (String.length r) (trim_blank l) r in
          match Cut ":" kv with
          | None => None
          | Some (k, v) =>
              if String.eqb k "" || negb (sall key_char k) || negb (sall value_char v) then None
              else ReadMIMEHeader fuel r (HAdd h k (skip_blank v))
          end
      end
  end.

(** * Requests *)

Record url := { url_host : string; url_path : string; url_requri : string }.

Class GoRequestURI := { ParseRequestURI : string → option url }.

(** How the body is delimited. *)
Inductive framing : Type := NoBody | Length (n : Z) | Chunked.

Definition version_digit (c : ascii) : Z := Z.of_nat (char_code c) - 48.

Definition ParseHTTPVersion (s : string) : option (Z * Z) :=
  match TrimPrefix s "HTTP/" with
  | String a (String dot (String b EmptyString)) =>
      if HasPrefix s "HTTP/" && Ascii.eqb dot "." && is_digit a && is_digit b
      then Some (version_digit a, version_digit b) else None
  | _ => None
  end.

Definition ascii_fold (s t : string) : bool := String.eqb (smap lower_char s) (smap lower_char t).

(** httpguts.HeaderValuesContainsToken *)
Definition contains_token (vs : list string) (tok : string) : bool :=
  existsb (fun v => existsb (fun t => ascii_fold (trim_blank t) tok) (SplitChar "," v)) vs.

Definition shouldClose (major minor : Z) (h : Header) : bool :=
  if (major <? 1)%Z then true else
  let close := contains_token (HValues h "Connection") "close" in
  if (major =? 1)%Z && (minor =? 0)%Z
  then close || negb (contains_token (HValues h "Connection") "keep-alive") else close.

(** fixPragmaCacheControl *)
Definition fix_pragma (h : Header) : Header :=
  match HValues h "Pragma", h !! CanonicalHeaderKey "Cache-Control" with
  | "no-cache" :: _, None => HSet h "Cache-Control" "no-cache"
  | _, _ => h
  end.

(** fixLength of a request that is not chunked, after the values were found to agree. *)
Definition parseContentLength (v : string) : option Z :=
  let v := trim_blank v in
  if String.eqb v "" then None else
  match parse_digits false 10 0 v with
  | Some n => if (n <? 2 ^ 63)%Z then Some n else None
  | None => None
  end.

Definition content_length (h : Header) : option (Header * framing) :=
  match HValues h "Content-Length" with
  | [] => Some (HDel h "Content-Length", NoBody)
  | v :: vs =>
      if negb (forallb (fun v' => String.eqb (trim_blank v) (trim_blank v')) vs) then None else
      match parseContentLength v with
      | None => None
      | Some n =>
          Some (match vs with [] => h | _ => HSet h "Content-Length" (trim_blank v) end,
                if (n =? 0)%Z then NoBody else Length n)
      end
  end.

(** fixTrailer: the announced trailers leave the header; framing fields are refused. *)
Definition trailer_ok (h : Header) : bool :=
  forallb (fun v => forallb (fun k => negb (bool_decide (CanonicalHeaderKey (trim_blank k) ∈
    ["Transfer-Encoding"; "Trailer"; "Content-Length"]))) (SplitChar "," v)) (HValues h "Trailer").

(** readTransfer *)
Definition readTransfer (major minor : Z) (h : Header) : option (Header * framing) :=
  match HValues h "Transfer-Encoding" with
  | [] => content_length h
  | vs =>
      let h := HDel h "Transfer-Encoding" in
      if ((major <? 1) || ((major =? 1) && (minor <? 1)))%Z then content_length h else
      match vs with
      | [v] =>
          if negb (ascii_fold v "chunked") then None else
          match content_length h with
          | None => None
          | Some _ =>
              if negb (trailer_ok h) then None
              else Some (HDel (HDel h "Content-Length") "Trailer", Chunked)
          end
      | _ => None
      end
  end.

Section read.
Context `{GoRequestURI}.

(** The request, how its body is delimited, whether the message announces the end of
    the connection, and what follows the header on the connection. *)
Definition ReadRequest (s : string) : option (Request * framing * bool * string) :=
  match ReadLine s with
  | None => None
  | Some (line, r) =>
      match Cut " " line with
      | None => None
      | Some (meth, rest) =>
          match Cut " " rest with
          | None => None
          | Some (uri, proto) =>
              if String.eqb meth "" || negb (sall token_char meth) then None else
              match ParseHTTPVersion proto with
              | None => None
              | Some (major, minor) =>
                  let authority := String.eqb meth "CONNECT" && negb (HasPrefix uri "/") in
                  match ParseRequestURI (if authority then "http://" ++ uri else uri) with
                  | None => None
                  | Some u =>
                      if match r with String c _ => is_blank c | EmptyString => false end then None else
                      match ReadMIMEHeader (String.length r) r ∅ with
                      | None => None
                      | Some (h, r) =>
                          let host := if String.eqb (url_host u) "" then HGet h "Host" else url_host u in
                          let h := HDel (fix_pragma h) "Host" in
                          match readTransfer major minor h with
                          | None => None
                          | Some (h', fr) =>
                              Some ({| Method := meth; ReqHost := host; Path := url_path u; RequestURI := url_requri u;
                                       ReqHeader := h' |}, fr, shouldClose major minor h, r)
                          end
                      end
                  end
              end
          end
      end
  end.
End read.

(** * Fuel *)

Lemma read_lf_shorter s l r : read_lf s = Some (l, r) → (String.length r < String.length s)%nat.
Proof.
  revert l. induction s as [|c s IH]; intros l E; [done|]. cbn [read_lf] in E. destruct (Ascii.eqb c lf); [injection E as _ <-; simpl; lia|].
  destruct (read_lf s) as [[l' r']|]; [|done]. injection E as _ <-. specialize (IH l' eq_refl). simpl. lia.
Qed.

Lemma ReadLine_shorter s l r : ReadLine s = Some (l, r) → (String.length r < String.length s)%nat.
Proof. unfold ReadLine. destruct (read_lf s) as [[l' r']|] eqn:E; [|done]. intros [= _ <-]. by eapply read_lf_shorter. Qed.

Lemma skip_blank_length s : (String.length (skip_blank s) <= String.length s)%nat.
Proof. induction s as [|c s IH]; [done|]. cbn [skip_blank]. destruct (is_blank c); simpl; lia. Qed.

Lemma continued_length fuel buf s : (String.length (continued fuel buf s).2 <= String.length s)%nat.
Proof.
  revert buf s. induction fuel as [|fuel IH]; intros buf s; [done|]. cbn [continued]. destruct s as [|c s]; [done|].
  destruct (is_blank c) eqn:Hb; [|done]. destruct (ReadLine (skip_blank (String c s))) as [[l r]|] eqn:E; [|simpl; lia].
  apply ReadLine_shorter in E. pose proof (skip_blank_length (String c s)). specialize (IH (buf ++ " " ++ trim_blank l) r). lia.
Qed.

Lemma ReadMIMEHeader_length fuel s hd hd' r : ReadMIMEHeader fuel s hd = Some (hd', r) → (String.length r <= String.length s)%nat.
Proof.
  revert s hd. induction fuel as [|fuel IH]; intros s hd E; [done|]. cbn [ReadMIMEHeader] in E.
  destruct (ReadLine s) as [[l r0]|] eqn:El; [|done]. apply ReadLine_shorter in El. destruct (String.eqb l ""); [injection E as _ <-; lia|].
  destruct (negb _); [done|]. pose proof (continued_length (String.length r0) (trim_blank l) r0) as Hl.
  destruct (continued _ _ r0) as [kv r1]. destruct (Cut ":" kv) as [[k v]|]; [|done]. destruct (_ || _); [done|]. apply IH in E. simpl in Hl. lia.
Qed.

Lemma continued_fuel f1 f2 buf s :
  (String.length s <= f1)%nat → (String.length s <= f2)%nat → continued f1 buf s = continued f2 buf s.
Proof.
  revert f2 buf s. induction f1 as [|f1 IH]; intros [|f2] buf [|c s] H1 H2; simpl in H1, H2; try done; try lia.
  cbn [continued]. destruct (is_blank c); [|done]. destruct (ReadLine (skip_blank (String c s))) as [[l r]|] eqn:E; [|done].
  apply ReadLine_shorter in E. pose proof (skip_blank_length (String c s)) as Hl.
  change (String.length (String c s)) with (S (String.length s)) in Hl. apply IH; lia.
Qed.

(** The fuel is enough: a line takes at least a byte. *)
Lemma ReadMIMEHeader_fuel f1 f2 s h :
  (String.length s <= f1)%nat → (String.length s <= f2)%nat → ReadMIMEHeader f1 s h = ReadMIMEHeader f2 s h.
Proof.
  revert f2 s h. induction f1 as [|f1 IH]; intros f2 s h H1 H2.
  { destruct s; [|simpl in H1; lia]. by destruct f2. }
  destruct f2 as [|f2]; [destruct s; [done|simpl in H2; lia]|]. cbn [ReadMIMEHeader].
  destruct (ReadLine s) as [[l r]|] eqn:El; [|done]. apply ReadLine_shorter in El. destruct (String.eqb l ""); [done|].
  destruct (negb _); [done|]. pose proof (continued_length (String.length r) (trim_blank l) r) as Hl.
  destruct (continued _ _ r) as [kv r1]. simpl in Hl. destruct (Cut ":" kv) as [[k v]|]; [|done]. destruct (_ || _); [done|]. apply IH; lia.
Qed.

(** * What a client sends *)

Inductive sent_body : Type := SNone | SLength (body : string) | SChunked (pieces : list string).

Record sent := {
  q_method : string;
  q_uri : string;
  q_host : string;
  q_fields : list (string * string);
  q_body : sent_body;
}.

Definition body_fields (b : sent_body) : list (string * string) :=
  match b with
  | SNone => []
  | SLength body => [("Content-Length", itoa (slen body))]
  | SChunked _ => [("Transfer-Encoding", "chunked")]
  end.
Definition body_bytes (b : sent_body) : string :=
  match b with
  | SNone => ""
  | SLength body => body
  | SChunked ps => SJoin (map chunk ps) "" ++ last_chunk
  end.
Definition head_bytes (q : sent) : string :=
  q_method q ++ " " ++ q_uri q ++ " HTTP/1.1" ++ crlf ++
  header_block (("Host", q_host q) :: q_fields q ++ body_fields (q_body q)) ++ crlf.
Definition request_bytes (q : sent) : string := head_bytes q ++ body_bytes (q_body q).

(** The header as Go has it: the fields sent, and the length of the body. *)
Definition sent_header (q : sent) : Header :=
  fold_left (fun h kv => HAdd h kv.1 kv.2)
    (q_fields q ++ match q_body q with SLength _ => body_fields (q_body q) | _ => [] end) ∅.
Definition sent_framing (b : sent_body) : framing :=
  match b with SNone => NoBody | SLength "" => NoBody | SLength body => Length (slen body) | SChunked _ => Chunked end.
Definition request_of (q : sent) (u : url) : Request := {|
  Method := q_method q; ReqHost := if String.eqb (url_host u) "" then q_host q else url_host u;
  Path := url_path u; RequestURI := url_requri u; ReqHeader := sent_header q |}.

(** ** Well-formed requests *)

Definition clean_value (v : string) : Prop :=
  v ≠ "" ∧ sall value_char v = true ∧ skip_blank v = v ∧ skip_blank (srev v) = srev v.
(** Fields that are the client's own: not the ones that delimit or address the message. *)
Definition clean_sent_field (kv : string * string) : Prop :=
  kv.1 ≠ "" ∧ sall token_char kv.1 = true ∧ clean_value kv.2 ∧
  CanonicalHeaderKey kv.1 ∉ ["Host"; "Content-Length"; "Transfer-Encoding"; "Trailer"; "Pragma"].

Record clean_sent (q : sent) : Prop := {
  cq_method : q_method q ≠ "" ∧ sall token_char (q_method q) = true ∧ q_method q ≠ "CONNECT";
  cq_uri : sin " " (q_uri q) = false ∧ sin cr (q_uri q) = false ∧ sin lf (q_uri q) = false;
  cq_host : clean_value (q_host q);
  cq_fields : Forall clean_sent_field (q_fields q);
  cq_body : match q_body q with SLength body => (slen body < 2 ^ 63)%Z | _ => True end;
}.

(** * Reading back *)

Lemma read_lf_app l r : sin lf l = false → read_lf (l ++ String lf r) = Some (l, r).
Proof.
  induction l as [|c l IH]; intros Hl; [done|]. cbn [sin] in Hl. apply orb_false_iff in Hl as [Hc Hl].
  rewrite sapp_cons. cbn [read_lf]. by rewrite Hc, IH.
Qed.

Lemma TrimSuffix_app s p : TrimSuffix (s ++ p) p = s.
Proof.
  unfold TrimSuffix. rewrite (proj2 (HasSuffix_spec (s ++ p) p)) by eauto. rewrite slength_app.
  replace (String.length s + String.length p - String.length p)%nat with (String.length s) by lia. apply stake_app.
Qed.

Lemma ReadLine_crlf l r : sin lf l = false → ReadLine (l ++ crlf ++ r) = Some (l, r).
Proof.
  intros Hl. unfold ReadLine. change (crlf ++ r) with (String cr (String lf r)).
  replace (l ++ String cr (String lf r)) with ((l ++ String cr "") ++ String lf r) by (by rewrite sapp_assoc).
  rewrite read_lf_app; [by rewrite TrimSuffix_app|]. by rewrite sin_app, Hl.
Qed.

Lemma Cut_app c a b : sin c a = false → Cut c (a ++ String c b) = Some (a, b).
Proof.
  induction a as [|d a IH]; intros Ha; [rewrite sapp_nil_l; cbn [Cut]; by rewrite Ascii.eqb_refl|].
  cbn [sin] in Ha. apply orb_false_iff in Ha as [Hd Ha]. rewrite sapp_cons. cbn [Cut]. by rewrite Hd, IH.
Qed.

(** A string of characters of a kind has none of the others. *)
Lemma sall_sin f c s : sall f s = true → f c = false → sin c s = false.
Proof.
  induction s as [|d s IH]; intros Hs Hc; [done|]. cbn [sall sin] in *. apply andb_true_iff in Hs as [Hd Hs].
  rewrite IH by done. destruct (Ascii.eqb_spec d c) as [->|]; [congruence|done].
Qed.

Lemma sall_mono (f g : ascii → bool) s : (∀ c, f c = true → g c = true) → sall f s = true → sall g s = true.
Proof.
  intros Hfg. induction s as [|c s IH]; [done|]. cbn [sall]. intros [Hc Hs]%andb_true_iff. by rewrite Hfg, IH.
Qed.

Lemma token_no_blank c : is_blank c = true → token_char c = false.
Proof. unfold is_blank. intros [->%Ascii.eqb_eq | ->%Ascii.eqb_eq]%orb_true_iff; done. Qed.

(** A field as it is sent needs no trimming. *)
Lemma skip_blank_token k s : k ≠ "" → sall token_char k = true → skip_blank (k ++ s) = k ++ s.
Proof.
  destruct k as [|c k]; [done|]. intros _. cbn [sall]. intros [Hc _]%andb_true_iff. rewrite sapp_cons. cbn [skip_blank].
  destruct (is_blank c) eqn:Hb; [|done]. by rewrite token_no_blank in Hc.
Qed.

Lemma skip_blank_stuck s t : s ≠ "" → skip_blank s = s → skip_blank (s ++ t) = s ++ t.
Proof.
  destruct s as [|c s]; [done|]. intros _. rewrite sapp_cons. cbn [skip_blank]. destruct (is_blank c); [|done].
  intros E. exfalso. assert (Hl : (String.length (skip_blank s) <= String.length s)%nat); [|rewrite E in Hl; simpl in Hl; lia].
  clear. induction s as [|d s IH]; [done|]. cbn [skip_blank]. destruct (is_blank d); simpl; lia.
Qed.

Lemma srev_nonempty s : s ≠ "" → srev s ≠ "".
Proof. intros Hs E. apply Hs. by rewrite <- (srev_involutive s), E. Qed.

Lemma trim_field k v : k ≠ "" → sall token_char k = true → clean_value v → trim_blank (k ++ ": " ++ v) = k ++ ": " ++ v.
Proof.
  intros Hk Ht (Hv & _ & _ & Hr). unfold trim_blank. rewrite skip_blank_token by done.
  rewrite !srev_sapp, sapp_assoc, skip_blank_stuck by (done || by apply srev_nonempty).
  by rewrite <- sapp_assoc, <- !srev_sapp, srev_involutive.
Qed.

(** The next header line, or the blank one, is not a continuation. *)
Lemma continued_none fuel buf c s : is_blank c = false → continued fuel buf (String c s) = (buf, String c s).
Proof. intros Hc. destruct fuel; [done|]. cbn [continued]. by rewrite Hc. Qed.

Definition fields_ok (kv : string * string) : Prop := kv.1 ≠ "" ∧ sall token_char kv.1 = true ∧ clean_value kv.2.

Lemma block_starts fs r : Forall fields_ok fs → ∃ c s, header_block fs ++ crlf ++ r = String c s ∧ is_blank c = false.
Proof.
  intros Hf. destruct fs as [|[k v] fs]; [by eexists _, _|]. inversion Hf as [|? ? (Hk & Ht & _) _]; subst. simpl in *.
  rewrite header_block_cons. unfold header_line. destruct k as [|c k]; [done|]. rewrite !sapp_cons. eexists _, _. split; [done|].
  cbn [sall] in Ht. apply andb_true_iff in Ht as [Hc _]. destruct (is_blank c) eqn:Hb; [|done]. by rewrite token_no_blank in Hc.
Qed.

Lemma ReadMIMEHeader_block fs r h fuel :
  Forall fields_ok fs → (length fs < fuel)%nat →
  ReadMIMEHeader fuel (header_block fs ++ crlf ++ r) h = Some (fold_left (fun h kv => HAdd h kv.1 kv.2) fs h, r).
Proof.
  intros Hf. revert fuel h. induction Hf as [|[k v] fs (Hk & Ht & Hv) Hfs IH]; intros fuel h Hl;
    (destruct fuel as [|fuel]; [simpl in Hl; lia|]).
  - unfold header_block. cbn [map SJoin ReadMIMEHeader]. rewrite sapp_nil_l, <- (sapp_nil_l (crlf ++ r)), ReadLine_crlf by done. done.
  - rewrite header_block_cons. unfold header_line. cbn [fst snd] in *.
    replace (((k ++ ": " ++ v ++ crlf) ++ header_block fs) ++ crlf ++ r)
      with ((k ++ ": " ++ v) ++ crlf ++ (header_block fs ++ crlf ++ r)) by (by rewrite !sapp_assoc).
    pose proof Hv as (Hv1 & Hv2 & Hv3 & _). cbn [ReadMIMEHeader].
    assert (Hlf : sin lf (k ++ ": " ++ v) = false) by (by rewrite !sin_app, (sall_sin token_char lf k), (sall_sin value_char lf v)).
    rewrite ReadLine_crlf by done.
    destruct (String.eqb_spec (k ++ ": " ++ v) "") as [E|_]; [by destruct k|].
    assert (Hcol : sin ":" (k ++ ": " ++ v) = true).
    { rewrite !sin_app. change (sin ":" ": ") with true. apply orb_true_r. }
    rewrite Hcol. cbn [negb]. rewrite trim_field by done.
    assert (Hcont : ∀ n b, continued n b (header_block fs ++ crlf ++ r) = (b, header_block fs ++ crlf ++ r)).
    { intros n b. destruct (block_starts fs r Hfs) as (c & s & -> & Hc). by apply continued_none. }
    rewrite Hcont. clear Hcont.
    change (k ++ ": " ++ v) with (k ++ String ":" (String " " v)). rewrite Cut_app by (by apply (sall_sin token_char)).
    rewrite (proj2 (String.eqb_neq k "")) by done. rewrite (sall_mono token_char key_char) by (done || intros ? Hx; unfold key_char; by rewrite Hx).
    cbn [sall]. rewrite Hv2. cbn [orb negb andb skip_blank]. change (value_char " ") with true. change (is_blank " ") with true.
    cbn [orb negb andb]. cbv iota. rewrite Hv3. simpl in Hl. rewrite IH by lia. done.
Qed.

(** ** The header of a sent request *)

Abbreviation add_all := (fold_left (fun (h : Header) (kv : string * string) => HAdd h kv.1 kv.2)).

Definition off (k : string) (fs : list (string * string)) : Prop := Forall (fun kv => CanonicalHeaderKey kv.1 ≠ k) fs.

Lemma add_all_other fs h k : off k fs → add_all fs h !! k = h !! k.
Proof.
  intros Hf. revert h. induction Hf as [|kv fs Hk _ IH]; intros h; [done|]. cbn [fold_left]. rewrite IH. unfold HAdd.
  by rewrite lookup_insert_ne.
Qed.

Lemma add_all_insert fs h k vs : off k fs → add_all fs (<[k := vs]> h) = <[k := vs]> (add_all fs h).
Proof.
  intros Hf. revert h. induction Hf as [|kv fs Hk _ IH]; intros h; [done|]. cbn [fold_left]. rewrite <- IH. f_equal. unfold HAdd, HValues.
  rewrite lookup_insert_ne by done. symmetry. by apply insert_insert_ne.
Qed.

Lemma off_app k fs fs' : off k fs → off k fs' → off k (fs ++ fs').
Proof. intros. by apply Forall_app. Qed.

Lemma sent_off q k : clean_sent q → k ∈ ["Host"; "Content-Length"; "Transfer-Encoding"; "Trailer"; "Pragma"] → off k (q_fields q).
Proof.
  intros Hq Hk. eapply Forall_impl; [exact (cq_fields q Hq)|]. intros kv (_ & _ & _ & Hn) E. apply Hn. by rewrite E.
Qed.

Lemma HDel_absent h k : h !! CanonicalHeaderKey k = None → HDel h k = h.
Proof. apply delete_id. Qed.

Lemma sall_srev f s : sall f (srev s) = sall f s.
Proof.
  induction s as [|c s IH]; [done|]. rewrite srev_cons, sall_app, IH. cbn [sall]. rewrite andb_true_r. apply andb_comm.
Qed.

Lemma skip_digits s : sall is_digit s = true → skip_blank s = s.
Proof.
  destruct s as [|c s]; [done|]. cbn [sall skip_blank]. intros [Hc _]%andb_true_iff. unfold is_blank.
  destruct (Ascii.eqb_spec c " ") as [->|]; [done|]. by destruct (Ascii.eqb_spec c (ascii_of_nat 9)) as [->|].
Qed.

Lemma trim_digits s : sall is_digit s = true → trim_blank s = s.
Proof.
  intros Hs. unfold trim_blank. rewrite (skip_digits s) by done. rewrite skip_digits by (by rewrite sall_srev). apply srev_involutive.
Qed.

(** Digits are a value that needs no trimming. *)
Lemma clean_digits s : s ≠ "" → sall is_digit s = true → clean_value s.
Proof.
  intros Hs Hd. split_and!; [done| |by apply skip_digits|by apply skip_digits; rewrite sall_srev].
  eapply sall_mono; [|done]. intros c [H1%Nat.leb_le H2%Nat.leb_le]%andb_true_iff. unfold value_char.
  rewrite (proj2 (Nat.leb_le 32 _)) by lia. rewrite (proj2 (Nat.eqb_neq _ 127)) by lia. apply orb_true_r.
Qed.

Lemma itoa_digits n : (0 <= n)%Z → sall is_digit (itoa n) = true.
Proof. intros Hn. destruct n as [|p|p]; [done| |lia]. by destruct (pretty_pos p) as (c & s' & _ & _ & _ & Hd & _). Qed.

Lemma parse_length n : (0 <= n < 2 ^ 63)%Z → parseContentLength (itoa n) = Some n ∧ itoa n ≠ "".
Proof.
  intros Hn. destruct (parse_itoa n) as [Hp Hne]; [lia|].
  split; [|done]. unfold parseContentLength. rewrite trim_digits by (apply itoa_digits; lia).
  rewrite (proj2 (String.eqb_neq _ _)), Hp, (proj2 (Z.ltb_lt _ _)) by (done || lia). done.
Qed.

(** What ReadMIMEHeader makes of the fields, and what is left without the Host. *)
Lemma sent_fields q : clean_sent q →
  let fs := (q_fields q ++ body_fields (q_body q))%list in
  add_all (("Host", q_host q) :: fs) ∅ = <["Host" := [q_host q]]> (add_all fs ∅) ∧ add_all fs ∅ !! "Host" = None ∧
  HValues (<["Host" := [q_host q]]> (add_all fs ∅)) "Pragma" = [].
Proof.
  intros Hq fs. assert (Hh : off "Host" fs).
  { apply off_app; [by apply sent_off; [|set_solver]|]. by destruct (q_body q); repeat constructor; vm_compute. }
  assert (Hp : off "Pragma" fs).
  { apply off_app; [by apply sent_off; [|set_solver]|]. by destruct (q_body q); repeat constructor; vm_compute. }
  split_and!.
  - cbn [fold_left]. rewrite <- (add_all_insert fs ∅ "Host") by done. done.
  - by rewrite add_all_other.
  - unfold HValues. rewrite lookup_insert_ne by (by vm_compute). change (CanonicalHeaderKey "Pragma") with "Pragma".
    by rewrite add_all_other.
Qed.

Lemma sent_absent q k : clean_sent q → k ∈ ["Host"; "Content-Length"; "Transfer-Encoding"; "Trailer"; "Pragma"] →
  add_all (q_fields q) ∅ !! k = None.
Proof. intros Hq Hk. by rewrite add_all_other by (by apply sent_off). Qed.

Lemma sent_transfer q : clean_sent q →
  readTransfer 1 1 (add_all (q_fields q ++ body_fields (q_body q)) ∅) = Some (sent_header q, sent_framing (q_body q)).
Proof.
  intros Hq. assert (Habs : ∀ k, k ∈ ["Host"; "Content-Length"; "Transfer-Encoding"; "Trailer"; "Pragma"] →
    CanonicalHeaderKey k = k → HValues (add_all (q_fields q) ∅) k = [] ∧ HDel (add_all (q_fields q) ∅) k = add_all (q_fields q) ∅).
  { intros k Hk E. unfold HValues. rewrite E, sent_absent by done. split; [done|]. apply HDel_absent. rewrite E. by apply sent_absent. }
  destruct (Habs "Content-Length") as [C1 C2]; [set_solver|done|]. destruct (Habs "Transfer-Encoding") as [T1 T2]; [set_solver|done|].
  destruct (Habs "Trailer") as [R1 R2]; [set_solver|done|].
  assert (Hnone : content_length (add_all (q_fields q) ∅) = Some (add_all (q_fields q) ∅, NoBody)).
  { unfold content_length. by rewrite C1, C2. }
  unfold sent_header, readTransfer. rewrite fold_left_app. destruct (q_body q) as [|body|ps] eqn:Eb; cbn [body_fields fold_left fst snd].
  - rewrite app_nil_r. by rewrite T1.
  - rewrite fold_left_app. cbn [fold_left fst snd]. rewrite HValues_add, decide_False by (by vm_compute). rewrite T1.
    unfold content_length. rewrite HValues_add, decide_True, C1 by done. cbn [app forallb negb].
    pose proof (cq_body q Hq) as Hlen. rewrite Eb in Hlen. destruct (parse_length (slen body)) as [-> _]; [unfold slen in *; lia|].
    unfold sent_framing. destruct body as [|c body]; [done|]. rewrite (proj2 (Z.eqb_neq _ _)) by (unfold slen; simpl; lia). done.
  - rewrite app_nil_r. rewrite HValues_add, decide_True, T1 by done. cbn [app].
    assert (HDel (HAdd (add_all (q_fields q) ∅) "Transfer-Encoding" "chunked") "Transfer-Encoding" = add_all (q_fields q) ∅) as ->.
    { unfold HDel, HAdd. rewrite delete_insert_eq. exact T2. }
    rewrite Hnone. unfold trailer_ok. rewrite R1, C2, R2. done.
Qed.

Lemma fields_sent q : clean_sent q → Forall fields_ok (("Host", q_host q) :: q_fields q ++ body_fields (q_body q)).
Proof.
  intros Hq. constructor; [split_and!; [done..|exact (cq_host q Hq)]|]. apply Forall_app. split.
  - eapply Forall_impl; [exact (cq_fields q Hq)|]. intros kv (? & ? & ? & _). by split_and!.
  - destruct (q_body q) as [|body|ps] eqn:Eb; cbn [body_fields]; [done| |]; (constructor; [|done]); (split_and!; [done|done|]); cbn [snd].
    + pose proof (cq_body q Hq) as Hlen. rewrite Eb in Hlen.
      apply clean_digits; [apply parse_length|apply itoa_digits]; unfold slen in *; lia.
    + split_and!; [done|by vm_compute..].
Qed.

Lemma sent_connection q :
  HValues (add_all (q_fields q ++ body_fields (q_body q)) ∅) "Connection" = HValues (sent_header q) "Connection".
Proof.
  unfold sent_header. rewrite !fold_left_app. destruct (q_body q) as [|body|ps]; [done|done|]. cbn [body_fields fold_left fst snd].
  by rewrite HValues_add, decide_False by (by vm_compute).
Qed.

Section roundtrip.
Context `{GoRequestURI}.

(** A request a client sends is read as that request, wherever it stands on the
    connection, which is left at the first byte of its body. *)
Lemma ReadRequest_sent q u rest :
  clean_sent q → ParseRequestURI (q_uri q) = Some u →
  ReadRequest (request_bytes q ++ rest) =
  Some (request_of q u, sent_framing (q_body q), contains_token (HValues (sent_header q) "Connection") "close",
        body_bytes (q_body q) ++ rest).
Proof.
  intros Hq Hu. destruct (cq_method q Hq) as (Hm1 & Hm2 & Hm3). destruct (cq_uri q Hq) as (Hu1 & Hu2 & Hu3).
  set (fs := ("Host", q_host q) :: q_fields q ++ body_fields (q_body q)). set (r := body_bytes (q_body q) ++ rest).
  assert (E : request_bytes q ++ rest = (q_method q ++ " " ++ q_uri q ++ " HTTP/1.1") ++ crlf ++ (header_block fs ++ crlf ++ r)).
  { unfold request_bytes, head_bytes, r. fold fs. by rewrite !sapp_assoc. }
  rewrite E. unfold ReadRequest. rewrite ReadLine_crlf; cycle 1.
  { rewrite !sin_app, (sall_sin token_char lf), Hu3 by done. done. }
  change (q_method q ++ " " ++ q_uri q ++ " HTTP/1.1") with (q_method q ++ String " " (q_uri q ++ String " " "HTTP/1.1")).
  rewrite Cut_app by (by apply (sall_sin token_char)). rewrite Cut_app by done.
  rewrite (proj2 (String.eqb_neq _ _) Hm1), Hm2. cbn [negb orb]. change (ParseHTTPVersion "HTTP/1.1") with (Some (1, 1)%Z).
  cbv iota zeta. rewrite (proj2 (String.eqb_neq _ _) Hm3). cbn [andb]. rewrite Hu.
  pose proof (fields_sent q Hq) as Hf. fold fs in Hf. destruct (block_starts fs r Hf) as (c & s & Es & Hc). rewrite Es, Hc, <- Es.
  rewrite ReadMIMEHeader_block; [|done|rewrite !slength_app; pose proof (length_header_block fs); change (String.length crlf) with 2%nat; lia].
  destruct (sent_fields q Hq) as (E1 & E2 & E3). unfold fs. rewrite E1. unfold fix_pragma. rewrite E3.
  assert (E4 : HDel (<["Host" := [q_host q]]> (add_all (q_fields q ++ body_fields (q_body q)) ∅)) "Host" =
    add_all (q_fields q ++ body_fields (q_body q)) ∅) by (by apply delete_insert_id).
  rewrite E4, sent_transfer by done. cbv iota zeta. change (shouldClose 1 1 ?h) with (contains_token (HValues h "Connection") "close").
  unfold request_of. rewrite sent_connection. unfold HGet, HValues. change (CanonicalHeaderKey "Host") with "Host".
  by rewrite lookup_insert_eq.
Qed.
End roundtrip.
