(* ===== verification/Requests.v ===== *)
(** internal/terminate/terminate.go, serveHTTP: the requests the loop reads off the
    connection, and a whole conversation, from the bytes a client sends to the bytes it
    gets back.

    Between two requests the position on the connection is what counts.  A preflight
    is answered with its body left unread; any other request goes through
    ReverseProxy, which closes its body, and the body ReadRequest made reads itself to its
    end when closed, unless the message announced the end of the connection. *)
From Stdlib Require Import Strings.Ascii Strings.String.
From S2P Require Import Prelude GoBytes GoStrings GoRuntime Effects RouteTable Http Quarantine Cors.
From S2P Require Import ResponseWriter WsFrame Policy ProxyCache Forward Terminate GoFlag ReverseProxy GoRequest.
Local Open Scope string_scope.

Definition good_pieces (ps : list string) : Prop := Forall (fun p => 0 < slen p < 2 ^ 63)%Z ps.

(** Where the connection stands after a proxied request whose body began at [s]:
    past the body; somewhere in it when it is closed early; somewhere when it is not a
    sequence of chunks. *)
Inductive after_body (s : string) : framing → bool → string → Prop :=
| AfterNone closing : after_body s NoBody closing s
| AfterLength n : after_body s (Length n) false (sdrop (Z.to_nat n) s)
| AfterClosing n k : (k <= Z.to_nat n)%nat → after_body s (Length n) true (sdrop k s)
| AfterChunks body rest closing :
    decode_chunked (String.length s) s = Some (body, rest) → after_body s Chunked closing rest
| AfterBadChunks closing k :
    (∀ ps rest, good_pieces ps → s ≠ SJoin (map chunk ps) "" ++ last_chunk ++ rest) →
    after_body s Chunked closing (sdrop k s).

Section incoming.
Context `{GoUnicode} `{GoSort} `{GoRange} `{!GoRangeLaws} `{GoRequestURI}.
Variable h : handler_conf.

(** The requests the loop reads one after the other from [s]. *)
Inductive incoming : string → list Request → Prop :=
| InEnd s : ReadRequest s = None → incoming s []
| InPreflight s req fr closing r reqs :
    ReadRequest s = Some (req, fr, closing, r) → preflight h req = true → incoming r reqs → incoming s (req :: reqs)
| InRequest s req fr closing r r' reqs :
    ReadRequest s = Some (req, fr, closing, r) → preflight h req = false → after_body r fr closing r' →
    incoming r' reqs → incoming s (req :: reqs).

(** * Clients *)

(** A request with the URL its target parses to. *)
Definition valid (qu : sent * url) : Prop := clean_sent qu.1 ∧ ParseRequestURI (q_uri qu.1) = Some qu.2.
Definition as_request (qu : sent * url) : Request := request_of qu.1 qu.2.

(** The loop consumes its body: a preflight has none, and a request that ends the
    connection has none or a chunked one. *)
Definition consumed (qu : sent * url) : Prop :=
  match q_body qu.1 with
  | SNone => True
  | SLength body =>
      body = "" ∨ preflight h (as_request qu) = false ∧ contains_token (HValues (sent_header qu.1) "Connection") "close" = false
  | SChunked ps => preflight h (as_request qu) = false ∧ good_pieces ps
  end.

Definition bytes_of (qus : list (sent * url)) : string := SJoin (map (fun qu => request_bytes qu.1) qus) "".

Lemma decode_all ps rest : good_pieces ps →
  let s := SJoin (map chunk ps) "" ++ last_chunk ++ rest in decode_chunked (String.length s) s = Some (SJoin ps "", rest).
Proof.
  intros Hp s. apply decode_chunks; [done|]. unfold s. rewrite !slength_app. pose proof (length_chunks ps).
  change (String.length last_chunk) with 5%nat. lia.
Qed.

Lemma sdrop_length (a b : string) : sdrop (String.length a) (a ++ b) = b.
Proof. rewrite <- (Nat.add_0_r (String.length a)), sdrop_app. done. Qed.

Lemma after_sent qu rest r' :
  consumed qu → preflight h (as_request qu) = false →
  after_body (body_bytes (q_body qu.1) ++ rest) (sent_framing (q_body qu.1))
    (contains_token (HValues (sent_header qu.1) "Connection") "close") r' → r' = rest.
Proof.
  intros Hc Hp Ha. unfold consumed in Hc. destruct (q_body qu.1) as [|body|ps] eqn:Eb; cbn [body_bytes sent_framing] in Ha.
  - inversion Ha; subst. done.
  - destruct body as [|c body]; [by inversion Ha; subst|]. destruct Hc as [?|[_ Hc]]; [done|]. rewrite Hc in Ha.
    inversion Ha; subst. assert (Z.to_nat (slen (String c body)) = String.length (String c body)) as -> by (unfold slen; lia).
    apply sdrop_length.
  - destruct Hc as [_ Hps]. rewrite sapp_assoc in Ha. inversion Ha as [| | |body ? ? E|? k Hno]; subst.
    + rewrite decode_all in E by done. by injection E.
    + by destruct (Hno ps rest).
Qed.

(** What the client sent is what the loop reads. *)
Lemma incoming_sent qus rest reqs :
  Forall valid qus → Forall consumed qus → incoming (bytes_of qus ++ rest) reqs →
  ∃ more, reqs = (map as_request qus ++ more)%list ∧ incoming rest more.
Proof.
  intros Hv. revert reqs. induction Hv as [|qu qus [Hq Hu] _ IH]; intros reqs Hc Hin; [by exists reqs|].
  inversion Hc as [|? ? Hc1 Hc2]; subst. unfold bytes_of in Hin. cbn [map] in Hin. rewrite SJoin_cons_empty, sapp_assoc in Hin.
  fold (bytes_of qus) in Hin. pose proof (ReadRequest_sent qu.1 qu.2 (bytes_of qus ++ rest) Hq Hu) as Hr.
  inversion Hin as [? E|? req fr cl r ? E Hp Hin'|? req fr cl r r' ? E Hp Ha Hin']; subst; rewrite Hr in E; [done|..]; injection E as <- <- <- <-.
  - assert (body_bytes (q_body qu.1) = "") as Hb.
    { unfold consumed in Hc1. fold (as_request qu) in Hp. rewrite Hp in Hc1. destruct (q_body qu.1) as [|body|ps]; [done| |by destruct Hc1].
      by destruct Hc1 as [->|[? _]]. }
    rewrite Hb, sapp_nil_l in Hin'. destruct (IH _ Hc2 Hin') as (more & -> & Hm). by exists more.
  - apply after_sent in Ha as ->; [|done|done]. destruct (IH _ Hc2 Hin') as (more & -> & Hm). by exists more.
Qed.

Lemma incoming_end reqs : incoming "" reqs → reqs = [].
Proof. intros Hin. by inversion Hin. Qed.

(** * The loop always reads some list of requests *)

Lemma ReadRequest_shorter s req fr closing r :
  ReadRequest s = Some (req, fr, closing, r) → (String.length r < String.length s)%nat.
Proof.
  unfold ReadRequest. destruct (ReadLine s) as [[line r0]|] eqn:El; [|done]. apply ReadLine_shorter in El.
  intros E. repeat (case_match; simplify_eq; try done).
  all: match goal with Hm : ReadMIMEHeader _ _ _ = Some _ |- _ => apply ReadMIMEHeader_length in Hm end; lia.
Qed.

Lemma sdrop_le n s : (String.length (sdrop n s) <= String.length s)%nat.
Proof. revert s. induction n as [|n IH]; intros [|c s]; simpl; [lia..|]. specialize (IH s). lia. Qed.

Lemma read_line_length s l r : read_line s = Some (l, r) → (String.length r <= String.length s)%nat.
Proof.
  revert l r. induction s as [|c s IH]; intros l r E; [done|]. cbn [read_line] in E.
  destruct (String.prefix crlf (String c s)).
  - assert (sdrop 2 (String c s) = r) as <- by congruence. apply sdrop_le.
  - destruct (read_line s) as [[l1 r1]|]; [|done]. specialize (IH l1 r1 eq_refl). assert (r1 = r) as <- by congruence. simpl. lia.
Qed.

Lemma decode_length fuel s body r : decode_chunked fuel s = Some (body, r) → (String.length r <= String.length s)%nat.
Proof.
  revert s body. induction fuel as [|fuel IH]; intros s body E; [done|]. cbn [decode_chunked] in E.
  destruct (read_line s) as [[size r0]|] eqn:El; [|done].
  pose proof (read_line_length s size r0 El) as Hl.
  destruct (parse_hex_from 0 size) as [n|]; [|done]. destruct (n =? 0)%Z.
  - destruct (HasPrefix r0 crlf); [|done]. assert (sdrop 2 r0 = r) as <- by congruence. pose proof (sdrop_le 2 r0). lia.
  - cbv zeta in E. destruct (_ && _); [|done]. destruct (decode_chunked fuel _) as [[b r1]|] eqn:Ed; [|done]. injection E as _ <-.
    apply IH in Ed. pose proof (sdrop_le (Z.to_nat n) r0). pose proof (sdrop_le 2 (sdrop (Z.to_nat n) r0)). lia.
Qed.

Lemma after_total s fr closing : ∃ r', after_body s fr closing r' ∧ (String.length r' <= String.length s)%nat.
Proof.
  destruct fr as [|n|]; [by exists s; split; [constructor|]| |].
  - exists (sdrop (if closing then 0 else Z.to_nat n) s). split; [|apply sdrop_le]. destruct closing; constructor. lia.
  - destruct (decode_chunked (String.length s) s) as [[body r]|] eqn:E.
    + exists r. split; [by econstructor|by eapply decode_length].
    + exists s. split; [|done]. apply (AfterBadChunks s closing 0). intros ps rest Hp ->. by rewrite decode_all in E.
Qed.

(** The loop comes to an end on every input. *)
Lemma incoming_total s : ∃ reqs, incoming s reqs.
Proof.
  remember (String.length s) as n eqn:En. revert s En. induction (Nat.lt_wf_0 n) as [n _ IH]. intros s ->.
  destruct (ReadRequest s) as [[[[req fr] closing] r]|] eqn:E; [|exists []; by constructor].
  apply ReadRequest_shorter in E as Hl. destruct (preflight h req) eqn:Hp.
  - destruct (IH _ Hl r eq_refl) as [reqs Hr]. exists (req :: reqs). by eapply InPreflight.
  - destruct (after_total r fr closing) as (r' & Ha & Hl'). destruct (IH (String.length r') ltac:(lia) r' eq_refl) as [reqs Hr].
    exists (req :: reqs). by eapply InRequest.
Qed.

(** * A conversation *)

Lemma clean_token_key k : k ≠ "" → sall token_char k = true → clean_key (CanonicalHeaderKey k).
Proof.
  intros Hk Ht. unfold CanonicalHeaderKey. rewrite Ht. pose proof (sall_canonical_from true k Ht) as Hc.
  split_and!; [by destruct k|by apply (sall_sin token_char)..].
Qed.

Lemma clean_sent_header q : clean_sent q → clean_header (sent_header q).
Proof.
  intros Hq. unfold sent_header.
  assert (Hok : Forall fields_ok (q_fields q ++ match q_body q with SLength _ => body_fields (q_body q) | _ => [] end)).
  { pose proof (fields_sent q Hq) as [_ [Hf Hb]%Forall_app]%Forall_cons. apply Forall_app. split; [done|]. by destruct (q_body q). }
  assert (Hgen : ∀ fs hd, Forall fields_ok fs → clean_header hd → clean_header (add_all fs hd)); [|apply Hgen; [done|apply clean_empty]].
  induction fs as [|[k v] fs IH]; intros hd Hf Hh; [done|]. inversion Hf as [|? ? (Hk & Ht & Hv) Hfs]; subst. cbn [fold_left].
  apply IH; [done|]. apply clean_HAdd; [by apply clean_token_key| |done]. destruct Hv as (_ & Hv & _). by apply (sall_sin value_char).
Qed.

(** Every proxied request gets a response the writer can delimit. *)
Fixpoint framed (up : nat → round_trip) (reqs : list Request) : Prop :=
  match reqs with
  | [] => True
  | req :: reqs =>
      if preflight h req then framed up reqs else well_framed (Method req) (up O) ∧ framed (fun i => up (S i)) reqs
  end.

Lemma all_framed_sent qus up : Forall valid qus → framed up (map as_request qus) → all_framed h up (map as_request qus).
Proof.
  intros Hv. revert up. induction Hv as [|qu qus [Hq _] _ IH]; intros up Hf; [done|]. cbn [map all_framed framed] in *.
  split; [by apply clean_sent_header|]. destruct (preflight h (as_request qu)); [by apply IH|]. destruct Hf. auto.
Qed.


(** The body of a preflight is left on the connection: what it holds is read as the
    next request, and proxied, although the client never sent it as one. *)
Theorem preflight_body_is_next_request q u q' u' reqs :
  valid (q, u) → valid (q', u') → q_body q = SLength (request_bytes q') → q_body q' = SNone →
  preflight h (request_of q u) = true → incoming (request_bytes q) reqs → reqs = [request_of q u; request_of q' u'].
Proof.
  intros [Hq Hu] [Hq' Hu'] Hb Hb' Hp Hin. simpl in *.
  pose proof (ReadRequest_sent q u "" Hq Hu) as Hr. rewrite Hb in Hr. cbn [body_bytes] in Hr. rewrite !sapp_nil_r in Hr.
  inversion Hin as [? E|? req fr cl r ? E Hp' Hin'|? req fr cl r r' ? E Hp' Ha Hin']; subst; rewrite Hr in E; [done|..];
    injection E as <- <- <- <-; [|congruence].
  f_equal. destruct (incoming_sent [(q', u')] "" reqs0) as (more & -> & Hm).
  - by constructor.
  - constructor; [|done]. unfold consumed. simpl. by rewrite Hb'.
  - unfold bytes_of. simpl. by rewrite sapp_nil_r.
  - by apply incoming_end in Hm as ->.
Qed.

End incoming.

(** * Concrete inputs *)

Section witnesses.
#[local] Existing Instances ascii_unicode map_range map_range_laws insertion_sort.
Import RouteTableExamples.

Definition ex_uri : GoRequestURI :=
  {| ParseRequestURI := fun s => Some {| url_host := ""; url_path := s; url_requri := s |} |}.
#[local] Existing Instance ex_uri.

Definition ex_url : url := {| url_host := ""; url_path := "/"; url_requri := "/" |}.
Definition ex_sent (meth : string) (fields : list (string * string)) (body : sent_body) : sent * url :=
  ({| q_method := meth; q_uri := "/"; q_host := "app.example.org"; q_fields := fields; q_body := body |}, ex_url).
Definition ex_cross : list (string * string) := [("origin", "https://chat.example.org")].

(** A preflight, a chunked request, one whose body looks like a request, the last one. *)
Definition ex_client : list (sent * url) :=
  [ex_sent "OPTIONS" ex_cross SNone; ex_sent "GET" ex_cross (SChunked ["ab"; "c"]);
   ex_sent "GET" ex_cross (SLength "GET / HTTP/1.1"); ex_sent "GET" [("Connection", "close")] SNone].
Definition ex_seen : list Request := map as_request ex_client.
Definition ex_talk : list (event ans) := (prun ex_serve (serveHTTP ex_conf ex_seen ex_app_live (Some ex_rp)) 0%nat).1.1.

Lemma ex_valid : Forall valid ex_client.
Proof.
  assert (Hhost : clean_value "app.example.org") by (split_and!; [done|by vm_compute..]).
  assert (Hone : ∀ k v, k ≠ "" → sall token_char k = true → clean_value v →
    CanonicalHeaderKey k ∉ ["Host"; "Content-Length"; "Transfer-Encoding"; "Trailer"; "Pragma"] →
    Forall clean_sent_field [(k, v)]) by (intros; by constructor).
  assert (Hx : Forall clean_sent_field ex_cross).
  { apply Hone; [done|done|split_and!; [done|by vm_compute..]|]. apply (bool_decide_unpack _). by vm_compute. }
  assert (Hl : Forall clean_sent_field [("Connection", "close")]).
  { apply Hone; [done|done|split_and!; [done|by vm_compute..]|]. apply (bool_decide_unpack _). by vm_compute. }
  repeat (apply Forall_cons; split; [split; [by constructor|reflexivity]|]). done.
Qed.

Lemma ex_consumed : Forall (consumed ex_conf) ex_client.
Proof.
  unfold ex_client. repeat (apply Forall_cons; split); try done; unfold consumed; simpl.
  - split; [vm_compute; reflexivity|]. unfold good_pieces. repeat constructor; vm_compute; congruence.
  - right. split; vm_compute; reflexivity.
Qed.

Lemma ex_incoming : incoming ex_conf (bytes_of ex_client) ex_seen.
Proof.
  eapply InPreflight; [vm_compute; reflexivity|vm_compute; reflexivity|].
  eapply InRequest; [vm_compute; reflexivity|vm_compute; reflexivity|eapply AfterChunks; vm_compute; reflexivity|].
  eapply InRequest; [vm_compute; reflexivity|vm_compute; reflexivity|apply AfterLength|].
  eapply InRequest; [vm_compute; reflexivity|vm_compute; reflexivity|apply AfterNone|].
  constructor. vm_compute. reflexivity.
Qed.

Lemma ex_framed_client : framed ex_conf ex_up ex_seen.
Proof.
  pose proof ex_framed_all as Hf. cbn [all_framed ex_reqs] in Hf.
  assert (preflight ex_conf ex_preflight = true) as E1 by (vm_compute; reflexivity).
  assert (preflight ex_conf ex_get = false) as E2 by (vm_compute; reflexivity).
  assert (preflight ex_conf ex_last = false) as E3 by (vm_compute; reflexivity). rewrite E1, E2, E3 in Hf.
  destruct Hf as (_ & _ & H0 & _ & H1 & _ & H2 & _).
  cbn [framed ex_seen ex_client map].
  assert (preflight ex_conf (as_request (ex_sent "OPTIONS" ex_cross SNone)) = true) as -> by (vm_compute; reflexivity).
  assert (preflight ex_conf (as_request (ex_sent "GET" ex_cross (SChunked ["ab"; "c"]))) = false) as -> by (vm_compute; reflexivity).
  assert (preflight ex_conf (as_request (ex_sent "GET" ex_cross (SLength "GET / HTTP/1.1"))) = false) as -> by (vm_compute; reflexivity).
  assert (preflight ex_conf (as_request (ex_sent "GET" [("Connection", "close")] SNone)) = false) as -> by (vm_compute; reflexivity).
  split_and!; done.
Qed.


(** A cross-origin preflight can carry a request to the enclave. *)
Example smuggled_request :
  let q := (ex_sent "OPTIONS" ex_cross (SLength (request_bytes (ex_sent "GET" [] SNone).1))).1 in
  incoming ex_conf (request_bytes q)
    [request_of q ex_url; as_request (ex_sent "GET" [] SNone)] ∧
  preflight ex_conf (as_request (ex_sent "GET" [] SNone)) = false.
Proof.
  split; [|vm_compute; reflexivity].
  eapply InPreflight; [vm_compute; reflexivity|vm_compute; reflexivity|].
  eapply InRequest; [vm_compute; reflexivity|vm_compute; reflexivity|apply AfterNone|].
  constructor. vm_compute. reflexivity.
Qed.

(** A request whose Connection header lists close with something else announces the end of
    the connection, so its body is not read to the end when it is closed early (the enclave
    could not be dialed); the loop, which compares the whole header, keeps the connection and
    takes the body for the next request. *)
Example close_in_list_unhonoured :
  let q := (ex_sent "POST" [("Connection", "close, te")] (SLength (request_bytes (ex_sent "GET" [] SNone).1))).1 in
  let failed := {| rt_early := []; rt_response := None |} in
  closes ex_conf (request_of q ex_url) failed = false ∧
  incoming ex_conf (request_bytes q) [request_of q ex_url; as_request (ex_sent "GET" [] SNone)].
Proof.
  split; [vm_compute; reflexivity|].
  eapply InRequest; [vm_compute; reflexivity|vm_compute; reflexivity|apply (AfterClosing _ _ 0); lia|].
  eapply InRequest; [vm_compute; reflexivity|vm_compute; reflexivity|apply AfterNone|].
  constructor. vm_compute. reflexivity.
Qed.

End witnesses.
