(* ===== verification/MuxSystem.v ===== *)
(** internal/terminate/wsmux.go as a concurrent system: one mux connection shared by
    the handlers of many browser sockets (serveSealedWSMux), each with its pump
    towards the browser and possibly a quarantine cut, by the read loop and by
    whoever kills the connection.

    Each access to shared state (the stream map under smu, the dead channel, one
    frame on the connection under wmu, the Once of a stream) is one step; an
    execution is any list of steps.  WsMux.v has what one frame does in full and
    WsQueue.v the queue of a stream: here only whether it had room appears. *)
From Stdlib Require Import Strings.String.
From S2P Require Import Prelude GoBytes GoRuntime WsFrame WsMux.
Local Open Scope Z_scope.

(** * State *)

(** Who finished a stream first (the once of gwStream.finish). *)
Inductive cause : Type :=
| ByEnclave    (* readLoop: a close frame *)
| ByOverflow   (* readLoop: the browser fell behind *)
| ByKill       (* kill *)
| ByPump       (* the pump: a write to the browser failed *)
| ByQuarantine (* closeQuarantined, or the check after Track *)
| ByHandler.   (* the deferred unregister *)

(** Where the handler of a socket stands. *)
Inductive handler_pc : Type :=
| HNew                  (* holds the connection, before register *)
| HRegistered           (* before the open frame *)
| HOpening              (* writeFrame found the connection alive *)
| HPump                 (* the loop over browser.Read *)
| HFailed               (* browser.Read failed; select on st.done is next *)
| HClosing              (* st.done was open; the close frame is next *)
| HLeaving              (* the deferred calls *)
| HFinishing            (* unregistered; finish is next *)
| HGone.

Inductive cut_pc : Type := CutNone | CutWritten | CutDone.

Record sock := {
  s_key : muxKey;
  s_pc : handler_pc;
  s_done : option cause;
  s_cut : cut_pc;
  s_opened : bool;  (* the open frame was written; the pump runs *)
  s_early : bool;   (* history: touched by read loop or cut before that *)
}.

(** Where the read loop stands; [RFound] and [RCloses] hold the stream the map had. *)
Inductive reader_pc : Type :=
| RIdle
| RUnknown (k : muxKey)
| RFound (i : nat)                  (* data for a stream *)
| ROverflow (i : nat)               (* its close frame is written *)
| RCloses (i : nat)                 (* a close frame for a stream *)
| RDrop (i : nat) (c : cause)       (* unregistered; finish is next *)
| RExit.

Inductive kill_pc : Type :=
| KNone
| KDead                             (* close(c.dead) *)
| KClosed                           (* c.conn.Close() *)
| KFinishing (l : list nat)         (* the map was taken; these are still to be finished *)
| KDone.

(** A frame towards the enclave and, for the history, the stream it was written for. *)
Record out_frame := { f_for : option nat; f_typ : Z; f_key : muxKey }.

Record mux := {
  m_streams : gmap muxKey nat;
  m_socks : gmap nat sock;
  m_reader : reader_pc;
  m_kill : kill_pc;
  m_wire : list out_frame;
  m_broken : bool;                  (* history: a write failed *)
}.

Definition mux_new : mux := {|
  m_streams := ∅; m_socks := ∅; m_reader := RIdle; m_kill := KNone; m_wire := []; m_broken := false |}.

Definition is_dead (m : mux) : bool := match m_kill m with KNone => false | _ => true end.
Definition conn_open (m : mux) : bool := match m_kill m with KNone | KDead => true | _ => false end.

(** * Steps *)

Definition set_sock (m : mux) (i : nat) (s : sock) : mux := {|
  m_streams := m_streams m; m_socks := <[i := s]> (m_socks m); m_reader := m_reader m; m_kill := m_kill m;
  m_wire := m_wire m; m_broken := m_broken m |}.
Definition set_map (m : mux) (st : gmap muxKey nat) : mux := {|
  m_streams := st; m_socks := m_socks m; m_reader := m_reader m; m_kill := m_kill m;
  m_wire := m_wire m; m_broken := m_broken m |}.
Definition set_reader (m : mux) (r : reader_pc) : mux := {|
  m_streams := m_streams m; m_socks := m_socks m; m_reader := r; m_kill := m_kill m;
  m_wire := m_wire m; m_broken := m_broken m |}.
Definition set_kill (m : mux) (k : kill_pc) : mux := {|
  m_streams := m_streams m; m_socks := m_socks m; m_reader := m_reader m; m_kill := k;
  m_wire := m_wire m; m_broken := m_broken m |}.

(** One frame; a write on a closed connection fails. *)
Definition put_frame (m : mux) (ok : bool) (f : out_frame) : mux := {|
  m_streams := m_streams m; m_socks := m_socks m; m_reader := m_reader m; m_kill := m_kill m;
  m_wire := if ok then m_wire m ++ [f] else m_wire m; m_broken := m_broken m || negb ok |}.

Definition at_pc (s : sock) (pc : handler_pc) : sock :=
  {| s_key := s_key s; s_pc := pc; s_done := s_done s; s_cut := s_cut s; s_opened := s_opened s; s_early := s_early s |}.
Definition finished (s : sock) (c : cause) : sock :=
  {| s_key := s_key s; s_pc := s_pc s; s_done := match s_done s with Some d => Some d | None => Some c end;
     s_cut := s_cut s; s_opened := s_opened s; s_early := s_early s |}.
Definition at_cut (s : sock) (c : cut_pc) : sock :=
  {| s_key := s_key s; s_pc := s_pc s; s_done := s_done s; s_cut := c; s_opened := s_opened s; s_early := s_early s |}.
Definition opened (s : sock) : sock :=
  {| s_key := s_key s; s_pc := HPump; s_done := s_done s; s_cut := s_cut s; s_opened := true; s_early := s_early s |}.
Definition touch (s : sock) : sock :=
  {| s_key := s_key s; s_pc := s_pc s; s_done := s_done s; s_cut := s_cut s; s_opened := s_opened s;
     s_early := s_early s || negb (s_opened s) |}.
Definition touch_sock (m : mux) (i : nat) : mux :=
  match m_socks m !! i with Some s => set_sock m i (touch s) | None => m end.

Definition finish_sock (m : mux) (i : nat) (c : cause) : mux :=
  match m_socks m !! i with Some s => set_sock m i (finished s c) | None => m end.
(** unregister: only the stream's own entry is deleted. *)
Definition drop_own (m : mux) (i : nat) (s : sock) : mux :=
  if decide (m_streams m !! s_key s = Some i) then set_map m (delete (s_key s) (m_streams m)) else m.

(** What the handler of a socket, its pump and its cut do next. *)
Inductive action : Type :=
| ARegister
| ARefuse                  (* the quarantine check after Track *)
| ACheckDead               (* writeFrame of the open frame: isDead *)
| AOpen (ok : bool)
| AData (ok : bool)        (* a binary message of the browser *)
| AText (ok : bool)        (* any other message *)
| AReadErr
| ACheckDone
| AClose (ok : bool)
| AUnregister
| AFinish
| APumpFails               (* browser.Write failed *)
| ACutWrite (ok : bool) | ACutFinish.

Definition sock_frame (i : nat) (s : sock) (typ : Z) : out_frame := {| f_for := Some i; f_typ := typ; f_key := s_key s |}.

(** closeQuarantined may be called: Track was reached, and CutHost calls what it
    took from the tracker even after release. *)
Definition tracked (s : sock) : bool :=
  match s_pc s with
  | HNew => false
  | HGone => match s_done s with Some _ => true | None => false end  (* not a duplicate *)
  | _ => true
  end.

Definition act (m : mux) (i : nat) (s : sock) (a : action) : option mux :=
  match a, s_pc s with
  | ARegister, HNew =>
      match m_streams m !! s_key s with
      | Some _ => Some (set_sock m i (at_pc s HGone))
      | None => Some (set_map (set_sock m i (at_pc s HRegistered)) (<[s_key s := i]> (m_streams m)))
      end
  | ARefuse, HRegistered => Some (set_sock m i (at_pc (finished s ByQuarantine) HLeaving))
  | ACheckDead, HRegistered => Some (set_sock m i (at_pc s (if is_dead m then HLeaving else HOpening)))
  | AOpen ok, HOpening =>
      if ok && negb (conn_open m) then None
      else Some (put_frame (set_sock m i (if ok then opened s else at_pc s HLeaving)) ok (sock_frame i s muxTypeOpen))
  | AData ok, HPump =>
      if ok && negb (conn_open m) then None
      else Some (put_frame (set_sock m i (at_pc s (if ok then HPump else HLeaving))) ok (sock_frame i s muxTypeData))
  | AText ok, HPump =>
      if ok && negb (conn_open m) then None
      else Some (put_frame (set_sock m i (at_pc s HLeaving)) ok (sock_frame i s muxTypeClose))
  | AReadErr, HPump => Some (set_sock m i (at_pc s HFailed))
  | ACheckDone, HFailed => Some (set_sock m i (at_pc s (match s_done s with Some _ => HLeaving | None => HClosing end)))
  | AClose ok, HClosing =>
      if ok && negb (conn_open m) then None
      else Some (put_frame (set_sock m i (at_pc s HLeaving)) ok (sock_frame i s muxTypeClose))
  | AUnregister, HLeaving => Some (drop_own (set_sock m i (at_pc s HFinishing)) i s)
  | AFinish, HFinishing => Some (set_sock m i (at_pc (finished s ByHandler) HGone))
  | APumpFails, _ =>
      match s_opened s, s_done s with true, None => Some (set_sock m i (finished s ByPump)) | _, _ => None end
  | ACutWrite ok, _ =>
      match s_cut s with
      | CutNone =>
          if negb (tracked s) || ok && negb (conn_open m) then None
          else Some (put_frame (set_sock m i (at_cut (touch s) CutWritten)) ok (sock_frame i s muxTypeClose))
      | _ => None
      end
  | ACutFinish, _ =>
      match s_cut s with
      | CutWritten => Some (set_sock m i (at_cut (finished s ByQuarantine) CutDone))
      | _ => None
      end
  | _, _ => None
  end.

(** The read loop; a frame of another kind, or a failed read, ends it. *)
Inductive reader_action : Type :=
| RFrame (typ : Z) (k : muxKey) (ok : bool)  (* [ok]: the answer to a ping is written *)
| RRoom (room ok : bool)         (* data for a stream: the queue has room, or a close frame is written *)
| RStep (ok : bool)
| RFails.

Definition read (m : mux) (a : reader_action) : option mux :=
  match a, m_reader m with
  | RFrame typ k ok, RIdle =>
      if typ =? muxTypePong then Some m else
      if typ =? muxTypePing then
        if ok && negb (conn_open m) then None
        else Some (put_frame m ok {| f_for := None; f_typ := muxTypePong; f_key := (""%string, 0) |}) else
      if typ =? muxTypeData then
        Some (match m_streams m !! k with
              | None => set_reader m (RUnknown k)
              | Some i => set_reader (touch_sock m i) (RFound i)
              end) else
      if typ =? muxTypeClose then
        Some (match m_streams m !! k with
              | None => m
              | Some i => set_reader (touch_sock m i) (RCloses i)
              end) else
      Some (set_reader m RExit)
  | RStep ok, RUnknown k =>
      if ok && negb (conn_open m) then None
      else Some (put_frame (set_reader m RIdle) ok {| f_for := None; f_typ := muxTypeClose; f_key := k |})
  | RRoom room ok, RFound i =>
      if room then Some (set_reader m RIdle) else
      match m_socks m !! i with
      | None => None
      | Some s => if ok && negb (conn_open m) then None
                  else Some (put_frame (set_reader m (ROverflow i)) ok (sock_frame i s muxTypeClose))
      end
  | RStep _, ROverflow i =>
      match m_socks m !! i with
      | None => None
      | Some s => Some (set_reader (drop_own m i s) (RDrop i ByOverflow))
      end
  | RStep _, RCloses i =>
      match m_socks m !! i with
      | None => None
      | Some s => Some (set_reader (drop_own m i s) (RDrop i ByEnclave))
      end
  | RStep _, RDrop i c => Some (set_reader (finish_sock m i c) RIdle)
  | RFails, RIdle => Some (set_reader m RExit)
  | _, _ => None
  end.

Section system.
Context `{GoRange}.

(** kill, by the first of read loop, keepalive and closeAll to get there. *)
Definition kill_step (m : mux) : option mux :=
  match m_kill m with
  | KNone => Some (set_kill m KDead)
  | KDead => Some (set_kill m KClosed)
  | KClosed => Some (set_kill (set_map m ∅) (KFinishing (map snd (range_map (m_streams m)))))
  | KFinishing (i :: l) => Some (set_kill (finish_sock m i ByKill) (KFinishing l))
  | KFinishing [] => Some (set_kill m KDone)
  | KDone => None
  end.

Inductive event : Type :=
| ESocket (i : nat) (k : muxKey)   (* get returned this connection to a new handler *)
| EAct (i : nat) (a : action)
| ERead (a : reader_action)
| EPing (ok : bool)                 (* keepalive *)
| EKill.

Definition exec (m : mux) (e : event) : option mux :=
  match e with
  | ESocket i k =>
      match m_socks m !! i with
      | Some _ => None
      | None => Some (set_sock m i {| s_key := k; s_pc := HNew; s_done := None; s_cut := CutNone;
                                     s_opened := false; s_early := false |})
      end
  | EAct i a => match m_socks m !! i with Some s => act m i s a | None => None end
  | ERead a => read m a
  | EPing ok =>
      if is_dead m || ok && negb (conn_open m) then None
      else Some (put_frame m ok {| f_for := None; f_typ := muxTypePing; f_key := (""%string, 0) |})
  | EKill => kill_step m
  end.

Fixpoint run (m : mux) (evs : list event) : option mux :=
  match evs with
  | [] => Some m
  | e :: evs => match exec m e with Some m' => run m' evs | None => None end
  end.

Lemma run_app m evs evs' :
  run m (evs ++ evs') = match run m evs with Some m' => run m' evs' | None => None end.
Proof. revert m. induction evs as [|e evs IH]; intros m; [done|]. cbn [app run]. by destruct (exec m e). Qed.

(** * Invariant: who is in the map *)

(** Between register and the handler's own unregister. *)
Definition registered (s : sock) : bool :=
  match s_pc s with HNew | HFinishing | HGone => false | _ => true end.
Definition dropping (m : mux) (i : nat) : Prop := ∃ c, m_reader m = RDrop i c.
Definition killing (m : mux) : list nat := match m_kill m with KFinishing l => l | _ => [] end.
Definition taken (m : mux) : bool := match m_kill m with KFinishing _ | KDone => true | _ => false end.
(** Where a handler that registers with a dead connection can stand. *)
Definition late (s : sock) : bool := match s_pc s with HRegistered | HLeaving => true | _ => false end.

Record minv (m : mux) : Prop := {
  mi_map : ∀ k i, m_streams m !! k = Some i → ∃ s, m_socks m !! i = Some s ∧ s_key s = k ∧ registered s = true;
  mi_route : ∀ i s, m_socks m !! i = Some s → registered s = true →
    m_streams m !! s_key s = Some i ∨ s_done s ≠ None ∨ dropping m i ∨ i ∈ killing m;
  mi_taken : ∀ k i s, taken m = true → m_streams m !! k = Some i → m_socks m !! i = Some s → late s = true;
}.

Lemma minv_new : minv mux_new.
Proof. split; intros *; simpl; by rewrite lookup_empty. Qed.

Lemma minv_put m ok f : minv m → minv (put_frame m ok f).
Proof. intros [A B C]. by split. Qed.

(** A step of one socket that leaves its registration alone. *)
Lemma minv_set m i s s' :
  minv m → m_socks m !! i = Some s → s_key s' = s_key s → registered s' = registered s →
  (s_done s ≠ None → s_done s' ≠ None) →
  (taken m = true → m_streams m !! s_key s = Some i → late s = true → late s' = true) →
  minv (set_sock m i s').
Proof.
  intros [A B C] Hi Hk Hr Hd Ht. split; simpl.
  - intros k j Hj. destruct (A k j Hj) as (t & Ej & Ek & Er). destruct (decide (j = i)) as [->|Hne].
    + rewrite lookup_insert_eq. exists s'. rewrite Hi in Ej. injection Ej as <-. by rewrite Hk, Hr.
    + rewrite lookup_insert_ne by done. eauto.
  - intros j t Hj Hreg. destruct (decide (j = i)) as [->|Hne].
    + rewrite lookup_insert_eq in Hj. injection Hj as <-. rewrite Hr in Hreg. rewrite Hk.
      destruct (B i s Hi Hreg) as [?|[?|?]]; auto.
    + rewrite lookup_insert_ne in Hj by done. apply (B j t Hj Hreg).
  - intros k j t Htk Hj Ej. destruct (decide (j = i)) as [->|Hne].
    + rewrite lookup_insert_eq in Ej. injection Ej as <-. destruct (A k i Hj) as (t & Et & Ek & _).
      rewrite Hi in Et. injection Et as <-. apply Ht; [done|by rewrite Ek|by eapply C].
    + rewrite lookup_insert_ne in Ej by done. by eapply C.
Qed.

Lemma minv_finish m i c : minv m → minv (finish_sock m i c).
Proof.
  intros Hm. unfold finish_sock. destruct (m_socks m !! i) as [s|] eqn:E; [|done].
  apply (minv_set m i s); try done. simpl. by destruct (s_done s).
Qed.

Lemma finish_sock_done m i c s : m_socks (finish_sock m i c) !! i = Some s → s_done s ≠ None.
Proof.
  unfold finish_sock. destruct (m_socks m !! i) as [t|] eqn:E; [|by rewrite E].
  simpl. rewrite lookup_insert_eq. intros [= <-]. simpl. by destruct (s_done t).
Qed.

Lemma minv_reader m r : minv m → (∀ i s, dropping m i → m_socks m !! i = Some s → s_done s ≠ None) → minv (set_reader m r).
Proof.
  intros [A B C] Hd. split; simpl; [done| |done]. intros i s Hi Hr. destruct (B i s Hi Hr) as [?|[?|[?|?]]]; auto.
  right; left. by apply Hd with i.
Qed.

Lemma minv_touch m i : minv m → minv (touch_sock m i).
Proof. intros Hm. unfold touch_sock. destruct (m_socks m !! i) as [s|] eqn:E; [|done]. by apply (minv_set m i s). Qed.

(** The read loop takes a stream off the map. *)
Lemma minv_drop m i s c :
  minv m → m_socks m !! i = Some s → (∀ j, ¬ dropping m j) → minv (set_reader (drop_own m i s) (RDrop i c)).
Proof.
  intros [A B C] Hi Hnd. unfold drop_own. case_decide as Ho; (split; simpl).
  - intros k j [Hne Hj]%lookup_delete_Some. eauto.
  - intros j t Hj Hr. destruct (decide (j = i)) as [->|Hne]; [right; right; left; by exists c|].
    destruct (B j t Hj Hr) as [Hm|[?|[?%Hnd|?]]]; auto. left. apply lookup_delete_Some. split; [|done].
    intros E. rewrite <- E in Hm. congruence.
  - intros k j t Ht [_ Hj]%lookup_delete_Some. by eapply C.
  - done.
  - intros j t Hj Hr. destruct (decide (j = i)) as [->|Hne]; [right; right; left; by exists c|].
    destruct (B j t Hj Hr) as [Hm|[?|[?%Hnd|?]]]; auto.
  - done.
Qed.

Lemma taken_dead m : taken m = true → is_dead m = true.
Proof. unfold taken, is_dead. by destruct (m_kill m). Qed.

(** register. *)
Lemma minv_register m i s :
  minv m → m_socks m !! i = Some s → s_pc s = HNew → m_streams m !! s_key s = None →
  minv (set_map (set_sock m i (at_pc s HRegistered)) (<[s_key s := i]> (m_streams m))).
Proof.
  intros [A B C] Hi Hp Hn. split; simpl.
  - intros k j [[<- <-]|[Hne Hj]]%lookup_insert_Some.
    + rewrite lookup_insert_eq. by exists (at_pc s HRegistered).
    + destruct (A k j Hj) as (t & Ej & Ek & Er). assert (j ≠ i).
      { intros ->. rewrite Hi in Ej. injection Ej as <-. unfold registered in Er. by rewrite Hp in Er. }
      rewrite lookup_insert_ne by done. eauto.
  - intros j t [[<- <-]|[Hne Hj]]%lookup_insert_Some Hr; [left; apply lookup_insert_eq|].
    destruct (B j t Hj Hr) as [Hm|?]; auto. left. rewrite lookup_insert_ne; [done|]. intros E. rewrite E in Hn. congruence.
  - intros k j t Ht Hk Hj. apply lookup_insert_Some in Hj as [[<- <-]|[Hne Hj]]; [done|].
    apply lookup_insert_Some in Hk as [[_ ->]|[_ Hk]]; [done|]. by eapply C.
Qed.

(** The handler's own unregister. *)
Lemma minv_leave m i s :
  minv m → m_socks m !! i = Some s → s_pc s = HLeaving → minv (drop_own (set_sock m i (at_pc s HFinishing)) i s).
Proof.
  intros [A B C] Hi Hp. unfold drop_own. simpl. case_decide as Ho; (split; simpl).
  - intros k j [Hne Hj]%lookup_delete_Some. destruct (A k j Hj) as (t & Ej & Ek & Er). assert (j ≠ i) by naive_solver.
    rewrite lookup_insert_ne by done. eauto.
  - intros j t [[<- <-]|[Hne Hj]]%lookup_insert_Some Hr; [done|]. destruct (B j t Hj Hr) as [Hm|?]; auto.
    left. apply lookup_delete_Some. split; [|done]. intros E. rewrite <- E in Hm. congruence.
  - intros k j t Ht [Hk Hj]%lookup_delete_Some [[<- <-]|[Hne Hj']]%lookup_insert_Some; [naive_solver|]. by eapply C.
  - intros k j Hj. destruct (A k j Hj) as (t & Ej & Ek & Er). assert (j ≠ i) by naive_solver.
    rewrite lookup_insert_ne by done. eauto.
  - intros j t [[<- <-]|[Hne Hj]]%lookup_insert_Some Hr; [done|]. by apply B.
  - intros k j t Ht Hk [[<- <-]|[Hne Hj']]%lookup_insert_Some; [|by eapply C]. destruct (A k i Hk) as (t & Et & Ek & _). naive_solver.
Qed.

Lemma minv_act m i s a m' : minv m → m_socks m !! i = Some s → act m i s a = Some m' → minv m'.
Proof.
  intros Hm Hi Ha. unfold act in Ha.
  destruct a; destruct (s_pc s) eqn:Ep; simplify_eq; try done;
    repeat (case_match; simplify_eq/=; try done); try apply minv_put.
  all: try (apply (minv_set m i s); simpl; unfold registered, late; simpl; rewrite ?Ep; try done; by destruct (s_done s)).
  - by apply minv_register.
  - apply (minv_set m i s); simpl; unfold registered, late; simpl; rewrite ?Ep; try done.
    intros ?%taken_dead. congruence.
  - by apply minv_leave.
Qed.

Lemma touch_sock_same m i :
  m_streams (touch_sock m i) = m_streams m ∧ m_reader (touch_sock m i) = m_reader m ∧
  m_kill (touch_sock m i) = m_kill m ∧ m_wire (touch_sock m i) = m_wire m ∧ m_broken (touch_sock m i) = m_broken m.
Proof. unfold touch_sock. by destruct (m_socks m !! i). Qed.

Lemma minv_reader_idle m r : minv m → (∀ i, ¬ dropping m i) → minv (set_reader m r).
Proof. intros Hm Hd. apply minv_reader; [done|]. by intros i s ?%Hd. Qed.

Lemma minv_read m a m' : minv m → read m a = Some m' → minv m'.
Proof.
  intros Hm Hr. unfold read in Hr.
  assert (Hnd : (∀ i c, m_reader m ≠ RDrop i c) → ∀ i, ¬ dropping m i) by (intros Hn i [c E]; by apply (Hn i c)).
  assert (Htouch : (∀ i c, m_reader m ≠ RDrop i c) → ∀ i r, minv (set_reader (touch_sock m i) r)).
  { intros Hn i r. apply minv_reader_idle; [by apply minv_touch|]. intros j [c E].
    destruct (touch_sock_same m i) as (_ & Er & _). rewrite Er in E. by apply (Hn j c). }
  destruct a as [typ k ok|room ok|ok|]; destruct (m_reader m) as [|k'|j|j|j|j c|] eqn:Er; simplify_eq; try done;
    repeat (case_match; simplify_eq; try done); try apply minv_put; try done;
    try (by apply Htouch); try (apply minv_drop; [done|done|by apply Hnd]); try (apply minv_reader_idle; [done|by apply Hnd]).
  apply minv_reader; [by apply minv_finish|]. intros i s [c' Hd] Hs.
  assert (i = j) as ->; [|by eapply finish_sock_done].
  unfold finish_sock in Hd. destruct (m_socks m !! j); simpl in Hd; rewrite Er in Hd; congruence.
Qed.

Lemma minv_kill `{!GoRangeLaws} m m' : minv m → kill_step m = Some m' → minv m'.
Proof.
  intros Hm Hk. unfold kill_step in Hk. destruct (m_kill m) as [| | |[|i l]|] eqn:Ek; simplify_eq.
  - destruct Hm as [A B C]. split; simpl; [done| |done]. intros j t Hj Hr. destruct (B j t Hj Hr) as [?|[?|[?|Hin]]]; auto.
    unfold killing in Hin. rewrite Ek in Hin. by apply not_elem_of_nil in Hin.
  - destruct Hm as [A B C]. split; simpl; [done| |done]. intros j t Hj Hr. destruct (B j t Hj Hr) as [?|[?|[?|Hin]]]; auto.
    unfold killing in Hin. rewrite Ek in Hin. by apply not_elem_of_nil in Hin.
  - destruct Hm as [A B C]. split; simpl.
    + intros *. by rewrite lookup_empty.
    + intros j t Hj Hr. unfold killing. simpl. destruct (B j t Hj Hr) as [Hin|[?|[?|Hin]]]; auto.
      * right; right; right. apply list_elem_of_fmap. exists (s_key t, j). split; [done|]. by apply range_map_elem.
      * unfold killing in Hin. rewrite Ek in Hin. by apply not_elem_of_nil in Hin.
    + intros *. by rewrite lookup_empty.
  - destruct Hm as [A B C]. split; simpl; [done| |].
    + intros j t Hj Hr. destruct (B j t Hj Hr) as [?|[?|[?|Hin]]]; auto. unfold killing in Hin. rewrite Ek in Hin. by apply not_elem_of_nil in Hin.
    + intros k j t _ Hk. eapply C; [|done]. unfold taken. by rewrite Ek.
  - pose proof (minv_finish m i ByKill Hm) as [A B C].
    assert (Hsame : m_kill (finish_sock m i ByKill) = m_kill m) by (unfold finish_sock; by destruct (m_socks m !! i)).
    split; simpl; [done| |].
    + intros j t Hj Hr. destruct (B j t Hj Hr) as [?|[?|[?|Hin]]]; auto. unfold killing in Hin. rewrite Hsame, Ek in Hin.
      apply elem_of_cons in Hin as [->|Hin]; [|by auto]. right; left. by eapply finish_sock_done.
    + intros k j t _ Hk. eapply C; [|done]. unfold taken. by rewrite Hsame, Ek.
Qed.

Lemma minv_exec `{!GoRangeLaws} m e m' : minv m → exec m e = Some m' → minv m'.
Proof.
  intros Hm He. destruct e as [i k|i a|a|ok|]; simpl in He.
  - destruct (m_socks m !! i) eqn:E; [done|]. injection He as <-. destruct Hm as [A B C]. split; simpl.
    + intros k' j Hj. destruct (A k' j Hj) as (t & Ej & ?). rewrite lookup_insert_ne by congruence. eauto.
    + intros j t [[<- <-]|[_ Hj]]%lookup_insert_Some Hr; [done|]. by apply B.
    + intros k' j t Ht Hk [[<- <-]|[_ Hj]]%lookup_insert_Some; [|by eapply C]. destruct (A k' i Hk) as (t & Et & _). congruence.
  - destruct (m_socks m !! i) as [s|] eqn:E; [|done]. by eapply minv_act.
  - by eapply minv_read.
  - case_match; simplify_eq. by apply minv_put.
  - by eapply minv_kill.
Qed.

Lemma minv_run `{!GoRangeLaws} evs m m' : minv m → run m evs = Some m' → minv m'.
Proof.
  revert m. induction evs as [|e evs IH]; simpl; intros m Hm Hr; [by simplify_eq|].
  destruct (exec m e) as [m1|] eqn:E; [|done]. eapply IH; [|done]. by eapply minv_exec.
Qed.

(** * Sockets and connection *)

(** An open stream is reachable: while the connection lives, a
    socket that is registered and not finished is the one in the map under its key,
    so the next data frame of the enclave for that key goes to it; no other handler,
    not even one that used the key before, can have taken it out.  The only exception
    is a stream the read loop is just dropping itself. *)
Theorem live_stream_routed `{!GoRangeLaws} evs m i s :
  run mux_new evs = Some m → is_dead m = false → m_socks m !! i = Some s →
  registered s = true → s_done s = None →
  (∃ c, m_reader m = RDrop i c) ∨
  (m_streams m !! s_key s = Some i ∧
   (m_reader m = RIdle → ∃ m', exec m (ERead (RFrame muxTypeData (s_key s) true)) = Some m' ∧ m_reader m' = RFound i)).
Proof.
  intros Hr Hd Hi Hreg Hdone. pose proof (minv_run evs _ _ minv_new Hr) as Hm.
  destruct (mi_route m Hm i s Hi Hreg) as [Hin|[?|[?|Hk]]]; [|done|by left|].
  - right. split; [done|]. intros Hidle. simpl. rewrite Hidle, Hin. simpl. by eexists.
  - unfold killing in Hk. unfold is_dead in Hd. destruct (m_kill m); try done; by apply not_elem_of_nil in Hk.
Qed.

(** No socket survives its mux connection: when kill is through, every
    socket whose open frame was (or is being) written has been finished, its browser
    told that the connection is lost, also the sockets registered while kill was
    running; only a stream the read loop is about to finish itself, or a handler
    that is already leaving, is not finished yet. *)
Theorem kill_reaches_sockets `{!GoRangeLaws} evs m i s :
  run mux_new evs = Some m → m_kill m = KDone → m_socks m !! i = Some s →
  registered s = true → late s = false →
  s_done s ≠ None ∨ ∃ c, m_reader m = RDrop i c.
Proof.
  intros Hr Hk Hi Hreg Hl. pose proof (minv_run evs _ _ minv_new Hr) as Hm.
  destruct (mi_route m Hm i s Hi Hreg) as [Hin|[?|[?|Hin]]]; [|by left|by right|].
  - exfalso. pose proof (mi_taken m Hm (s_key s) i s) as Hlate. unfold taken in Hlate. rewrite Hk in Hlate. naive_solver congruence.
  - exfalso. unfold killing in Hin. rewrite Hk in Hin. by apply not_elem_of_nil in Hin.
Qed.

(** * What the enclave is told *)

(** The enclave has the stream of socket [i]: it was opened and not closed since. *)
Definition view_step (i : nat) (has : bool) (f : out_frame) : bool :=
  if decide (f_for f = Some i) then
    if f_typ f =? muxTypeOpen then true else if f_typ f =? muxTypeClose then false else has
  else has.
Definition enclave_has (i : nat) (wire : list out_frame) : bool := fold_left (view_step i) wire false.

Lemma enclave_has_snoc i wire f : enclave_has i (wire ++ [f]) = view_step i (enclave_has i wire) f.
Proof. apply fold_left_app. Qed.

Definition preopen (s : sock) : bool := match s_pc s with HNew | HRegistered | HOpening => true | _ => false end.
Definition pumping (s : sock) : bool := match s_pc s with HPump | HFailed | HClosing => true | _ => false end.
(** The enclave knows that the stream is over, or the connection is; or the browser
    was lost. *)
Definition excused (d : option cause) : bool := match d with Some (ByEnclave | ByPump | ByKill) => true | _ => false end.

(** What the frames written for a socket say of its handler: a stream the enclave has
    is being pumped or excused, unless something touched it before it was opened. *)
Definition sock_ok (has : bool) (s : sock) : bool :=
  implb (negb (s_opened s)) (negb has) && implb (preopen s) (negb (s_opened s)) &&
  (s_early s ||
   implb has (pumping s || excused (s_done s)) &&
   match s_cut s with CutNone => true | _ => s_opened s && negb has end &&
   match s_done s with
   | Some ByOverflow => s_opened s && negb has
   | Some ByQuarantine => negb (preopen s) && negb has
   | _ => true
   end) &&
  match s_done s, s_pc s with Some ByHandler, HGone => true | Some ByHandler, _ => false | _, _ => true end.

Definition reader_ok (m : mux) : Prop :=
  match m_reader m with
  | RFound i => ∃ s, m_socks m !! i = Some s ∧ (s_early s = false → s_opened s = true)
  | ROverflow i | RDrop i ByOverflow =>
      ∃ s, m_socks m !! i = Some s ∧ (s_early s = false → s_opened s = true ∧ enclave_has i (m_wire m) = false)
  | RDrop i c => c = ByEnclave
  | _ => True
  end.

Record cinv (m : mux) : Prop := {
  ci_fresh : ∀ i, m_socks m !! i = None → enclave_has i (m_wire m) = false;
  ci_sock : ∀ i s, m_socks m !! i = Some s → sock_ok (enclave_has i (m_wire m)) s = true;
  ci_reader : reader_ok m;
}.

Lemma cinv_new : cinv mux_new.
Proof. split; [done| |done]. intros i s. simpl. by rewrite lookup_empty. Qed.

(** A step of socket [i], with at most one frame for it. *)
Lemma cinv_set m i s s' (ok : bool) (typ : Z) :
  cinv m → m_socks m !! i = Some s →
  sock_ok (if ok then view_step i (enclave_has i (m_wire m)) (sock_frame i s typ) else enclave_has i (m_wire m)) s' = true →
  (s_early s' = false → s_early s = false) → (s_opened s = true → s_opened s' = true) →
  (typ = muxTypeOpen → ok = true → s_opened s = false) →
  cinv (if ok then put_frame (set_sock m i s') true (sock_frame i s typ) else set_sock m i s').
Proof.
  intros [F C R] Hi Hs' He Ho Hopen.
  set (w := if ok then m_wire m ++ [sock_frame i s typ] else m_wire m).
  assert (Hw : ∀ j, enclave_has j w = if ok then view_step j (enclave_has j (m_wire m)) (sock_frame i s typ) else enclave_has j (m_wire m))
    by (intros j; unfold w; destruct ok; [apply enclave_has_snoc|done]).
  assert (Hother : ∀ j, j ≠ i → enclave_has j w = enclave_has j (m_wire m)).
  { intros j Hj. rewrite Hw. destruct ok; [|done]. unfold view_step. rewrite decide_False; [done|]. simpl. congruence. }
  assert (Hmono : s_early s' = false → s_opened s = true → enclave_has i (m_wire m) = false → enclave_has i w = false).
  { intros _ Hop Hh. rewrite Hw, Hh. destruct ok; [|done]. unfold view_step. rewrite decide_True by done.
    cbn [sock_frame f_typ]. destruct (typ =? muxTypeOpen) eqn:Et; [|by case_match]. apply Z.eqb_eq in Et.
    specialize (Hopen Et eq_refl). congruence. }
  assert (Hgoal : ∀ m', m_socks m' = <[i := s']> (m_socks m) → m_wire m' = w → m_reader m' = m_reader m → cinv m').
  { intros m' Es Ew Er. split; [rewrite Es, Ew..|].
    - intros j [Hj Hne]%lookup_insert_None. rewrite Hother by done. by apply F.
    - intros j t [[<- <-]|[Hne Hj]]%lookup_insert_Some; [by rewrite Hw|]. rewrite Hother by done. by apply C.
    - unfold reader_ok in *. rewrite Er, Es, Ew.
      assert (Hov : ∀ j (P P' : sock → Prop), (∃ t, m_socks m !! j = Some t ∧ (s_early t = false → P t)) →
        (∀ t, j ≠ i → P t → P' t) → (j = i → s_early s' = false → P s → P' s') →
        ∃ t, <[i:=s']> (m_socks m) !! j = Some t ∧ (s_early t = false → P' t)).
      { intros j P P' (t & Ht & HP) H1 H2. destruct (decide (j = i)) as [->|Hne].
        - rewrite lookup_insert_eq. exists s'. split; [done|]. intros Het. rewrite Hi in Ht. injection Ht as <-.
          apply H2; auto.
        - rewrite lookup_insert_ne by done. exists t. split; [done|]. auto. }
      destruct (m_reader m) as [| |j|j| |j []|]; try done; (eapply Hov; [exact R| |]); simpl; [auto|auto|..].
      + intros t Hne. by rewrite Hother.
      + intros -> He' [Ho' Hh]. split; [by apply Ho|by apply Hmono].
      + intros t Hne. by rewrite Hother.
      + intros -> He' [Ho' Hh]. split; [by apply Ho|by apply Hmono]. }
  destruct ok; apply Hgoal; done.
Qed.

Lemma view_frame i has s typ :
  view_step i has (sock_frame i s typ) = if typ =? muxTypeOpen then true else if typ =? muxTypeClose then false else has.
Proof. unfold view_step. by rewrite decide_True. Qed.

Lemma cinv_map m st : cinv m → cinv (set_map m st).
Proof. intros [F C R]. by split. Qed.

(** Decide what a step of a handler keeps of [sock_ok]: a finite check. *)
Ltac sock_step :=
  match goal with
  | Hs : sock_ok ?has {| s_key := _; s_pc := _; s_done := ?d; s_cut := ?c; s_opened := ?o; s_early := ?e |} = true |- _ =>
      revert Hs; clear; generalize has; intros h Hs; destruct h, e; try (is_var o; destruct o); try (is_var c; destruct c);
      try (is_var d; destruct d as [d|]); try match goal with x : cause |- _ => destruct x end;
      vm_compute in Hs |- *; first [reflexivity | discriminate Hs]
  end.

Lemma cinv_act m i s a m' :
  cinv m → m_socks m !! i = Some s → act m i s a = Some m' → m_broken m' = false → cinv m'.
Proof.
  intros Hc Hi Ha Hb. pose proof (ci_sock m Hc i s Hi) as Hs.
  assert (Hnone : ∀ s', sock_ok (enclave_has i (m_wire m)) s' = true → s_early s' = s_early s → s_opened s' = s_opened s →
    cinv (set_sock m i s')).
  { intros s' H1 H2 H3. by apply (cinv_set m i s s' false 0 Hc Hi); [|congruence..|]. }
  assert (Hframe : ∀ s' typ (ok : bool), m_broken (put_frame (set_sock m i s') ok (sock_frame i s typ)) = false →
    sock_ok (if typ =? muxTypeOpen then true else if typ =? muxTypeClose then false else enclave_has i (m_wire m)) s' = true →
    (s_early s' = false → s_early s = false) → (s_opened s = true → s_opened s' = true) →
    (typ = muxTypeOpen → s_opened s = false) → cinv (put_frame (set_sock m i s') ok (sock_frame i s typ))).
  { intros s' typ ok Hbr H1 H2 H3 H4. simpl in Hbr. apply orb_false_iff in Hbr as [_ ->%negb_false_iff].
    apply (cinv_set m i s s' true typ Hc Hi); [by rewrite view_frame|done|done|auto]. }
  assert (Hpre : preopen s = true → s_opened s = false).
  { intros Hp. unfold sock_ok in Hs. rewrite Hp in Hs. destruct (s_opened s); [|done].
    simpl in Hs. by rewrite ?andb_false_r in Hs. }
  unfold act in Ha. destruct s as [k pc d c o e]; simpl in *.
  destruct a; destruct pc; simplify_eq; try done;
    repeat (case_match; simplify_eq; try done).
  all: try (exfalso; simpl in Hb; by rewrite orb_true_r in Hb).
  all: try (apply Hframe; [exact Hb|simpl; sock_step|simpl; try done; by destruct e|done|try done; by intros _; apply Hpre]).
  all: try (apply Hnone; [sock_step|done|done]).
  - apply cinv_map, Hnone; [sock_step|done|done].
  - unfold drop_own. assert (Hl : cinv (set_sock m i (at_pc {| s_key := k; s_pc := HLeaving; s_done := d; s_cut := c;
      s_opened := o; s_early := e |} HFinishing)))
      by (apply Hnone; [sock_step|done|done]). by case_decide; [apply cinv_map|].
Qed.
(** Frames for no stream, and the steps of the read loop. *)

Lemma cinv_put_none m f : f_for f = None → cinv m → cinv (put_frame m true f).
Proof.
  intros Hf [F C R].
  assert (Hw : ∀ i, enclave_has i (m_wire m ++ [f]) = enclave_has i (m_wire m)).
  { intros i. rewrite enclave_has_snoc. unfold view_step. by rewrite Hf, decide_False. }
  split; simpl.
  - intros i Hi. rewrite Hw. by apply F.
  - intros i s Hi. rewrite Hw. by apply C.
  - unfold reader_ok in *. simpl. destruct (m_reader m) as [| |j|j| |j []|]; try done; by rewrite Hw.
Qed.

Lemma cinv_reader m r : cinv m → reader_ok (set_reader m r) → cinv (set_reader m r).
Proof. intros [F C R] Hr. by split. Qed.

Lemma cinv_touch m i : cinv m → cinv (touch_sock m i).
Proof.
  intros Hc. unfold touch_sock. destruct (m_socks m !! i) as [s|] eqn:Hi; [|done].
  pose proof (ci_sock m Hc i s Hi) as Hs. apply (cinv_set m i s (touch s) false 0 Hc Hi); [|simpl; by destruct (s_early s)|done|done].
  destruct s as [k pc d c o e]. unfold touch. simpl. destruct pc; sock_step.
Qed.

Lemma touched m i s : m_socks m !! i = Some s →
  ∃ s', m_socks (touch_sock m i) !! i = Some s' ∧ (s_early s' = false → s_opened s' = true).
Proof.
  intros E. unfold touch_sock. rewrite E. simpl. rewrite lookup_insert_eq. exists (touch s). split; [done|].
  simpl. by destruct (s_early s), (s_opened s).
Qed.

Lemma cinv_finish m i c :
  cinv m → (∀ s, m_socks m !! i = Some s → sock_ok (enclave_has i (m_wire m)) (finished s c) = true) → cinv (finish_sock m i c).
Proof.
  intros Hc Hf. unfold finish_sock. destruct (m_socks m !! i) as [s|] eqn:Hi; [|done].
  by apply (cinv_set m i s (finished s c) false 0 Hc Hi); [apply Hf|..].
Qed.

(** An excused finish. *)
Lemma cinv_finish_excused m i c : excused (Some c) = true → cinv m → cinv (finish_sock m i c).
Proof.
  intros He Hc. apply cinv_finish; [done|]. intros s Hi. pose proof (ci_sock m Hc i s Hi) as Hs.
  destruct s as [k pc d ct o e]. unfold finished. simpl. destruct c; try done; destruct pc; sock_step.
Qed.

(** The close frame of the read loop for a stream. *)
Lemma cinv_reader_close m i s :
  cinv m → m_socks m !! i = Some s → cinv (put_frame m true (sock_frame i s muxTypeClose)) ∧
  enclave_has i (m_wire (put_frame m true (sock_frame i s muxTypeClose))) = false.
Proof.
  intros Hc Hi. pose proof (ci_sock m Hc i s Hi) as Hs. split.
  - assert (Hsame : put_frame m true (sock_frame i s muxTypeClose) = put_frame (set_sock m i s) true (sock_frame i s muxTypeClose)).
    { unfold put_frame, set_sock. simpl. by rewrite insert_id. }
    rewrite Hsame. apply (cinv_set m i s s true muxTypeClose Hc Hi); [|done..].
    rewrite view_frame. destruct s as [k pc d c o e]. simpl. destruct pc; sock_step.
  - simpl. rewrite enclave_has_snoc. by rewrite view_frame.
Qed.

Lemma cinv_drop m i s : cinv m → cinv (drop_own m i s).
Proof. intros Hc. unfold drop_own. case_decide; [by apply cinv_map|done]. Qed.

Lemma drop_own_same m i s :
  m_socks (drop_own m i s) = m_socks m ∧ m_wire (drop_own m i s) = m_wire m.
Proof. unfold drop_own. by case_decide. Qed.

Lemma cinv_read m a m' : minv m → cinv m → read m a = Some m' → m_broken m' = false → cinv m'.
Proof.
  intros Hm Hc Hr Hb. pose proof (ci_reader m Hc) as Hk. unfold read in Hr. unfold reader_ok in Hk.
  destruct a as [typ k ok|room ok|ok|]; destruct (m_reader m) as [|k'|j|j|j|j c|] eqn:Er; simplify_eq; try done.
  - repeat (case_match; simplify_eq; try done).
    + destruct ok; [by apply cinv_put_none|]. simpl in Hb. by rewrite orb_true_r in Hb.
    + apply cinv_reader; [by apply cinv_touch|]. destruct (mi_map m Hm k n) as (s & Hs & _); [done|]. by eapply touched.
    + by apply cinv_reader.
    + apply cinv_reader; [by apply cinv_touch|done].
    + by apply cinv_reader.
  - destruct room; simplify_eq; [by apply cinv_reader|]. destruct (m_socks m !! j) as [s|] eqn:Hi; [|done].
    destruct (ok && _); simplify_eq. destruct ok; [|simpl in Hb; by rewrite orb_true_r in Hb].
    destruct (cinv_reader_close m j s Hc Hi) as [Hc' Hh].
    apply (cinv_reader _ (ROverflow j)) in Hc'; [done|]. destruct Hk as (t & [= <-] & Ht).
    exists s. split; [done|]. intros He. split; [by apply Ht|exact Hh].
  - destruct (ok && _); simplify_eq. destruct ok; [|simpl in Hb; by rewrite orb_true_r in Hb].
    apply (cinv_put_none (set_reader m RIdle)); [done|]. by apply cinv_reader.
  - destruct (m_socks m !! j) as [s|] eqn:Hi; [|done]. simplify_eq. destruct (drop_own_same m j s) as [E1 E2].
    apply cinv_reader; [by apply cinv_drop|]. unfold reader_ok. simpl. rewrite E1, E2, Hi. exact Hk.
  - destruct (m_socks m !! j) as [s|] eqn:Hi; [|done]. simplify_eq. apply cinv_reader; [by apply cinv_drop|done].
  - apply cinv_reader; [|done]. destruct c; try done; [by apply cinv_finish_excused|].
    apply cinv_finish; [done|]. intros s Hi. pose proof (ci_sock m Hc j s Hi) as Hs. destruct Hk as (t & Ht & Hk).
    rewrite Hi in Ht. injection Ht as <-. revert Hs Hk. generalize (enclave_has j (m_wire m)). intros has.
    destruct s as [k pc d ct o e]. unfold finished. simpl.
    destruct e; [intros Hs _; destruct pc; sock_step|]. intros Hs [-> ->]; [done|]. destruct pc; sock_step.
  - by apply cinv_reader.
Qed.

Lemma cinv_kill m m' : cinv m → kill_step m = Some m' → cinv m'.
Proof.
  intros Hc Hk. assert (Hset : ∀ m k, cinv m → cinv (set_kill m k)) by (intros m0 k [F C R]; by split).
  unfold kill_step in Hk. destruct (m_kill m) as [| | |[|i l]|]; simplify_eq; apply Hset; try done; [by apply cinv_map|].
  by apply cinv_finish_excused.
Qed.

Lemma cinv_exec m e m' : minv m → cinv m → exec m e = Some m' → m_broken m' = false → cinv m'.
Proof.
  intros Hm Hc He Hb. destruct e as [i k|i a|a|ok|]; simpl in He.
  - destruct (m_socks m !! i) eqn:E; [done|]. injection He as <-. destruct Hc as [F C R]. split; simpl.
    + intros j [Hj _]%lookup_insert_None. by apply F.
    + intros j t [[<- <-]|[_ Hj]]%lookup_insert_Some; [|by apply C]. by rewrite F.
    + unfold reader_ok in *. simpl. destruct (m_reader m) as [| |j|j| |j []|]; try done;
        destruct R as (t & Ht & HR); exists t; (rewrite lookup_insert_ne by congruence); done.
  - destruct (m_socks m !! i) as [s|] eqn:E; [|done]. by eapply cinv_act.
  - by eapply cinv_read.
  - destruct (_ || _); simplify_eq. destruct ok; [by apply cinv_put_none|]. simpl in Hb. by rewrite orb_true_r in Hb.
  - by eapply cinv_kill.
Qed.

Lemma broken_stays m e m' : exec m e = Some m' → m_broken m = true → m_broken m' = true.
Proof.
  unfold exec, act, read, kill_step, drop_own, finish_sock, touch_sock. intros He Hb.
  repeat (case_match; simplify_eq; try done); simpl; by rewrite Hb.
Qed.

Lemma cinv_run `{!GoRangeLaws} evs m m' : minv m → cinv m → run m evs = Some m' → m_broken m' = false → cinv m'.
Proof.
  revert m. induction evs as [|e evs IH]; simpl; intros m Hi Hm Hr Hb; [by simplify_eq|].
  destruct (exec m e) as [m1|] eqn:E; [|done]. apply (IH m1); [by eapply minv_exec| |done|done].
  eapply cinv_exec; [done..|].
  destruct (m_broken m1) eqn:E1; [|done]. clear IH Hm E. revert m1 E1 Hr. induction evs as [|e' evs IH]; simpl; intros m1 E1 Hr; [congruence|].
  destruct (exec m1 e') as [m2|] eqn:E2; [|done]. eapply IH; [|done]. by eapply broken_stays.
Qed.

(** The enclave is told of every end but one: on a connection whose writes succeed, when the
    handler of a socket is gone and the enclave was left with its stream open, then the
    enclave had closed the stream itself, or the connection was killed, or the
    stream was finished by its pump when the browser could not be written to.  (This
    is for streams that neither the enclave nor a quarantine touched before their
    open frame was out.) *)
Theorem stream_end_announced `{!GoRangeLaws} evs m i s :
  run mux_new evs = Some m → m_broken m = false → m_socks m !! i = Some s → s_pc s = HGone → s_early s = false →
  enclave_has i (m_wire m) = true →
  s_done s = Some ByEnclave ∨ s_done s = Some ByKill ∨ s_done s = Some ByPump.
Proof.
  intros Hr Hb Hi Hp He Hh. pose proof (cinv_run evs _ _ minv_new cinv_new Hr Hb) as Hc.
  pose proof (ci_sock m Hc i s Hi) as Hs. rewrite Hh in Hs. destruct s as [k pc d c o e]. simpl in *. subst.
  destruct o, c, d as [[]|]; try discriminate Hs; auto.
Qed.

End system.

(** * Concrete executions *)

Section executions.
#[local] Existing Instances map_range map_range_laws.

Definition ex_key : muxKey := ("sess"%string, 7).
Definition opens (i : nat) : list event :=
  [ESocket i ex_key; EAct i ARegister; EAct i ACheckDead; EAct i (AOpen true)].
Definition leaves (i : nat) : list event := [EAct i AUnregister; EAct i AFinish].
Definition ex_mux (evs : list event) : mux := match run mux_new evs with Some m => m | None => mux_new end.

(** A browser is slow, the read loop drops its stream and another socket takes the
    key; the first handler leaves. *)
Definition ex_reuse : list event :=
  opens 1 ++ [ERead (RFrame muxTypeData ex_key true); ERead (RRoom false true); ERead (RStep true); ERead (RStep true);
              EAct 1 AReadErr; EAct 1 ACheckDone] ++ opens 2 ++ leaves 1.

Lemma live_stream_routed_witness :
  let m := ex_mux ex_reuse in
  m_streams m !! ex_key = Some 2%nat ∧
  ∃ m', exec m (ERead (RFrame muxTypeData ex_key true)) = Some m' ∧ m_reader m' = RFound 2.
Proof.
  intros m. destruct (live_stream_routed ex_reuse m 2
    {| s_key := ex_key; s_pc := HPump; s_done := None; s_cut := CutNone; s_opened := true; s_early := false |})
    as [[c Hc]|[Hin Hr]].
  - vm_compute. reflexivity.
  - vm_compute. reflexivity.
  - vm_compute. reflexivity.
  - vm_compute. reflexivity.
  - vm_compute. reflexivity.
  - vm_compute in Hc. discriminate Hc.
  - split; [exact Hin|]. apply Hr. vm_compute. reflexivity.
Defined.

(** A connection dies under one socket while another is about to register. *)
Definition ex_death : list event :=
  opens 1 ++ [ESocket 2 ("late"%string, 1); EKill; EKill; EKill; EAct 2 ARegister; EAct 2 ACheckDead; EKill; EKill].

Lemma kill_reaches_sockets_witness :
  let m := ex_mux ex_death in ∃ s, m_socks m !! 1%nat = Some s ∧ s_pc s = HPump ∧ s_done s ≠ None.
Proof.
  intros m. eexists. split; [vm_compute; reflexivity|]. split; [reflexivity|].
  destruct (kill_reaches_sockets ex_death m 1
    {| s_key := ex_key; s_pc := HPump; s_done := Some ByKill; s_cut := CutNone; s_opened := true; s_early := false |})
    as [Hd|[c Hc]].
  - vm_compute. reflexivity.
  - vm_compute. reflexivity.
  - vm_compute. reflexivity.
  - vm_compute. reflexivity.
  - vm_compute. reflexivity.
  - exact Hd.
  - vm_compute in Hc. discriminate Hc.
Defined.

(** The pump fails to write to the browser. *)
Definition ex_pump : list event := opens 1 ++ [EAct 1 APumpFails; EAct 1 AReadErr; EAct 1 ACheckDone] ++ leaves 1.

Lemma stream_end_announced_witness :
  let m := ex_mux ex_pump in ∃ s, m_socks m !! 1%nat = Some s ∧ s_done s = Some ByPump ∧ enclave_has 1 (m_wire m) = true.
Proof.
  intros m. exists {| s_key := ex_key; s_pc := HGone; s_done := Some ByPump; s_cut := CutNone; s_opened := true; s_early := false |}.
  split; [vm_compute; reflexivity|]. split; [|vm_compute; reflexivity].
  destruct (stream_end_announced ex_pump m 1
    {| s_key := ex_key; s_pc := HGone; s_done := Some ByPump; s_cut := CutNone; s_opened := true; s_early := false |})
    as [Hd|[Hd|Hd]].
  - vm_compute. reflexivity.
  - vm_compute. reflexivity.
  - vm_compute. reflexivity.
  - reflexivity.
  - reflexivity.
  - vm_compute. reflexivity.
  - discriminate Hd.
  - discriminate Hd.
  - exact Hd.
Defined.

(** The exception is real: after a failed write to the browser the handler takes the
    closed done channel for a close of the enclave and leaves without a close frame;
    the connection is alive and the enclave keeps the stream. *)
Theorem pump_failure_unannounced :
  ∃ evs m s, run mux_new evs = Some m ∧ m_socks m !! 1%nat = Some s ∧ s_pc s = HGone ∧ s_early s = false ∧
    m_broken m = false ∧ is_dead m = false ∧ map f_typ (m_wire m) = [muxTypeOpen].
Proof. exists ex_pump. eexists _, _. split_and!; vm_compute; reflexivity. Qed.

(** A quarantine that cuts a stream between its last check and its open
    frame has its close frame overtake the open frame: the enclave ends up with a
    stream nobody closes. *)
Theorem cut_overtakes_open :
  ∃ evs m s, run mux_new evs = Some m ∧ m_socks m !! 1%nat = Some s ∧ s_pc s = HGone ∧ m_broken m = false ∧
    is_dead m = false ∧ map f_typ (m_wire m) = [muxTypeClose; muxTypeOpen] ∧ enclave_has 1 (m_wire m) = true.
Proof.
  exists ([ESocket 1 ex_key; EAct 1 ARegister; EAct 1 ACheckDead; EAct 1 (ACutWrite true); EAct 1 ACutFinish; EAct 1 (AOpen true);
           EAct 1 AReadErr; EAct 1 ACheckDone] ++ leaves 1).
  eexists _, _. split_and!; vm_compute; reflexivity.
Qed.

(** A handler that saw its stream still open may write its close frame
    after the read loop dropped the stream and another socket opened one under the
    same key: the frame then closes the stream of the other. *)
Theorem stale_close_hits_successor :
  ∃ evs m, run mux_new evs = Some m ∧ m_streams m !! ex_key = Some 2%nat ∧
    map (fun f => (f_for f, f_typ f, f_key f)) (m_wire m) =
      [(Some 1%nat, muxTypeOpen, ex_key); (Some 1%nat, muxTypeClose, ex_key);
       (Some 2%nat, muxTypeOpen, ex_key); (Some 1%nat, muxTypeClose, ex_key)].
Proof.
  exists (opens 1 ++ [EAct 1 AReadErr; EAct 1 ACheckDone; ERead (RFrame muxTypeData ex_key true); ERead (RRoom false true);
                      ERead (RStep true); ERead (RStep true)] ++ opens 2 ++ [EAct 1 (AClose true)]).
  eexists. split_and!; vm_compute; reflexivity.
Qed.

End executions.
