(* ===== verification/SealedSystem.v ===== *)
(** internal/terminate/wsmux.go: the handlers of many sealed WebSockets, as
    translated in WsServe.v, running on one shared mux connection.

    MuxSystem.v describes a handler by where it stands (handler_pc).  Here each
    handler is the program serveSealedWSMux itself, cut at the points where other
    goroutines can act (writeFrame is a look at the dead channel and then one frame
    under wmu, unregister is the map under smu and then the once of finish), and every
    operation on shared state acts on the shared connection.  The programs refine the
    control states: every execution of the programs is one of MuxSystem, so its theorems
    hold for the code as translated. *)
From Stdlib Require Import Strings.String.
From S2P Require Import Prelude GoBytes GoStrings GoRuntime Effects RouteTable Tracker Http Quarantine Proxy.
From S2P Require Import Cors WsFrame WsMux Policy ProxyCache Forward Terminate WsServe MuxSystem.
Local Open Scope Z_scope.

(** * Fine-grained operations *)

Inductive fop : Type :=
| FOp (o : WsServe.op)                                   (* anything but the two below *)
| FIsDead (typ : Z)                                      (* writeFrame: isDead *)
| FPut (typ : Z) (sid : string) (stream : Z) (payload : bytes)  (* writeFrame: the frame, under wmu *)
| FDrop                                                  (* unregister: the map, under smu *)
| FFin.                                                  (* unregister: finish *)

Definition fans (o : fop) : Type :=
  match o with
  | FOp o => WsServe.ans o
  | FIsDead _ | FPut _ _ _ _ => bool
  | FDrop | FFin => unit
  end.

Abbreviation fcall := (@pdo fop fans).

Section impl.
Local Open Scope prog_scope.

Definition writeFrame_prog (typ : Z) (sid : string) (stream : Z) (payload : bytes) : prog fans bool :=
  do dead <- fcall (FIsDead typ);
  if dead then PRet false else fcall (FPut typ sid stream payload).

(** unregister(st, true) of the handler's own stream. *)
Definition unregister_prog : prog fans unit :=
  fcall FDrop ;; fcall FFin.

Definition impl (o : WsServe.op) : prog fans (WsServe.ans o) :=
  match o with
  | OWriteFrame typ sid stream payload => writeFrame_prog typ sid stream payload
  | OUnregister => unregister_prog
  | o => fcall (FOp o)
  end.
End impl.

(** * State *)

(** A handler: what it has still to do, and what it did. *)
Record thread := {
  t_key : muxKey;
  t_rest : prog fans unit;
  t_trace : list (Effects.event fans);
}.

(** The connection, and the handlers by socket.  A socket of [c_mux] has its
    [s_pc] unused (always [HNew]): where a handler stands is its program. *)
Record sys := { c_mux : mux; c_threads : gmap nat thread }.

Definition sys_new : sys := {| c_mux := mux_new; c_threads := ∅ |}.

(** Track was called: closeQuarantined is known to the tracker. *)
Definition is_track (e : Effects.event fans) : bool := match e with existT (FOp (OTrack _ _)) _ => true | _ => false end.
(** The goroutine towards the browser was started. *)
Definition is_pump (e : Effects.event fans) : bool := match e with existT (FOp OPump) _ => true | _ => false end.
Definition t_tracked (t : thread) : bool := existsb is_track (t_trace t).
Definition t_pumped (t : thread) : bool := existsb is_pump (t_trace t).

(** * Steps *)

Definition new_sock (k : muxKey) : sock :=
  {| s_key := k; s_pc := HNew; s_done := None; s_cut := CutNone; s_opened := false; s_early := false |}.

(** History: an open frame went out. *)
Definition mark_open (m : mux) (i : nat) : mux :=
  match m_socks m !! i with Some s => set_sock m i (at_pc (opened s) HNew) | None => m end.

(** What an operation of handler [i] does to the connection; [None]: the answer is not
    one the connection can give now. *)
Definition effect (m : mux) (i : nat) (k : muxKey) (e : Effects.event fans) : option mux :=
  match e with
  | existT (FOp (OGet _)) ok => if ok : bool then
      match m_socks m !! i with Some _ => None | None => Some (set_sock m i (new_sock k)) end
      else Some m
  | existT (FOp (ORegister sid stream)) ok =>
      let key : muxKey := (sid, stream) in
      match m_streams m !! key, ok : bool with
      | None, true => Some (set_map m (<[key := i]> (m_streams m)))
      | Some _, false => Some m
      | _, _ => None
      end
  | existT (FOp (OFinish _ _)) _ => Some (finish_sock m i ByQuarantine)
  | existT (FOp OIsDone) done =>
      match m_socks m !! i with
      | Some s => if Bool.eqb done (bool_decide (is_Some (s_done s))) then Some m else None
      | None => None
      end
  | existT (FIsDead typ) dead =>
      if Bool.eqb dead (is_dead m) then
        Some (if (dead : bool) && negb (typ =? muxTypeOpen)
              then put_frame m false {| f_for := Some i; f_typ := typ; f_key := k |} else m)
      else None
  | existT (FPut typ sid stream _) ok =>
      if (ok : bool) && negb (conn_open m) then None
      else Some (put_frame (if ok && (typ =? muxTypeOpen) then mark_open m i else m) ok
                  {| f_for := Some i; f_typ := typ; f_key := (sid, stream) |})
  | existT FDrop _ => match m_socks m !! i with Some s => Some (drop_own m i s) | None => None end
  | existT FFin _ => Some (finish_sock m i ByHandler)
  | _ => Some m
  end.

(** The answers a step of a handler may get; each operation takes the one of its type. *)
Record answers := { x_bool : bool; x_open : option (bool * bytes); x_route : option Route }.

Definition answer_to (o : fop) (x : answers) : fans o :=
  match o with
  | FOp o =>
      match o return WsServe.ans o with
      | OGet _ | OAccept | ORegister _ _ | OWriteFrame _ _ _ _ | OIsDone => x_bool x
      | OReadOpen => x_open x
      | OLookup _ => x_route x
      | OConnWrite _ | OStreams _ | OBrowserClose _ _ | OTrack _ _ | ORefuse _ | OFinish _ _ | OPump
      | ORelease | OUnregister | OCloseNow => tt
      end
  | FIsDead _ | FPut _ _ _ _ => x_bool x
  | FDrop | FFin => tt
  end.

(** No answer is left out. *)
Lemma answer_any (o : fop) (a : fans o) : ∃ x, answer_to o x = a.
Proof.
  destruct o as [[]| | | |]; simpl in a; try destruct a;
    first [by exists {| x_bool := a; x_open := None; x_route := None |} | idtac].
  all: first [by exists {| x_bool := true; x_open := None; x_route := None |}
             |by exists {| x_bool := false; x_open := None; x_route := None |}|idtac].
  all: first [by eexists {| x_bool := true; x_open := Some _; x_route := None |}
             |by eexists {| x_bool := true; x_open := None; x_route := Some _ |}|idtac].
Qed.

Inductive cevent : Type :=
| CSpawn (i : nat) (req : Request) (route : Route) (p : sealedWSParams) (reads : list browser_read)
| CThread (i : nat) (x : answers)      (* the next operation of handler [i] *)
| CPumpFails (i : nat)                 (* its goroutine towards the browser: a write failed *)
| CCutWrite (i : nat) (ok : bool) | CCutFinish (i : nat)  (* closeQuarantined *)
| CRead (a : reader_action)
| CPing (ok : bool)
| CKill.

Section steps.
Context `{GoUnicode, GoRange}.
Variable h : handler_conf.

Definition spawn_handler (req : Request) (route : Route) (p : sealedWSParams) (reads : list browser_read) : thread := {|
  t_key := (sessionID p, streamID p);
  t_rest := interp impl (serveSealedWSMux h req route p reads);
  t_trace := [];
|}.

(** The close frame of closeQuarantined. *)
Definition cut_write (m : mux) (i : nat) (s : sock) (ok : bool) : option mux :=
  match s_cut s with
  | CutNone =>
      if ok && negb (conn_open m) then None
      else Some (put_frame (set_sock m i (at_cut (touch s) CutWritten)) ok (sock_frame i s muxTypeClose))
  | _ => None
  end.

Definition on_mux (c : sys) (r : option mux) : option sys :=
  match r with Some m => Some {| c_mux := m; c_threads := c_threads c |} | None => None end.

(** A step of another goroutine on behalf of handler [i], once it did what [ready] says. *)
Definition on_sock (c : sys) (i : nat) (ready : thread → bool) (f : sock → option mux) : option sys :=
  match c_threads c !! i, m_socks (c_mux c) !! i with
  | Some t, Some s => if ready t then on_mux c (f s) else None
  | _, _ => None
  end.

Definition cstep (c : sys) (e : cevent) : option sys :=
  match e with
  | CSpawn i req route p reads =>
      match c_threads c !! i with
      | Some _ => None
      | None => Some {| c_mux := c_mux c; c_threads := <[i := spawn_handler req route p reads]> (c_threads c) |}
      end
  | CThread i x =>
      match c_threads c !! i with
      | Some {| t_key := k; t_rest := PDo o rest; t_trace := tr |} =>
          let e := ev o (answer_to o x) in
          match effect (c_mux c) i k e with
          | Some m => Some {| c_mux := m;
                              c_threads := <[i := {| t_key := k; t_rest := rest (answer_to o x); t_trace := tr ++ [e] |}]> (c_threads c) |}
          | None => None
          end
      | _ => None
      end
  | CPumpFails i => on_sock c i t_pumped (fun s => act (c_mux c) i s APumpFails)
  | CCutWrite i ok => on_sock c i t_tracked (fun s => cut_write (c_mux c) i s ok)
  | CCutFinish i => on_sock c i t_tracked (fun s => act (c_mux c) i s ACutFinish)
  | CRead a => on_mux c (read (c_mux c) a)
  | CPing ok => on_mux c (exec (c_mux c) (EPing ok))
  | CKill => on_mux c (kill_step (c_mux c))
  end.

Fixpoint crun (c : sys) (evs : list cevent) : option sys :=
  match evs with
  | [] => Some c
  | e :: evs => match cstep c e with Some c' => crun c' evs | None => None end
  end.
End steps.

(** * Where a handler stands

    [acts pc e]: the control state of MuxSystem.v after the operation [e], and the
    steps of MuxSystem.v it stands for; [None] for an operation the control states have
    no place for. *)
Definition acts (k : muxKey) (pc : handler_pc) (e : Effects.event fans) : option (list action * handler_pc) :=
  match e, pc with
  | existT (FOp (ORegister sid stream)) ok, HNew =>
      if decide ((sid, stream) = k) then Some ([ARegister], if ok : bool then HRegistered else HGone) else None
  | existT (FOp (OTrack _ _)) _, HRegistered => Some ([], HRegistered)
  | existT (FOp (OFinish _ _)) _, HRegistered => Some ([ARefuse], HLeaving)
  | existT (FIsDead typ) dead, HRegistered =>
      if typ =? muxTypeOpen then Some ([ACheckDead], if dead : bool then HLeaving else HOpening) else None
  | existT (FIsDead typ) dead, HPump =>
      if negb (dead : bool) then Some ([], HPump) else
      if typ =? muxTypeData then Some ([AData false], HLeaving) else
      if typ =? muxTypeClose then Some ([AText false], HLeaving) else None
  | existT (FIsDead typ) dead, HClosing =>
      if negb (typ =? muxTypeClose) then None else
      Some (if dead : bool then ([AClose false], HLeaving) else ([], HClosing))
  | existT (FPut typ sid stream _) ok, pc =>
      if negb (bool_decide ((sid, stream) = k)) then None else
      match pc with
      | HOpening => if typ =? muxTypeOpen then Some ([AOpen ok], if ok : bool then HPump else HLeaving) else None
      | HPump =>
          if typ =? muxTypeData then Some ([AData ok], if ok : bool then HPump else HLeaving) else
          if typ =? muxTypeClose then Some ([AText ok], HLeaving) else None
      | HClosing => if typ =? muxTypeClose then Some ([AClose ok], HLeaving) else None
      | _ => None
      end
  | existT (FOp OPump) _, HPump => Some ([], HPump)
  | existT (FOp OIsDone) done, HPump => Some ([AReadErr; ACheckDone], if done : bool then HLeaving else HClosing)
  | existT FDrop _, HLeaving => Some ([AUnregister], HFinishing)
  | existT FFin _, HFinishing => Some ([AFinish], HGone)
  | existT (FOp (OConnWrite _ | OStreams _ | OAccept | OReadOpen | OBrowserClose _ _ | OLookup _ | ORefuse _ | ORelease | OCloseNow)) _, pc =>
      Some ([], pc)
  | _, _ => None
  end.

(** The handler before and after it has the connection. *)
Definition mon (k : muxKey) (pc : option handler_pc) (e : Effects.event fans) : option (option handler_pc) :=
  match pc, e with
  | None, existT (FOp (OGet _)) ok => Some (if ok : bool then Some HNew else None)
  | None, existT (FOp (OConnWrite _ | OStreams _)) _ => Some None
  | Some pc, e => match acts k pc e with Some (_, pc') => Some (Some pc') | None => None end
  | _, _ => None
  end.

(** The programs keep to the control states. *)

Ltac swalk :=
  repeat (cbn [interp impl writeFrame_prog unregister_prog pbind pdo safe negb]; intros;
    repeat match goal with
    | a : fans _ |- _ => progress cbn [fans WsServe.ans] in a
    | a : unit |- _ => destruct a
    | a : bool |- _ => destruct a
    end;
    try match goal with |- ∃ _, _ ∧ _ => eexists; split; [first [reflexivity | progress (cbn; rewrite ?decide_True, ?bool_decide_true by done); reflexivity]|] end).

Section safety.
Context `{GoUnicode, GoRange}.
Variable h : handler_conf.
Variable p : sealedWSParams.
Abbreviation key := (sessionID p, streamID p).

Lemma pump_safe reads :
  safe (mon key) (interp impl (pump p reads)) (Some HPump) (fun _ pc => pc = Some HLeaving).
Proof.
  induction reads as [|[[] data|status] reads IH]; cbn [pump]; swalk; try done.
Qed.

Lemma tracked_stream_safe route host uri env reads :
  safe (mon key) (interp impl (tracked_stream h route p host uri env reads)) (Some HRegistered)
    (fun _ pc => pc = Some HLeaving).
Proof.
  unfold tracked_stream. apply safe_interp_bind. unfold quarantined.
  assert (Hrest : ∀ q : bool, safe (mon key) (interp impl (
      if q then
        (call (ORefuse (Refused (SNI route) ModeTerminate)) ;;
         call (OFinish StatusTryAgainLater "enclave quarantined") ;; call (OStreams "quarantined"))%prog
      else
      (do ok <- call (OWriteFrame muxTypeOpen (sessionID p) (streamID p) (encodeMuxOpen host uri env));
      if negb ok then
        call (OBrowserClose StatusBadGateway "enclave mux unavailable") ;; call (OStreams "open_write_error")
      else call (OStreams "opened") ;; call OPump ;; pump p reads)%prog)) (Some HRegistered) (fun _ pc => pc = Some HLeaving)).
  { intros [|]; swalk; try done. apply pump_safe. }
  destruct (Quarantined route); [apply (Hrest true)|]. destruct (negb (h_lookup h)); [apply (Hrest false)|].
  swalk. apply Hrest.
Qed.

(** A handler ends before it has a connection, before it registers, or gone. *)
Definition ended (pc : option handler_pc) : Prop := pc = None ∨ pc = Some HNew ∨ pc = Some HGone.

Lemma accepted_safe req route host reads :
  safe (mon key) (interp impl (accepted h req route p host reads)) (Some HNew)
    (fun _ pc => pc = Some HNew ∨ pc = Some HGone).
Proof.
  unfold accepted. cbn [interp impl pbind pdo safe]. intros first. eexists. split; [reflexivity|].
  destruct first as [[[] env]|]; [|swalk; auto..].
  cbn [interp impl pbind pdo safe]. intros ok. eexists. split; [cbn; rewrite decide_True by done; reflexivity|].
  destruct ok; [|swalk; auto]. cbn [negb interp impl pbind pdo safe]. intros ?. eexists. split; [reflexivity|].
  apply safe_interp_bind. eapply safe_mono; [|apply tracked_stream_safe]. intros _ ? ->. swalk. auto.
Qed.

Lemma serveSealedWSMux_safe req route reads :
  safe (mon key) (interp impl (serveSealedWSMux h req route p reads)) None (fun _ pc => ended pc).
Proof.
  unfold serveSealedWSMux. cbn [interp impl pbind pdo safe]. intros ok. eexists. split; [reflexivity|].
  unfold ended. destruct ok; cbn [negb]; [|swalk; auto]. destruct (_ && _); [swalk; auto|].
  cbn [negb interp impl pbind pdo safe]. intros ok. eexists. split; [reflexivity|]. destruct ok; cbn [negb]; [|swalk; auto].
  apply safe_interp_bind. eapply safe_mono; [|apply accepted_safe]. intros _ ? [-> | ->]; swalk; auto.
Qed.

End safety.

(** * Forgetting the control states *)

Definition forget (m : mux) : mux := {|
  m_streams := m_streams m; m_socks := (fun s => at_pc s HNew) <$> m_socks m; m_reader := m_reader m; m_kill := m_kill m;
  m_wire := m_wire m; m_broken := m_broken m |}.

Lemma forget_sock m i : m_socks (forget m) !! i = (fun s => at_pc s HNew) <$> m_socks m !! i.
Proof. apply lookup_fmap. Qed.

Lemma forget_set m i s : forget (set_sock m i s) = set_sock (forget m) i (at_pc s HNew).
Proof. unfold forget, set_sock. simpl. by rewrite fmap_insert. Qed.

Lemma forget_touch m i : forget (touch_sock m i) = touch_sock (forget m) i.
Proof. unfold touch_sock. rewrite forget_sock. destruct (m_socks m !! i) as [s|]; [|done]. apply forget_set. Qed.

Lemma forget_finish m i c : forget (finish_sock m i c) = finish_sock (forget m) i c.
Proof. unfold finish_sock. rewrite forget_sock. destruct (m_socks m !! i) as [s|]; [|done]. apply forget_set. Qed.

Lemma forget_drop m i s pc : forget (drop_own m i s) = drop_own (forget m) i (at_pc s pc).
Proof. unfold drop_own. simpl. by case_decide. Qed.

(** The read loop and kill never look at a control state. *)
Lemma forget_read m a : read (forget m) a = forget <$> read m a.
Proof.
  unfold read. change (m_reader (forget m)) with (m_reader m). change (m_streams (forget m)) with (m_streams m).
  change (conn_open (forget m)) with (conn_open m).
  destruct a as [typ k ok|room ok|ok|]; destruct (m_reader m) as [|k'|j|j|j|j c|]; try done; rewrite ?forget_sock;
    repeat case_match; simplify_eq/=; rewrite <- ?forget_touch, <- ?forget_finish, <- ?forget_drop; try done.
Qed.

Section forget_kill.
Context `{GoRange}.

Lemma forget_kill_step m : kill_step (forget m) = forget <$> kill_step m.
Proof.
  unfold kill_step. change (m_kill (forget m)) with (m_kill m). destruct (m_kill m) as [| | |[|i l]|]; try done.
  simpl. by rewrite <- forget_finish.
Qed.

Lemma forget_ping m ok : exec (forget m) (EPing ok) = forget <$> exec m (EPing ok).
Proof. simpl. unfold is_dead, conn_open. simpl. by destruct (_ || _). Qed.
End forget_kill.

(** A socket after others acted on it. *)
Record later (s s' : sock) : Prop := {
  la_key : s_key s' = s_key s;
  la_pc : s_pc s' = s_pc s;
  la_opened : s_opened s' = s_opened s;
  la_done : s_done s ≠ None → s_done s' ≠ None;
}.

#[global] Instance later_refl : Reflexive later.
Proof. by intros s. Qed.

Definition socks_later (m m' : mux) : Prop := ∀ i, option_Forall2 later (m_socks m !! i) (m_socks m' !! i).

Lemma socks_later_refl m : socks_later m m.
Proof. intros i. reflexivity. Qed.

(** Only the sockets matter. *)
Lemma socks_later_same m m1 m2 : m_socks m1 = m_socks m2 → socks_later m m1 → socks_later m m2.
Proof. intros E Hl i. rewrite <- E. apply Hl. Qed.

Lemma socks_later_set m i s s' : m_socks m !! i = Some s → later s s' → socks_later m (set_sock m i s').
Proof.
  intros Hi Hl j. simpl. destruct (decide (j = i)) as [->|Hne].
  - rewrite lookup_insert_eq, Hi. by constructor.
  - rewrite lookup_insert_ne by done. reflexivity.
Qed.

Lemma later_touch s : later s (touch s).
Proof. by split. Qed.
Lemma later_finished s c : later s (finished s c).
Proof. split; try done. simpl. by destruct (s_done s). Qed.
Lemma later_cut s c : later s (at_cut s c).
Proof. by split. Qed.

Lemma later_touch_sock m i : socks_later m (touch_sock m i).
Proof.
  unfold touch_sock. destruct (m_socks m !! i) as [s|] eqn:Hi; [|apply socks_later_refl].
  by apply (socks_later_set m i s), later_touch.
Qed.
Lemma later_finish_sock m i c : socks_later m (finish_sock m i c).
Proof.
  unfold finish_sock. destruct (m_socks m !! i) as [s|] eqn:Hi; [|apply socks_later_refl].
  by apply (socks_later_set m i s), later_finished.
Qed.
Lemma later_drop m i s : socks_later m (drop_own m i s).
Proof. unfold drop_own. case_decide; [|apply socks_later_refl]. by eapply socks_later_same, socks_later_refl. Qed.

Create HintDb later.
#[export] Hint Resolve socks_later_refl later_touch_sock later_finish_sock later_drop : later.
#[export] Hint Extern 1 (socks_later ?m (set_reader ?m' _)) => apply (socks_later_same m m'); [done|] : later.
#[export] Hint Extern 1 (socks_later ?m (set_map ?m' _)) => apply (socks_later_same m m'); [done|] : later.
#[export] Hint Extern 1 (socks_later ?m (set_kill ?m' _)) => apply (socks_later_same m m'); [done|] : later.
#[export] Hint Extern 1 (socks_later ?m (put_frame ?m' _ _)) => apply (socks_later_same m m'); [done|] : later.

Lemma read_later m a m' : read m a = Some m' → socks_later m m'.
Proof.
  unfold read. intros Hr. destruct a, (m_reader m); simplify_eq; repeat (case_match; simplify_eq; try done);
    eauto with later.
Qed.

Section simulation.
Context `{GoRange}.

Lemma kill_later m m' : kill_step m = Some m' → socks_later m m'.
Proof. unfold kill_step. intros Hk. destruct (m_kill m) as [| | |[|i l]|]; simplify_eq; eauto with later. Qed.

(** * The simulation *)

(** What a handler knows of its socket. *)
Record sock_rel (t : thread) (s : sock) : Prop := {
  sr_key : s_key s = t_key t;
  sr_tracked : t_tracked t = true → tracked s = true;
  sr_pumped : t_pumped t = true → s_opened s = true;
  sr_opened : pumping s = true → s_opened s = true;
}.

Definition thread_ok (os : option sock) (t : thread) : Prop :=
  safe (mon (t_key t)) (t_rest t) (s_pc <$> os) (fun _ pc => ended pc) ∧
  automaton (mon (t_key t)) None (t_trace t) = Some (s_pc <$> os) ∧
  match os with
  | None => t_tracked t = false ∧ t_pumped t = false
  | Some s => sock_rel t s
  end.

Record sim (c : sys) (m : mux) : Prop := {
  sim_mux : c_mux c = forget m;
  sim_thread : ∀ i t, c_threads c !! i = Some t → thread_ok (m_socks m !! i) t;
  sim_sock : ∀ i s, m_socks m !! i = Some s → is_Some (c_threads c !! i);
}.

Lemma thread_ok_later t os os' : option_Forall2 later os os' → thread_ok os t → thread_ok os' t.
Proof.
  intros [s s' Hl|] (Hs & Ha & Hr); [|by split]. destruct Hl as [L1 L2 L3 L4], Hr as [R1 R2 R3 R4].
  split_and!; simpl in *; rewrite ?L2; [done..|]. split; rewrite ?L1, ?L3; [done| |done|].
  - intros Ht%R2. revert Ht. unfold tracked. rewrite L2. destruct (s_pc s); try done.
    destruct (s_done s); [|done]. intros _. destruct (s_done s'); [done|]. by destruct L4.
  - unfold pumping. rewrite L2. apply R4.
Qed.

(** A step of the read loop, of kill, of a cut or of a pump. *)
Lemma sim_later c m cm m' :
  sim c m → cm = forget m' → socks_later m m' → sim {| c_mux := cm; c_threads := c_threads c |} m'.
Proof.
  intros [S1 S2 S3] -> Hl. split; simpl; [done| |].
  - intros i t Ht. eapply thread_ok_later; [apply Hl|by apply S2].
  - intros i s Hs. specialize (Hl i). rewrite Hs in Hl. inversion Hl as [s0 ? ? E|]; subst. by eapply S3.
Qed.

(** A step of handler [i] on its own socket. *)
Lemma sim_handler c m m' i t os :
  sim c m → m_socks m' !! i = os → (∀ j, j ≠ i → m_socks m' !! j = m_socks m !! j) → thread_ok os t →
  sim {| c_mux := forget m'; c_threads := <[i := t]> (c_threads c) |} m'.
Proof.
  intros [S1 S2 S3] <- Hj Ht. split; simpl; [done| |].
  - intros j u [[<- <-]|[Hne Hu]]%lookup_insert_Some; [done|]. rewrite Hj by done. by apply S2.
  - intros j s Hs. destruct (decide (j = i)) as [->|Hne]; [rewrite lookup_insert_eq; eauto|].
    rewrite lookup_insert_ne by done. rewrite Hj in Hs by done. by eapply S3.
Qed.

(** A step of the handler that changes nothing shared. *)
Lemma forget_at m i s s' :
  m_socks m !! i = Some s → at_pc s' HNew = at_pc s HNew → forget (set_sock m i s') = forget m.
Proof.
  intros Hi E. rewrite forget_set, E. unfold set_sock, forget. simpl. f_equal. apply insert_id. by rewrite lookup_fmap, Hi.
Qed.

Record stepped (m m' : mux) (i : nat) (s : sock) (pc : handler_pc) : Prop := {
  st_sock : ∃ s', m_socks m' !! i = Some s' ∧ s_pc s' = pc ∧ s_key s' = s_key s ∧
    (tracked s = true → tracked s' = true) ∧ (s_opened s = true → s_opened s' = true) ∧
    ((pumping s = true → s_opened s = true) → pumping s' = true → s_opened s' = true);
  st_others : ∀ j, j ≠ i → m_socks m' !! j = m_socks m !! j;
}.

Lemma stepped_silent m i s pc : m_socks m !! i = Some s → s_pc s = pc →
  ∃ m', run m (map (EAct i) []) = Some m' ∧ forget m' = forget m ∧ stepped m m' i s pc.
Proof. intros Hi <-. exists m. split_and!; [done..|]. split; [|done]. exists s. by split_and!. Qed.

Lemma stepped_one m i s a m' s' :
  m_socks m !! i = Some s → act m i s a = Some m' → m_socks m' = <[i := s']> (m_socks m) → s_key s' = s_key s →
  (tracked s = true → tracked s' = true) → (s_opened s = true → s_opened s' = true) →
  ((pumping s = true → s_opened s = true) → pumping s' = true → s_opened s' = true) →
  ∃ m'', run m (map (EAct i) [a]) = Some m'' ∧ forget m'' = forget m' ∧ stepped m m'' i s (s_pc s').
Proof.
  intros Hi Ha Hm Hk Ht Ho Hp. exists m'. simpl. rewrite Hi, Ha. split_and!; [done..|]. split.
  - exists s'. rewrite Hm, lookup_insert_eq. by split_and!.
  - intros j Hj. rewrite Hm. by apply lookup_insert_ne.
Qed.

(** A frame of the handler, written or failed. *)
Lemma forget_frame m i s s' ok f :
  m_socks m !! i = Some s → at_pc s' HNew = at_pc s HNew → forget (put_frame (set_sock m i s') ok f) = put_frame (forget m) ok f.
Proof.
  intros Hi E. change (forget (put_frame (set_sock m i s') ok f)) with (put_frame (forget (set_sock m i s')) ok f).
  by rewrite (forget_at m i s).
Qed.

Ltac sock_cases s := by destruct s as [? ? [] ? ? ?]; simpl in *; subst.

(** One action of the handler, to the socket [s']; the shared state is the last goal. *)
Ltac one s Epc s' :=
  match goal with Hi : m_socks ?m !! ?i = Some s |- ∃ m', run _ (map (EAct _) [?a]) = _ ∧ _ = ?cm ∧ stepped _ _ _ _ ?pc =>
    change pc with (s_pc s');
    assert (∃ m', act m i s a = Some m' ∧ m_socks m' = <[i := s']> (m_socks m) ∧ forget m' = cm) as (? & ? & ? & <-);
      [unfold act; rewrite Epc
      |eapply (stepped_one m i s a); [done..|sock_cases s|sock_cases s|sock_cases s]]
  end.

(** The error of browser.Read and the look at st.done. *)
Lemma isDone_sim m i s (done : bool) :
  m_socks m !! i = Some s → s_pc s = HPump → done = bool_decide (is_Some (s_done s)) →
  ∃ m', run m (map (EAct i) [AReadErr; ACheckDone]) = Some m' ∧ forget m' = forget m ∧
    stepped m m' i s (if done then HLeaving else HClosing).
Proof.
  intros Hi Epc ->. simpl. rewrite Hi, Epc. simpl. rewrite lookup_insert_eq. simpl.
  eexists. split; [done|]. split.
  - rewrite (forget_at _ i (at_pc s HFailed)); [by apply (forget_at m i s)|apply lookup_insert_eq|by destruct (s_done s)].
  - split; simpl.
    + rewrite lookup_insert_eq. eexists. split; [done|]. destruct s as [k pc d c o e]. simpl in *. subst. by destruct d.
    + intros j Hj. by rewrite !lookup_insert_ne.
Qed.

Lemma isDead_sim m i s typ (a : bool) l pc cm :
  m_socks m !! i = Some s → acts (s_key s) (s_pc s) (ev (FIsDead typ) a) = Some (l, pc) →
  effect (forget m) i (s_key s) (ev (FIsDead typ) a) = Some cm →
  ∃ m', run m (map (EAct i) l) = Some m' ∧ forget m' = cm ∧ stepped m m' i s pc.
Proof.
  intros Hi Ha He. unfold acts, ev in Ha. destruct (s_pc s) eqn:Epc; try discriminate Ha.
  - (* isDead of the open frame *)
    destruct (typ =? muxTypeOpen) eqn:Et; [|done]. injection Ha as <- <-. unfold effect, ev in He. rewrite Et, andb_false_r in He.
    destruct (Bool.eqb_spec a (is_dead (forget m))) as [Ea|]; [|done]. injection He as <-.
    change (is_dead (forget m)) with (is_dead m) in Ea.
    destruct a; [one s Epc (at_pc s HLeaving)|one s Epc (at_pc s HOpening)]; rewrite <- Ea; (eexists; split_and!; [done..|]);
      by apply (forget_at m i s).
  - (* isDead in the pump *)
    unfold effect, ev in He. destruct (Bool.eqb_spec a (is_dead (forget m))) as [Ea|]; [|done]. injection He as <-.
    destruct a; simpl in Ha; [|injection Ha as <- <-; by apply stepped_silent].
    destruct (Z.eqb_spec typ muxTypeData) as [->|_]; [|destruct (Z.eqb_spec typ muxTypeClose) as [->|_]; [|done]];
      injection Ha as <- <-; one s Epc (at_pc s HLeaving); (eexists; split_and!; [done..|]); by apply (forget_frame m i s).
  - (* isDead of the close frame *)
    unfold effect, ev in He. destruct (Bool.eqb_spec a (is_dead (forget m))) as [Ea|]; [|done]. injection He as <-.
    destruct (Z.eqb_spec typ muxTypeClose) as [->|_]; [|done]. simpl in Ha.
    destruct a; injection Ha as <- <-; [|by apply stepped_silent].
    one s Epc (at_pc s HLeaving). eexists; split_and!; [done..|]. by apply (forget_frame m i s).
Qed.

Lemma put_sim m i s typ sid stream pl (a : bool) l pc cm :
  m_socks m !! i = Some s → acts (s_key s) (s_pc s) (ev (FPut typ sid stream pl) a) = Some (l, pc) →
  effect (forget m) i (s_key s) (ev (FPut typ sid stream pl) a) = Some cm →
  ∃ m', run m (map (EAct i) l) = Some m' ∧ forget m' = cm ∧ stepped m m' i s pc.
Proof.
  intros Hi Ha He. unfold acts, ev in Ha. destruct (bool_decide_reflect ((sid, stream) = s_key s)) as [Ek|]; [|done]. simpl in Ha.
  unfold effect, ev in He. change (conn_open (forget m)) with (conn_open m) in He.
  destruct (a && negb (conn_open m)) eqn:Eo; [done|]. destruct (s_pc s) eqn:Epc; try discriminate Ha.
  - (* the open frame *)
    destruct (Z.eqb_spec typ muxTypeOpen) as [->|_]; [|done]. injection Ha as <- <-.
    injection He as <-. rewrite Ek. destruct a.
    + one s Epc (opened s). rewrite Eo. eexists; split_and!; [done..|]. simpl. unfold mark_open. rewrite forget_sock, Hi.
      change (put_frame (forget (set_sock m i (opened s))) true (sock_frame i s muxTypeOpen) =
              put_frame (set_sock (forget m) i (at_pc (opened s) HNew)) true (sock_frame i s muxTypeOpen)).
      by rewrite forget_set.
    + one s Epc (at_pc s HLeaving). eexists; split_and!; [done..|]. by apply (forget_frame m i s).
  - (* frames in the pump *)
    destruct (Z.eqb_spec typ muxTypeData) as [->|_]; [|destruct (Z.eqb_spec typ muxTypeClose) as [->|_]; [|done]];
      injection Ha as <- <-; injection He as <-; rewrite Ek, andb_false_r.
    + destruct a; [one s Epc (at_pc s HPump)|one s Epc (at_pc s HLeaving)]; rewrite ?Eo; (eexists; split_and!; [done..|]);
        by apply (forget_frame m i s).
    + one s Epc (at_pc s HLeaving). rewrite Eo. eexists; split_and!; [done..|]. by apply (forget_frame m i s).
  - (* the close frame after an error *)
    destruct (Z.eqb_spec typ muxTypeClose) as [->|_]; [|done]. injection Ha as <- <-.
    injection He as <-. rewrite Ek, andb_false_r. one s Epc (at_pc s HLeaving). rewrite Eo. eexists; split_and!; [done..|].
    by apply (forget_frame m i s).
Qed.

Lemma act_sim m i s e l pc cm :
  m_socks m !! i = Some s → acts (s_key s) (s_pc s) e = Some (l, pc) → effect (forget m) i (s_key s) e = Some cm →
  ∃ m', run m (map (EAct i) l) = Some m' ∧ forget m' = cm ∧ stepped m m' i s pc.
Proof.
  intros Hi Ha He. destruct e as [o a].
  destruct o as [[]|typ|typ sid stream pl| |]; simpl in a; [..|by eapply isDead_sim|by eapply put_sim| |]; unfold acts, ev in Ha.
  all: try (injection Ha as <- <-; simpl in He; injection He as <-; by apply stepped_silent).
  all: destruct (s_pc s) eqn:Epc; try discriminate Ha.
  - (* register *)
    case_decide as Ek; [|done]. injection Ha as <- <-. unfold effect in He. change (m_streams (forget m)) with (m_streams m) in He.
    rewrite Ek in He. destruct (m_streams m !! s_key s) eqn:Es, a; simplify_eq.
    + one s Epc (at_pc s HGone). rewrite Es. eexists; split_and!; [done..|]. by apply (forget_at m i s).
    + one s Epc (at_pc s HRegistered). rewrite Es. eexists; split_and!; [done..|].
      change (set_map (forget (set_sock m i (at_pc s HRegistered))) (<[s_key s := i]> (m_streams m)) =
              set_map (forget m) (<[s_key s := i]> (m_streams m))). by rewrite (forget_at m i s).
  - injection Ha as <- <-. simpl in He. injection He as <-. by apply stepped_silent.
  - (* finish *)
    injection Ha as <- <-. unfold effect in He. injection He as <-. one s Epc (at_pc (finished s ByQuarantine) HLeaving).
    eexists; split_and!; [done..|]. rewrite forget_set. unfold finish_sock. by rewrite forget_sock, Hi.
  - injection Ha as <- <-. simpl in He. injection He as <-. by apply stepped_silent.
  - (* isDone *)
    injection Ha as <- <-. unfold effect in He. rewrite forget_sock, Hi in He. simpl in He.
    destruct (Bool.eqb_spec a (bool_decide (is_Some (s_done s)))) as [Ea|]; [|done]. injection He as <-. by apply isDone_sim.
  - (* unregister: the map *)
    injection Ha as <- <-. unfold effect in He. rewrite forget_sock, Hi in He. injection He as <-.
    one s Epc (at_pc s HFinishing). eexists; split_and!; [done|by unfold drop_own; case_decide|].
    rewrite (forget_drop _ i s HNew). by rewrite (forget_at m i s).
  - (* unregister: finish *)
    injection Ha as <- <-. unfold effect in He. injection He as <-. one s Epc (at_pc (finished s ByHandler) HGone).
    eexists; split_and!; [done..|]. rewrite forget_set. unfold finish_sock. by rewrite forget_sock, Hi.
Qed.

(** ** One step of the system *)

Lemma acts_track k pc e l pc' : is_track e = true → acts k pc e = Some (l, pc') → pc' = HRegistered.
Proof. destruct e as [[[]| | | |] a]; try done. intros _. destruct pc; simpl; congruence. Qed.

Lemma acts_pump k pc e l pc' : is_pump e = true → acts k pc e = Some (l, pc') → pc' = HPump.
Proof. destruct e as [[[]| | | |] a]; try done. intros _. destruct pc; simpl; congruence. Qed.

Definition advance (t : thread) (e : Effects.event fans) (rest : prog fans unit) : thread :=
  {| t_key := t_key t; t_rest := rest; t_trace := t_trace t ++ [e] |}.

Lemma advance_tracked t e rest : t_tracked (advance t e rest) = t_tracked t || is_track e.
Proof. unfold t_tracked. simpl. rewrite existsb_app. simpl. by rewrite orb_false_r. Qed.
Lemma advance_pumped t e rest : t_pumped (advance t e rest) = t_pumped t || is_pump e.
Proof. unfold t_pumped. simpl. rewrite existsb_app. simpl. by rewrite orb_false_r. Qed.

Lemma advance_ok t e rest os os' :
  thread_ok os t → mon (t_key t) (s_pc <$> os) e = Some (s_pc <$> os') →
  safe (mon (t_key t)) rest (s_pc <$> os') (fun _ pc => ended pc) →
  match os' with
  | None => t_tracked (advance t e rest) = false ∧ t_pumped (advance t e rest) = false
  | Some s => sock_rel (advance t e rest) s
  end → thread_ok os' (advance t e rest).
Proof.
  intros (_ & Ha & _) Hm Hs Hr. split_and!; [done| |done]. simpl. by rewrite automaton_app, Ha; simpl; rewrite Hm.
Qed.

(** An operation before the handler has the connection. *)
Lemma sim_before c m i t e rest pc cm :
  sim c m → c_threads c !! i = Some t → m_socks m !! i = None → mon (t_key t) None e = Some pc →
  safe (mon (t_key t)) rest pc (fun _ pc => ended pc) → effect (forget m) i (t_key t) e = Some cm →
  ∃ evs m', run m evs = Some m' ∧ sim {| c_mux := cm; c_threads := <[i := advance t e rest]> (c_threads c) |} m'.
Proof.
  intros Hsim Ht Hn Hm Hs He. pose proof (sim_thread c m Hsim i t Ht) as Hok. rewrite Hn in Hok.
  destruct Hok as (Hsafe & Ha & Htr & Hpu).
  assert (Hsilent : pc = None → is_track e = false → is_pump e = false → cm = forget m →
    ∃ evs m', run m evs = Some m' ∧ sim {| c_mux := cm; c_threads := <[i := advance t e rest]> (c_threads c) |} m').
  { intros -> H1 H2 ->. exists [], m. split; [done|]. eapply sim_handler; [done|exact Hn|done|].
    apply (advance_ok t e rest None None); [done..|]. by rewrite advance_tracked, advance_pumped, Htr, Hpu, H1, H2. }
  destruct e as [[[route| | | | | | | | | | | | | | | |]| | | |] a]; try done; simpl in Hm, He; simplify_eq; [|by apply Hsilent..].
  destruct a; simplify_eq; [|by apply Hsilent]. rewrite lookup_fmap, Hn in He. injection He as <-.
  exists [ESocket i (t_key t)]. simpl. rewrite Hn. eexists. split; [done|].
  replace (set_sock (forget m) i (new_sock (t_key t))) with (forget (set_sock m i (new_sock (t_key t)))) by apply forget_set.
  eapply sim_handler; [done|apply lookup_insert_eq|by intros j Hj; apply lookup_insert_ne|].
  apply (advance_ok t _ rest None (Some (new_sock (t_key t)))); [done..|].
  split; rewrite ?advance_tracked, ?advance_pumped, ?Htr, ?Hpu; done.
Qed.

(** An operation of a handler that has it. *)
Lemma sim_on_sock c m i t s e rest pc cm :
  sim c m → c_threads c !! i = Some t → m_socks m !! i = Some s → mon (t_key t) (Some (s_pc s)) e = Some pc →
  safe (mon (t_key t)) rest pc (fun _ pc => ended pc) → effect (forget m) i (t_key t) e = Some cm →
  ∃ evs m', run m evs = Some m' ∧ sim {| c_mux := cm; c_threads := <[i := advance t e rest]> (c_threads c) |} m'.
Proof.
  intros Hsim Ht Hi Hm Hs He. pose proof (sim_thread c m Hsim i t Ht) as Hok. rewrite Hi in Hok.
  pose proof Hok as (Hsafe & Ha & [R1 R2 R3 R4]). simpl in Hm. destruct (acts (t_key t) (s_pc s) e) as [[l pc']|] eqn:El; [|done].
  injection Hm as <-. rewrite <- R1 in El, He. destruct (act_sim m i s e l pc' cm Hi El He) as (m' & Hrun & <- & [Hsk Hoth]).
  destruct Hsk as (s' & Hi' & <- & K1 & K2 & K3 & K4). rewrite R1 in El. exists (map (EAct i) l), m'. split; [done|].
  eapply sim_handler; [done|exact Hi'|done|]. apply (advance_ok t e rest (Some s) (Some s')); [done| |done|].
  - simpl. by rewrite El.
  - split; rewrite ?advance_tracked, ?advance_pumped; simpl; [congruence| | |by auto].
    + intros [Htr|Htr]%orb_true_iff; [by auto|]. unfold tracked. by rewrite (acts_track _ _ _ _ _ Htr El).
    + intros [Hpu|Hpu]%orb_true_iff; [by auto|]. apply K4; [done|]. unfold pumping. by rewrite (acts_pump _ _ _ _ _ Hpu El).
Qed.

End simulation.

(** * Refinement *)

Section refinement.
Context `{GoUnicode, GoRange}.
Variable h : handler_conf.

Lemma sim_new : sim sys_new mux_new.
Proof. split; [done|intros ? ?|intros ? ?]; simpl; by rewrite lookup_empty. Qed.

(** A step that [f] takes on behalf of socket [i]. *)
Lemma sim_on c m i ready f a c' :
  sim c m → on_sock c i ready f = Some c' →
  (∀ t s cm, ready t = true → m_socks m !! i = Some s → sock_rel t s → f (at_pc s HNew) = Some cm →
     ∃ s' m', act m i s a = Some m' ∧ cm = forget m' ∧ later s s' ∧ m_socks m' = m_socks (set_sock m i s')) →
  ∃ evs m', run m evs = Some m' ∧ sim c' m'.
Proof.
  intros Hsim Hc Hf. unfold on_sock in Hc. destruct (c_threads c !! i) as [t|] eqn:Ht; [|done].
  pose proof (sim_mux c m Hsim) as Em. pose proof (sim_thread c m Hsim i t Ht) as (_ & _ & Hr).
  rewrite Em, forget_sock in Hc. destruct (m_socks m !! i) as [s|] eqn:Hi; [|done]. simpl in Hc.
  destruct (ready t) eqn:Er; [|done]. unfold on_mux in Hc. destruct (f (at_pc s HNew)) as [cm|] eqn:Ef; [|done]. injection Hc as <-.
  destruct (Hf t s cm Er eq_refl Hr Ef) as (s' & m' & Ha & -> & Hl & Hm). exists [EAct i a], m'. simpl. rewrite Hi, Ha. split; [done|].
  eapply sim_later; [done..|].
  apply (socks_later_same m (set_sock m i s') m'); [done|]. by eapply socks_later_set.
Qed.

(** A step of the connection alone. *)
Lemma sim_shared c m (r : option mux) (r' : option mux) e c' :
  sim c m → on_mux c r = Some c' → r = forget <$> r' → r' = exec m e → (∀ m', r' = Some m' → socks_later m m') →
  ∃ evs m', run m evs = Some m' ∧ sim c' m'.
Proof.
  intros Hsim Hc -> He Hl. unfold on_mux in Hc. destruct r' as [m'|]; [|done]. simpl in Hc. injection Hc as <-.
  exists [e], m'. simpl. rewrite <- He. split; [done|]. eapply sim_later; [done..|by apply Hl].
Qed.

Lemma sim_thread_step c m i x c' :
  sim c m → cstep h c (CThread i x) = Some c' → ∃ evs m', run m evs = Some m' ∧ sim c' m'.
Proof.
  intros Hsim Hc. unfold cstep in Hc; cbv zeta in Hc. destruct (c_threads c !! i) as [[k [|o rest] tr]|] eqn:Ht; [done| |done].
  destruct (effect (c_mux c) i k (ev o (answer_to o x))) as [cm|] eqn:He; [|done]. injection Hc as <-.
  pose proof (sim_thread c m Hsim i _ Ht) as (Hsafe & _ & _). rewrite (sim_mux c m Hsim) in He. simpl in Hsafe.
  destruct (Hsafe (answer_to o x)) as (pc & Hm & Hrest). destruct (m_socks m !! i) as [s|] eqn:Hi.
  - by apply (sim_on_sock c m i _ s (ev o (answer_to o x)) (rest (answer_to o x)) pc cm Hsim Ht).
  - by apply (sim_before c m i _ (ev o (answer_to o x)) (rest (answer_to o x)) pc cm Hsim Ht).
Qed.

Lemma sealed_sim_step c m e c' : sim c m → cstep h c e = Some c' → ∃ evs m', run m evs = Some m' ∧ sim c' m'.
Proof.
  intros Hsim Hc. pose proof (sim_mux c m Hsim) as Em.
  destruct e as [i req route p reads|i x|i|i ok|i|a|ok|]; [|by eapply sim_thread_step|..]; simpl in Hc.
  - destruct (c_threads c !! i) eqn:Ht; [done|]. injection Hc as <-. exists [], m. split; [done|]. rewrite Em.
    assert (Hn : m_socks m !! i = None).
    { destruct (m_socks m !! i) as [s|] eqn:Hi; [|done]. destruct (sim_sock c m Hsim i s Hi). congruence. }
    apply (sim_handler c m m i _ None); [done..|]. split_and!; [|done..]. apply serveSealedWSMux_safe.
  - eapply (sim_on c m i t_pumped _ APumpFails); [done..|]. intros t s cm _ Hi Hr Ha. exists (finished s ByPump). simpl in *.
    rewrite Em in Ha. destruct (s_opened s), (s_done s) eqn:Ed; simplify_eq. eexists. split; [done|].
    split; [by rewrite forget_set|]. split; [apply later_finished|done].
  - eapply (sim_on c m i t_tracked _ (ACutWrite ok)); [done..|]. intros t s cm Htr Hi Hr Ha. exists (at_cut (touch s) CutWritten).
    unfold cut_write in Ha. simpl in *. rewrite Em in Ha. destruct (s_cut s) eqn:Ect; try done. rewrite (sr_tracked _ _ Hr Htr). simpl.
    change (conn_open (forget m)) with (conn_open m) in Ha. destruct (ok && _); [done|]. injection Ha as <-. eexists. split; [done|].
    split; [|by split]. symmetry. change (put_frame (forget (set_sock m i (at_cut (touch s) CutWritten))) ok (sock_frame i s muxTypeClose) =
      put_frame (set_sock (forget m) i (at_pc (at_cut (touch s) CutWritten) HNew)) ok (sock_frame i s muxTypeClose)). by rewrite forget_set.
  - eapply (sim_on c m i t_tracked _ ACutFinish); [done..|]. intros t s cm _ Hi Hr Ha. exists (at_cut (finished s ByQuarantine) CutDone).
    simpl in *. rewrite Em in Ha. destruct (s_cut s) eqn:Ect; simplify_eq. eexists. split; [done|].
    split; [by rewrite forget_set|]. split; [|done]. destruct (later_finished s ByQuarantine). by split.
  - rewrite Em in Hc. eapply (sim_shared c m _ _ (ERead a)); [done..|apply forget_read|done|]. intros m'. apply read_later.
  - rewrite Em in Hc. eapply (sim_shared c m _ _ (EPing ok)); [done| exact Hc|apply (forget_ping m ok)|done|].
    intros m' Hp. simpl in Hp. destruct (_ || _); simplify_eq. eauto with later.
  - rewrite Em in Hc. eapply (sim_shared c m _ _ EKill); [done..|apply forget_kill_step|done|]. intros m'. apply kill_later.
Qed.

Lemma sealed_sim_run c m evs c' : sim c m → crun h c evs = Some c' → ∃ mevs m', run m mevs = Some m' ∧ sim c' m'.
Proof.
  revert c m. induction evs as [|e evs IH]; simpl; intros c m Hsim Hr; [simplify_eq; by exists [], m|].
  destruct (cstep h c e) as [c1|] eqn:E; [|done]. destruct (sealed_sim_step c m e c1 Hsim E) as (l1 & m1 & R1 & S1).
  destruct (IH c1 m1 S1 Hr) as (l2 & m2 & R2 & S2). exists (l1 ++ l2), m2. by rewrite run_app, R1.
Qed.

(** C22: Handlers that run serveSealedWSMux as written, any number of them on one
    mux connection with the read loop, the keepalive, the pumps, quarantine cuts and
    kill in any order, take only the steps of MuxSystem.v: the stream map, the streams,
    the frames on the connection, the read loop and kill are those of one of its executions, in
    which each handler stands where the operations it made put it. *)
Theorem sealed_refines evs c :
  crun h sys_new evs = Some c →
  ∃ mevs m, run mux_new mevs = Some m ∧ c_mux c = forget m ∧
    (∀ i t, c_threads c !! i = Some t → automaton (mon (t_key t)) None (t_trace t) = Some (s_pc <$> m_socks m !! i)) ∧
    (∀ i s, m_socks m !! i = Some s → ∃ t, c_threads c !! i = Some t ∧ t_key t = s_key s).
Proof.
  intros Hr. destruct (sealed_sim_run _ _ _ _ sim_new Hr) as (mevs & m & Hm & [S1 S2 S3]). exists mevs, m. split_and!; [done..| |].
  - intros i t Ht. by destruct (S2 i t Ht) as (_ & Ha & _).
  - intros i s Hi. destruct (S3 i s Hi) as [t Ht]. exists t. split; [done|]. specialize (S2 i t Ht). rewrite Hi in S2.
    by destruct S2 as (_ & _ & [? _ _ _]).
Qed.

(** ** What the operations of a handler say of where it stands *)

Definition registers (e : Effects.event fans) : bool := match e with existT (FOp (ORegister _ _)) ok => ok | _ => false end.
Definition drops (e : Effects.event fans) : bool := match e with existT FDrop _ => true | _ => false end.
(** The end of the relay: the browser was lost, a close frame is written, or a write was refused
    or failed. *)
Definition stops (e : Effects.event fans) : bool :=
  match e with
  | existT (FOp OIsDone) _ => true
  | existT (FIsDead _) dead => dead
  | existT (FPut typ _ _ _) ok => negb ok || (typ =? muxTypeClose)
  | _ => false
  end.

(** It registered, and did not take itself out again. *)
Definition holds_key (t : thread) : bool := existsb registers (t_trace t) && negb (existsb drops (t_trace t)).
(** It relays between browser and enclave. *)
Definition relaying (t : thread) : bool := t_pumped t && negb (existsb stops (t_trace t)).

Definition reg_pc (pc : handler_pc) : bool := match pc with HNew | HFinishing | HGone => false | _ => true end.

Lemma acts_reg k pc e l pc' :
  acts k pc e = Some (l, pc') → drops e = false → registers e = true ∨ reg_pc pc = true → reg_pc pc' = true.
Proof.
  destruct e as [[[]|typ|typ sid stream pl| |] a]; unfold acts; simpl; intros Ha Hd Hr; try done;
    destruct pc; simplify_eq; repeat (case_match; simplify_eq; try done); naive_solver.
Qed.

Lemma acts_relays k pc e l pc' :
  acts k pc e = Some (l, pc') → stops e = false → is_pump e = true ∨ pc = HPump → pc' = HPump.
Proof.
  destruct e as [[[]|typ|typ sid stream pl| |] a]; unfold acts; simpl; intros Ha Hd Hr; try done;
    destruct pc; simplify_eq; repeat (case_match; simplify_eq; try done);
    rewrite ?orb_true_r in *; naive_solver.
Qed.

(** An operation of a handler without a connection is none of these. *)
Lemma mon_before k e os : mon k None e = Some os → registers e = false ∧ is_pump e = false.
Proof. destruct e as [[[]| | | |] a]; intros Hm; done. Qed.

Lemma holds_trace k tr os :
  automaton (mon k) None tr = Some os → existsb registers tr = true → existsb drops tr = false →
  ∃ pc, os = Some pc ∧ reg_pc pc = true.
Proof.
  revert os. induction tr as [|e tr IH] using rev_ind; intros os Ha Hr Hd; [done|].
  apply automaton_snoc in Ha as (os1 & Ha & Hm). rewrite existsb_app in Hr, Hd. simpl in Hr, Hd.
  rewrite orb_false_r in Hr, Hd. apply orb_false_iff in Hd as [Hd1 Hd2]. apply orb_true_iff in Hr.
  destruct os1 as [pc1|].
  - simpl in Hm. destruct (acts k pc1 e) as [[l pc']|] eqn:El; [|done]. injection Hm as <-. exists pc'. split; [done|].
    eapply acts_reg; [done..|]. destruct Hr as [Hr|Hr]; [|by left]. right.
    by destruct (IH _ Ha Hr Hd1) as (pc2 & [= <-] & ?).
  - destruct (mon_before k e os Hm) as [E _]. rewrite E in Hr. destruct Hr as [Hr|]; [|done].
    by destruct (IH _ Ha Hr Hd1) as (pc2 & ? & ?).
Qed.

Lemma relaying_trace k tr os :
  automaton (mon k) None tr = Some os → existsb is_pump tr = true → existsb stops tr = false → os = Some HPump.
Proof.
  revert os. induction tr as [|e tr IH] using rev_ind; intros os Ha Hp Hd; [done|].
  apply automaton_snoc in Ha as (os1 & Ha & Hm). rewrite existsb_app in Hp, Hd. simpl in Hp, Hd.
  rewrite orb_false_r in Hp, Hd. apply orb_false_iff in Hd as [Hd1 Hd2]. apply orb_true_iff in Hp.
  destruct os1 as [pc1|].
  - simpl in Hm. destruct (acts k pc1 e) as [[l pc']|] eqn:El; [|done]. injection Hm as <-. f_equal.
    eapply acts_relays; [done..|]. destruct Hp as [Hp|Hp]; [|by left]. right. by injection (IH _ Ha Hp Hd1) as <-.
  - destruct (mon_before k e os Hm) as [_ E]. rewrite E in Hp. destruct Hp as [Hp|]; [|done]. by specialize (IH _ Ha Hp Hd1).
Qed.

(** The socket of a handler and its control state. *)
Lemma sealed_sim_lookup c m i t s :
  sim c m → c_threads c !! i = Some t → m_socks (c_mux c) !! i = Some s →
  ∃ s0, m_socks m !! i = Some s0 ∧ s = at_pc s0 HNew ∧ s_key s0 = t_key t ∧
    automaton (mon (t_key t)) None (t_trace t) = Some (Some (s_pc s0)).
Proof.
  intros [S1 S2 S3] Ht Hi. rewrite S1, forget_sock in Hi. specialize (S2 i t Ht).
  destruct (m_socks m !! i) as [s0|]; [|done]. injection Hi as <-. destruct S2 as (_ & Ha & [Hk _ _ _]). by exists s0.
Qed.

(** C23: A stream is reachable as long as it lives: while the connection is alive, a
    handler that registered its stream and did not unregister it, with the stream not finished, is
    the one found under its key, so that the next data frame of the enclave for that key
    goes to its browser; no handler that used the key before, whatever it still does, can have
    taken it out.  The one exception is a stream the read loop is just dropping itself. *)
Theorem sealed_stream_routed `{!GoRangeLaws} evs c i t s :
  crun h sys_new evs = Some c → is_dead (c_mux c) = false → c_threads c !! i = Some t → m_socks (c_mux c) !! i = Some s →
  holds_key t = true → s_done s = None →
  (∃ cs, m_reader (c_mux c) = RDrop i cs) ∨
  (m_streams (c_mux c) !! t_key t = Some i ∧
   (m_reader (c_mux c) = RIdle →
    ∃ c', cstep h c (CRead (RFrame muxTypeData (t_key t) true)) = Some c' ∧ m_reader (c_mux c') = RFound i)).
Proof.
  intros Hr Hdead Ht Hi Hh Hdone. destruct (sealed_sim_run _ _ _ _ sim_new Hr) as (mevs & m & Hm & Hsim).
  destruct (sealed_sim_lookup c m i t s Hsim Ht Hi) as (s0 & Hi0 & -> & Hk & Ha).
  apply andb_true_iff in Hh as [Hreg Hdrop%negb_true_iff]. destruct (holds_trace _ _ _ Ha Hreg Hdrop) as (pc & [= <-] & Hpc).
  rewrite (sim_mux c m Hsim) in *. destruct (live_stream_routed mevs m i s0 Hm Hdead Hi0 Hpc Hdone) as [|[Hin Hnext]]; [by left|].
  right. rewrite <- Hk. split; [done|]. intros Hidle. destruct (Hnext Hidle) as (m' & He & Hm').
  unfold cstep. rewrite (sim_mux c m Hsim), forget_read. change (exec m (ERead (RFrame muxTypeData (s_key s0) true)))
    with (read m (RFrame muxTypeData (s_key s0) true)) in He. rewrite He. simpl. by eexists.
Qed.

(** C24: No browser socket outlives its mux connection: when kill is through, every handler
    that still relays has its stream finished, so its browser is told the connection is lost and its
    next read fails, also when it registered while kill was running; only the stream the read loop
    is about to finish itself may be left. *)
Theorem sealed_kill_reaches `{!GoRangeLaws} evs c i t s :
  crun h sys_new evs = Some c → m_kill (c_mux c) = KDone → c_threads c !! i = Some t → m_socks (c_mux c) !! i = Some s →
  relaying t = true → s_done s ≠ None ∨ ∃ cs, m_reader (c_mux c) = RDrop i cs.
Proof.
  intros Hr Hkill Ht Hi Hh. destruct (sealed_sim_run _ _ _ _ sim_new Hr) as (mevs & m & Hm & Hsim).
  destruct (sealed_sim_lookup c m i t s Hsim Ht Hi) as (s0 & Hi0 & -> & Hk & Ha).
  apply andb_true_iff in Hh as [Hp Hs%negb_true_iff]. injection (relaying_trace _ _ _ Ha Hp Hs) as Hpc.
  rewrite (sim_mux c m Hsim) in *. eapply (kill_reaches_sockets mevs m i s0); [done..| |]; unfold registered, late; by rewrite Hpc.
Qed.

(** C25: Why an enclave can be left with a stream.  When a handler has returned and the
    enclave still has its stream open, then one of these holds, and nothing else leaves
    it: the enclave had closed the stream itself; the connection was killed; the stream was
    finished by its pump when the browser could not be written to; a write on the
    connection failed; or the enclave or a quarantine reached the stream before its open
    frame was out (a close frame that overtakes the open one, see [cut_overtakes_open] in
    MuxSystem). *)
Theorem sealed_end_announced `{!GoRangeLaws} evs c i t s :
  crun h sys_new evs = Some c → c_threads c !! i = Some t → t_rest t = PRet tt →
  m_socks (c_mux c) !! i = Some s → enclave_has i (m_wire (c_mux c)) = true →
  s_done s = Some ByEnclave ∨ s_done s = Some ByKill ∨ s_done s = Some ByPump ∨
  m_broken (c_mux c) = true ∨ s_early s = true.
Proof.
  intros Hr Ht Hret Hi Hh. destruct (m_broken (c_mux c)) eqn:Hb; [auto|]. destruct (s_early s) eqn:He; [auto|].
  destruct (sealed_sim_run _ _ _ _ sim_new Hr) as (mevs & m & Hm & Hsim).
  destruct (sealed_sim_lookup c m i t s Hsim Ht Hi) as (s0 & Hi0 & -> & Hk & Ha). rewrite (sim_mux c m Hsim) in *.
  pose proof (sim_thread c m Hsim i t Ht) as (Hsafe & _ & _). rewrite Hi0, Hret in Hsafe. destruct Hsafe as [?|[E|E]]; [done|..];
    injection E as E; [|destruct (stream_end_announced mevs m i s0) as [?|[?|?]]; auto].
  pose proof (cinv_run mevs _ _ minv_new cinv_new Hm Hb) as Hc. pose proof (ci_sock m Hc i s0 Hi0) as Hs.
  change (m_wire (forget m)) with (m_wire m) in Hh. rewrite Hh in Hs. destruct s0 as [k pc d cu o e]. simpl in *. subst. by destruct o.
Qed.

End refinement.

(** * Concrete executions *)

Section executions.
#[local] Existing Instances ascii_unicode map_range map_range_laws.

Definition answers_of (b : bool) : answers := {| x_bool := b; x_open := Some (true, [x0a]); x_route := Some ex_app_live |}.
(** Handler [i] makes as many operations as there are answers. *)
Definition goes (i : nat) (bs : list bool) : list cevent := map (fun b => CThread i (answers_of b)) bs.
(** From the upgrade to the pump: get, Accept, the sealed open, register, Track, lookup,
    isDead, the open frame, two more. *)
Definition starts (i : nat) (reads : list browser_read) : list cevent :=
  CSpawn i ex_upgrade ex_app_live ex_params reads ::
  goes i [true; true; true; true; true; true; false; true; true; true].

Definition ex_sys (evs : list cevent) : sys := match crun ex_conf sys_new evs with Some c => c | None => sys_new end.
Definition ex_thread (c : sys) (i : nat) : thread :=
  match c_threads c !! i with Some t => t | None => {| t_key := (""%string, 0); t_rest := PRet tt; t_trace := [] |} end.
Definition ex_sock (c : sys) (i : nat) : sock :=
  match m_socks (c_mux c) !! i with Some s => s | None => new_sock (""%string, 0) end.

(** A browser falls behind; the read loop drops its stream, a second handler takes the
    key while the first, whose browser is gone, finds its stream done and leaves. *)
Definition ex_sealed_reuse : list cevent :=
  starts 1 [BMessage true [x01]; BError 1000] ++ goes 1 [false; true] ++
  map CRead [RFrame muxTypeData ("sess-1"%string, 255) true; RRoom false true; RStep true; RStep true] ++
  goes 1 [true] ++ starts 2 [] ++ goes 1 [true; true; true; true].

Lemma sealed_refines_witness :
  ∃ mevs m, run mux_new mevs = Some m ∧ c_mux (ex_sys ex_sealed_reuse) = forget m.
Proof.
  destruct (sealed_refines ex_conf ex_sealed_reuse (ex_sys ex_sealed_reuse)) as (mevs & m & Hr & Hm & _).
  - vm_compute. reflexivity.
  - exists mevs, m. split; assumption.
Defined.

Lemma sealed_stream_routed_witness :
  let c := ex_sys ex_sealed_reuse in
  m_streams (c_mux c) !! ("sess-1"%string, 255) = Some 2%nat ∧ t_rest (ex_thread c 1) = PRet tt.
Proof.
  intros c. split; [|vm_compute; reflexivity].
  destruct (sealed_stream_routed ex_conf ex_sealed_reuse c 2 (ex_thread c 2) (ex_sock c 2)) as [[cs Hc]|[Hin _]].
  - vm_compute. reflexivity.
  - vm_compute. reflexivity.
  - vm_compute. reflexivity.
  - vm_compute. reflexivity.
  - vm_compute. reflexivity.
  - vm_compute. reflexivity.
  - vm_compute in Hc. discriminate Hc.
  - exact Hin.
Defined.

(** The connection dies under a handler that relays. *)
Definition ex_sealed_death : list cevent := starts 1 [BMessage true [x01]] ++ [CKill; CKill; CKill; CKill; CKill].

Lemma sealed_kill_reaches_witness :
  let c := ex_sys ex_sealed_death in relaying (ex_thread c 1) = true ∧ s_done (ex_sock c 1) ≠ None.
Proof.
  intros c. split; [vm_compute; reflexivity|].
  destruct (sealed_kill_reaches ex_conf ex_sealed_death c 1 (ex_thread c 1) (ex_sock c 1)) as [Hd|[cs Hc]].
  - vm_compute. reflexivity.
  - vm_compute. reflexivity.
  - vm_compute. reflexivity.
  - vm_compute. reflexivity.
  - vm_compute. reflexivity.
  - exact Hd.
  - vm_compute in Hc. discriminate Hc.
Defined.

(** The pump loses the browser: the handler returns, the enclave is not told. *)
Definition ex_sealed_pump : list cevent :=
  starts 1 [] ++ [CPumpFails 1] ++ goes 1 [true; true; true; true; true].

Lemma sealed_end_announced_witness :
  let c := ex_sys ex_sealed_pump in
  s_done (ex_sock c 1) = Some ByPump ∧ enclave_has 1 (m_wire (c_mux c)) = true.
Proof.
  intros c. split; [|vm_compute; reflexivity].
  destruct (sealed_end_announced ex_conf ex_sealed_pump c 1 (ex_thread c 1) (ex_sock c 1)) as [Hd|[Hd|[Hd|[Hd|Hd]]]].
  - vm_compute. reflexivity.
  - vm_compute. reflexivity.
  - vm_compute. reflexivity.
  - vm_compute. reflexivity.
  - vm_compute. reflexivity.
  - vm_compute in Hd. discriminate Hd.
  - vm_compute in Hd. discriminate Hd.
  - exact Hd.
  - vm_compute in Hd. discriminate Hd.
  - vm_compute in Hd. discriminate Hd.
Defined.

End executions.
