(* ===== verification/MuxLoop.v ===== *)
(** internal/terminate/wsmux.go: the demultiplexer of WsMux.v, which works on the bytes
    the enclave sends, as the read loop of MuxSystem.v, whose steps interleave with the
    handlers.  Left alone with its input, readLoop is one execution of that read loop
    and of the kill that ends it: the steps are those of the frames of the input, one
    after the other, the streams end the same way, and the bytes written are the
    answers to those frames. *)
From Stdlib Require Import Strings.String.
From S2P Require Import Prelude GoBytes GoStrings GoRuntime WsFrame WsMux MuxSystem.
Local Open Scope Z_scope.

(** * Frames, and what they call for *)

Record mux_frame := { x_typ : Z; x_key : muxKey; x_payload : bytes }.

Definition mux_frame_bytes (f : mux_frame) : bytes := frame_bytes (x_typ f) (x_key f).1 (x_key f).2 (x_payload f).

(** The frames an input starts with: what is left after them is not one. *)
Inductive sends : bytes → list mux_frame → Prop :=
| SendsEnd input e : readMuxFrame input = inr e → sends input []
| SendsFrame input typ sid stream payload rest fs :
    readMuxFrame input = inl (typ, sid, stream, payload, rest) → sends rest fs →
    sends input ({| x_typ := typ; x_key := (sid, stream); x_payload := payload |} :: fs).

(** Every input has its frames. *)
Lemma readMuxFrame_frames input : ∃ fs, sends input fs.
Proof.
  remember (length input) as n eqn:En. revert input En. induction (Nat.lt_wf_0 n) as [n _ IH]. intros input ->.
  destruct (readMuxFrame input) as [[[[[typ sid] stream] payload] rest]|e] eqn:Er; [|eexists; by econstructor].
  pose proof (readMuxFrame_progress _ _ _ _ _ _ Er) as Hl. destruct (IH _ Hl rest eq_refl) as [fs Hfs].
  eexists. by econstructor.
Qed.

(** Whether a message still fits in the queue of a stream: at most 4096 messages and
    eight mebibytes. *)
Definition has_room (st : gwStream) (payload : bytes) : bool :=
  (length (outbound st) <? 4096)%nat && (queued st + blen payload <=? 8388608).

(** One frame from the enclave: the steps of the read loop, all writes succeeding, and
    the frames that go back.  A ping is answered with its own payload; data for a stream
    nobody has is answered with a close; data for a stream whose browser has fallen
    behind closes it; everything else is answered with nothing. *)
Definition handles (c : gwMuxConn) (f : mux_frame) : list reader_action * list mux_frame :=
  let here := RFrame (x_typ f) (x_key f) true in
  let close code reason :=
    [{| x_typ := muxTypeClose; x_key := x_key f; x_payload := encodeMuxClose code reason |}] in
  if x_typ f =? muxTypePing then
    ([here], [{| x_typ := muxTypePong; x_key := (""%string, 0); x_payload := x_payload f |}])
  else if x_typ f =? muxTypeData then
    match streams c !! x_key f with
    | None => ([here; RStep true], close StatusProtocolError "unknown stream"%string)
    | Some i =>
        match heap c !! i with
        | Some st =>
            if has_room st (x_payload f) then ([here; RRoom true true], [])
            else ([here; RRoom false true; RStep true; RStep true],
                  close StatusPolicyViolation "browser backpressure overflow"%string)
        | None => ([], [])
        end
    end
  else if x_typ f =? muxTypeClose then
    match streams c !! x_key f with
    | None => ([here], [])
    | Some _ => ([here; RStep true; RStep true], [])
    end
  else ([here], []).

(** The frames one after the other, up to one of another kind or to the end of the input. *)
Fixpoint reading (c : gwMuxConn) (fs : list mux_frame) : list reader_action * list mux_frame :=
  match fs with
  | [] => ([RFails], [])
  | f :: fs =>
      match read_frame c (x_typ f) (x_key f).1 (x_key f).2 (x_payload f) with
      | None => handles c f
      | Some c' => ((handles c f).1 ++ (reading c' fs).1, (handles c f).2 ++ (reading c' fs).2)
      end
  end.

(** * The two views of a connection *)

(** How the browser is closed, for the causes the read loop and kill know. *)
Definition closed_for (d : Z * string) (cs : cause) : Prop :=
  match cs with
  | ByKill => d = (StatusGoingAway, "enclave mux connection lost"%string)
  | ByOverflow => d = (StatusPolicyViolation, "backpressure overflow"%string)
  | _ => True
  end.

Record same_stream (st : gwStream) (s : sock) : Prop := {
  ss_key : key st = s_key s;
  ss_done : option_Forall2 closed_for (done st) (s_done s);
}.

Record shape (c : gwMuxConn) (m : mux) : Prop := {
  sh_streams : streams c = m_streams m;
  sh_socks : ∀ i, option_Forall2 same_stream (heap c !! i) (m_socks m !! i);
  sh_dead : dead c = is_dead m;
}.

(** A connection whose read loop is about to read. *)
Definition listening (m : mux) : Prop := m_reader m = RIdle ∧ m_kill m = KNone.

(** The kinds and streams of frames. *)
Definition heads (fs : list mux_frame) : list (Z * muxKey) := map (fun f => (x_typ f, x_key f)) fs.
Definition written_heads (m : mux) : list (Z * muxKey) := map (fun f => (f_typ f, f_key f)) (m_wire m).

(** * Pieces of a step *)

Lemma shape_put c m typ sid stream p f :
  shape c m → shape (writeFrame c typ sid stream p).1 (put_frame m true f).
Proof.
  intros [S1 S2 S3]. destruct (writeFrame_same c typ sid stream p) as (E1 & E2 & E3).
  split; simpl; [by rewrite E1|by rewrite E2|by rewrite E3].
Qed.

Lemma shape_set c m i st s :
  shape c m → heap c !! i = Some st → same_stream st s → shape c (set_sock m i s).
Proof.
  intros [S1 S2 S3] Hi Hs. split; simpl; [done| |done]. intros j. destruct (decide (j = i)) as [->|Hne].
  - rewrite Hi, lookup_insert_eq. by constructor.
  - by rewrite lookup_insert_ne.
Qed.

Lemma shape_touch c m i : shape c m → shape c (touch_sock m i).
Proof.
  intros Hs. unfold touch_sock. destruct (m_socks m !! i) as [s|] eqn:Hi; [|done]. pose proof (sh_socks c m Hs i) as Hk.
  rewrite Hi in Hk. inversion Hk as [st ? [K1 K2] E|]; subst. by eapply shape_set.
Qed.

Lemma shape_reader c m r : shape c m → shape c (set_reader m r).
Proof. by intros [S1 S2 S3]. Qed.

Lemma shape_drop c m i st s :
  shape c m → heap c !! i = Some st → m_socks m !! i = Some s → shape (unregister c i false) (drop_own m i s).
Proof.
  intros Hs Hi Hm. pose proof (sh_socks c m Hs i) as Hk. rewrite Hi, Hm in Hk. inversion Hk as [? ? [K1 K2]|]; subst.
  unfold unregister, drop_own. rewrite Hi, K1, (sh_streams c m Hs). destruct Hs as [S1 S2 S3]. by case_decide.
Qed.

Lemma same_finish st s code reason cs :
  closed_for (code, reason) cs → same_stream st s → same_stream (finish st code reason) (finished s cs).
Proof.
  intros Hc [K1 K2]. unfold finish. inversion K2 as [d cs' Hd E1 E2|E1 E2]; split; simpl; rewrite <- ?E1, <- ?E2; try done.
  - by constructor.
  - by constructor.
Qed.

Lemma shape_finish c m i code reason cs :
  closed_for (code, reason) cs → shape c m → shape (finish_at c i code reason) (finish_sock m i cs).
Proof.
  intros Hf [S1 S2 S3]. pose proof (S2 i) as Hi. unfold finish_at, finish_sock.
  destruct (heap c !! i) as [st|], (m_socks m !! i) as [s|]; inversion Hi; subst; [|done].
  split; simpl; [done| |done]. intros j. destruct (decide (j = i)) as [->|Hne].
  - rewrite !lookup_insert_eq. constructor. by apply same_finish.
  - by rewrite !lookup_insert_ne.
Qed.

Lemma lookup_key c f : streams c !! ((x_key f).1, (x_key f).2) = streams c !! x_key f.
Proof. by destruct (x_key f). Qed.

Lemma kill_touch m i : m_kill (touch_sock m i) = m_kill m.
Proof. unfold touch_sock. by destruct (m_socks m !! i). Qed.
Lemma kill_drop m i s : m_kill (drop_own m i s) = m_kill m.
Proof. unfold drop_own. by case_decide. Qed.
Lemma kill_finish m i cs : m_kill (finish_sock m i cs) = m_kill m.
Proof. unfold finish_sock. by destruct (m_socks m !! i). Qed.
Lemma wire_touch m i : m_wire (touch_sock m i) = m_wire m.
Proof. unfold touch_sock. by destruct (m_socks m !! i). Qed.
Lemma wire_drop m i s : m_wire (drop_own m i s) = m_wire m.
Proof. unfold drop_own. by case_decide. Qed.
Lemma wire_finish m i cs : m_wire (finish_sock m i cs) = m_wire m.
Proof. unfold finish_sock. by destruct (m_socks m !! i). Qed.

Lemma has_room_spec st payload :
  has_room st payload = negb (gwMuxStreamQueueBytes <? queued st + blen payload) && negb (gwMuxStreamQueue <=? length (outbound st))%nat.
Proof.
  unfold has_room. change gwMuxStreamQueueBytes with 8388608. unfold gwMuxStreamQueue.
  rewrite Z.leb_antisym, Nat.leb_antisym, negb_involutive. apply andb_comm.
Qed.

(** * One frame *)

Section loop.
Context `{GoRange}.

(** The steps take the connection to [c'], with these frames written. *)
Definition reads_as (m : mux) (acts : list reader_action) (ws : list mux_frame) (c' : gwMuxConn) : Prop :=
  ∃ m', run m (map ERead acts) = Some m' ∧ shape c' m' ∧ listening m' ∧ written_heads m' = written_heads m ++ heads ws.

Lemma reads_app m a1 w1 m1 a2 w2 c' :
  run m (map ERead a1) = Some m1 → written_heads m1 = written_heads m ++ heads w1 → reads_as m1 a2 w2 c' →
  reads_as m (a1 ++ a2) (w1 ++ w2) c'.
Proof.
  intros H1 Hw (m' & H2 & Hs & Hl & Hw'). exists m'. rewrite map_app, run_app, H1. split_and!; [done..|].
  unfold heads in *. by rewrite Hw', Hw, map_app, app_assoc.
Qed.

Lemma known m typ (k : muxKey) i :
  listening m → m_streams m !! k = Some i → typ = muxTypeData ∨ typ = muxTypeClose →
  read m (RFrame typ k true) = Some (set_reader (touch_sock m i) (if typ =? muxTypeData then RFound i else RCloses i)).
Proof. intros [Hr _] Hi Ht. unfold read. rewrite Hr. by destruct Ht as [-> | ->]; simpl; rewrite Hi. Qed.

(** Off the map, then finished. *)
Lemma drop_sim c m i st s cs code reason :
  shape c m → heap c !! i = Some st → m_socks m !! i = Some s → m_kill m = KNone → closed_for (code, reason) cs →
  (m_reader m = ROverflow i ∧ cs = ByOverflow ∨ m_reader m = RCloses i ∧ cs = ByEnclave) →
  reads_as m [RStep true; RStep true] [] (finish_at (unregister c i false) i code reason).
Proof.
  intros Hs Hc Hi Hk Hf Hr. exists (set_reader (finish_sock (set_reader (drop_own m i s) (RDrop i cs)) i cs) RIdle).
  split; [|split; [|split]].
  - simpl. destruct Hr as [[-> ->]|[-> ->]]; by rewrite Hi.
  - apply shape_reader, shape_finish, shape_reader; [done|]. by eapply shape_drop.
  - split; [done|]. simpl. rewrite kill_finish. simpl. by rewrite kill_drop.
  - unfold written_heads. simpl. rewrite wire_finish. simpl. by rewrite wire_drop, app_nil_r.
Qed.

Lemma data_sim c m f i st :
  x_typ f = muxTypeData → shape c m → conn_wf c → listening m → streams c !! x_key f = Some i → heap c !! i = Some st →
  reads_as m (handles c f).1 (handles c f).2 (enqueue c i st (x_key f).1 (x_key f).2 (x_payload f)).
Proof.
  intros Ht Hs Hwf [Hr Hk] Hi Hc. pose proof (sh_socks c m Hs i) as Hsk. rewrite Hc in Hsk.
  destruct (m_socks m !! i) as [s|] eqn:E; inversion Hsk as [? ? [K1 K2]|]; subst.
  destruct (Hwf _ _ Hi) as (st0 & Hc0 & Hkey). rewrite Hc in Hc0. injection Hc0 as <-.
  assert (Hi' : m_streams m !! x_key f = Some i) by (by rewrite <- (sh_streams c m Hs)).
  pose proof (known m muxTypeData (x_key f) i (conj Hr Hk) Hi' (or_introl eq_refl)) as Hread.
  assert (Hsh : shape c (touch_sock m i)) by (by apply shape_touch).
  assert (Et : m_socks (touch_sock m i) !! i = Some (touch s)) by (unfold touch_sock; rewrite E; apply lookup_insert_eq).
  unfold handles, enqueue. rewrite Ht, Hi, Hc. rewrite <- has_room_spec.
  change (muxTypeData =? muxTypePing) with false. change (muxTypeData =? muxTypeData) with true. cbv iota.
  destruct (has_room st (x_payload f)); cbn [fst snd].
  - exists (set_reader (touch_sock m i) RIdle). cbn [map run exec]. rewrite Hread. split; [done|]. split_and!.
    + apply shape_reader. destruct Hsh as [S1 S2 S3]. split; simpl; [done| |done]. intros j. destruct (decide (j = i)) as [->|Hne].
      * rewrite lookup_insert_eq, Et. by constructor.
      * rewrite lookup_insert_ne by done. apply S2.
    + split; [done|]. rewrite <- Hk. apply kill_touch.
    + unfold written_heads. simpl. by rewrite wire_touch, app_nil_r.
  - eapply (reads_app m [RFrame muxTypeData (x_key f) true; RRoom false true]
      [{| x_typ := muxTypeClose; x_key := x_key f;
          x_payload := encodeMuxClose StatusPolicyViolation "browser backpressure overflow" |}] _ [RStep true; RStep true] []).
    + cbn [map run exec]. rewrite Hread. unfold read. cbn [set_reader m_reader m_socks].
      change (muxTypeData =? muxTypeData) with true. cbv iota.
      rewrite Et. unfold conn_open. cbn [m_kill set_reader]. rewrite kill_touch, Hk. cbn [andb negb]. reflexivity.
    + unfold written_heads, heads. simpl. rewrite wire_touch, map_app. simpl. by rewrite <- K1, Hkey.
    + eapply (drop_sim _ _ i st (touch s) ByOverflow); [| |exact Et|simpl; by rewrite kill_touch|done|by left].
      * apply (shape_put _ _ muxTypeClose (x_key f).1 (x_key f).2
          (encodeMuxClose StatusPolicyViolation "browser backpressure overflow") (sock_frame i (touch s) muxTypeClose)).
        by apply shape_reader, shape_reader.
      * by destruct (writeFrame_same c muxTypeClose (x_key f).1 (x_key f).2
          (encodeMuxClose StatusPolicyViolation "browser backpressure overflow")) as (_ & -> & _).
Qed.

Lemma close_sim c m f i code reason :
  x_typ f = muxTypeClose → shape c m → conn_wf c → listening m → streams c !! x_key f = Some i →
  reads_as m (handles c f).1 (handles c f).2 (finish_at (unregister c i false) i code reason).
Proof.
  intros Ht Hs Hwf [Hr Hk] Hi. destruct (Hwf _ _ Hi) as (st & Hc & Hkey). pose proof (sh_socks c m Hs i) as Hsk. rewrite Hc in Hsk.
  destruct (m_socks m !! i) as [s|] eqn:E; inversion Hsk as [? ? [K1 K2]|]; subst.
  assert (Hi' : m_streams m !! x_key f = Some i) by (by rewrite <- (sh_streams c m Hs)).
  pose proof (known m muxTypeClose (x_key f) i (conj Hr Hk) Hi' (or_intror eq_refl)) as Hread.
  unfold handles. rewrite Ht, Hi. cbn [fst snd].
  change (muxTypeClose =? muxTypePing) with false. change (muxTypeClose =? muxTypeData) with false.
  change (muxTypeClose =? muxTypeClose) with true. cbv iota.
  apply (reads_app m [RFrame muxTypeClose (x_key f) true] [] (set_reader (touch_sock m i) (RCloses i)) [RStep true; RStep true] []).
  - cbn [map run exec]. by rewrite Hread.
  - unfold written_heads. simpl. by rewrite wire_touch, app_nil_r.
  - eapply (drop_sim _ _ i st (touch s) ByEnclave); [by apply shape_reader, shape_touch|done| |simpl; by rewrite kill_touch|done|by right].
    simpl. unfold touch_sock. rewrite E. apply lookup_insert_eq.
Qed.

(** One frame that the loop goes on after. *)
Lemma read_frame_sim c m f c' :
  shape c m → conn_wf c → listening m →
  read_frame c (x_typ f) (x_key f).1 (x_key f).2 (x_payload f) = Some c' →
  reads_as m (handles c f).1 (handles c f).2 c'.
Proof.
  intros Hs Hwf Hl. pose proof Hl as [Hr Hk].
  assert (Ho : conn_open m = true) by (unfold conn_open; by rewrite Hk). unfold read_frame. rewrite lookup_key.
  destruct (Z.eqb_spec (x_typ f) muxTypePong) as [E1|E1].
  { intros [= <-]. unfold handles. rewrite E1. change (muxTypePong =? muxTypePing) with false.
    change (muxTypePong =? muxTypeData) with false. change (muxTypePong =? muxTypeClose) with false. cbv iota zeta.
    exists m. cbn [map run exec fst snd]. unfold read. rewrite Hr. cbn. by rewrite app_nil_r. }
  destruct (Z.eqb_spec (x_typ f) muxTypePing) as [E2|E2].
  { intros [= <-]. unfold handles. rewrite E2. change (muxTypePing =? muxTypePing) with true. cbv iota zeta. eexists. cbn [map run exec fst snd]. unfold read. rewrite Hr, Ho. cbn.
    split; [reflexivity|]. split; [by apply shape_put|]. split; [done|]. unfold written_heads. simpl. by rewrite map_app. }
  destruct (Z.eqb_spec (x_typ f) muxTypeData) as [E3|E3].
  { destruct (streams c !! x_key f) as [i|] eqn:Ei.
    - destruct (Hwf _ _ Ei) as (st & Hc & _). rewrite Hc. intros [= <-]. by apply data_sim.
    - intros [= <-]. assert (Ei' : m_streams m !! x_key f = None) by (by rewrite <- (sh_streams c m Hs)).
      unfold handles. rewrite E3, Ei. change (muxTypeData =? muxTypePing) with false. change (muxTypeData =? muxTypeData) with true.
      cbv iota zeta. eexists. cbn [map run exec fst snd]. unfold read. rewrite Hr.
      change (muxTypeData =? muxTypePong) with false. change (muxTypeData =? muxTypePing) with false.
      change (muxTypeData =? muxTypeData) with true. cbv iota. rewrite Ei'.
      cbn [set_reader m_reader]. change (conn_open (set_reader m _)) with (conn_open m). rewrite Ho. split; [reflexivity|].
      split; [apply shape_put; by apply shape_reader, shape_reader|]. split; [done|]. unfold written_heads. simpl. by rewrite map_app. }
  destruct (Z.eqb_spec (x_typ f) muxTypeClose) as [E4|E4]; [|done].
  destruct (streams c !! x_key f) as [i|] eqn:Ei.
  - destruct (parseMuxClose (x_payload f)) as [code reason]. intros [= <-]. by eapply close_sim.
  - intros [= <-]. assert (Ei' : m_streams m !! x_key f = None) by (by rewrite <- (sh_streams c m Hs)).
    unfold handles. rewrite E4, Ei. change (muxTypeClose =? muxTypePing) with false. change (muxTypeClose =? muxTypeData) with false.
    change (muxTypeClose =? muxTypeClose) with true. cbv iota zeta. exists m. cbn [map run exec fst snd]. unfold read. rewrite Hr. cbn. rewrite Ei'. by rewrite app_nil_r.
Qed.

(** The bytes one frame has written. *)
Lemma read_frame_wire c f c' :
  conn_wf c → dead c = false → read_frame c (x_typ f) (x_key f).1 (x_key f).2 (x_payload f) = Some c' →
  wire c' = wire c ++ concat (map mux_frame_bytes (handles c f).2).
Proof.
  intros Hwf Hd. unfold read_frame, handles, enqueue, writeFrame. rewrite lookup_key, Hd.
  destruct (Z.eqb_spec (x_typ f) muxTypePong) as [E1|E1]; [intros [= <-]; rewrite E1; cbn; by rewrite app_nil_r|].
  destruct (Z.eqb_spec (x_typ f) muxTypePing) as [E2|E2]; [intros [= <-]; cbn; by rewrite app_nil_r|].
  destruct (Z.eqb_spec (x_typ f) muxTypeData) as [E3|E3].
  { destruct (streams c !! x_key f) as [i|] eqn:Ei; [|intros [= <-]; cbn; by rewrite app_nil_r].
    destruct (Hwf _ _ Ei) as (st & Hc & _). rewrite Hc, <- has_room_spec.
    destruct (has_room st (x_payload f)); intros [= <-]; [cbn; by rewrite app_nil_r|].
    match goal with |- wire (finish_at ?d _ ?k ?r) = _ => destruct (finish_at_same d i k r) as (_ & _ & ->) end.
    unfold unregister. cbn [heap]. rewrite Hc. case_decide; cbn; by rewrite app_nil_r. }
  destruct (Z.eqb_spec (x_typ f) muxTypeClose) as [E4|E4]; [|done].
  destruct (streams c !! x_key f) as [i|] eqn:Ei; [|intros [= <-]; by rewrite app_nil_r].
  destruct (parseMuxClose (x_payload f)) as [code reason]. intros [= <-].
  match goal with |- wire (finish_at ?d _ ?k ?r) = _ => destruct (finish_at_same d i k r) as (_ & _ & ->) end.
  destruct (Hwf _ _ Ei) as (st & Hc & _). unfold unregister. rewrite Hc. case_decide; cbn; by rewrite app_nil_r.
Qed.

(** * The end of the connection *)

Lemma finishing_sim l c m code reason :
  closed_for (code, reason) ByKill → shape c m → m_kill m = KFinishing l →
  ∃ m', run m (replicate (S (length l)) EKill) = Some m' ∧ m_wire m' = m_wire m ∧
    shape (fold_left (fun c i => finish_at c i code reason) l c) m' ∧ m_kill m' = KDone.
Proof.
  intros Hf. revert c m. induction l as [|i l IH]; intros c m Hs Hk.
  - exists (set_kill m KDone). simpl. unfold kill_step. rewrite Hk. split_and!; [done..| |done].
    destruct Hs as [S1 S2 S3]. split; simpl; [done..|]. rewrite S3. unfold is_dead. by rewrite Hk.
  - change (replicate (S (length (i :: l))) EKill) with (EKill :: replicate (S (length l)) EKill).
    cbn [run exec fold_left]. unfold kill_step. rewrite Hk.
    destruct (IH (finish_at c i code reason) (set_kill (finish_sock m i ByKill) (KFinishing l))) as (m' & Hr & Hw & Hsh & Hd).
    + pose proof (shape_finish c m i code reason ByKill Hf Hs) as [S1 S2 S3]. split; simpl; [done..|].
      rewrite S3. unfold is_dead. by rewrite kill_finish, Hk.
    + done.
    + exists m'. split_and!; try done. rewrite Hw. apply wire_finish.
Qed.

Lemma kill_sim c m :
  shape c m → m_kill m = KNone →
  ∃ n m', run m (replicate n EKill) = Some m' ∧ m_wire m' = m_wire m ∧ shape (kill c) m' ∧ m_kill m' = KDone.
Proof.
  intros Hs Hk. assert (Hd : dead c = false) by (rewrite (sh_dead c m Hs); unfold is_dead; by rewrite Hk).
  set (l := map snd (range_map (m_streams m))). set (m1 := set_kill (set_map m ∅) (KFinishing l)).
  destruct (finishing_sim l {| streams := ∅; heap := heap c; dead := true; wire := wire c |} m1
    StatusGoingAway "enclave mux connection lost") as (m' & Hr & Hw & Hsh & Hdone); [done| |done|].
  { destruct Hs as [S1 S2 S3]. by split. }
  exists (3 + S (length l))%nat, m'. split.
  - change (replicate (3 + S (length l)) EKill) with ([EKill; EKill; EKill] ++ replicate (S (length l)) EKill).
    cbn [app run exec]. unfold kill_step at 1. rewrite Hk. exact Hr.
  - unfold kill. rewrite Hd, (sh_streams c m Hs). done.
Qed.

Lemma kill_wire c : wire (kill c) = wire c.
Proof.
  unfold kill. destruct (dead c); [done|]. cbv zeta.
  by destruct (kill_fold (map snd (range_map (streams c))) {| streams := ∅; heap := heap c; dead := true; wire := wire c |}
    StatusGoingAway "enclave mux connection lost") as (_ & _ & -> & _).
Qed.

(** The loop exits and kills. *)
Lemma exit_sim c m a :
  shape c m → listening m → read m a = Some (set_reader m RExit) →
  ∃ n m', run m (map ERead [a] ++ replicate n EKill) = Some m' ∧ shape (kill c) m' ∧ m_kill m' = KDone ∧
    written_heads m' = written_heads m.
Proof.
  intros Hs [_ Hk] Ha. destruct (kill_sim c (set_reader m RExit)) as (n & m' & Hr & Hw & Hsh & Hd); [by apply shape_reader|done|].
  exists n, m'. cbn [map app run exec]. rewrite Ha. split_and!; [done..|]. unfold written_heads. by rewrite Hw.
Qed.

(** A frame of another kind ends the loop. *)
Lemma read_frame_stop c m f :
  conn_wf c → listening m → read_frame c (x_typ f) (x_key f).1 (x_key f).2 (x_payload f) = None →
  handles c f = ([RFrame (x_typ f) (x_key f) true], []) ∧
  read m (RFrame (x_typ f) (x_key f) true) = Some (set_reader m RExit).
Proof.
  intros Hwf [Hr _]. unfold read_frame, handles, read. rewrite lookup_key, Hr.
  destruct (x_typ f =? muxTypePong); [done|]. destruct (x_typ f =? muxTypePing); [done|].
  destruct (x_typ f =? muxTypeData).
  { destruct (streams c !! x_key f) as [i|] eqn:Ei; [|done]. by destruct (Hwf _ _ Ei) as (st & -> & _). }
  destruct (x_typ f =? muxTypeClose); [|done]. destruct (streams c !! x_key f); [by destruct (parseMuxClose _)|done].
Qed.

(** C26: The demultiplexer refines the read loop of the shared connection.  Whatever bytes the
    enclave sends, readLoop returns, and it is an execution of the steps that MuxSystem
    interleaves with the handlers: the steps of the read loop on the frames of that input, one
    after the other up to the first of another kind or to its end, and then those of kill.  It
    ends with the same streams registered, the same finished, for the reason the browser is
    told, and the kill through.  The bytes it wrote are, exactly and in order, the
    answers to those frames: the payload of each ping in a pong, a close for data of a
    stream nobody has, a close for a stream whose browser fell behind. *)
Theorem readLoop_refines fuel c m input :
  shape c m → conn_wf c → listening m → (length input < fuel)%nat →
  ∃ fs c', sends input fs ∧ readLoop fuel c input = Ret c' ∧
    wire c' = wire c ++ concat (map mux_frame_bytes (reading c fs).2) ∧
    ∃ n m', run m (map ERead (reading c fs).1 ++ replicate n EKill) = Some m' ∧
      shape c' m' ∧ m_kill m' = KDone ∧ written_heads m' = written_heads m ++ heads (reading c fs).2.
Proof.
  revert c m input. induction fuel as [|fuel IH]; intros c m input Hs Hwf Hl Hf; [lia|]. cbn [readLoop].
  destruct (readMuxFrame input) as [[[[[typ sid] stream] payload] rest]|e] eqn:Er.
  2:{ exists [], (kill c). split; [by econstructor|]. split; [done|]. split; [by rewrite kill_wire, app_nil_r|].
      destruct (exit_sim c m RFails Hs Hl) as (n & m' & Hr & Hsh & Hd & Hw).
      { unfold read. by destruct Hl as [-> _]. }
      exists n, m'. cbn [reading fst snd]. split_and!; try done. by rewrite Hw, app_nil_r. }
  set (f := {| x_typ := typ; x_key := (sid, stream); x_payload := payload |}).
  destruct (read_frame c typ sid stream payload) as [c1|] eqn:Ef.
  - destruct (read_frame_sim c m f c1 Hs Hwf Hl Ef) as (m1 & R1 & S1 & L1 & W1).
    assert (Hd : dead c = false) by (rewrite (sh_dead c m Hs); unfold is_dead; by rewrite (proj2 Hl)).
    pose proof (read_frame_wire c f c1 Hwf Hd Ef) as Hw1. pose proof (readMuxFrame_progress _ _ _ _ _ _ Er).
    destruct (IH c1 m1 rest S1) as (fs & c' & Hfs & Hc' & Hw & n & m' & Hr & Hsh & Hdone & Hh); [by eapply read_frame_wf|done|lia|].
    exists (f :: fs), c'. split; [by econstructor|]. split; [done|]. cbn [reading]. cbn [f x_typ x_key x_payload fst snd].
    fold f. rewrite Ef. cbn [fst snd]. split.
    + by rewrite Hw, Hw1, map_app, concat_app, app_assoc.
    + exists n, m'. rewrite map_app, <- app_assoc, run_app, R1. split_and!; [done..|].
      unfold heads in *. by rewrite Hh, W1, map_app, app_assoc.
  - destruct (readMuxFrame_frames rest) as [fs Hfs].
    destruct (read_frame_stop c m f Hwf Hl Ef) as [Hh Hr].
    destruct (exit_sim c m _ Hs Hl Hr) as (n & m' & Hrun & Hsh & Hd & Hw).
    exists (f :: fs), (kill c). split; [by econstructor|]. split; [done|]. cbn [reading].
    cbn [f x_typ x_key x_payload fst snd]. fold f. rewrite Ef, Hh. cbn [fst snd].
    split; [by rewrite kill_wire, app_nil_r|]. exists n, m'. split_and!; try done. by rewrite Hw, app_nil_r.
Qed.

End loop.

(** * Concrete input *)

Section witnesses.
#[local] Existing Instances map_range map_range_laws.

(** The two sockets of [ex_conn], opened. *)
Definition ex_socket (k : muxKey) : sock :=
  {| s_key := k; s_pc := HPump; s_done := None; s_cut := CutNone; s_opened := true; s_early := false |}.
Definition ex_shared : mux := {|
  m_streams := <[("b"%string, 8) := 2%nat]> {[("a"%string, 7) := 1%nat]};
  m_socks := <[2%nat := ex_socket ("b"%string, 8)]> {[1%nat := ex_socket ("a"%string, 7)]};
  m_reader := RIdle; m_kill := KNone; m_wire := []; m_broken := false |}.

Lemma ex_shape : shape ex_conn ex_shared.
Proof.
  assert (Hh : heap ex_conn = <[2%nat := ex_stream "b" 8]> {[1%nat := ex_stream "a" 7]}) by (vm_compute; reflexivity).
  split; [vm_compute; reflexivity| |reflexivity]. intros i. rewrite Hh. cbn [ex_shared m_socks].
  destruct (decide (i = 2%nat)) as [->|H2]; [rewrite !lookup_insert_eq; by repeat constructor|]. rewrite !lookup_insert_ne by done.
  destruct (decide (i = 1%nat)) as [->|H1]; [rewrite !lookup_singleton_eq; by repeat constructor|].
  rewrite !lookup_singleton_ne by done. constructor.
Qed.

(** The enclave closes one stream, pings, sends data for an unknown one, and breaks the protocol. *)
Definition ex_frames : list mux_frame :=
  [{| x_typ := muxTypeClose; x_key := ("a"%string, 7); x_payload := encodeMuxClose 1000 "bye" |};
   {| x_typ := muxTypePing; x_key := (""%string, 0); x_payload := [x2a] |};
   {| x_typ := muxTypeData; x_key := ("z"%string, 1); x_payload := [x01] |};
   {| x_typ := 9; x_key := (""%string, 0); x_payload := [] |}].
Definition ex_bytes : bytes := concat (map mux_frame_bytes ex_frames).

Example ex_answers : (reading ex_conn ex_frames).2 =
  [{| x_typ := muxTypePong; x_key := (""%string, 0); x_payload := [x2a] |};
   {| x_typ := muxTypeClose; x_key := ("z"%string, 1); x_payload := encodeMuxClose StatusProtocolError "unknown stream" |}].
Proof. vm_compute. reflexivity. Qed.

Lemma readLoop_refines_witness :
  ∃ fs c', sends ex_bytes fs ∧ readLoop (S (length ex_bytes)) ex_conn ex_bytes = Ret c' ∧ wire c' ≠ [] ∧
    ∃ n m', run ex_shared (map ERead (reading ex_conn fs).1 ++ replicate n EKill) = Some m' ∧ shape c' m'.
Proof.
  destruct (readLoop_refines (S (length ex_bytes)) ex_conn ex_shared ex_bytes)
    as (fs & c' & Hfs & E & _ & n & m' & Hr & Hs & _).
  - exact ex_shape.
  - exact ex_conn_wf.
  - split; reflexivity.
  - lia.
  - exists fs, c'. split; [exact Hfs|]. split; [exact E|]. split; [|exists n, m'; split; assumption].
    vm_compute in E. injection E as <-. discriminate.
Defined.

End witnesses.
